(** * Multi-module version manager: a shallow embedding of
    [src/version-manager.js] and its properties.

    JavaScript strings are sequences of UTF-16 code units, numbers are IEEE
    binary64 values, objects live in a store and are shared by reference.  The
    embedding keeps all three: strings are lists of code units, numbers are
    exact binary64 values, and the module nodes sit in a heap indexed by
    allocation order. *)

From Stdlib Require Import ZArith NArith String Ascii List Lia Bool.
From stdpp Require Import base decidable option numbers list relations.

Import ListNotations.

(** ** JavaScript strings *)

(** A string is the list of its UTF-16 code units. *)
Definition jsstring := list N.

(** [str] embeds an ASCII literal of the source. *)
Definition str (s : string) : jsstring :=
  map N_of_ascii (list_ascii_of_string s).

(** [String.prototype.startsWith]. *)
Fixpoint startsWith (s p : jsstring) {struct p} : bool :=
  match p with
  | [] => true
  | c :: p' =>
      match s with
      | [] => false
      | d :: s' => N.eqb c d && startsWith s' p'
      end
  end.

(** [String.prototype.includes]. *)
Fixpoint includes (s sub : jsstring) : bool :=
  startsWith s sub ||
  match s with
  | [] => false
  | _ :: r => includes r sub
  end.

(** ** Commit classification *)

(** The four values the [changeType] field takes. *)
Inductive ChangeType := none | patch | minor | major.

#[global] Instance ChangeType_eq_dec : EqDecision ChangeType.
Proof. solve_decision. Defined.

(** The test of the first branch of the loop of [determineChangeType]. *)
Definition isBreaking (commit : jsstring) : bool :=
  startsWith commit (str "feat!:") || includes commit (str "BREAKING CHANGE").

(** The [for] loop of [determineChangeType], started with the running
    [changeType]; the first branch returns from the function. *)
Fixpoint determineChangeType_from (changeType : ChangeType)
    (commits : list jsstring) : ChangeType :=
  match commits with
  | [] => changeType
  | commit :: rest =>
      if isBreaking commit then major
      else if startsWith commit (str "feat:") && negb (bool_decide (changeType = major))
      then determineChangeType_from minor rest
      else if startsWith commit (str "fix:") && bool_decide (changeType = none)
      then determineChangeType_from patch rest
      else determineChangeType_from changeType rest
  end.

Definition determineChangeType (commits : list jsstring) : ChangeType :=
  determineChangeType_from none commits.


(** ** JavaScript numbers *)

#[local] Open Scope Z_scope.

(** A Number is an IEEE binary64 value.  Every finite binary64 value is an
    integer multiple of [2^-1074]; [Fin k] stands for [k * 2^-1074].  The two
    zeros are one value [Fin 0]: the program only adds [1] to a number and
    prints it, and [-0 + 1 = 1] and [String(-0) = "0"]. *)
Inductive jsnum := NaN | Inf (neg : bool) | Fin (k : Z).

#[global] Instance jsnum_eq_dec : EqDecision jsnum.
Proof. solve_decision. Defined.

(** The integer [n] as a multiple of [2^-1074]. *)
Definition units (n : Z) : Z := n * 2 ^ 1074.

(** [roundPos a b] is the binary64 value nearest to [a / b] (in units of
    [2^-1074], for [0 <= a] and [0 < b]), ties to the even significand, with
    an unbounded exponent: a value of [bits] bits keeps its 53 leading bits. *)
Definition roundPos (a b : Z) : Z :=
  let e := Z.max 0 (Z.log2 (a / b) - 52) in
  let d := b * 2 ^ e in
  let q := a / d in
  let r := a mod d in
  let q' := if 2 * r <? d then q
            else if d <? 2 * r then q + 1
            else if Z.even q then q else q + 1 in
  q' * 2 ^ e.

(** Rounding of the rational [a / b * 2^-1074] to a Number; a result of
    [2^1024] or more is an infinity. *)
Definition roundRatio (a b : Z) : jsnum :=
  let m := roundPos (Z.abs a) b in
  if 2 ^ 2098 <=? m then Inf (a <? 0)
  else Fin (if a <? 0 then - m else m).

(** The Number of an integer. *)
Definition ofZ (n : Z) : jsnum := roundRatio (units n) 1.

(** The Number of [m * 10^e]. *)
Definition ofDecimal (m e : Z) : jsnum :=
  if 0 <=? e then roundRatio (units (m * 10 ^ e)) 1
  else roundRatio (units m) (10 ^ (- e)).

(** Numeric [+]. *)
Definition jsadd (x y : jsnum) : jsnum :=
  match x, y with
  | NaN, _ | _, NaN => NaN
  | Inf s, Inf t => if Bool.eqb s t then Inf s else NaN
  | Inf s, Fin _ | Fin _, Inf s => Inf s
  | Fin a, Fin b => roundRatio (a + b) 1
  end.

Definition jsneg (x : jsnum) : jsnum :=
  match x with
  | NaN => NaN
  | Inf s => Inf (negb s)
  | Fin k => Fin (- k)
  end.

(** *** Decimal digits *)

Definition isDigit (c : N) : bool := (48 <=? c)%N && (c <=? 57)%N.

Definition digitChar (d : Z) : N := Z.to_N (48 + d).

Fixpoint decDigits (fuel : nat) (n : Z) (acc : jsstring) : jsstring :=
  match fuel with
  | O => acc
  | S f =>
      let acc' := digitChar (n mod 10) :: acc in
      if n / 10 =? 0 then acc' else decDigits f (n / 10) acc'
  end.

(** The decimal digits of a non-negative integer, without leading zeros. *)
Definition dec (n : Z) : jsstring :=
  decDigits (S (Z.to_nat (Z.log2 n))) n [].

(** The value of a string of digits in base [base]. *)
Definition digitVal (c : N) : Z :=
  if isDigit c then Z.of_N c - 48
  else if (97 <=? c)%N && (c <=? 102)%N then Z.of_N c - 87
  else if (65 <=? c)%N && (c <=? 70)%N then Z.of_N c - 55
  else 99.

Definition digitsValue (base : Z) (s : jsstring) : Z :=
  fold_left (fun acc c => base * acc + digitVal c) s 0.

(** *** White space *)

(** [WhiteSpace] and [LineTerminator] of ECMAScript: what [\s] matches in a
    regular expression and what [Number] trims. *)
Definition isWhiteSpace (c : N) : bool :=
  ((9 <=? c) && (c <=? 13) || (c =? 32) || (c =? 160) || (c =? 5760)
   || (8192 <=? c) && (c <=? 8202) || (c =? 8232) || (c =? 8233)
   || (c =? 8239) || (c =? 8287) || (c =? 12288) || (c =? 65279))%N.

Fixpoint skipWhiteSpace (s : jsstring) : jsstring :=
  match s with
  | c :: r => if isWhiteSpace c then skipWhiteSpace r else s
  | [] => []
  end.

Definition trim (s : jsstring) : jsstring :=
  rev (skipWhiteSpace (rev (skipWhiteSpace s))).

(** *** [Number(string)] *)

(** The longest prefix of [s] whose code units satisfy [p], and the rest. *)
Fixpoint span (p : N -> bool) (s : jsstring) : jsstring * jsstring :=
  match s with
  | c :: r => if p c then let '(a, b) := span p r in (c :: a, b) else ([], s)
  | [] => ([], [])
  end.

Definition isHexDigit (c : N) : bool := digitVal c <? 16.
Definition isOctDigit (c : N) : bool := digitVal c <? 8.
Definition isBinDigit (c : N) : bool := digitVal c <? 2.

(** [0x], [0o] and [0b] literals. *)
Definition parseNonDecimal (s : jsstring) : option Z :=
  match s with
  | 48%N :: p :: ds =>
      let lit (ok : N -> bool) (base : Z) :=
        if forallb ok ds && negb (bool_decide (ds = [])) then Some (digitsValue base ds) else None in
      if (p =? 120)%N || (p =? 88)%N then lit isHexDigit 16
      else if (p =? 111)%N || (p =? 79)%N then lit isOctDigit 8
      else if (p =? 98)%N || (p =? 66)%N then lit isBinDigit 2
      else None
  | _ => None
  end.

(** The exponent part, which must reach the end of the string: [None] when
    what follows the digits is no exponent part. *)
Definition parseExponent (s : jsstring) : option Z :=
  match s with
  | [] => Some 0
  | c :: r =>
      if (c =? 101)%N || (c =? 69)%N then
        let '(neg, ds) :=
          match r with
          | 43%N :: ds => (false, ds)
          | 45%N :: ds => (true, ds)
          | _ => (false, r)
          end in
        if forallb isDigit ds && negb (bool_decide (ds = []))
        then Some (if neg : bool then - digitsValue 10 ds else digitsValue 10 ds)
        else None
      else None
  end.

(** [StrUnsignedDecimalLiteral]. *)
Definition parseUnsignedDecimal (s : jsstring) : jsnum :=
  if bool_decide (s = str "Infinity") then Inf false
  else
    let '(ip, r1) := span isDigit s in
    let '(fp, r2) :=
      match r1 with
      | 46%N :: r' => span isDigit r'
      | _ => ([], r1)
      end in
    if bool_decide (ip = []) && bool_decide (fp = []) then NaN
    else
      match parseExponent r2 with
      | Some e => ofDecimal (digitsValue 10 (ip ++ fp)) (e - Z.of_nat (length fp))
      | None => NaN
      end.

(** [Number(s)] for a string [s] (StringToNumber). *)
Definition StringToNumber (s : jsstring) : jsnum :=
  let t := trim s in
  match t with
  | [] => Fin 0
  | c :: r =>
      match parseNonDecimal t with
      | Some n => ofZ n
      | None =>
          if (c =? 43)%N then parseUnsignedDecimal r
          else if (c =? 45)%N then jsneg (parseUnsignedDecimal r)
          else parseUnsignedDecimal t
      end
  end.

(** *** [String(number)] *)

(** [10^j <= k * 2^-1074]. *)
Definition pow10_le (j k : Z) : bool :=
  if 0 <=? j then units (10 ^ j) <=? k else units 1 <=? k * 10 ^ (- j).

(** The [n] with [10^(n-1) <= x < 10^n], searched downwards from [j + 1]. *)
Fixpoint magnitude (fuel : nat) (j k : Z) : Z :=
  match fuel with
  | O => j + 1
  | S f => if pow10_le j k then j + 1 else magnitude f (j - 1) k
  end.

(** [floor (x / 10^p)] for [x = k * 2^-1074]. *)
Definition scaledFloor (k p : Z) : Z :=
  if 0 <=? p then k / units (10 ^ p) else (k * 10 ^ (- p)) / units 1.

(** Whether [x] is nearer to [s * 10^p] than to [(s + 1) * 10^p]; in a tie
    the even one of [s] and [s + 1] is taken. *)
Definition lowerIsCloser (k s p : Z) : bool :=
  let '(l, r) :=
    if 0 <=? p then (2 * k, units ((2 * s + 1) * 10 ^ p))
    else (2 * k * 10 ^ (- p), units (2 * s + 1)) in
  if l <? r then true else if r <? l then false else Z.even s.

(** The shortest digits: the least number [d] of digits for which some
    [s * 10^(n - d)] is read back as [x], and the [s] nearest to [x]. *)
Fixpoint shortest (fuel : nat) (d n k : Z) : Z * Z :=
  let p := n - d in
  let lo := scaledFloor k p in
  let okLo := bool_decide (ofDecimal lo p = Fin k) in
  let okHi := bool_decide (ofDecimal (lo + 1) p = Fin k) in
  match fuel with
  | O => (lo, p)
  | S f =>
      if okLo && okHi then (if lowerIsCloser k lo p then lo else lo + 1, p)
      else if okLo then (lo, p)
      else if okHi then (lo + 1, p)
      else shortest f (d + 1) n k
  end.

Fixpoint stripZeros (fuel : nat) (s p : Z) : Z * Z :=
  match fuel with
  | O => (s, p)
  | S f => if (s mod 10 =? 0) && negb (s =? 0) then stripZeros f (s / 10) (p + 1) else (s, p)
  end.

Definition zeros (n : Z) : jsstring := repeat 48%N (Z.to_nat n).

(** The text of a positive finite number from its digits [s] ([k] of them)
    and the position [n] of its decimal point. *)
Definition formatDigits (digits : jsstring) (n : Z) : jsstring :=
  let k := Z.of_nat (length digits) in
  if (k <=? n) && (n <=? 21) then digits ++ zeros (n - k)
  else if (0 <? n) && (n <=? 21) then
    take (Z.to_nat n) digits ++ str "." ++ drop (Z.to_nat n) digits
  else if (-6 <? n) && (n <=? 0) then str "0." ++ zeros (- n) ++ digits
  else
    let e := n - 1 in
    let expo := (if e <? 0 then str "-" else str "+") ++ dec (Z.abs e) in
    if k =? 1 then digits ++ str "e" ++ expo
    else take 1 digits ++ str "." ++ drop 1 digits ++ str "e" ++ expo.

(** The text of a positive finite number [k * 2^-1074].  An integer up to
    [2^53] is written with all its digits; this is what the shortest digits
    followed by the zeros of [formatDigits] give for it. *)
Definition positiveToString (k : Z) : jsstring :=
  if (k mod units 1 =? 0) && (k / units 1 <=? 2 ^ 53) then dec (k / units 1)
  else
    let n := magnitude 640 308 k in
    let '(s, p) := shortest 17 1 n k in
    let '(s, p) := stripZeros 400 s p in
    let digits := dec s in
    formatDigits digits (p + Z.of_nat (length digits)).

(** [String(x)] for a number [x] (Number::toString, radix 10). *)
Definition NumberToString (x : jsnum) : jsstring :=
  match x with
  | NaN => str "NaN"
  | Inf false => str "Infinity"
  | Inf true => str "-Infinity"
  | Fin k =>
      if k =? 0 then str "0"
      else if k <? 0 then str "-" ++ positiveToString (- k)
      else positiveToString k
  end.

(** *** Values read out of an array *)

(** An element of the array of components: [None] is [undefined], what the
    destructuring gives past the end of the array. *)
Definition ToNumber (v : option jsnum) : jsnum :=
  match v with
  | Some x => x
  | None => NaN
  end.

(** A value inside a template literal. *)
Definition ToString (v : option jsnum) : jsstring :=
  match v with
  | Some x => NumberToString x
  | None => str "undefined"
  end.

(** [v + 1]. *)
Definition plusOne (v : option jsnum) : option jsnum :=
  Some (jsadd (ToNumber v) (Fin (units 1))).

(** ** Version strings *)

(** [s.split(sep)] for a separator of one code unit. *)
Fixpoint splitOn (sep : N) (s : jsstring) : list jsstring :=
  match s with
  | [] => [[]]
  | c :: r =>
      if (c =? sep)%N then [] :: splitOn sep r
      else
        match splitOn sep r with
        | h :: t => (c :: h) :: t
        | [] => [[c]]
        end
  end.

(** What a call gives: a value, or an [Error] thrown with its message.
    [Stuck] is not an outcome of the program: the recursive functions below
    carry a bound on their depth, and give [Stuck] when it is used up or when
    a reference points outside the heap. *)
Inductive Result (A : Type) :=
  | Ok (a : A)
  | Throw (message : jsstring)
  | Stuck.
Arguments Ok {A} a.
Arguments Throw {A} message.
Arguments Stuck {A}.

#[global] Instance Result_ret : MRet Result := fun A a => Ok a.
#[global] Instance Result_bind : MBind Result := fun A B f r =>
  match r with
  | Ok a => f a
  | Throw m => Throw m
  | Stuck => Stuck
  end.

(** [incrementVersion(currentVersion, type)]. *)
Definition incrementVersion (currentVersion type : jsstring) : Result jsstring :=
  let parts := map StringToNumber (splitOn 46 currentVersion) in
  let major := parts !! 0%nat in
  let minor := parts !! 1%nat in
  let patch := parts !! 2%nat in
  if bool_decide (type = str "major") then
    Ok (ToString (plusOne major) ++ str ".0.0")
  else if bool_decide (type = str "minor") then
    Ok (ToString major ++ str "." ++ ToString (plusOne minor) ++ str ".0")
  else if bool_decide (type = str "patch") then
    Ok (ToString major ++ str "." ++ ToString minor ++ str "." ++ ToString (plusOne patch))
  else Throw (str "Unknown version increment type: " ++ type).

#[local] Close Scope Z_scope.

(** ** The regular expressions of the source *)

(** The patterns of the source are sequences of literals, [\s*], a quote
    class [Q] (the single or the double quote) and [[^Q]+] (one or more code
    units that are no quote).  In each of them the code unit that must follow
    a starred or plussed class lies outside the class, so the longest run is
    the only one that can match: the matchers below take it and do not
    backtrack. *)

Definition isQuote (c : N) : bool := (c =? 39)%N || (c =? 34)%N.

Definition notQuote (c : N) : bool := negb (isQuote c).

(** A literal at the head of [s]: the rest of [s] after it. *)
Definition matchLit (lit s : jsstring) : option jsstring :=
  if startsWith s lit then Some (drop (length lit) s) else None.

(** [Q] at the head of [s]. *)
Definition matchQuote (s : jsstring) : option jsstring :=
  match s with
  | c :: r => if isQuote c then Some r else None
  | [] => None
  end.

(** [([^Q]+)Q] at the head of [s]: the capture and the rest. *)
Definition matchQuoted (s : jsstring) : option (jsstring * jsstring) :=
  let '(body, r) := span notQuote s in
  if bool_decide (body = []) then None
  else r' ← matchQuote r; Some (body, r').

(** [/version\s*=\s*Q([^Q]+)Q/] at the head of [s]. *)
Definition versionAt (s : jsstring) : option (jsstring * jsstring) :=
  r ← matchLit (str "version") s;
  r ← matchLit (str "=") (skipWhiteSpace r);
  r ← matchQuote (skipWhiteSpace r);
  matchQuoted r.

(** [/include\(\s*Q([^Q]+)Q\s*\)/] at the head of [s]. *)
Definition includeAt (s : jsstring) : option (jsstring * jsstring) :=
  r ← matchLit (str "include(") s;
  r ← matchQuote (skipWhiteSpace r);
  '(moduleName, r) ← matchQuoted r;
  r ← matchLit (str ")") (skipWhiteSpace r);
  Some (moduleName, r).

(** [/implementation\(\s*project\(Q:([^Q]+)Q\)\s*\)/] at the head of [s];
    the colon stays outside the capture. *)
Definition dependencyAt (s : jsstring) : option (jsstring * jsstring) :=
  r ← matchLit (str "implementation(") s;
  r ← matchLit (str "project(") (skipWhiteSpace r);
  r ← matchQuote r;
  r ← matchLit (str ":") r;
  '(dep, r) ← matchQuoted r;
  r ← matchLit (str ")") r;
  r ← matchLit (str ")") (skipWhiteSpace r);
  Some (dep, r).

(** The leftmost match of a pattern in [s]: what stands before it, its
    capture and what stands after it. *)
Fixpoint search (at_ : jsstring -> option (jsstring * jsstring)) (s : jsstring)
    : option (jsstring * jsstring * jsstring) :=
  match at_ s with
  | Some (capture, rest) => Some ([], capture, rest)
  | None =>
      match s with
      | [] => None
      | c :: r =>
          '(before, capture, rest) ← search at_ r;
          Some (c :: before, capture, rest)
      end
  end.

(** The captures of all the matches of a global pattern, from left to
    right.  After a match the scan goes on behind it: [skip] counts the code
    units of the last match that are still to be passed over. *)
Fixpoint matchAll (at_ : jsstring -> option (jsstring * jsstring)) (skip : nat)
    (s : jsstring) : list jsstring :=
  match s with
  | [] => []
  | _ :: r =>
      match skip with
      | S k => matchAll at_ k r
      | O =>
          match at_ s with
          | Some (capture, rest) =>
              capture :: matchAll at_ (length s - length rest - 1) r
          | None => matchAll at_ 0 r
          end
      end
  end.

(** [extractVersion(buildContent)]. *)
Definition extractVersion (buildContent : jsstring) : jsstring :=
  match search versionAt buildContent with
  | Some (_, version, _) => version
  | None => str "0.1.0"
  end.

(** A [Set] keeps its elements in the order they were first added. *)
Definition setAdd `{EqDecision A} (x : A) (s : list A) : list A :=
  if bool_decide (x ∈ s) then s else s ++ [x].

(** [extractDependencies(buildContent)]. *)
Definition extractDependencies (buildContent : jsstring) : list jsstring :=
  fold_left (fun deps dep => setAdd dep deps) (matchAll dependencyAt 0 buildContent) [].

(** [s.replace(from, to)] for strings of one code unit: the first
    occurrence only. *)
Fixpoint replaceFirst (from to : N) (s : jsstring) : jsstring :=
  match s with
  | [] => []
  | c :: r => if (c =? from)%N then to :: r else c :: replaceFirst from to r
  end.

(** The replacement text of [String.prototype.replace] for a pattern
    without capture groups: a dollar followed by a dollar, an ampersand, a
    backtick or a single quote is expanded (to a dollar, the match, the text
    before it, the text after it); any other dollar stays. *)
Fixpoint getSubstitution (before matched after template : jsstring) : jsstring :=
  match template with
  | 36%N :: r =>
      match r with
      | 36%N :: r' => 36%N :: getSubstitution before matched after r'
      | 38%N :: r' => matched ++ getSubstitution before matched after r'
      | 96%N :: r' => before ++ getSubstitution before matched after r'
      | 39%N :: r' => after ++ getSubstitution before matched after r'
      | _ => 36%N :: getSubstitution before matched after r
      end
  | c :: r => c :: getSubstitution before matched after r
  | [] => []
  end.

(** [content.replace(/version\s*=\s*Q[^Q]+Q/, template)]. *)
Definition replaceVersion (content template : jsstring) : jsstring :=
  match search versionAt content with
  | Some (before, _, after) =>
      let matched := take (length content - length before - length after)
                          (drop (length before) content) in
      before ++ getSubstitution before matched after template ++ after
  | None => content
  end.

(** ** Module nodes and the manager *)

(** A [ModuleNode] object.  The two [Set]s hold references to other nodes:
    a reference is the index of the node in the heap, and a [Set] is the list
    of its elements in insertion order. *)
Record ModuleNode := {
  name : jsstring;
  currentVersion : jsstring;
  newVersion : option jsstring;
  changeType : ChangeType;
  dependencies : list nat;
  dependents : list nat;
  path : jsstring;
}.

(** The fields of a [MultiModuleVersionManager], with the heap of the nodes
    created so far.  [moduleGraph] is a [Map] from names to nodes, kept in
    insertion order. *)
Record Manager := {
  rootDir : jsstring;
  dryRun : bool;
  heap : list ModuleNode;
  moduleGraph : list (jsstring * nat);
  visitedModules : list jsstring;
  moduleOrder : list nat;
}.

Definition constructor (rootDir : jsstring) (dryRun : bool) : Manager :=
  {| rootDir := rootDir; dryRun := dryRun; heap := []; moduleGraph := [];
     visitedModules := []; moduleOrder := [] |}.

Definition withHeap (h : list ModuleNode) (m : Manager) : Manager :=
  {| rootDir := rootDir m; dryRun := dryRun m; heap := h;
     moduleGraph := moduleGraph m; visitedModules := visitedModules m;
     moduleOrder := moduleOrder m |}.

(** *** [Map] operations *)

Fixpoint mapGet (key : jsstring) (m : list (jsstring * nat)) : option nat :=
  match m with
  | [] => None
  | (k, v) :: r => if bool_decide (k = key) then Some v else mapGet key r
  end.

Definition mapHas (key : jsstring) (m : list (jsstring * nat)) : bool :=
  bool_decide (is_Some (mapGet key m)).

(** [m.set(key, value)]: the value of a key that is present is replaced
    where it stands, a new key goes to the end. *)
Fixpoint mapSet (key : jsstring) (value : nat) (m : list (jsstring * nat))
    : list (jsstring * nat) :=
  match m with
  | [] => [(key, value)]
  | (k, v) :: r =>
      if bool_decide (k = key) then (k, value) :: r else (k, v) :: mapSet key value r
  end.

Definition mapValues (m : list (jsstring * nat)) : list nat := map snd m.

(** *** Field updates *)

Definition addDependency (target : nat) (n : ModuleNode) : ModuleNode :=
  {| name := name n; currentVersion := currentVersion n; newVersion := newVersion n;
     changeType := changeType n; dependencies := setAdd target (dependencies n);
     dependents := dependents n; path := path n |}.

Definition addDependent (source : nat) (n : ModuleNode) : ModuleNode :=
  {| name := name n; currentVersion := currentVersion n; newVersion := newVersion n;
     changeType := changeType n; dependencies := dependencies n;
     dependents := setAdd source (dependents n); path := path n |}.

Definition setChangeType (c : ChangeType) (n : ModuleNode) : ModuleNode :=
  {| name := name n; currentVersion := currentVersion n; newVersion := newVersion n;
     changeType := c; dependencies := dependencies n;
     dependents := dependents n; path := path n |}.

Definition setNewVersion (v : jsstring) (n : ModuleNode) : ModuleNode :=
  {| name := name n; currentVersion := currentVersion n; newVersion := Some v;
     changeType := changeType n; dependencies := dependencies n;
     dependents := dependents n; path := path n |}.

(** A loop whose body may throw. *)
Fixpoint forEach {A S : Type} (body : A -> S -> Result S) (l : list A) (s : S)
    : Result S :=
  match l with
  | [] => Ok s
  | x :: r => s' ← body x s; forEach body r s'
  end.

(** ** Graph construction *)

Section Collaborators.

(** [path.join] of Node, for two segments. *)
Variable pathJoin : jsstring -> jsstring -> jsstring.

(** The files the run can read: the text of the file at a path, if there is
    one. *)
Definition Files := jsstring -> option jsstring.

(** The body of the loop over the dependencies of a new node: an edge is
    made when the graph has the name. *)
Definition linkDependency (graph : list (jsstring * nat)) (node : nat)
    (h : list ModuleNode) (dep : jsstring) : list ModuleNode :=
  match mapGet dep graph with
  | Some target =>
      alter (addDependent node) target (alter (addDependency target) node h)
  | None => h
  end.

(** The body of the loop of [buildDependencyGraph] for one name of the
    settings file. *)
Definition addModule (files : Files) (m : Manager) (moduleName : jsstring) : Manager :=
  let modulePath := pathJoin (rootDir m) (replaceFirst 58 47 moduleName) in
  let buildGradlePath := pathJoin modulePath (str "build.gradle.kts") in
  match files buildGradlePath with
  | Some buildContent =>
      let version := extractVersion buildContent in
      let moduleNode := length (heap m) in
      let h := heap m ++ [ {| name := moduleName; currentVersion := version;
                              newVersion := None; changeType := none;
                              dependencies := []; dependents := [];
                              path := modulePath |} ] in
      let graph := mapSet moduleName moduleNode (moduleGraph m) in
      let h := fold_left (linkDependency graph moduleNode)
                         (extractDependencies buildContent) h in
      {| rootDir := rootDir m; dryRun := dryRun m; heap := h; moduleGraph := graph;
         visitedModules := visitedModules m; moduleOrder := moduleOrder m |}
  | None => m
  end.

(** The loop of [buildDependencyGraph] over the names found in the settings
    file. *)
Definition addModules (files : Files) (m : Manager) (moduleNames : list jsstring)
    : Manager :=
  fold_left (addModule files) moduleNames m.

(** [buildDependencyGraph()]; reading a settings file that is not there
    throws. *)
Definition buildDependencyGraph (files : Files) (m : Manager) : Result Manager :=
  let settingsPath := pathJoin (rootDir m) (str "settings.gradle.kts") in
  match files settingsPath with
  | Some settingsContent =>
      Ok (addModules files m (matchAll includeAt 0 settingsContent))
  | None =>
      Throw (str "ENOENT: no such file or directory, open '" ++ settingsPath ++ str "'")
  end.

(** ** Cycle detection *)

(** [cycle.slice(cycle.indexOf(x))]. *)
Fixpoint sliceFrom (x : jsstring) (cycle : list jsstring) : list jsstring :=
  match cycle with
  | [] => []
  | y :: r => if bool_decide (y = x) then cycle else sliceFrom x r
  end.

(** [a.join(sep)]. *)
Fixpoint join (sep : jsstring) (a : list jsstring) : jsstring :=
  match a with
  | [] => []
  | [x] => x
  | x :: r => x ++ sep ++ join sep r
  end.

(** The message of the error thrown for a cycle. *)
Definition cycleMessage (cycle : list jsstring) : jsstring :=
  [49692; 54872; 32; 51032; 51316; 49457; 32; 48156; 44204; 58; 32]%N
  ++ join (str " -> ") cycle.

(** The first [true] of a loop that runs a check on every element. *)
Fixpoint anyOf {A : Type} (check : A -> Result bool) (l : list A) : Result bool :=
  match l with
  | [] => Ok false
  | x :: r => b ← check x; if b : bool then Ok true else anyOf check r
  end.

(** The inner function [detectCycle(node, path)].  Each call gets a copy of
    the path, so the removal of the name before the return has no effect on
    any other call. *)
Fixpoint detectCycle (fuel : nat) (h : list ModuleNode) (node : nat)
    (path : list jsstring) : Result bool :=
  match fuel with
  | O => Stuck
  | S fuel' =>
      match h !! node with
      | None => Stuck
      | Some n =>
          if bool_decide (name n ∈ path) then
            Throw (cycleMessage (sliceFrom (name n) (path ++ [name n])))
          else
            anyOf (fun dependency => detectCycle fuel' h dependency (path ++ [name n]))
                  (dependencies n)
      end
  end.

(** [detectCyclicDependencies()]. *)
Definition detectCyclicDependencies (m : Manager) : Result unit :=
  forEach (fun node _ => _ ← detectCycle (S (length (heap m))) (heap m) node []; Ok ())
          (mapValues (moduleGraph m)) ().

(** ** Change analysis *)

(** The commits of the history that touch a path, as [getCommitsSinceTag]
    returns them (none when the history cannot be read). *)
Definition History := jsstring -> list jsstring.

(** [analyzeChanges()]. *)
Definition analyzeChanges (history : History) (m : Manager) : Manager :=
  withHeap
    (fold_left (fun h node =>
                  alter (fun n => setChangeType (determineChangeType (history (path n))) n) node h)
               (mapValues (moduleGraph m)) (heap m))
    m.

(** ** Topological order *)

(** The inner function [visit(node)]; the state is [visitedModules] and
    [moduleOrder]. *)
Fixpoint visit (fuel : nat) (h : list ModuleNode) (node : nat)
    (st : list jsstring * list nat) : Result (list jsstring * list nat) :=
  match fuel with
  | O => Stuck
  | S fuel' =>
      match h !! node with
      | None => Stuck
      | Some n =>
          if bool_decide (name n ∈ st.1) then Ok st
          else
            st' ← forEach (visit fuel' h) (dependencies n) (st.1 ++ [name n], st.2);
            Ok (st'.1, st'.2 ++ [node])
      end
  end.

(** The loop of [topologicalSort] over the values of the graph. *)
Definition visitRoots (h : list ModuleNode) (roots : list nat)
    (st : list jsstring * list nat) : Result (list jsstring * list nat) :=
  forEach (fun node st =>
             match h !! node with
             | None => Stuck
             | Some n =>
                 if bool_decide (name n ∈ st.1) then Ok st
                 else visit (S (length h)) h node st
             end)
          roots st.

(** [topologicalSort()]. *)
Definition topologicalSort (m : Manager) : Result Manager :=
  st ← visitRoots (heap m) (mapValues (moduleGraph m)) ([], []);
  Ok {| rootDir := rootDir m; dryRun := dryRun m; heap := heap m;
        moduleGraph := moduleGraph m; visitedModules := st.1; moduleOrder := st.2 |}.

(** ** Version calculation *)

(** [updateDependents(node, changeType)]. *)
Definition updateDependents (node : ModuleNode) (c : ChangeType)
    (h : list ModuleNode) : list ModuleNode :=
  fold_left (fun h dependent =>
               alter (fun d =>
                        if bool_decide (changeType d = none) || bool_decide (changeType d = patch)
                        then setChangeType c d else d)
                     dependent h)
            (dependents node) h.

(** [Array.from(node.dependencies).some(dep => dep.changeType === 'major')]. *)
Definition someDependencyMajor (h : list ModuleNode) (node : ModuleNode) : bool :=
  existsb (fun dep => match h !! dep with
                      | Some d => bool_decide (changeType d = major)
                      | None => false
                      end)
          (dependencies node).

(** The body of the loop of [calculateNewVersions] for one node of
    [moduleOrder]. *)
Definition calculateNode (node : nat) (h : list ModuleNode) : Result (list ModuleNode) :=
  match h !! node with
  | None => Stuck
  | Some n =>
      match changeType n with
      | major =>
          v ← incrementVersion (currentVersion n) (str "major");
          Ok (updateDependents n minor (alter (setNewVersion v) node h))
      | minor =>
          v ← incrementVersion (currentVersion n) (str "minor");
          Ok (alter (setNewVersion v) node h)
      | patch =>
          v ← incrementVersion (currentVersion n) (str "patch");
          Ok (alter (setNewVersion v) node h)
      | none =>
          if someDependencyMajor h n then
            v ← incrementVersion (currentVersion n) (str "minor");
            Ok (alter (setNewVersion v) node h)
          else Ok (alter (setNewVersion (currentVersion n)) node h)
      end
  end.

(** [calculateNewVersions()]. *)
Definition calculateNewVersions (m : Manager) : Result Manager :=
  m ← topologicalSort m;
  h ← forEach calculateNode (moduleOrder m) (heap m);
  Ok (withHeap h m).

(** ** Writing the versions back *)

(** The files, and the journal of the calls of [fs.writeFileSync]: path and
    text, latest first. *)
Record FileSystem := {
  contents : Files;
  written : list (jsstring * jsstring);
}.

Definition writeFileSync (file text : jsstring) (fs : FileSystem) : FileSystem :=
  {| contents := fun p => if bool_decide (p = file) then Some text else contents fs p;
     written := (file, text) :: written fs |}.

(** A string is truthy when it is not empty; [null] is not. *)
Definition truthy (v : option jsstring) : bool :=
  match v with
  | Some (_ :: _) => true
  | _ => false
  end.

(** [updateGradleVersion(node)]: the path of the file written, or [null] in
    a dry run. [newVersion] is the text the template prints for the field. *)
Definition updateGradleVersion (m : Manager) (node : ModuleNode) (fs : FileSystem)
    : Result (FileSystem * option jsstring) :=
  let buildGradlePath := pathJoin (path node) (str "build.gradle.kts") in
  match contents fs buildGradlePath with
  | None =>
      Throw (str "ENOENT: no such file or directory, open '" ++ buildGradlePath ++ str "'")
  | Some content =>
      let printed := match newVersion node with Some v => v | None => str "null" end in
      let updatedContent :=
        replaceVersion content (str "version = " ++ [34%N] ++ printed ++ [34%N]) in
      if dryRun m then Ok (fs, None)
      else Ok (writeFileSync buildGradlePath updatedContent fs, Some buildGradlePath)
  end.

(** The first loop of [updateVersions()]: the build files are rewritten and
    the paths of the files written are collected.  The commit and the tags
    that follow it go to git and to the hosting service and write no build
    file. *)
Definition updateVersionFiles (m : Manager) (fs : FileSystem)
    : Result (FileSystem * list jsstring) :=
  forEach (fun node '(fs, modifiedFiles) =>
             match heap m !! node with
             | None => Stuck
             | Some n =>
                 if truthy (newVersion n) then
                   '(fs, file) ← updateGradleVersion m n fs;
                   Ok (fs, if truthy file then modifiedFiles ++ [default [] file]
                           else modifiedFiles)
                 else Ok (fs, modifiedFiles)
             end)
          (moduleOrder m) (fs, []).

(** The steps of [execute()] up to the calculation. *)
Definition analyse (files : Files) (history : History) (m : Manager) : Result Manager :=
  m ← buildDependencyGraph files m;
  _ ← detectCyclicDependencies m;
  calculateNewVersions (analyzeChanges history m).

End Collaborators.

(** ** Notions used in the statements *)

(** The text [M.N.P] of a version triple. *)
Definition versionText (M N P : Z) : jsstring :=
  dec M ++ str "." ++ dec N ++ str "." ++ dec P.

(** [Number.MAX_SAFE_INTEGER]. *)
Definition maxSafeInteger : Z := 2 ^ 53 - 1.

(** Three components, separated by dots, each a non-empty string of
    digits. *)
Definition isVersionTriple (v : jsstring) : bool :=
  match splitOn 46 v with
  | [a; b; c] =>
      forallb (fun part => forallb isDigit part && negb (bool_decide (part = []))) [a; b; c]
  | _ => false
  end.

(** Two bumps in a row. *)
Definition bumpTwice (v type : jsstring) : Result jsstring :=
  v' ← incrementVersion v type; incrementVersion v' type.

(** A text has a version declaration when, somewhere in it, the word
    [version], an equals sign and a quoted non-empty text without quotes
    follow each other, with any white space around the equals sign. *)
Definition hasVersionDeclaration (content : jsstring) : Prop :=
  exists before ws1 ws2 q1 body q2 after,
    content = before ++ str "version" ++ ws1 ++ str "=" ++ ws2 ++ q1 :: body ++ q2 :: after /\
    Forall (fun c => isWhiteSpace c = true) ws1 /\
    Forall (fun c => isWhiteSpace c = true) ws2 /\
    isQuote q1 = true /\ isQuote q2 = true /\
    body <> [] /\ Forall (fun c => notQuote c = true) body.

Section BuildNotions.

Variable pathJoin : jsstring -> jsstring -> jsstring.

(** The build file that [buildDependencyGraph] reads for a module name. *)
Definition buildFileOf (m : Manager) (moduleName : jsstring) : jsstring :=
  pathJoin (pathJoin (rootDir m) (replaceFirst 58 47 moduleName)) (str "build.gradle.kts").

(** The settings file. *)
Definition settingsFileOf (m : Manager) : jsstring :=
  pathJoin (rootDir m) (str "settings.gradle.kts").

End BuildNotions.

(** The node behind a reference, and its fields. *)
Definition field {B : Type} (proj : ModuleNode -> B) (h : list ModuleNode) (node : nat)
    : option B :=
  proj <$> h !! node.

(** The dependency edges of a heap. *)
Definition edge (h : list ModuleNode) (a b : nat) : Prop :=
  exists n, h !! a = Some n /\ b ∈ dependencies n.

(** A field that a step leaves as it is in every node. *)
Definition kept {B : Type} (proj : ModuleNode -> B) (h h' : list ModuleNode) : Prop :=
  forall j, field proj h' j = field proj h j.

(** ** What the construction maintains *)

Section BuildInvariants.

Variable pathJoin : jsstring -> jsstring -> jsstring.

(** Every key of the graph leads to a node of that name, whose current
    version was extracted from the build file of that name. *)
Definition graphNamed (files : Files) (m : Manager) : Prop :=
  forall key node, mapGet key (moduleGraph m) = Some node ->
    field name (heap m) node = Some key /\
    exists buildContent,
      files (buildFileOf pathJoin m key) = Some buildContent /\
      field currentVersion (heap m) node = Some (extractVersion buildContent).

(** No node has a new version yet. *)
Definition noNewVersion (h : list ModuleNode) : Prop :=
  forall j n, h !! j = Some n -> newVersion n = None.

(** Every new version in the heap was derived from the current version of
    its node: it is that version, or a bump of it. *)
Definition versionsDerived (h : list ModuleNode) : Prop :=
  forall j current v',
    field currentVersion h j = Some current ->
    field newVersion h j = Some (Some v') ->
    v' = current \/
    exists type, type ∈ [str "major"; str "minor"; str "patch"] /\
                 incrementVersion current type = Ok v'.

(** The dependencies that the declarations [deps] of a new node give it, in
    a graph [graph]. *)
Definition linkedDependencies (graph : list (jsstring * nat)) (deps : list jsstring)
    : list nat :=
  fold_left (fun ds dep => match mapGet dep graph with
                           | Some target => setAdd target ds
                           | None => ds
                           end) deps [].

End BuildInvariants.

(** The shape of a graph built from a listing without duplicates in which
    no module declares a dependency on itself: the references stay inside
    the heap, the graph owns every node under its name, the two directions
    of the edges agree, and every edge leads to a node made earlier. *)
Definition builtShape (m : Manager) : Prop :=
  (forall v, v ∈ mapValues (moduleGraph m) -> v < length (heap m)) /\
  (forall a, a < length (heap m) ->
     mapGet (default [] (field name (heap m) a)) (moduleGraph m) = Some a) /\
  (forall key node, mapGet key (moduleGraph m) = Some node ->
     field name (heap m) node = Some key) /\
  (forall a d na nd, heap m !! a = Some na -> heap m !! d = Some nd ->
     (d ∈ dependents na <-> a ∈ dependencies nd)) /\
  (forall a na d, heap m !! a = Some na -> d ∈ dependents na -> d < length (heap m)) /\
  (forall a na b, heap m !! a = Some na -> b ∈ dependencies na -> b < a).

(** ** A small project for the examples *)

(** [path.join] on two plain relative segments. *)
Definition joinSegments (a b : jsstring) : jsstring := a ++ str "/" ++ b.

(** A file system given by a table of paths and texts. *)
Fixpoint fileTable (table : list (string * string)) : Files :=
  fun p =>
    match table with
    | [] => None
    | (file, text) :: rest =>
        if bool_decide (str file = p) then Some (str text) else fileTable rest p
    end.

(** Three modules in a chain: [b] depends on [a], [c] depends on [b]. *)
Definition chainBuildFiles : list (string * string) :=
  [ ("root/a/build.gradle.kts", "version = '1.0.0'");
    ("root/b/build.gradle.kts", "version = '2.1.3'  implementation(project(':a'))");
    ("root/c/build.gradle.kts", "version = '0.4.0'  implementation(project(':b'))") ]%string.

(** The chain, listed in the order of the dependencies. *)
Definition chainProject : Files :=
  fileTable (("root/settings.gradle.kts", "include('a') include('b') include('c')")%string
             :: chainBuildFiles).

(** The same project with [a] listed twice. *)
Definition duplicateProject : Files :=
  fileTable (("root/settings.gradle.kts", "include('a') include('b') include('a')")%string
             :: chainBuildFiles).

(** A history with one breaking commit, in [a]. *)
Definition breakingInA : History :=
  fun p => if bool_decide (p = str "root/a") then [str "feat!: remove X"] else [].

(** A history without commits. *)
Definition noCommits : History := fun _ => [].

Definition newManager : Manager := constructor (str "root") false.

(** The manager after the analysis of a project. *)
Definition analysed (files : Files) (history : History) : Manager :=
  match analyse joinSegments files history newManager with
  | Ok m => m
  | _ => newManager
  end.

(** The files of a project, nothing written yet. *)
Definition untouched (files : Files) : FileSystem :=
  {| contents := files; written := [] |}.

(** A project whose only module declares a dependency on itself. *)
Definition selfDependentProject : Files :=
  fileTable [ ("root/settings.gradle.kts", "include('a')");
              ("root/a/build.gradle.kts", "version = '1.0.0' implementation(project(':a'))") ]%string.

(** The graph that the construction returns for a project. *)
Definition built (files : Files) : Manager :=
  match buildDependencyGraph joinSegments files newManager with
  | Ok m => m
  | _ => newManager
  end.

(** The build files of the nodes of [moduleOrder] that carry a new version,
    in that order: no comparison with the current version is made. *)
Definition filesToPersist (pathJoin : jsstring -> jsstring -> jsstring) (m : Manager)
    (order : list nat) : list jsstring :=
  omap (fun node =>
          n ← heap m !! node;
          if truthy (newVersion n) then Some (pathJoin (path n) (str "build.gradle.kts"))
          else None)
       order.

(** The build files of the nodes of [moduleOrder] whose new version is not
    their current version: what would be written if unchanged versions were
    skipped. *)
Definition filesOfChangedVersions (pathJoin : jsstring -> jsstring -> jsstring)
    (m : Manager) (order : list nat) : list jsstring :=
  omap (fun node =>
          n ← heap m !! node;
          if bool_decide (newVersion n = Some (currentVersion n)) then None
          else Some (pathJoin (path n) (str "build.gradle.kts")))
       order.

(** ** Walks, cycles and orders *)

(** The name of the node behind a reference. *)
Definition nameOf (h : list ModuleNode) (node : nat) : jsstring :=
  default [] (field name h node).

Definition namesOf (h : list ModuleNode) (nodes : list nat) : list jsstring :=
  map (nameOf h) nodes.

(** A walk: each node of the list has an edge to the next one. *)
Definition walk (h : list ModuleNode) (w : list nat) : Prop :=
  forall i a b, w !! i = Some a -> w !! S i = Some b -> edge h a b.

(** A cycle of modules: a walk of at least one edge that comes back to the
    module it started from.  A module is known by its name. *)
Definition namedCycle (h : list ModuleNode) (w : list nat) : Prop :=
  walk h w /\ 2 <= length w /\ nameOf h <$> head w = nameOf h <$> last w.

(** A cycle that a walk from [root] runs into. *)
Definition cycleFrom (h : list ModuleNode) (root : nat) (w : list nat) : Prop :=
  exists before, walk h (before ++ w) /\ head (before ++ w) = Some root /\ namedCycle h w.

(** The graph of a manager has a cycle when a walk from one of the values of
    [moduleGraph] runs into one. *)
Definition containsCycle (m : Manager) : Prop :=
  exists root w, root ∈ mapValues (moduleGraph m) /\ cycleFrom (heap m) root w.

(** References stay inside the heap. *)
Definition closed (h : list ModuleNode) : Prop :=
  forall a b, edge h a b -> b < length h.

Definition graphClosed (m : Manager) : Prop :=
  closed (heap m) /\ forall v, v ∈ mapValues (moduleGraph m) -> v < length (heap m).

(** No two nodes of the heap have the same name. *)
Definition uniqueNames (h : list ModuleNode) : Prop :=
  forall a b, a < length h -> b < length h -> nameOf h a = nameOf h b -> a = b.

(** [dependents] is the mirror image of [dependencies]. *)
Definition mirrored (h : list ModuleNode) : Prop :=
  forall a d na nd, h !! a = Some na -> h !! d = Some nd ->
    (d ∈ dependents na <-> a ∈ dependencies nd).

(** A module graph as the data model has it: the graph owns every node,
    no two nodes have the same name, and every edge leads to a node of the
    graph. *)
Definition wellFormed (m : Manager) : Prop :=
  graphClosed m /\ uniqueNames (heap m) /\
  forall a, a < length (heap m) -> a ∈ mapValues (moduleGraph m).

(** No node reaches itself. *)
Definition acyclic (h : list ModuleNode) : Prop :=
  forall a, ~ tc (edge h) a a.

(** Every node of the order stands behind all its dependencies. *)
Definition dependenciesFirst (h : list ModuleNode) (order : list nat) : Prop :=
  forall before node after, order = before ++ node :: after ->
    forall d, edge h node d -> d ∈ before.

(** The nodes of the heap whose name is not in [visited]. *)
Definition unvisited (h : list ModuleNode) (visited : list jsstring) : list nat :=
  filter (fun a => nameOf h a ∉ visited) (seq 0 (length h)).

(** What [visitedModules] and [moduleOrder] satisfy all along the sort: the
    nodes of the order are nodes of the heap whose names are visited, no
    node is twice in the order, and every node of the order stands behind
    its dependencies. *)
Definition sortedSoFar (h : list ModuleNode) (st : list jsstring * list nat) : Prop :=
  (forall a, a ∈ st.2 -> a < length h /\ nameOf h a ∈ st.1) /\
  NoDup st.2 /\ dependenciesFirst h st.2.

(** A node that the sort has entered and not left yet. *)
Definition entered (h : list ModuleNode) (st : list jsstring * list nat) (a : nat) : Prop :=
  a < length h /\ nameOf h a ∈ st.1 /\ a ∉ st.2.

(** What a visit, or a loop of visits, does to the state: the invariant
    holds again, the order has grown by nodes that were not visited before,
    no name is forgotten, and no other node is left entered. *)
Definition sortExtends (h : list ModuleNode) (st st' : list jsstring * list nat) : Prop :=
  sortedSoFar h st' /\
  (exists new, st'.2 = st.2 ++ new /\ forall a, a ∈ new -> nameOf h a ∉ st.1) /\
  (forall x, x ∈ st.1 -> x ∈ st'.1) /\
  (forall a, entered h st' a -> entered h st a).

(** ** Severities during the calculation *)

(** What the calculation can do to a severity: leave it, or lift [none] or
    [patch] to [minor]. *)
Definition raised (c c' : ChangeType) : Prop :=
  c' = c \/ ((c = none \/ c = patch) /\ c' = minor).

Definition raisedHeap (h h' : list ModuleNode) : Prop :=
  forall j c, field changeType h j = Some c ->
    exists c', field changeType h' j = Some c' /\ raised c c'.

Definition atLeastMinor (c : ChangeType) : Prop := c = minor \/ c = major.

(** The body of the loop of [updateDependents], for the severity [minor]. *)
Definition lift (d : ModuleNode) : ModuleNode :=
  if bool_decide (changeType d = none) || bool_decide (changeType d = patch)
  then setChangeType minor d else d.

(** The new version that the calculation gives a node, from its severity
    when its turn comes. *)
Definition bumpFor (h : list ModuleNode) (n : ModuleNode) : Result jsstring :=
  match changeType n with
  | major => incrementVersion (currentVersion n) (str "major")
  | minor => incrementVersion (currentVersion n) (str "minor")
  | patch => incrementVersion (currentVersion n) (str "patch")
  | none =>
      if someDependencyMajor h n then incrementVersion (currentVersion n) (str "minor")
      else Ok (currentVersion n)
  end.

(** A chain of three modules as the construction builds it: [B] depends on
    [A], [C] depends on [B]; [A] has a breaking change, [B] and [C] have no
    change of their own. *)
Definition chainManager (nameA nameB nameC vA vB vC : jsstring) : Manager :=
  {| rootDir := []; dryRun := false;
     heap := [ {| name := nameA; currentVersion := vA; newVersion := None;
                  changeType := major; dependencies := []; dependents := [1];
                  path := [] |};
               {| name := nameB; currentVersion := vB; newVersion := None;
                  changeType := none; dependencies := [0]; dependents := [2];
                  path := [] |};
               {| name := nameC; currentVersion := vC; newVersion := None;
                  changeType := none; dependencies := [1]; dependents := [];
                  path := [] |} ];
     moduleGraph := [(nameA, 0); (nameB, 1); (nameC, 2)];
     visitedModules := []; moduleOrder := [] |}.

(** ** The severity of a single commit *)

(** What one commit alone is classified as. *)
Definition severity (commit : jsstring) : ChangeType :=
  if isBreaking commit then major
  else if startsWith commit (str "feat:") then minor
  else if startsWith commit (str "fix:") then patch
  else none.

(** The order [none < patch < minor < major]. *)
Definition rank (c : ChangeType) : nat :=
  match c with
  | none => 0
  | patch => 1
  | minor => 2
  | major => 3
  end.

(** The higher of two severities. *)
Definition maxType (a b : ChangeType) : ChangeType :=
  if rank a <? rank b then b else a.

(** ** The text that an update writes *)

(** The replacement text that [updateGradleVersion] passes for a new
    version. *)
Definition versionTemplate (newVersion : jsstring) : jsstring :=
  str "version = " ++ [34%N] ++ newVersion ++ [34%N].

(** A code unit that is neither a quote nor a dollar sign. *)
Definition plainChar (c : N) : bool := notQuote c && negb (c =? 36)%N.

(** A version text that the replacement and the pattern both take as it is:
    not empty, and free of quotes and of dollar signs. *)
Definition isPlain (v : jsstring) : bool :=
  negb (bool_decide (v = [])) && forallb plainChar v.

(** ** Notions for the graphs built from a listing *)

Section ListingNotions.

Variable pathJoin : jsstring -> jsstring -> jsstring.

(** Whether a listed module has a build file. *)
Definition hasBuildFile (files : Files) (m : Manager) (moduleName : jsstring) : bool :=
  bool_decide (is_Some (files (buildFileOf pathJoin m moduleName))).

(** Whether the build file of a module declares a dependency on the module
    itself. *)
Definition declaresItself (files : Files) (m : Manager) (moduleName : jsstring) : bool :=
  match files (buildFileOf pathJoin m moduleName) with
  | Some buildContent => bool_decide (moduleName ∈ extractDependencies buildContent)
  | None => false
  end.

End ListingNotions.

(** ** The outcome of the calculation in closed form *)

(** The severities that [updateDependents] replaces. *)
Definition liftable (c : ChangeType) : bool :=
  bool_decide (c = none) || bool_decide (c = patch).

(** Whether the node behind a reference carries a breaking change. *)
Definition isMajor (h : list ModuleNode) (a : nat) : bool :=
  match h !! a with
  | Some n => bool_decide (changeType n = major)
  | None => false
  end.

(** The severity of a node once the breaking changes of those of its
    dependencies that are [counted] have reached it. *)
Definition liftedBy (h : list ModuleNode) (counted : nat -> bool) (n : ModuleNode)
    : ChangeType :=
  if liftable (changeType n) && existsb (fun a => counted a && isMajor h a) (dependencies n)
  then minor else changeType n.

(** The severity that a node ends with: [minor] when its own severity is
    [none] or [patch] and one of its dependencies has a breaking change, its
    own severity otherwise. *)
Definition finalChangeType (h : list ModuleNode) (n : ModuleNode) : ChangeType :=
  liftedBy h (fun _ => true) n.

(** The version that goes with a severity. *)
Definition versionFor (c : ChangeType) (current : jsstring) : Result jsstring :=
  match c with
  | major => incrementVersion current (str "major")
  | minor => incrementVersion current (str "minor")
  | patch => incrementVersion current (str "patch")
  | none => Ok current
  end.

(** A node with the severity and the new version that the calculation
    leaves in it. *)
Definition calculated (h : list ModuleNode) (n : ModuleNode) (v : jsstring) : ModuleNode :=
  setNewVersion v (setChangeType (finalChangeType h n) n).

(** The nodes of the order processed so far. *)
Definition processed (done : list nat) (a : nat) : bool := bool_decide (a ∈ done).

(** What holds between two rounds of the loop of [calculateNewVersions],
    with the nodes [done] behind it: the breaking changes of the nodes
    processed have reached their dependents, the nodes processed have their
    new version, and nothing else has changed. *)
Definition calculatedSoFar (h0 : list ModuleNode) (done : list nat) (h : list ModuleNode)
    : Prop :=
  length h = length h0 /\
  forall d nd, h0 !! d = Some nd ->
    exists n, h !! d = Some n /\
      name n = name nd /\ currentVersion n = currentVersion nd /\
      dependencies n = dependencies nd /\ dependents n = dependents nd /\
      path n = path nd /\
      changeType n = liftedBy h0 (processed done) nd /\
      (d ∈ done -> exists v, versionFor (finalChangeType h0 nd) (currentVersion nd) = Ok v /\
                             newVersion n = Some v) /\
      (d ∉ done -> newVersion n = newVersion nd).

(** ** The git history *)

(** The shell, as [execSync] with the option [encoding: 'utf8'] sees it:
    the output of a command run in a directory, or nothing when the command
    fails and [execSync] throws. *)
Definition Shell := jsstring -> jsstring -> option jsstring.

(** A value that is a string or [null], inside a template literal. *)
Definition printed (v : option jsstring) : jsstring :=
  match v with
  | Some s => s
  | None => str "null"
  end.

(** The command that [getCommitsSinceTag(lastTag, modulePath)] runs: the
    commits since the tag, or all of them when the tag is [null] or empty,
    that touch the path. *)
Definition logCommand (lastTag modulePath : option jsstring) : jsstring :=
  let range := if truthy lastTag then printed lastTag ++ str "..HEAD" else str "HEAD" in
  str "git log " ++ range ++ str " --format=%s -- " ++ printed modulePath.

Section GitQueries.

Variable execSync : Shell.

(** [getLastTag()]: the trimmed output of [git describe], or [null] when the
    command fails. *)
Definition getLastTag (m : Manager) : option jsstring :=
  match execSync (str "git describe --tags --abbrev=0") (rootDir m) with
  | Some result => Some (trim result)
  | None => None
  end.

(** [getCommitsSinceTag(lastTag, modulePath)]: the lines of the output of
    [git log] that are not empty, or no commit when the command fails. *)
Definition getCommitsSinceTag (m : Manager) (lastTag modulePath : option jsstring)
    : list jsstring :=
  match execSync (logCommand lastTag modulePath) (rootDir m) with
  | Some result =>
      List.filter (fun line => negb (bool_decide (line = []))) (splitOn 10 (trim result))
  | None => []
  end.

(** The commits that [analyzeChanges] classifies for the path of a node:
    the last tag is asked for once, before the loop. *)
Definition gitHistory (m : Manager) : History :=
  fun modulePath => getCommitsSinceTag m (getLastTag m) (Some modulePath).

End GitQueries.

(** ** The changelog *)

(** The three lists that [generateModuleChangelog] sorts the commits
    into. *)
Record Changes := {
  breaking : list jsstring;
  features : list jsstring;
  fixes : list jsstring;
}.

(** The body of the loop over the commits. *)
Definition sortCommit (changes : Changes) (commit : jsstring) : Changes :=
  if isBreaking commit then
    {| breaking := breaking changes ++ [commit]; features := features changes;
       fixes := fixes changes |}
  else if startsWith commit (str "feat:") then
    {| breaking := breaking changes; features := features changes ++ [commit];
       fixes := fixes changes |}
  else if startsWith commit (str "fix:") then
    {| breaking := breaking changes; features := features changes;
       fixes := fixes changes ++ [commit] |}
  else changes.

Definition sortCommits (commits : list jsstring) : Changes :=
  fold_left sortCommit commits {| breaking := []; features := []; fixes := [] |}.

(** One section of the changelog: nothing for an empty list, else the
    title, a line for every commit, and an empty line. *)
Definition changelogSection (title : jsstring) (commits : list jsstring) : jsstring :=
  if bool_decide (commits = []) then []
  else title ++ concat (map (fun commit => str "* " ++ commit ++ [10%N]) commits) ++ [10%N].

(** The titles of the three sections, each followed by an empty line. *)
Definition breakingTitle : jsstring :=
  str "## " ++ [9888%N] ++ str " BREAKING CHANGES" ++ [10%N; 10%N].

Definition featuresTitle : jsstring :=
  str "## " ++ [10024%N] ++ str " Features" ++ [10%N; 10%N].

Definition fixesTitle : jsstring :=
  str "## " ++ [55357%N; 56347%N] ++ str " Bug Fixes" ++ [10%N; 10%N].

(** The first line of the changelog of a node. *)
Definition changelogHeader (node : ModuleNode) : jsstring :=
  str "# " ++ name node ++ str " v" ++ printed (newVersion node) ++ [10%N; 10%N].

(** The text that [generateModuleChangelog] puts before the existing
    changelog. *)
Definition changelogText (node : ModuleNode) (commits : list jsstring) : jsstring :=
  let changes := sortCommits commits in
  changelogHeader node
  ++ changelogSection breakingTitle (breaking changes)
  ++ changelogSection featuresTitle (features changes)
  ++ changelogSection fixesTitle (fixes changes).

(** ** The run *)

(** The calls of the two methods that talk to git and to the hosting
    service; [index.js] replaces [createGitTag] by a function of its own. *)
Inductive Call :=
  | CommitChanges (files : list jsstring)
  | CreateGitTag (node : nat).

(** What a run changes: the files, and the calls made so far, oldest
    first. *)
Record World := {
  disk : FileSystem;
  calls : list Call;
}.

(** A step of the run: the world after it, and its value or the error it
    throws. *)
Definition Eff (A : Type) : Type := World -> World * Result A.

Definition pureEff {A : Type} (a : A) : Eff A := fun w => (w, Ok a).

Definition andThen {A B : Type} (e : Eff A) (k : A -> Eff B) : Eff B :=
  fun w =>
    match e w with
    | (w', Ok a) => k a w'
    | (w', Throw message) => (w', Throw message)
    | (w', Stuck) => (w', Stuck)
    end.

(** A loop with an accumulator whose body may throw. *)
Fixpoint forEachEff {A S : Type} (body : A -> S -> Eff S) (l : list A) (s : S) : Eff S :=
  match l with
  | [] => pureEff s
  | x :: r => andThen (body x s) (forEachEff body r)
  end.

Section Run.

Variable pathJoin : jsstring -> jsstring -> jsstring.

(** The outcome of [commitChanges(files)] and of [createGitTag(node)]:
    they return, or throw. *)
Variable commitChanges : list jsstring -> Result unit.
Variable createGitTag : ModuleNode -> Result unit.

(** The shell, which may answer differently once calls have been made. *)
Variable execSync : list Call -> Shell.

(** A call of one of the two methods is recorded, and returns or throws. *)
Definition call (c : Call) (outcome : Result unit) : Eff unit :=
  fun w => ({| disk := disk w; calls := calls w ++ [c] |}, outcome).

(** [updateGradleVersion(node)] as a step of the run: it throws before it
    writes, or writes. *)
Definition updateGradleVersionStep (m : Manager) (node : ModuleNode) : Eff (option jsstring) :=
  fun w =>
    match updateGradleVersion pathJoin m node (disk w) with
    | Ok (fs, file) => ({| disk := fs; calls := calls w |}, Ok file)
    | Throw message => (w, Throw message)
    | Stuck => (w, Stuck)
    end.

(** The node behind a reference of [moduleOrder]. *)
Definition withNode {A : Type} (m : Manager) (node : nat) (k : ModuleNode -> Eff A) : Eff A :=
  match heap m !! node with
  | Some n => k n
  | None => fun w => (w, Stuck)
  end.

(** [updateVersions()]: the build files are rewritten, the files written
    are committed when there are some and the run is no dry run, and a tag is
    asked for every node with a new version. *)
Definition updateVersions (m : Manager) : Eff unit :=
  andThen
    (forEachEff (fun node modifiedFiles =>
                   withNode m node (fun n =>
                     if truthy (newVersion n) then
                       andThen (updateGradleVersionStep m n) (fun file =>
                         pureEff (if truthy file then modifiedFiles ++ [default [] file]
                                  else modifiedFiles))
                     else pureEff modifiedFiles))
                (moduleOrder m) [])
    (fun modifiedFiles =>
       andThen
         (if negb (bool_decide (modifiedFiles = [])) && negb (dryRun m)
          then call (CommitChanges modifiedFiles) (commitChanges modifiedFiles)
          else pureEff ())
         (fun _ =>
            forEachEff (fun node (_ : unit) =>
                          withNode m node (fun n =>
                            if truthy (newVersion n)
                            then call (CreateGitTag node) (createGitTag n)
                            else pureEff ()))
                       (moduleOrder m) ())).

(** [generateModuleChangelog(node)]: the new text goes before the text of
    the changelog that is there, if there is one.  The call of
    [getCommitsSinceTag] passes the path of the node for the tag and the tag
    for the path, as the source does. *)
Definition generateModuleChangelog (m : Manager) (node : ModuleNode) : Eff unit :=
  fun w =>
    let changelogPath := pathJoin (path node) (str "CHANGELOG.md") in
    let lastTag := getLastTag (execSync (calls w)) m in
    let commits := getCommitsSinceTag (execSync (calls w)) m (Some (path node)) lastTag in
    let existingChangelog := default [] (contents (disk w) changelogPath) in
    ({| disk := writeFileSync changelogPath (changelogText node commits ++ existingChangelog)
                              (disk w);
        calls := calls w |}, Ok ()).

(** [generateChangelogs()]. *)
Definition generateChangelogs (m : Manager) : Eff unit :=
  forEachEff (fun node (_ : unit) =>
                withNode m node (fun n =>
                  if truthy (newVersion n) then generateModuleChangelog m n
                  else pureEff ()))
             (moduleOrder m) ().

(** [execute()], with the manager it leaves: the analysis, and then the
    report of a dry run, which only prints, or the update of the versions and
    of the changelogs.  An error is rethrown as it is. *)
Definition execute (m0 : Manager) : Eff Manager :=
  fun w =>
    match analyse pathJoin (contents (disk w)) (gitHistory (execSync (calls w)) m0) m0 with
    | Ok m =>
        if dryRun m then (w, Ok m)
        else andThen (updateVersions m)
               (fun _ => andThen (generateChangelogs m) (fun _ => pureEff m)) w
    | Throw message => (w, Throw message)
    | Stuck => (w, Stuck)
    end.

End Run.

(** ** Notions for the statements about the run *)

(** The nodes of an order that carry a new version. *)
Definition nodesWithNewVersion (m : Manager) (order : list nat) : list nat :=
  List.filter (fun node => match heap m !! node with
                           | Some n => truthy (newVersion n)
                           | None => false
                           end) order.

(** The changelogs of the nodes of an order that carry a new version, in
    that order. *)
Definition changelogsToWrite (pathJoin : jsstring -> jsstring -> jsstring) (m : Manager)
    (order : list nat) : list jsstring :=
  omap (fun node =>
          n ← heap m !! node;
          if truthy (newVersion n) then Some (pathJoin (path n) (str "CHANGELOG.md"))
          else None)
       order.

(** Every file that was there is still there, and ends with the text it
    had. *)
Definition textsKept (before after : FileSystem) : Prop :=
  forall p old, contents before p = Some old ->
    exists new, contents after p = Some (new ++ old).

(** Every node has the directory that [buildDependencyGraph] derives from
    its name. *)
Definition pathsNamed (pathJoin : jsstring -> jsstring -> jsstring) (m : Manager) : Prop :=
  forall d n, heap m !! d = Some n ->
    path n = pathJoin (rootDir m) (replaceFirst 58 47 (name n)).

(** The changelog of a module, in the directory that
    [buildDependencyGraph] derives from its name. *)
Definition changelogOf (pathJoin : jsstring -> jsstring -> jsstring) (m : Manager)
    (moduleName : jsstring) : jsstring :=
  pathJoin (pathJoin (rootDir m) (replaceFirst 58 47 moduleName)) (str "CHANGELOG.md").

(** ** A run of the small project *)

(** A commit and a tag that always succeed, a commit that is rejected, and
    a shell without a repository. *)
Definition commitReturns : list jsstring -> Result unit := fun _ => Ok ().

Definition commitRejected : list jsstring -> Result unit :=
  fun _ => Throw (str "rejected").

Definition tagReturns : ModuleNode -> Result unit := fun _ => Ok ().

Definition noRepository : list Call -> Shell := fun _ _ _ => None.

(** The world before a run on the files of a project. *)
Definition startWorld (files : Files) : World :=
  {| disk := untouched files; calls := [] |}.

(** The manager after the analysis of a project in a dry run. *)
Definition analysedDry (files : Files) (history : History) : Manager :=
  match analyse joinSegments files history (constructor (str "root") true) with
  | Ok m => m
  | _ => constructor (str "root") true
  end.

(** ** Notions for the statements about the declared dependencies *)

(** The text declares a dependency on the project [dep]: it contains
    [implementation(], white space, [project(], a quote, a colon, the name,
    a quote, [)], white space and [)].  The name is not empty and holds no
    quote; the two quotes need not be the same. *)
Definition declaresDependency (buildContent dep : jsstring) : Prop :=
  exists before ws1 ws2 q1 q2 after,
    buildContent =
      before ++ str "implementation(" ++ ws1 ++ str "project(" ++ q1 :: str ":" ++ dep
      ++ q2 :: str ")" ++ ws2 ++ str ")" ++ after /\
    Forall (fun c => isWhiteSpace c = true) ws1 /\
    Forall (fun c => isWhiteSpace c = true) ws2 /\
    isQuote q1 = true /\ isQuote q2 = true /\
    dep <> [] /\ Forall (fun c => notQuote c = true) dep.
(** ** Properties of the classifier *)

Lemma startsWith_app (p r : jsstring) : startsWith (p ++ r) p = true.
Proof.
  induction p as [|c p IH]; simpl; [reflexivity|].
  rewrite N.eqb_refl. exact IH.
Qed.

Lemma startsWith_split (s p : jsstring) :
  startsWith s p = true -> exists r, s = p ++ r.
Proof.
  revert s; induction p as [|c p IH]; intros s H; simpl in *.
  - exists s; reflexivity.
  - destruct s as [|d s]; [discriminate|].
    apply andb_true_iff in H as [Hc Hs].
    apply N.eqb_eq in Hc; subst d.
    destruct (IH _ Hs) as [r ->]. exists r; reflexivity.
Qed.

Lemma fix_not_feat (commit : jsstring) :
  startsWith commit (str "fix:") = true ->
  startsWith commit (str "feat:") = false.
Proof.
  intros H. apply startsWith_split in H as [r ->]. reflexivity.
Qed.

Lemma breaking_anywhere (changeType : ChangeType) (pre : list jsstring)
    (commit : jsstring) (post : list jsstring) :
  isBreaking commit = true ->
  determineChangeType_from changeType (pre ++ commit :: post) = major.
Proof.
  intros Hb. revert changeType.
  induction pre as [|c pre IH]; intros changeType; simpl.
  - rewrite Hb. reflexivity.
  - destruct (isBreaking c); [reflexivity|].
    destruct (_ && _); [apply IH|].
    destruct (_ && _); apply IH.
Qed.

(** C5. The classifier follows the reference behaviour: the empty history is
    [none]; a breaking commit anywhere in the history gives [major] whatever
    stands around it; a feature outranks a fix; fixes do not add up; a [fix:]
    commit lifts the running severity to [patch] exactly when it is [none];
    a commit matching no pattern leaves the running severity alone. *)
Theorem classifier_reference_behaviour :
  determineChangeType [] = none /\
  (forall pre commit post, isBreaking commit = true ->
     determineChangeType (pre ++ commit :: post) = major) /\
  determineChangeType [str "feat!: x"] = major /\
  determineChangeType [str "fix: a"; str "feat: b"] = minor /\
  determineChangeType [str "fix: a"] = patch /\
  determineChangeType [str "fix: a"; str "fix: b"] = patch /\
  (forall changeType commit rest,
     isBreaking commit = false -> startsWith commit (str "fix:") = true ->
     determineChangeType_from changeType (commit :: rest) =
     determineChangeType_from (if bool_decide (changeType = none) then patch else changeType) rest) /\
  (forall changeType commit rest,
     isBreaking commit = false ->
     startsWith commit (str "feat:") = false ->
     startsWith commit (str "fix:") = false ->
     determineChangeType_from changeType (commit :: rest) =
     determineChangeType_from changeType rest).
Proof.
  split; [reflexivity|].
  split; [intros pre commit post Hb; apply breaking_anywhere; exact Hb|].
  repeat (split; [reflexivity|]).
  split.
  - intros changeType commit rest Hb Hfix. cbn [determineChangeType_from].
    rewrite Hb, (fix_not_feat _ Hfix), Hfix. cbn [andb].
    destruct (bool_decide (changeType = none)); reflexivity.
  - intros changeType commit rest Hb Hfeat Hfix. cbn [determineChangeType_from].
    rewrite Hb, Hfeat, Hfix. reflexivity.
Qed.

(** The classifier on a history with a breaking commit in the middle and on a
    history of fixes after an unrelated commit. *)
Lemma classifier_reference_behaviour_witness :
  determineChangeType ([str "fix: a"] ++ str "feat!: drop X" :: [str "feat: b"]) = major /\
  determineChangeType_from patch (str "fix: b" :: []) = patch /\
  determineChangeType_from minor (str "docs: c" :: []) = minor.
Proof.
  destruct classifier_reference_behaviour as (_ & Hbreak & _ & _ & _ & _ & Hfix & Hother).
  split; [apply Hbreak; reflexivity|].
  split; [exact (Hfix patch (str "fix: b") [] eq_refl eq_refl)|].
  exact (Hother minor (str "docs: c") [] eq_refl eq_refl eq_refl).
Defined.

(** ** Decimal digits *)

#[local] Open Scope Z_scope.

Lemma isDigit_digitChar (d : Z) : 0 <= d < 10 -> isDigit (digitChar d) = true.
Proof.
  intros Hd. unfold isDigit, digitChar.
  apply andb_true_iff; split; apply N.leb_le; lia.
Qed.

Lemma digitVal_digitChar (d : Z) : 0 <= d < 10 -> digitVal (digitChar d) = d.
Proof.
  intros Hd. unfold digitVal. rewrite isDigit_digitChar by exact Hd.
  unfold digitChar. lia.
Qed.

Lemma digitsValue_snoc (base : Z) (s : jsstring) (c : N) :
  digitsValue base (s ++ [c]) = base * digitsValue base s + digitVal c.
Proof. unfold digitsValue. rewrite fold_left_app. reflexivity. Qed.

(** What [decDigits] puts in front of the accumulator: digits, at least one,
    whose value is [n]. *)
Lemma decDigits_spec (fuel : nat) : forall (n : Z) (acc : jsstring),
  (0 < fuel)%nat -> 0 <= n < 2 ^ Z.of_nat fuel ->
  exists ds, decDigits fuel n acc = ds ++ acc /\ ds <> [] /\
             Forall (fun c => isDigit c = true) ds /\ digitsValue 10 ds = n.
Proof.
  induction fuel as [|fuel IH]; intros n acc Hfuel Hn.
  - lia.
  - cbn [decDigits].
    assert (Hd : 0 <= n mod 10 < 10) by (apply Z.mod_pos_bound; lia).
    destruct (Z.eqb_spec (n / 10) 0) as [Hq|Hq].
    + exists [digitChar (n mod 10)]. repeat split.
      * discriminate.
      * constructor; [apply isDigit_digitChar; exact Hd|constructor].
      * unfold digitsValue; simpl. rewrite digitVal_digitChar by exact Hd.
        pose proof (Z.div_mod n 10 ltac:(lia)). lia.
    + assert (Hq' : 0 <= n / 10 < 2 ^ Z.of_nat fuel).
      { split; [apply Z.div_pos; lia|].
        apply Z.div_lt_upper_bound; [lia|].
        rewrite Nat2Z.inj_succ, Z.pow_succ_r in Hn by lia. lia. }
      assert (Hfuel' : (0 < fuel)%nat).
      { destruct fuel; [|lia]. simpl in Hq'. lia. }
      destruct (IH (n / 10) (digitChar (n mod 10) :: acc) Hfuel' Hq')
        as (ds & Heq & Hne & Hdig & Hval).
      exists (ds ++ [digitChar (n mod 10)]). repeat split.
      * rewrite Heq, <- app_assoc. reflexivity.
      * destruct ds; discriminate.
      * apply Forall_app; split; [exact Hdig|].
        constructor; [apply isDigit_digitChar; exact Hd|constructor].
      * rewrite digitsValue_snoc, Hval, digitVal_digitChar by exact Hd.
        pose proof (Z.div_mod n 10 ltac:(lia)). lia.
Qed.

Lemma dec_spec (n : Z) : 0 <= n ->
  dec n <> [] /\ Forall (fun c => isDigit c = true) (dec n) /\ digitsValue 10 (dec n) = n.
Proof.
  intros Hn. unfold dec.
  destruct (decDigits_spec (S (Z.to_nat (Z.log2 n))) n []) as (ds & Heq & Hne & Hdig & Hval).
  - lia.
  - split; [exact Hn|].
    rewrite Nat2Z.inj_succ, Z2Nat.id by apply Z.log2_nonneg.
    destruct (Z.eq_dec n 0) as [->|Hnz]; [reflexivity|].
    apply Z.log2_spec. lia.
  - rewrite Heq, app_nil_r. auto.
Qed.

(** ** Splitting at the dots *)

Lemma splitOn_no_sep (sep : N) (l : jsstring) :
  Forall (fun c => c <> sep) l -> splitOn sep l = [l].
Proof.
  induction 1 as [|c l Hc _ IH]; [reflexivity|].
  cbn [splitOn]. destruct (N.eqb_spec c sep); [contradiction|].
  rewrite IH. reflexivity.
Qed.

Lemma splitOn_app (sep : N) (l r : jsstring) :
  Forall (fun c => c <> sep) l -> splitOn sep (l ++ sep :: r) = l :: splitOn sep r.
Proof.
  induction 1 as [|c l Hc _ IH]; cbn [splitOn app].
  - rewrite N.eqb_refl. reflexivity.
  - destruct (N.eqb_spec c sep); [contradiction|].
    rewrite IH. reflexivity.
Qed.

Lemma digit_not_dot (l : jsstring) :
  Forall (fun c => isDigit c = true) l -> Forall (fun c => c <> 46%N) l.
Proof.
  intros H. eapply Forall_impl; [exact H|]. intros c Hc ->. discriminate.
Qed.

Lemma splitOn_versionText (M N P : Z) :
  0 <= M -> 0 <= N -> 0 <= P ->
  splitOn 46 (versionText M N P) = [dec M; dec N; dec P].
Proof.
  intros HM HN HP. unfold versionText.
  destruct (dec_spec M HM) as (_ & DM & _).
  destruct (dec_spec N HN) as (_ & DN & _).
  destruct (dec_spec P HP) as (_ & DP & _).
  change (str ".") with [46%N]. cbn [app].
  rewrite splitOn_app by (apply digit_not_dot; exact DM).
  rewrite splitOn_app by (apply digit_not_dot; exact DN).
  rewrite splitOn_no_sep by (apply digit_not_dot; exact DP).
  reflexivity.
Qed.

(** ** Integers that binary64 holds exactly *)

Lemma units_nonneg (n : Z) : 0 <= n -> 0 <= units n.
Proof. intros Hn. unfold units. apply Z.mul_nonneg_nonneg; [exact Hn|]. apply Z.pow_nonneg. lia. Qed.

(** A value whose bits below the 53 leading ones are zero is not moved by
    the rounding. *)
Lemma roundPos_exact (a : Z) :
  0 <= a -> a mod 2 ^ Z.max 0 (Z.log2 a - 52) = 0 -> roundPos a 1 = a.
Proof.
  intros Ha Hmod. unfold roundPos. rewrite Z.div_1_r, Z.mul_1_l.
  set (e := Z.max 0 (Z.log2 a - 52)) in *.
  assert (Hd : 0 < 2 ^ e) by (apply Z.pow_pos_nonneg; lia).
  rewrite Hmod.
  destruct (Z.ltb_spec (2 * 0) (2 ^ e)) as [_|]; [|lia].
  pose proof (Z.div_mod a (2 ^ e) ltac:(lia)). lia.
Qed.

Lemma units_exact (n : Z) :
  0 <= n <= 2 ^ 53 -> roundPos (units n) 1 = units n.
Proof.
  intros Hn. apply roundPos_exact; [apply units_nonneg; lia|].
  destruct (Z.eq_dec n 0) as [->|Hnz]; [reflexivity|].
  unfold units. rewrite Z.log2_mul_pow2 by lia.
  destruct (Z.eq_dec n (2 ^ 53)) as [->|Hlt]; [reflexivity|].
  assert (Hlog : Z.log2 n < 53) by (apply Z.log2_lt_pow2; lia).
  pose proof (Z.log2_nonneg n) as Hlog0.
  rewrite Z.max_r by lia.
  replace 1074 with ((1074 - (1074 + Z.log2 n - 52)) + (1074 + Z.log2 n - 52)) at 1 by lia.
  rewrite Z.pow_add_r by lia. rewrite Z.mul_assoc. apply Z.mod_mul.
  apply Z.pow_nonzero; lia.
Qed.

Lemma ofZ_exact (n : Z) : 0 <= n <= 2 ^ 53 -> ofZ n = Fin (units n).
Proof.
  intros Hn. unfold ofZ, roundRatio.
  pose proof (units_nonneg n ltac:(lia)) as Hu.
  rewrite Z.abs_eq by exact Hu. rewrite units_exact by exact Hn.
  assert (Hb : units n < 2 ^ 2098).
  { unfold units. change (2 ^ 2098) with (2 ^ 1024 * 2 ^ 1074).
    apply Z.mul_lt_mono_pos_r; [reflexivity|].
    assert (2 ^ 53 < 2 ^ 1024) by reflexivity. lia. }
  destruct (Z.leb_spec (2 ^ 2098) (units n)); [lia|].
  destruct (Z.ltb_spec (units n) 0); [lia|reflexivity].
Qed.

Lemma plusOne_exact (n : Z) :
  0 <= n -> n + 1 <= 2 ^ 53 ->
  plusOne (Some (Fin (units n))) = Some (Fin (units (n + 1))).
Proof.
  intros Hn Hs. unfold plusOne, ToNumber, jsadd. f_equal.
  replace (units n + units 1) with (units (n + 1)) by (unfold units; lia).
  apply (ofZ_exact (n + 1)). lia.
Qed.

Lemma NumberToString_exact (n : Z) :
  0 <= n <= 2 ^ 53 -> NumberToString (Fin (units n)) = dec n.
Proof.
  intros Hn. unfold NumberToString.
  destruct (Z.eq_dec n 0) as [->|Hnz]; [reflexivity|].
  assert (Hpos : 0 < units n).
  { unfold units. apply Z.mul_pos_pos; [lia|reflexivity]. }
  destruct (Z.eqb_spec (units n) 0); [lia|].
  destruct (Z.ltb_spec (units n) 0); [lia|].
  unfold positiveToString.
  assert (Hmod : units n mod units 1 = 0).
  { unfold units. rewrite Z.mul_1_l. apply Z.mod_mul. discriminate. }
  assert (Hdiv : units n / units 1 = n).
  { unfold units. rewrite Z.mul_1_l. apply Z.div_mul. discriminate. }
  rewrite Hmod, Hdiv. cbn [Z.eqb andb].
  destruct (Z.leb_spec n (2 ^ 53)); [reflexivity|lia].
Qed.

(** ** Reading a string of digits *)

Lemma skipWhiteSpace_digits (ds : jsstring) :
  Forall (fun c => isDigit c = true) ds -> skipWhiteSpace ds = ds.
Proof.
  intros H. destruct H as [|c ds Hc _]; [reflexivity|].
  cbn [skipWhiteSpace].
  assert (Hws : isWhiteSpace c = false).
  { unfold isDigit in Hc. apply andb_true_iff in Hc as [H1 H2].
    apply N.leb_le in H1, H2. unfold isWhiteSpace.
    repeat match goal with
           | |- context [N.eqb c ?k] => destruct (N.eqb_spec c k); [lia|]
           | |- context [N.leb ?a ?b] => destruct (N.leb_spec a b); try lia
           end; reflexivity. }
  rewrite Hws. reflexivity.
Qed.

Lemma trim_digits (ds : jsstring) :
  Forall (fun c => isDigit c = true) ds -> trim ds = ds.
Proof.
  intros H. unfold trim. rewrite (skipWhiteSpace_digits ds H).
  rewrite skipWhiteSpace_digits by (apply Forall_rev; exact H).
  apply rev_involutive.
Qed.

Lemma span_digits (ds : jsstring) :
  Forall (fun c => isDigit c = true) ds -> span isDigit ds = (ds, []).
Proof.
  induction 1 as [|c ds Hc _ IH]; [reflexivity|].
  cbn [span]. rewrite Hc, IH. reflexivity.
Qed.

Lemma StringToNumber_digits (ds : jsstring) :
  ds <> [] -> Forall (fun c => isDigit c = true) ds ->
  StringToNumber ds = ofZ (digitsValue 10 ds).
Proof.
  intros Hne Hd. unfold StringToNumber. rewrite (trim_digits ds Hd).
  destruct ds as [|c r]; [contradiction|].
  assert (Hc : isDigit c = true) by (inversion Hd; assumption).
  assert (Hc' : (48 <= c <= 57)%N).
  { unfold isDigit in Hc. apply andb_true_iff in Hc as [H1 H2].
    apply N.leb_le in H1, H2. lia. }
  assert (Hnd : parseNonDecimal (c :: r) = None).
  { unfold parseNonDecimal.
    destruct c as [|p0]; [reflexivity|].
    destruct r as [|p r']; [repeat (destruct p0; try reflexivity)|].
    assert (Hp : isDigit p = true) by (inversion Hd as [|? ? _ Hr]; inversion Hr; assumption).
    assert (Hp' : (48 <= p <= 57)%N).
    { unfold isDigit in Hp. apply andb_true_iff in Hp as [H1 H2].
      apply N.leb_le in H1, H2. lia. }
    repeat match goal with
           | |- context [N.eqb p ?k] => destruct (N.eqb_spec p k); [lia|]
           end.
    cbn [orb]. repeat (destruct p0; try reflexivity). }
  rewrite Hnd.
  destruct (N.eqb_spec c 43); [lia|]. destruct (N.eqb_spec c 45); [lia|].
  unfold parseUnsignedDecimal.
  rewrite bool_decide_eq_false_2.
  2:{ intros Heq. injection Heq as Heq _. subst c. discriminate. }
  rewrite (span_digits _ Hd). cbn [parseExponent].
  rewrite bool_decide_eq_false_2 by discriminate. cbn [andb].
  rewrite app_nil_r. cbn [length]. unfold ofDecimal. cbn [Z.of_nat Z.sub Z.opp Z.add Z.leb Z.compare].
  unfold ofZ. rewrite Z.pow_0_r, Z.mul_1_r. reflexivity.
Qed.

Lemma StringToNumber_dec (n : Z) : 0 <= n -> StringToNumber (dec n) = ofZ n.
Proof.
  intros Hn. destruct (dec_spec n Hn) as (Hne & Hd & Hv).
  rewrite StringToNumber_digits by assumption. rewrite Hv. reflexivity.
Qed.

(** The components of a version of three safe integers, as the destructuring
    of [incrementVersion] sees them. *)
Lemma parts_versionText (M N P : Z) :
  0 <= M <= 2 ^ 53 -> 0 <= N <= 2 ^ 53 -> 0 <= P <= 2 ^ 53 ->
  map StringToNumber (splitOn 46 (versionText M N P)) =
  [Fin (units M); Fin (units N); Fin (units P)].
Proof.
  intros HM HN HP. rewrite splitOn_versionText by lia. cbn [map].
  rewrite !StringToNumber_dec by lia. rewrite !ofZ_exact by lia. reflexivity.
Qed.

(** ** Bumps *)

Lemma incrementVersion_major (M N P : Z) :
  0 <= M -> M + 1 <= 2 ^ 53 -> 0 <= N <= 2 ^ 53 -> 0 <= P <= 2 ^ 53 ->
  incrementVersion (versionText M N P) (str "major") = Ok (versionText (M + 1) 0 0).
Proof.
  intros HM HM' HN HP. unfold incrementVersion.
  rewrite parts_versionText by lia. cbn [lookup list_lookup].
  rewrite bool_decide_eq_true_2 by reflexivity.
  rewrite plusOne_exact by lia. cbn [ToString].
  rewrite NumberToString_exact by lia. reflexivity.
Qed.

Lemma incrementVersion_minor (M N P : Z) :
  0 <= M <= 2 ^ 53 -> 0 <= N -> N + 1 <= 2 ^ 53 -> 0 <= P <= 2 ^ 53 ->
  incrementVersion (versionText M N P) (str "minor") = Ok (versionText M (N + 1) 0).
Proof.
  intros HM HN HN' HP. unfold incrementVersion.
  rewrite parts_versionText by lia. cbn [lookup list_lookup].
  rewrite bool_decide_eq_false_2 by discriminate.
  rewrite bool_decide_eq_true_2 by reflexivity.
  rewrite plusOne_exact by lia. cbn [ToString].
  rewrite !NumberToString_exact by lia. reflexivity.
Qed.

Lemma incrementVersion_patch (M N P : Z) :
  0 <= M <= 2 ^ 53 -> 0 <= N <= 2 ^ 53 -> 0 <= P -> P + 1 <= 2 ^ 53 ->
  incrementVersion (versionText M N P) (str "patch") = Ok (versionText M N (P + 1)).
Proof.
  intros HM HN HP HP'. unfold incrementVersion.
  rewrite parts_versionText by lia. cbn [lookup list_lookup].
  rewrite !(bool_decide_eq_false_2 (str "patch" = _)) by discriminate.
  rewrite bool_decide_eq_true_2 by reflexivity.
  rewrite plusOne_exact by lia. cbn [ToString].
  rewrite !NumberToString_exact by lia. reflexivity.
Qed.

(** C8, as the code has it.  For a version triple of safe integers (each
    component at most [2^53 - 1]) the major bump is [(M+1, 0, 0)], the minor
    bump [(M, N+1, 0)], the patch bump [(M, N, P+1)]; and when [P + 1] is
    safe too, two patch bumps add exactly 2 to the patch component and leave
    the other two alone. *)
Theorem bump_of_safe_triple (M N P : Z) :
  0 <= M <= maxSafeInteger -> 0 <= N <= maxSafeInteger -> 0 <= P <= maxSafeInteger ->
  incrementVersion (versionText M N P) (str "major") = Ok (versionText (M + 1) 0 0) /\
  incrementVersion (versionText M N P) (str "minor") = Ok (versionText M (N + 1) 0) /\
  incrementVersion (versionText M N P) (str "patch") = Ok (versionText M N (P + 1)) /\
  (P + 1 <= maxSafeInteger ->
   bumpTwice (versionText M N P) (str "patch") = Ok (versionText M N (P + 2))).
Proof.
  unfold maxSafeInteger. intros HM HN HP.
  split; [apply incrementVersion_major; lia|].
  split; [apply incrementVersion_minor; lia|].
  split; [apply incrementVersion_patch; lia|].
  intros HP'. unfold bumpTwice.
  rewrite incrementVersion_patch by lia. cbn [mbind Result_bind].
  rewrite incrementVersion_patch by lia.
  replace (P + 1 + 1) with (P + 2) by lia. reflexivity.
Qed.

(** The bumps of [1.2.3]. *)
Lemma bump_of_safe_triple_witness :
  incrementVersion (versionText 1 2 3) (str "major") = Ok (versionText (1 + 1) 0 0) /\
  incrementVersion (versionText 1 2 3) (str "minor") = Ok (versionText 1 (2 + 1) 0) /\
  incrementVersion (versionText 1 2 3) (str "patch") = Ok (versionText 1 2 (3 + 1)) /\
  bumpTwice (versionText 1 2 3) (str "patch") = Ok (versionText 1 2 (3 + 2)).
Proof.
  destruct (bump_of_safe_triple 1 2 3) as (H1 & H2 & H3 & H4);
    [unfold maxSafeInteger; lia ..|].
  split; [exact H1|]. split; [exact H2|]. split; [exact H3|].
  apply H4. unfold maxSafeInteger. lia.
Defined.

(** C8 as stated fails where binary64 runs out of integers: the major bump
    of [9007199254740992.0.0] is [9007199254740992.0.0] again, since
    [2^53 + 1] is no Number. *)
Lemma bump_of_large_major_component :
  incrementVersion (versionText (2 ^ 53) 0 0) (str "major") = Ok (versionText (2 ^ 53) 0 0) /\
  versionText (2 ^ 53) 0 0 <> versionText (2 ^ 53 + 1) 0 0.
Proof. split; [vm_compute; reflexivity|vm_compute; discriminate]. Qed.

(** C3, as the code has it.  Whatever the text of the current version, a
    major, minor or patch bump returns a text and throws nothing; the only
    error of [incrementVersion] is the one for an unknown kind of bump.  A
    component that is no number is printed as [NaN], a missing one as
    [undefined]. *)
Theorem incrementVersion_accepts_any_version (currentVersion type : jsstring) :
  (type ∈ [str "major"; str "minor"; str "patch"] ->
   exists v, incrementVersion currentVersion type = Ok v) /\
  (type ∉ [str "major"; str "minor"; str "patch"] ->
   incrementVersion currentVersion type =
   Throw (str "Unknown version increment type: " ++ type)) /\
  incrementVersion (str "1.2.3-SNAPSHOT") (str "patch") = Ok (str "1.2.NaN") /\
  incrementVersion (str "abc") (str "major") = Ok (str "NaN.0.0") /\
  incrementVersion (str "1.2") (str "minor") = Ok (str "1.3.0") /\
  incrementVersion (str "1") (str "patch") = Ok (str "1.undefined.NaN").
Proof.
  split; [|split; [|repeat split; vm_compute; reflexivity]].
  - intros Hin. unfold incrementVersion.
    repeat case_bool_decide; eauto.
    exfalso. rewrite !elem_of_cons, elem_of_nil in Hin. tauto.
  - intros Hnot. unfold incrementVersion.
    rewrite !not_elem_of_cons in Hnot.
    repeat case_bool_decide; try reflexivity; exfalso; tauto.
Qed.

(** A patch bump of a version with a qualifier. *)
Lemma incrementVersion_accepts_any_version_witness :
  exists v, incrementVersion (str "1.2.3-SNAPSHOT") (str "patch") = Ok v.
Proof.
  apply (incrementVersion_accepts_any_version (str "1.2.3-SNAPSHOT") (str "patch")).
  vm_compute. apply list_elem_of_In. right; right; left; reflexivity.
Defined.

(** C3 as stated fails: [1.2.3-SNAPSHOT] is no triple of integers, and its
    patch bump is the text [1.2.NaN], not an error. *)
Lemma malformed_version_is_coerced :
  isVersionTriple (str "1.2.3-SNAPSHOT") = false /\
  incrementVersion (str "1.2.3-SNAPSHOT") (str "patch") = Ok (str "1.2.NaN") /\
  ~ (exists message, incrementVersion (str "1.2.3-SNAPSHOT") (str "patch") = Throw message).
Proof.
  split; [reflexivity|]. split; [vm_compute; reflexivity|].
  intros [message H]. vm_compute in H. discriminate.
Qed.

#[local] Close Scope Z_scope.

(** ** The matchers *)

Lemma matchLit_Some (lit s r : jsstring) :
  matchLit lit s = Some r <-> s = lit ++ r.
Proof.
  unfold matchLit. split.
  - destruct (startsWith s lit) eqn:H; [|discriminate].
    intros [= <-]. apply startsWith_split in H as [r' ->].
    rewrite drop_app_length. reflexivity.
  - intros ->. rewrite startsWith_app, drop_app_length. reflexivity.
Qed.

Lemma skipWhiteSpace_split (s : jsstring) :
  exists ws, s = ws ++ skipWhiteSpace s /\ Forall (fun c => isWhiteSpace c = true) ws.
Proof.
  induction s as [|c s (ws & Heq & Hws)]; [exists []; split; [reflexivity|constructor]|].
  cbn [skipWhiteSpace]. destruct (isWhiteSpace c) eqn:Hc.
  - exists (c :: ws). split; [cbn; congruence|constructor; assumption].
  - exists []. split; [reflexivity|constructor].
Qed.

Lemma skipWhiteSpace_app (ws : jsstring) (c : N) (r : jsstring) :
  Forall (fun c => isWhiteSpace c = true) ws -> isWhiteSpace c = false ->
  skipWhiteSpace (ws ++ c :: r) = c :: r.
Proof.
  intros Hws Hc. induction Hws as [|d ws Hd _ IH]; cbn [app skipWhiteSpace].
  - rewrite Hc. reflexivity.
  - rewrite Hd. exact IH.
Qed.

Lemma span_spec (p : N -> bool) (s a b : jsstring) :
  span p s = (a, b) ->
  s = a ++ b /\ Forall (fun c => p c = true) a /\
  match b with [] => True | c :: _ => p c = false end.
Proof.
  revert a b; induction s as [|c s IH]; intros a b; cbn [span].
  - intros [= <- <-]. repeat split; constructor.
  - destruct (p c) eqn:Hc.
    + destruct (span p s) as [a' b'] eqn:Hs. intros [= <- <-].
      destruct (IH a' b' eq_refl) as (-> & Ha & Hb).
      repeat split; [constructor; assumption|exact Hb].
    + intros [= <- <-]. repeat split; [constructor|exact Hc].
Qed.

Lemma span_app (p : N -> bool) (a : jsstring) (c : N) (r : jsstring) :
  Forall (fun c => p c = true) a -> p c = false -> span p (a ++ c :: r) = (a, c :: r).
Proof.
  intros Ha Hc. induction Ha as [|d a Hd _ IH]; cbn [app span].
  - rewrite Hc. reflexivity.
  - rewrite Hd, IH. reflexivity.
Qed.

Lemma matchQuote_Some (s r : jsstring) :
  matchQuote s = Some r <-> exists q, s = q :: r /\ isQuote q = true.
Proof.
  unfold matchQuote. split.
  - destruct s as [|c s]; [discriminate|].
    destruct (isQuote c) eqn:Hc; [|discriminate]. intros [= <-]. eauto.
  - intros (q & -> & Hq). rewrite Hq. reflexivity.
Qed.

Lemma matchQuoted_Some (s body r : jsstring) :
  matchQuoted s = Some (body, r) <->
  exists q, s = body ++ q :: r /\ isQuote q = true /\ body <> [] /\
            Forall (fun c => notQuote c = true) body.
Proof.
  unfold matchQuoted. split.
  - destruct (span notQuote s) as [a b] eqn:Hs.
    apply span_spec in Hs as (-> & Ha & _).
    case_bool_decide; [discriminate|].
    destruct (matchQuote b) as [r'|] eqn:Hq; [|discriminate].
    cbn. intros [= <- <-]. apply matchQuote_Some in Hq as (q & -> & Hq). eauto.
  - intros (q & -> & Hq & Hne & Hbody).
    rewrite span_app by (try assumption; unfold notQuote; rewrite Hq; reflexivity).
    rewrite bool_decide_eq_false_2 by assumption.
    cbn [matchQuote]. rewrite Hq. reflexivity.
Qed.

Lemma whitespace_not_equals : isWhiteSpace 61 = false.
Proof. reflexivity. Qed.

Lemma quote_not_whitespace (q : N) : isQuote q = true -> isWhiteSpace q = false.
Proof.
  unfold isQuote. intros H. apply orb_true_iff in H as [H|H];
    apply N.eqb_eq in H; subst q; reflexivity.
Qed.

(** [versionAt] matches exactly the texts that start with a declaration. *)
Lemma versionAt_Some (s version rest : jsstring) :
  versionAt s = Some (version, rest) <->
  exists ws1 ws2 q1 q2,
    s = str "version" ++ ws1 ++ str "=" ++ ws2 ++ q1 :: version ++ q2 :: rest /\
    Forall (fun c => isWhiteSpace c = true) ws1 /\
    Forall (fun c => isWhiteSpace c = true) ws2 /\
    isQuote q1 = true /\ isQuote q2 = true /\
    version <> [] /\ Forall (fun c => notQuote c = true) version.
Proof.
  unfold versionAt. split.
  - destruct (matchLit (str "version") s) as [r1|] eqn:H1; [|discriminate].
    apply matchLit_Some in H1 as ->. cbn [mbind option_bind].
    destruct (skipWhiteSpace_split r1) as (ws1 & Hr1 & Hws1).
    destruct (matchLit (str "=") (skipWhiteSpace r1)) as [r2|] eqn:H2; [|discriminate].
    apply matchLit_Some in H2. cbn [mbind option_bind].
    destruct (skipWhiteSpace_split r2) as (ws2 & Hr2 & Hws2).
    destruct (matchQuote (skipWhiteSpace r2)) as [r3|] eqn:H3; [|discriminate].
    apply matchQuote_Some in H3 as (q1 & H3 & Hq1). cbn [mbind option_bind].
    intros H4. apply matchQuoted_Some in H4 as (q2 & -> & Hq2 & Hne & Hbody).
    exists ws1, ws2, q1, q2. repeat split; try assumption.
    rewrite Hr1, H2, Hr2, H3. reflexivity.
  - intros (ws1 & ws2 & q1 & q2 & -> & Hws1 & Hws2 & Hq1 & Hq2 & Hne & Hbody).
    rewrite (proj2 (matchLit_Some _ _ _) eq_refl). cbn [mbind option_bind].
    change (str "=") with [61%N]. cbn [app].
    rewrite (skipWhiteSpace_app ws1 61 _ Hws1 whitespace_not_equals).
    change (matchLit [61%N] (61%N :: ?r)) with (Some r). cbn [mbind option_bind].
    rewrite (skipWhiteSpace_app ws2 q1 _ Hws2 (quote_not_whitespace _ Hq1)).
    cbn [matchQuote]. rewrite Hq1. cbn [mbind option_bind].
    apply matchQuoted_Some. eauto 10.
Qed.

Lemma search_Some (at_ : jsstring -> option (jsstring * jsstring))
    (s before capture rest : jsstring) :
  search at_ s = Some (before, capture, rest) ->
  exists s', s = before ++ s' /\ at_ s' = Some (capture, rest).
Proof.
  revert before; induction s as [|c s IH]; intros before; cbn [search].
  - destruct (at_ []) as [[cap r]|] eqn:H; [|discriminate].
    intros [= <- <- <-]. exists []. split; [reflexivity|exact H].
  - destruct (at_ (c :: s)) as [[cap r]|] eqn:H.
    + intros [= <- <- <-]. exists (c :: s). split; [reflexivity|exact H].
    + destruct (search at_ s) as [[[b cap] r]|] eqn:Hs; [|discriminate].
      cbn. intros [= <- <- <-].
      destruct (IH b eq_refl) as (s' & -> & Hat). exists s'. split; [reflexivity|exact Hat].
Qed.

Lemma search_None (at_ : jsstring -> option (jsstring * jsstring))
    (before s : jsstring) :
  search at_ (before ++ s) = None -> at_ s = None.
Proof.
  induction before as [|c before IH]; cbn [app].
  - destruct s; cbn [search]; destruct (at_ _) as [[? ?]|]; [discriminate|reflexivity..| |reflexivity].
    discriminate.
  - cbn [search]. destruct (at_ (c :: before ++ s)) as [[? ?]|]; [discriminate|].
    destruct (search at_ (before ++ s)) as [[[? ?] ?]|] eqn:Hs; [discriminate|].
    intros _. apply IH. reflexivity.
Qed.

(** The search finds a declaration exactly when the text has one. *)
Lemma search_versionAt_None (content : jsstring) :
  search versionAt content = None <-> ~ hasVersionDeclaration content.
Proof.
  split.
  - intros Hnone (before & ws1 & ws2 & q1 & body & q2 & after & -> & H).
    apply search_None in Hnone.
    assert (Hsome : versionAt (str "version" ++ ws1 ++ str "=" ++ ws2 ++ q1 :: body ++ q2 :: after)
                    = Some (body, after)).
    { apply versionAt_Some. exists ws1, ws2, q1, q2. split; [reflexivity|exact H]. }
    congruence.
  - intros Hno. destruct (search versionAt content) as [[[before version] rest]|] eqn:Hs;
      [|reflexivity].
    exfalso. apply Hno. apply search_Some in Hs as (s' & -> & Hat).
    apply versionAt_Some in Hat as (ws1 & ws2 & q1 & q2 & -> & H).
    exists before, ws1, ws2, q1, version, q2, rest. split; [reflexivity|exact H].
Qed.

Lemma extractVersion_default (content : jsstring) :
  ~ hasVersionDeclaration content -> extractVersion content = str "0.1.0".
Proof.
  intros H. unfold extractVersion.
  rewrite (proj2 (search_versionAt_None content) H). reflexivity.
Qed.

(** ** Fields of the nodes of a heap *)

Lemma field_alter {B : Type} (proj : ModuleNode -> B) (f : ModuleNode -> ModuleNode)
    (i j : nat) (h : list ModuleNode) :
  (forall n, proj (f n) = proj n) ->
  field proj (alter f i h) j = field proj h j.
Proof.
  intros Hf. unfold field. destruct (decide (i = j)) as [->|Hne].
  - rewrite list_lookup_alter_eq. destruct (h !! j); cbn; [rewrite Hf|]; reflexivity.
  - rewrite list_lookup_alter_ne by exact Hne. reflexivity.
Qed.

Lemma field_alter_ne {B : Type} (proj : ModuleNode -> B) (f : ModuleNode -> ModuleNode)
    (i j : nat) (h : list ModuleNode) :
  i <> j -> field proj (alter f i h) j = field proj h j.
Proof. intros Hne. unfold field. rewrite list_lookup_alter_ne by exact Hne. reflexivity. Qed.

Lemma field_alter_eq {B : Type} (proj : ModuleNode -> B) (f : ModuleNode -> ModuleNode)
    (i : nat) (h : list ModuleNode) :
  field proj (alter f i h) i = (fun n => proj (f n)) <$> h !! i.
Proof. unfold field. rewrite list_lookup_alter_eq. destruct (h !! i); reflexivity. Qed.

Lemma field_Some {B : Type} (proj : ModuleNode -> B) (h : list ModuleNode) (i : nat) (b : B) :
  field proj h i = Some b <-> exists n, h !! i = Some n /\ proj n = b.
Proof.
  unfold field. destruct (h !! i) as [n|]; cbn; split.
  - intros [= <-]. eauto.
  - intros (n' & [= <-] & <-). reflexivity.
  - discriminate.
  - intros (n' & [=] & _).
Qed.

Lemma field_app_l {B : Type} (proj : ModuleNode -> B) (h k : list ModuleNode) (j : nat) :
  j < length h -> field proj (h ++ k) j = field proj h j.
Proof. intros Hj. unfold field. rewrite lookup_app_l by exact Hj. reflexivity. Qed.

Lemma kept_refl {B : Type} (proj : ModuleNode -> B) (h : list ModuleNode) : kept proj h h.
Proof. intros j. reflexivity. Qed.

Lemma kept_trans {B : Type} (proj : ModuleNode -> B) (h1 h2 h3 : list ModuleNode) :
  kept proj h1 h2 -> kept proj h2 h3 -> kept proj h1 h3.
Proof. intros H12 H23 j. rewrite H23. apply H12. Qed.

Lemma kept_alter {B : Type} (proj : ModuleNode -> B) (f : ModuleNode -> ModuleNode)
    (i : nat) (h : list ModuleNode) :
  (forall n, proj (f n) = proj n) -> kept proj h (alter f i h).
Proof. intros Hf j. apply field_alter. exact Hf. Qed.

Lemma kept_fold_left {A B : Type} (proj : ModuleNode -> B)
    (step : list ModuleNode -> A -> list ModuleNode) (l : list A) (h : list ModuleNode) :
  (forall h x, kept proj h (step h x)) -> kept proj h (fold_left step l h).
Proof.
  intros Hstep. revert h. induction l as [|x l IH]; intros h; cbn [fold_left].
  - apply kept_refl.
  - eapply kept_trans; [apply Hstep|apply IH].
Qed.

Lemma kept_length {B : Type} (proj : ModuleNode -> B) (h h' : list ModuleNode) :
  kept proj h h' -> length h' = length h.
Proof.
  intros H. unfold kept, field in H.
  destruct (Nat.lt_total (length h') (length h)) as [Hlt|[Heq|Hlt]]; [|exact Heq|].
  - specialize (H (length h')). rewrite (lookup_ge_None_2 h') in H by lia.
    destruct (lookup_lt_is_Some_2 h (length h') Hlt) as [n Hn]. rewrite Hn in H. discriminate.
  - specialize (H (length h)). rewrite (lookup_ge_None_2 h) in H by lia.
    destruct (lookup_lt_is_Some_2 h' (length h) Hlt) as [n Hn]. rewrite Hn in H. discriminate.
Qed.

Lemma lookup_map {A B : Type} (f : A -> B) (l : list A) (i : nat) :
  map f l !! i = f <$> l !! i.
Proof. exact (list_lookup_fmap f l i). Qed.

(** ** The [Map] and the [Set] *)

Lemma mapGet_mapSet (key key' : jsstring) (value : nat) (m : list (jsstring * nat)) :
  mapGet key' (mapSet key value m) =
  if bool_decide (key = key') then Some value else mapGet key' m.
Proof.
  induction m as [|[k v] m IH]; cbn [mapSet mapGet].
  - reflexivity.
  - destruct (bool_decide_reflect (k = key)) as [->|Hk]; cbn [mapGet].
    + destruct (bool_decide (key = key')); reflexivity.
    + rewrite IH. destruct (bool_decide_reflect (k = key')) as [->|Hk'].
      * rewrite bool_decide_eq_false_2 by congruence. reflexivity.
      * reflexivity.
Qed.

Lemma mapHas_true (key : jsstring) (m : list (jsstring * nat)) :
  mapHas key m = true <-> exists v, mapGet key m = Some v.
Proof. unfold mapHas. rewrite bool_decide_eq_true. reflexivity. Qed.

Lemma mapHas_false (key : jsstring) (m : list (jsstring * nat)) :
  mapHas key m = false <-> mapGet key m = None.
Proof.
  unfold mapHas. rewrite bool_decide_eq_false. rewrite <- eq_None_not_Some. reflexivity.
Qed.

(** Setting a key that is present keeps the keys and their order. *)
Lemma mapSet_keys_present (key : jsstring) (value : nat) (m : list (jsstring * nat)) :
  mapHas key m = true -> map fst (mapSet key value m) = map fst m.
Proof.
  rewrite mapHas_true. intros [v Hv].
  induction m as [|[k w] m IH]; cbn [mapGet mapSet map fst] in *; [discriminate|].
  destruct (bool_decide (k = key)); cbn [map fst]; [reflexivity|].
  rewrite IH by exact Hv. reflexivity.
Qed.

Lemma mapSet_keys_absent (key : jsstring) (value : nat) (m : list (jsstring * nat)) :
  mapHas key m = false -> map fst (mapSet key value m) = map fst m ++ [key].
Proof.
  rewrite mapHas_false.
  induction m as [|[k w] m IH]; cbn [mapGet mapSet map fst app]; [reflexivity|].
  destruct (bool_decide (k = key)); [discriminate|]. cbn [map fst].
  intros H. rewrite IH by exact H. reflexivity.
Qed.

Lemma elem_of_setAdd `{EqDecision A} (x y : A) (s : list A) :
  y ∈ setAdd x s <-> y = x \/ y ∈ s.
Proof.
  unfold setAdd. case_bool_decide as Hx.
  - split; [auto|]. intros [->|H]; assumption.
  - rewrite elem_of_app, list_elem_of_singleton. tauto.
Qed.

Lemma NoDup_setAdd `{EqDecision A} (x : A) (s : list A) : NoDup s -> NoDup (setAdd x s).
Proof.
  intros H. unfold setAdd. case_bool_decide as Hx; [exact H|].
  apply NoDup_app. split; [exact H|]. split; [|apply NoDup_singleton].
  intros y Hy Hy'. apply list_elem_of_singleton in Hy'. subst y. contradiction.
Qed.

(** ** Graph construction *)

Section Build.

Variable pathJoin : jsstring -> jsstring -> jsstring.
Variable files : Files.

#[local] Abbreviation add_module := (addModule pathJoin files).
#[local] Abbreviation add_modules := (addModules pathJoin files).
#[local] Abbreviation build_file := (buildFileOf pathJoin).

Lemma linkDependency_kept {B : Type} (proj : ModuleNode -> B)
    (graph : list (jsstring * nat)) (node : nat) (h : list ModuleNode) (dep : jsstring) :
  (forall t n, proj (addDependency t n) = proj n) ->
  (forall s n, proj (addDependent s n) = proj n) ->
  kept proj h (linkDependency graph node h dep).
Proof.
  intros H1 H2. unfold linkDependency. destruct (mapGet dep graph) as [target|].
  - eapply kept_trans; apply kept_alter; auto.
  - apply kept_refl.
Qed.

Lemma linkDependency_dependencies_other (graph : list (jsstring * nat)) (node j : nat)
    (h : list ModuleNode) (dep : jsstring) :
  j <> node ->
  field dependencies (linkDependency graph node h dep) j = field dependencies h j.
Proof.
  intros Hj. unfold linkDependency. destruct (mapGet dep graph) as [target|]; [|reflexivity].
  rewrite field_alter by reflexivity. apply field_alter_ne. congruence.
Qed.

Lemma linkDependency_dependencies_node (graph : list (jsstring * nat)) (node : nat)
    (h : list ModuleNode) (dep : jsstring) :
  field dependencies (linkDependency graph node h dep) node =
  (fun ds => match mapGet dep graph with
             | Some target => setAdd target ds
             | None => ds
             end) <$> field dependencies h node.
Proof.
  unfold linkDependency. destruct (mapGet dep graph) as [target|].
  - rewrite field_alter by reflexivity. rewrite field_alter_eq.
    unfold field. destruct (h !! node); reflexivity.
  - unfold field. destruct (h !! node); reflexivity.
Qed.

Lemma links_kept {B : Type} (proj : ModuleNode -> B)
    (graph : list (jsstring * nat)) (node : nat) (deps : list jsstring) (h : list ModuleNode) :
  (forall t n, proj (addDependency t n) = proj n) ->
  (forall s n, proj (addDependent s n) = proj n) ->
  kept proj h (fold_left (linkDependency graph node) deps h).
Proof.
  intros H1 H2. apply kept_fold_left. intros h' dep. apply linkDependency_kept; assumption.
Qed.

Lemma links_dependencies_other (graph : list (jsstring * nat)) (node j : nat)
    (deps : list jsstring) (h : list ModuleNode) :
  j <> node ->
  field dependencies (fold_left (linkDependency graph node) deps h) j = field dependencies h j.
Proof.
  intros Hj. revert h. induction deps as [|dep deps IH]; intros h; cbn [fold_left].
  - reflexivity.
  - rewrite IH. apply linkDependency_dependencies_other. exact Hj.
Qed.

Lemma links_dependencies_node (graph : list (jsstring * nat)) (node : nat)
    (deps : list jsstring) (h : list ModuleNode) (ds : list nat) :
  field dependencies h node = Some ds ->
  field dependencies (fold_left (linkDependency graph node) deps h) node =
  Some (fold_left (fun ds dep => match mapGet dep graph with
                                 | Some target => setAdd target ds
                                 | None => ds
                                 end) deps ds).
Proof.
  revert h ds. induction deps as [|dep deps IH]; intros h ds Hds; cbn [fold_left].
  - exact Hds.
  - apply IH. rewrite linkDependency_dependencies_node, Hds. reflexivity.
Qed.

Lemma elem_of_linked (graph : list (jsstring * nat)) (deps : list jsstring)
    (ds : list nat) (t : nat) :
  t ∈ fold_left (fun ds dep => match mapGet dep graph with
                               | Some target => setAdd target ds
                               | None => ds
                               end) deps ds <->
  t ∈ ds \/ exists dep, dep ∈ deps /\ mapGet dep graph = Some t.
Proof.
  revert ds. induction deps as [|dep deps IH]; intros ds; cbn [fold_left].
  - split; [auto|]. intros [H|(dep & H & _)]; [exact H|]. apply elem_of_nil in H. contradiction.
  - rewrite IH. split.
    + intros [H|(dep' & Hin & Hget)].
      * destruct (mapGet dep graph) as [target|] eqn:Hd; [|auto].
        apply elem_of_setAdd in H as [->|H]; [|auto].
        right. exists dep. split; [apply elem_of_cons; auto|exact Hd].
      * right. exists dep'. split; [apply elem_of_cons; auto|exact Hget].
    + intros [H|(dep' & Hin & Hget)].
      * left. destruct (mapGet dep graph); [apply elem_of_setAdd; auto|exact H].
      * apply elem_of_cons in Hin as [->|Hin].
        -- left. rewrite Hget. apply elem_of_setAdd. auto.
        -- right. eauto.
Qed.

(** *** One name of the settings file *)

Lemma addModule_missing (m : Manager) (moduleName : jsstring) :
  files (build_file m moduleName) = None -> add_module m moduleName = m.
Proof. unfold addModule, buildFileOf. intros ->. reflexivity. Qed.

Lemma addModule_rootDir (m : Manager) (moduleName : jsstring) :
  rootDir (add_module m moduleName) = rootDir m.
Proof. unfold addModule. destruct (files _); reflexivity. Qed.

Lemma addModule_graph (m : Manager) (moduleName buildContent : jsstring) :
  files (build_file m moduleName) = Some buildContent ->
  moduleGraph (add_module m moduleName) =
  mapSet moduleName (length (heap m)) (moduleGraph m).
Proof. unfold addModule, buildFileOf. intros ->. reflexivity. Qed.

Lemma addModule_length (m : Manager) (moduleName buildContent : jsstring) :
  files (build_file m moduleName) = Some buildContent ->
  length (heap (add_module m moduleName)) = S (length (heap m)).
Proof.
  unfold addModule, buildFileOf. intros ->. cbn [heap].
  rewrite (kept_length name _ _ (links_kept name _ _ _ _ ltac:(reflexivity) ltac:(reflexivity))).
  rewrite length_app. cbn. lia.
Qed.

Lemma addModule_length_le (m : Manager) (moduleName : jsstring) :
  length (heap m) <= length (heap (add_module m moduleName)).
Proof.
  destruct (files (build_file m moduleName)) as [c|] eqn:H.
  - rewrite (addModule_length _ _ _ H). lia.
  - rewrite (addModule_missing _ _ H). lia.
Qed.

(** The nodes that exist keep the fields that no edge touches. *)
Lemma addModule_kept {B : Type} (proj : ModuleNode -> B) (m : Manager)
    (moduleName : jsstring) (j : nat) :
  (forall t n, proj (addDependency t n) = proj n) ->
  (forall s n, proj (addDependent s n) = proj n) ->
  j < length (heap m) ->
  field proj (heap (add_module m moduleName)) j = field proj (heap m) j.
Proof.
  intros H1 H2 Hj. unfold addModule. destruct (files _) as [c|]; [|reflexivity].
  cbn [heap]. rewrite (links_kept proj _ _ _ _ H1 H2). apply field_app_l. exact Hj.
Qed.

(** The nodes that exist keep their dependencies. *)
Lemma addModule_dependencies_kept (m : Manager) (moduleName : jsstring) (j : nat) :
  j < length (heap m) ->
  field dependencies (heap (add_module m moduleName)) j = field dependencies (heap m) j.
Proof.
  intros Hj. unfold addModule. destruct (files _) as [c|]; [|reflexivity].
  cbn [heap]. rewrite links_dependencies_other by lia. apply field_app_l. exact Hj.
Qed.

(** The fields of the node made for a name. *)
Lemma addModule_new {B : Type} (proj : ModuleNode -> B) (m : Manager)
    (moduleName buildContent : jsstring) :
  (forall t n, proj (addDependency t n) = proj n) ->
  (forall s n, proj (addDependent s n) = proj n) ->
  files (build_file m moduleName) = Some buildContent ->
  field proj (heap (add_module m moduleName)) (length (heap m)) =
  Some (proj {| name := moduleName; currentVersion := extractVersion buildContent;
                newVersion := None; changeType := none; dependencies := [];
                dependents := [];
                path := pathJoin (rootDir m) (replaceFirst 58 47 moduleName) |}).
Proof.
  intros H1 H2. unfold addModule, buildFileOf. intros ->. cbn [heap].
  rewrite (links_kept proj _ _ _ _ H1 H2). unfold field.
  rewrite lookup_app_r by lia. rewrite Nat.sub_diag. reflexivity.
Qed.

Lemma addModule_new_dependencies (m : Manager) (moduleName buildContent : jsstring) :
  files (build_file m moduleName) = Some buildContent ->
  field dependencies (heap (add_module m moduleName)) (length (heap m)) =
  Some (linkedDependencies (mapSet moduleName (length (heap m)) (moduleGraph m))
                           (extractDependencies buildContent)).
Proof.
  unfold addModule, buildFileOf. intros ->. cbn [heap].
  apply links_dependencies_node. unfold field.
  rewrite lookup_app_r by lia. rewrite Nat.sub_diag. reflexivity.
Qed.

(** *** All the names *)

Lemma addModules_rootDir (names : list jsstring) (m : Manager) :
  rootDir (add_modules m names) = rootDir m.
Proof.
  revert m. induction names as [|x names IH]; intros m; [reflexivity|].
  cbn [addModules fold_left]. fold (add_modules (add_module m x) names).
  rewrite IH. apply addModule_rootDir.
Qed.

Lemma addModules_length_le (names : list jsstring) (m : Manager) :
  length (heap m) <= length (heap (add_modules m names)).
Proof.
  revert m. induction names as [|x names IH]; intros m; [cbn; lia|].
  cbn [addModules fold_left]. fold (add_modules (add_module m x) names).
  pose proof (IH (add_module m x)). pose proof (addModule_length_le m x). lia.
Qed.

Lemma addModules_kept {B : Type} (proj : ModuleNode -> B) (names : list jsstring)
    (m : Manager) (j : nat) :
  (forall t n, proj (addDependency t n) = proj n) ->
  (forall s n, proj (addDependent s n) = proj n) ->
  j < length (heap m) ->
  field proj (heap (add_modules m names)) j = field proj (heap m) j.
Proof.
  intros H1 H2. revert m. induction names as [|x names IH]; intros m Hj; [reflexivity|].
  cbn [addModules fold_left]. fold (add_modules (add_module m x) names).
  rewrite IH by (pose proof (addModule_length_le m x); lia).
  apply addModule_kept; assumption.
Qed.

Lemma addModules_dependencies_kept (names : list jsstring) (m : Manager) (j : nat) :
  j < length (heap m) ->
  field dependencies (heap (add_modules m names)) j = field dependencies (heap m) j.
Proof.
  revert m. induction names as [|x names IH]; intros m Hj; [reflexivity|].
  cbn [addModules fold_left]. fold (add_modules (add_module m x) names).
  rewrite IH by (pose proof (addModule_length_le m x); lia).
  apply addModule_dependencies_kept; assumption.
Qed.

Lemma buildFileOf_rootDir (m m' : Manager) (key : jsstring) :
  rootDir m' = rootDir m -> build_file m' key = build_file m key.
Proof. unfold buildFileOf. intros ->. reflexivity. Qed.

Lemma graphNamed_bound (m : Manager) (key : jsstring) (node : nat) :
  graphNamed pathJoin files m -> mapGet key (moduleGraph m) = Some node ->
  node < length (heap m).
Proof.
  intros Hinv Hget. destruct (Hinv key node Hget) as [Hname _].
  apply field_Some in Hname as (n & Hn & _). eapply lookup_lt_Some. exact Hn.
Qed.

Lemma addModule_graphNamed (m : Manager) (moduleName : jsstring) :
  graphNamed pathJoin files m -> graphNamed pathJoin files (add_module m moduleName).
Proof.
  intros Hinv. destruct (files (build_file m moduleName)) as [c|] eqn:Hfile.
  2:{ rewrite (addModule_missing _ _ Hfile). exact Hinv. }
  intros key node. rewrite (addModule_graph _ _ _ Hfile), mapGet_mapSet.
  rewrite (buildFileOf_rootDir m _ key (addModule_rootDir m moduleName)).
  case_bool_decide as Hk.
  - intros [= <-]. subst key. split.
    + rewrite (addModule_new name _ _ _ ltac:(reflexivity) ltac:(reflexivity) Hfile). reflexivity.
    + exists c. split; [exact Hfile|].
      rewrite (addModule_new currentVersion _ _ _ ltac:(reflexivity) ltac:(reflexivity) Hfile).
      reflexivity.
  - intros Hget. pose proof (graphNamed_bound _ _ _ Hinv Hget) as Hlt.
    destruct (Hinv key node Hget) as (Hname & c' & Hc' & Hver).
    rewrite !addModule_kept by (reflexivity || exact Hlt). eauto.
Qed.

Lemma addModules_graphNamed (names : list jsstring) (m : Manager) :
  graphNamed pathJoin files m -> graphNamed pathJoin files (add_modules m names).
Proof.
  revert m. induction names as [|x names IH]; intros m Hinv; [exact Hinv|].
  cbn [addModules fold_left]. fold (add_modules (add_module m x) names).
  apply IH, addModule_graphNamed, Hinv.
Qed.

Lemma constructor_graphNamed (root : jsstring) (dry : bool) :
  graphNamed pathJoin files (constructor root dry).
Proof. intros key node H. discriminate. Qed.

Lemma addModule_noNewVersion (m : Manager) (moduleName : jsstring) :
  noNewVersion (heap m) -> noNewVersion (heap (add_module m moduleName)).
Proof.
  intros Hinv. destruct (files (build_file m moduleName)) as [c|] eqn:Hfile.
  2:{ rewrite (addModule_missing _ _ Hfile). exact Hinv. }
  intros j n Hn.
  assert (Hf : field newVersion (heap (add_module m moduleName)) j = Some (newVersion n)).
  { apply field_Some. eauto. }
  pose proof (lookup_lt_Some _ _ _ Hn) as Hlt.
  rewrite (addModule_length _ _ _ Hfile) in Hlt.
  destruct (decide (j = length (heap m))) as [->|Hne].
  - rewrite (addModule_new newVersion _ _ _ ltac:(reflexivity) ltac:(reflexivity) Hfile) in Hf.
    cbn in Hf. congruence.
  - rewrite addModule_kept in Hf by (reflexivity || lia).
    apply field_Some in Hf as (n' & Hn' & Heq). rewrite <- Heq. eapply Hinv. exact Hn'.
Qed.

Lemma addModules_noNewVersion (names : list jsstring) (m : Manager) :
  noNewVersion (heap m) -> noNewVersion (heap (add_modules m names)).
Proof.
  revert m. induction names as [|x names IH]; intros m Hinv; [exact Hinv|].
  cbn [addModules fold_left]. fold (add_modules (add_module m x) names).
  apply IH, addModule_noNewVersion, Hinv.
Qed.

End Build.

(** ** Duplicate names and forward references *)

(** C2, as the code has it.  Adding a module whose name the graph already
    has does not fail: the new node takes the place of the earlier one under
    that name, every other key and the order of the keys stay, the earlier
    nodes stay in the heap with their names and edges, and the construction
    always returns a graph when the settings file can be read. *)
Theorem duplicate_name_overwrites (pathJoin : jsstring -> jsstring -> jsstring)
    (files : Files) (m : Manager) (moduleName buildContent : jsstring) :
  files (buildFileOf pathJoin m moduleName) = Some buildContent ->
  mapHas moduleName (moduleGraph m) = true ->
  let m' := addModule pathJoin files m moduleName in
  mapGet moduleName (moduleGraph m') = Some (length (heap m)) /\
  length (heap m') = S (length (heap m)) /\
  (forall key, key <> moduleName ->
     mapGet key (moduleGraph m') = mapGet key (moduleGraph m)) /\
  map fst (moduleGraph m') = map fst (moduleGraph m) /\
  (forall j, j < length (heap m) ->
     field name (heap m') j = field name (heap m) j /\
     field dependencies (heap m') j = field dependencies (heap m) j) /\
  (forall settingsContent,
     files (settingsFileOf pathJoin m) = Some settingsContent ->
     exists built, buildDependencyGraph pathJoin files m = Ok built).
Proof.
  intros Hfile Hhas m'. subst m'.
  rewrite (addModule_graph _ _ _ _ _ Hfile), mapGet_mapSet.
  rewrite bool_decide_eq_true_2 by reflexivity.
  split; [reflexivity|]. split; [exact (addModule_length _ _ _ _ _ Hfile)|].
  split.
  { intros key Hkey. rewrite mapGet_mapSet.
    rewrite bool_decide_eq_false_2 by congruence. reflexivity. }
  split; [apply mapSet_keys_present; exact Hhas|].
  split.
  { intros j Hj. split.
    - apply addModule_kept; [reflexivity..|exact Hj].
    - apply addModule_dependencies_kept; exact Hj. }
  intros settingsContent Hs. unfold buildDependencyGraph.
  unfold settingsFileOf in Hs. rewrite Hs. eauto.
Qed.

(** The second [a] of a listing [a, b, a]. *)
Lemma duplicate_name_overwrites_witness :
  let m := addModules joinSegments duplicateProject newManager [str "a"; str "b"] in
  mapGet (str "a") (moduleGraph (addModule joinSegments duplicateProject m (str "a")))
  = Some (length (heap m)).
Proof.
  intros m.
  refine (proj1 (duplicate_name_overwrites joinSegments duplicateProject m (str "a")
                   (str "version = '1.0.0'") _ _)); vm_compute; reflexivity.
Defined.

(** C2 as stated fails: with [a] listed twice the construction returns a
    graph, in which the name [a] leads to the third node and no longer to the
    first one, which [b] still depends on. *)
Lemma duplicate_module_is_not_an_error :
  exists m, buildDependencyGraph joinSegments duplicateProject newManager = Ok m /\
            moduleGraph m = [(str "a", 2); (str "b", 1)] /\
            length (heap m) = 3 /\
            field dependencies (heap m) 1 = Some [0].
Proof. eexists. split; [vm_compute; reflexivity|]. repeat split. Qed.

(** C9.  The node made for a name [F] gets an edge for exactly those of its
    declared dependencies that the graph holds when [F] is processed, [F]
    itself included, and keeps these edges whatever is listed after it; a
    declared dependency [T] that is not in the graph at that moment leaves no
    edge.  So the edges depend on the order of the listing: [b], which
    declares [a], has the edge when [a] is listed first and none when [a] is
    listed second. *)
Theorem edges_only_to_modules_listed_before (pathJoin : jsstring -> jsstring -> jsstring)
    (files : Files) (root : jsstring) (dry : bool) (before : list jsstring)
    (F : jsstring) (after : list jsstring) (buildContent : jsstring) :
  let m1 := addModules pathJoin files (constructor root dry) before in
  let f := length (heap m1) in
  let m3 := addModules pathJoin files (addModule pathJoin files m1 F) after in
  files (buildFileOf pathJoin m1 F) = Some buildContent ->
  (exists ds, field dependencies (heap m3) f = Some ds /\
     (forall target, target ∈ ds <->
        exists dep, dep ∈ extractDependencies buildContent /\
                    (dep = F /\ target = f \/
                     dep <> F /\ mapGet dep (moduleGraph m1) = Some target)) /\
     (forall T target, T <> F -> mapHas T (moduleGraph m1) = false ->
        target ∈ ds -> field name (heap m3) target <> Some T)) /\
  field dependencies
    (heap (addModules joinSegments chainProject newManager [str "a"; str "b"])) 1 = Some [0] /\
  field dependencies
    (heap (addModules joinSegments chainProject newManager [str "b"; str "a"])) 0 = Some [].
Proof.
  intros m1 f m3 Hfile. split; [|split; reflexivity].
  pose proof (addModule_length _ _ _ _ _ Hfile) as Hlen. fold f in Hlen.
  assert (Hnamed : graphNamed pathJoin files m1).
  { apply addModules_graphNamed, constructor_graphNamed. }
  assert (Hds : field dependencies (heap m3) f =
                Some (linkedDependencies (mapSet F f (moduleGraph m1))
                                         (extractDependencies buildContent))).
  { subst m3. rewrite addModules_dependencies_kept by (rewrite Hlen; subst f; lia).
    apply addModule_new_dependencies. exact Hfile. }
  assert (Hmem : forall target,
            target ∈ linkedDependencies (mapSet F f (moduleGraph m1))
                                        (extractDependencies buildContent) <->
            exists dep, dep ∈ extractDependencies buildContent /\
                        (dep = F /\ target = f \/
                         dep <> F /\ mapGet dep (moduleGraph m1) = Some target)).
  { intros target. unfold linkedDependencies. rewrite elem_of_linked. split.
    - intros [H|(dep & Hin & Hget)]; [apply elem_of_nil in H; contradiction|].
      exists dep. split; [exact Hin|]. rewrite mapGet_mapSet in Hget.
      case_bool_decide as HF; [left|right]; split; congruence.
    - intros (dep & Hin & H). right. exists dep. split; [exact Hin|].
      rewrite mapGet_mapSet. destruct H as [[-> ->]|[Hne Hget]].
      + rewrite bool_decide_eq_true_2 by reflexivity. reflexivity.
      + rewrite bool_decide_eq_false_2 by congruence. exact Hget. }
  eexists. split; [exact Hds|]. split; [exact Hmem|].
  intros T target HT Hhas Hin. apply Hmem in Hin as (dep & _ & H).
  apply mapHas_false in Hhas.
  assert (Hstatic : forall j, j < S f ->
            field name (heap m3) j = field name (heap (addModule pathJoin files m1 F)) j).
  { intros j Hj. subst m3. apply addModules_kept; [reflexivity..|lia]. }
  destruct H as [[-> ->]|[Hne Hget]].
  - rewrite Hstatic by lia. unfold f.
    rewrite (addModule_new _ _ name _ _ _ ltac:(reflexivity) ltac:(reflexivity) Hfile).
    cbn. congruence.
  - pose proof (graphNamed_bound _ _ _ _ _ Hnamed Hget) as Hlt. fold f in Hlt.
    rewrite Hstatic by lia.
    rewrite addModule_kept by (reflexivity || exact Hlt).
    destruct (Hnamed dep target Hget) as [-> _]. congruence.
Qed.

(** The node of [c] in the chain listed in order: it has its edge to [b]. *)
Lemma edges_only_to_modules_listed_before_witness :
  exists ds,
    field dependencies
      (heap (addModules joinSegments chainProject
               (addModule joinSegments chainProject
                  (addModules joinSegments chainProject (constructor (str "root") false)
                     [str "a"; str "b"]) (str "c")) [])) 2 = Some ds /\
    (forall target, target ∈ ds <->
       exists dep, dep ∈ extractDependencies (str "version = '0.4.0'  implementation(project(':b'))") /\
                   (dep = str "c" /\ target = 2 \/
                    dep <> str "c" /\
                    mapGet dep (moduleGraph (addModules joinSegments chainProject
                                               (constructor (str "root") false)
                                               [str "a"; str "b"])) = Some target)).
Proof.
  destruct (edges_only_to_modules_listed_before joinSegments chainProject (str "root") false
              [str "a"; str "b"] (str "c") []
              (str "version = '0.4.0'  implementation(project(':b'))") eq_refl)
    as [(ds & Hds & Hmem & _) _].
  exists ds. split; [exact Hds|exact Hmem].
Defined.

(** ** The references of a built graph *)

Lemma edge_field (h : list ModuleNode) (a b : nat) :
  edge h a b <-> exists ds, field dependencies h a = Some ds /\ b ∈ ds.
Proof.
  unfold edge. split.
  - intros (n & Hn & Hb). exists (dependencies n). split; [apply field_Some; eauto|exact Hb].
  - intros (ds & Hds & Hb). apply field_Some in Hds as (n & Hn & <-). eauto.
Qed.

Lemma elem_of_mapValues_mapSet (key : jsstring) (value x : nat) (m : list (jsstring * nat)) :
  x ∈ mapValues (mapSet key value m) -> x = value \/ x ∈ mapValues m.
Proof.
  unfold mapValues. induction m as [|[k v] m IH]; cbn [mapSet map snd].
  - rewrite list_elem_of_singleton. auto.
  - destruct (bool_decide (k = key)); cbn [map snd]; rewrite !elem_of_cons.
    + tauto.
    + intros [->|H]; [auto|]. destruct (IH H); auto.
Qed.

Lemma mapGet_mapValues (key : jsstring) (value : nat) (m : list (jsstring * nat)) :
  mapGet key m = Some value -> value ∈ mapValues m.
Proof.
  unfold mapValues. induction m as [|[k v] m IH]; cbn [mapGet map snd]; [discriminate|].
  rewrite elem_of_cons. destruct (bool_decide (k = key)).
  - intros [= ->]. auto.
  - auto.
Qed.

Section BuildClosed.

Variable pathJoin : jsstring -> jsstring -> jsstring.
Variable files : Files.

Lemma addModule_graphClosed (m : Manager) (moduleName : jsstring) :
  graphClosed m -> graphClosed (addModule pathJoin files m moduleName).
Proof.
  intros [Hclosed Hroots].
  destruct (files (buildFileOf pathJoin m moduleName)) as [c|] eqn:Hfile.
  2:{ rewrite (addModule_missing _ _ _ _ Hfile). split; assumption. }
  pose proof (addModule_length _ _ _ _ _ Hfile) as Hlen.
  assert (Hvalues : forall v, v ∈ mapValues (moduleGraph (addModule pathJoin files m moduleName)) ->
            v < length (heap (addModule pathJoin files m moduleName))).
  { intros v Hv. rewrite (addModule_graph _ _ _ _ _ Hfile) in Hv.
    apply elem_of_mapValues_mapSet in Hv as [->|Hv]; [lia|].
    specialize (Hroots v Hv). lia. }
  split; [|exact Hvalues].
  intros a b Hedge. apply edge_field in Hedge as (ds & Hds & Hb).
  destruct (decide (a = length (heap m))) as [->|Hne].
  - rewrite (addModule_new_dependencies _ _ _ _ _ Hfile) in Hds. injection Hds as <-.
    unfold linkedDependencies in Hb. apply elem_of_linked in Hb as [Hb|(dep & _ & Hget)].
    + apply elem_of_nil in Hb. contradiction.
    + apply Hvalues. rewrite (addModule_graph _ _ _ _ _ Hfile).
      eapply mapGet_mapValues. exact Hget.
  - assert (Ha : a < length (heap m)).
    { apply field_Some in Hds as (n & Hn & _). apply lookup_lt_Some in Hn. lia. }
    rewrite addModule_dependencies_kept in Hds by exact Ha.
    assert (b < length (heap m)); [|lia].
    apply (Hclosed a b). apply edge_field. eauto.
Qed.

Lemma addModules_graphClosed (names : list jsstring) (m : Manager) :
  graphClosed m -> graphClosed (addModules pathJoin files m names).
Proof.
  revert m. induction names as [|x names IH]; intros m H; [exact H|].
  cbn [addModules fold_left]. apply IH, addModule_graphClosed, H.
Qed.

(** Every graph that the construction returns keeps its references inside
    the heap. *)
Lemma built_graphClosed (root : jsstring) (dry : bool) (m : Manager) :
  buildDependencyGraph pathJoin files (constructor root dry) = Ok m -> graphClosed m.
Proof.
  unfold buildDependencyGraph. destruct (files _) as [settings|]; [|discriminate].
  intros [= <-]. apply addModules_graphClosed. split.
  - intros a b (n & Hn & _). discriminate.
  - intros v Hv. apply elem_of_nil in Hv. contradiction.
Qed.

End BuildClosed.

(** ** The shape of a graph built from a listing without duplicates *)

Section BuildShape.

Variable pathJoin : jsstring -> jsstring -> jsstring.
Variable files : Files.

Lemma linkDependency_dependents (graph : list (jsstring * nat)) (node j : nat)
    (h : list ModuleNode) (dep : jsstring) :
  field dependents (linkDependency graph node h dep) j =
  (fun ds => if bool_decide (mapGet dep graph = Some j) then setAdd node ds else ds)
    <$> field dependents h j.
Proof.
  unfold linkDependency. destruct (mapGet dep graph) as [target|].
  - destruct (decide (target = j)) as [->|Hne].
    + rewrite bool_decide_eq_true_2 by reflexivity. rewrite field_alter_eq.
      change (fun n => dependents (addDependent node n)) with
        (fun n => setAdd node (dependents n)).
      pose proof (field_alter (fun n => setAdd node (dependents n)) (addDependency j) node j h
                    ltac:(reflexivity)) as H.
      unfold field in *. rewrite H. destruct (h !! j); reflexivity.
    + rewrite bool_decide_eq_false_2 by congruence.
      rewrite field_alter_ne by exact Hne. rewrite field_alter by reflexivity.
      unfold field. destruct (h !! j); reflexivity.
  - rewrite bool_decide_eq_false_2 by discriminate.
    unfold field. destruct (h !! j); reflexivity.
Qed.

(** The dependents of a node after the edges of a new node are made. *)
Lemma links_dependents (graph : list (jsstring * nat)) (node j : nat)
    (deps : list jsstring) (h : list ModuleNode) (ds : list nat) :
  field dependents h j = Some ds ->
  exists ds', field dependents (fold_left (linkDependency graph node) deps h) j = Some ds' /\
    forall d, d ∈ ds' <->
      d ∈ ds \/ (d = node /\ exists dep, dep ∈ deps /\ mapGet dep graph = Some j).
Proof.
  revert h ds. induction deps as [|dep deps IH]; intros h ds Hds; cbn [fold_left].
  - exists ds. split; [exact Hds|]. intros d. split; [auto|].
    intros [H|(_ & dep & H & _)]; [exact H|]. apply elem_of_nil in H. contradiction.
  - destruct (IH (linkDependency graph node h dep)
                (if bool_decide (mapGet dep graph = Some j) then setAdd node ds else ds))
      as (ds' & Hds' & Hmem).
    { rewrite linkDependency_dependents, Hds. reflexivity. }
    exists ds'. split; [exact Hds'|]. intros d. rewrite Hmem. split.
    + intros [H|(-> & dep' & Hin & Hget)].
      * case_bool_decide as Hj; [|auto].
        apply elem_of_setAdd in H as [->|H]; [|auto].
        right. split; [reflexivity|]. exists dep. split; [apply elem_of_cons; auto|exact Hj].
      * right. split; [reflexivity|]. exists dep'. split; [apply elem_of_cons; auto|exact Hget].
    + intros [H|(-> & dep' & Hin & Hget)].
      * left. case_bool_decide; [apply elem_of_setAdd; auto|exact H].
      * apply elem_of_cons in Hin as [->|Hin].
        -- left. rewrite bool_decide_eq_true_2 by exact Hget. apply elem_of_setAdd. auto.
        -- right. split; [reflexivity|]. eauto.
Qed.

(** One step, for a module that does not declare a dependency on itself. *)
Lemma addModule_builtShape (m : Manager) (moduleName : jsstring) :
  (forall buildContent, files (buildFileOf pathJoin m moduleName) = Some buildContent ->
     moduleName ∉ extractDependencies buildContent) ->
  builtShape m -> mapHas moduleName (moduleGraph m) = false ->
  builtShape (addModule pathJoin files m moduleName).
Proof.
  intros noSelfDependency (Hvalues & Hown & Hnamed & Hmirror & Hdependents & Hdecr) Hfresh.
  destruct (files (buildFileOf pathJoin m moduleName)) as [c|] eqn:Hfile.
  2:{ rewrite (addModule_missing _ _ _ _ Hfile). repeat (split; [assumption|]). assumption. }
  apply mapHas_false in Hfresh.
  pose proof (addModule_length _ _ _ _ _ Hfile) as Hlen.
  pose proof (addModule_graph _ _ _ _ _ Hfile) as Hgraph.
  set (m' := addModule pathJoin files m moduleName) in *.
  set (new := length (heap m)) in *.
  assert (Hname_old : forall j, j < new -> field name (heap m') j = field name (heap m) j).
  { intros j Hj. apply addModule_kept; [reflexivity..|exact Hj]. }
  assert (Hname_new : field name (heap m') new = Some moduleName).
  { unfold m', new.
    rewrite (addModule_new _ _ name _ _ _ ltac:(reflexivity) ltac:(reflexivity) Hfile).
    reflexivity. }
  assert (Hdeps_old : forall j, j < new ->
            field dependencies (heap m') j = field dependencies (heap m) j).
  { intros j Hj. apply addModule_dependencies_kept. exact Hj. }
  assert (Hdeps_new : field dependencies (heap m') new =
            Some (linkedDependencies (mapSet moduleName new (moduleGraph m))
                                     (extractDependencies c))).
  { apply addModule_new_dependencies. exact Hfile. }
  (* the targets of the new node are nodes made earlier *)
  assert (Htargets : forall t, t ∈ linkedDependencies (mapSet moduleName new (moduleGraph m))
                                     (extractDependencies c) ->
            exists dep, dep ∈ extractDependencies c /\ mapGet dep (moduleGraph m) = Some t).
  { intros t Ht. unfold linkedDependencies in Ht.
    apply elem_of_linked in Ht as [Ht|(dep & Hin & Hget)]; [apply elem_of_nil in Ht; contradiction|].
    rewrite mapGet_mapSet in Hget. case_bool_decide as Hk; [|eauto].
    subst dep. exfalso. exact (noSelfDependency c eq_refl Hin). }
  set (L := linkedDependencies (mapSet moduleName new (moduleGraph m))
                                 (extractDependencies c)) in *.
  assert (HL : forall j, j ∈ L <->
            exists dep, dep ∈ extractDependencies c /\
                        mapGet dep (mapSet moduleName new (moduleGraph m)) = Some j).
  { intros j. unfold L, linkedDependencies. rewrite elem_of_linked. split.
    - intros [H|H]; [apply elem_of_nil in H; contradiction|exact H].
    - auto. }
  (* the dependents after the step *)
  assert (Hdependents' : forall j ds,
            field dependents (heap m ++ [ {| name := moduleName;
                                             currentVersion := extractVersion c;
                                             newVersion := None; changeType := none;
                                             dependencies := []; dependents := [];
                                             path := pathJoin (rootDir m)
                                                       (replaceFirst 58 47 moduleName) |} ]) j
              = Some ds ->
            exists ds', field dependents (heap m') j = Some ds' /\
              forall d, d ∈ ds' <->
                d ∈ ds \/ (d = new /\ exists dep, dep ∈ extractDependencies c /\
                             mapGet dep (mapSet moduleName new (moduleGraph m)) = Some j)).
  { intros j ds Hds. unfold m', addModule. fold (buildFileOf pathJoin m moduleName).
    rewrite Hfile. cbn [heap]. apply links_dependents. exact Hds. }
  split; [|split; [|split; [|split; [|split]]]].
  - intros v Hv. rewrite Hgraph in Hv. apply elem_of_mapValues_mapSet in Hv as [->|Hv]; [lia|].
    specialize (Hvalues v Hv). lia.
  - intros a Ha. rewrite Hgraph, mapGet_mapSet.
    destruct (decide (a = new)) as [->|Hne].
    + rewrite Hname_new. cbn. rewrite bool_decide_eq_true_2 by reflexivity. reflexivity.
    + assert (Hlt : a < new) by lia. rewrite (Hname_old a Hlt).
      pose proof (Hown a Hlt) as Hget. case_bool_decide as Hk; [|exact Hget].
      rewrite <- Hk in Hget. congruence.
  - intros key node. rewrite Hgraph, mapGet_mapSet. case_bool_decide as Hk.
    + intros [= <-]. subst key. exact Hname_new.
    + intros Hget. rewrite Hname_old; [apply Hnamed; exact Hget|].
      apply Hvalues. eapply mapGet_mapValues. exact Hget.
  - (* the two directions of the edges agree *)
    intros a d na nd Ha Hd.
    pose proof (lookup_lt_Some _ _ _ Ha) as Hla. pose proof (lookup_lt_Some _ _ _ Hd) as Hld.
    rewrite Hlen in Hla, Hld.
    assert (Hfa : field dependents (heap m') a = Some (dependents na)) by (apply field_Some; eauto).
    assert (Hfd : field dependencies (heap m') d = Some (dependencies nd))
      by (apply field_Some; eauto).
    assert (Hold : forall j, j < new -> exists nj, heap m !! j = Some nj)
      by (intros j Hj; apply lookup_lt_is_Some_2; exact Hj).
    assert (Hdependents_a :
              forall x, x ∈ dependents na <->
                (a < new /\ exists na0, heap m !! a = Some na0 /\ x ∈ dependents na0) \/
                (x = new /\ a ∈ L)).
    { destruct (decide (a = new)) as [->|Hne].
      - destruct (Hdependents' new []) as (ds' & Hds' & Hmem).
        { unfold field. rewrite lookup_app_r by (unfold new; lia).
          unfold new. rewrite Nat.sub_diag. reflexivity. }
        assert (ds' = dependents na) by congruence. subst ds'.
        intros x. rewrite Hmem, <- HL. split.
        + intros [H|H]; [apply elem_of_nil in H; contradiction|auto].
        + intros [(Hlt & _)|H]; [lia|auto].
      - assert (Hlt : a < new) by lia. destruct (Hold a Hlt) as [na0 Hna0].
        destruct (Hdependents' a (dependents na0)) as (ds' & Hds' & Hmem).
        { rewrite field_app_l by exact Hlt. apply field_Some. eauto. }
        assert (ds' = dependents na) by congruence. subst ds'.
        intros x. rewrite Hmem, <- HL. split.
        + intros [H|H]; [left; eauto|auto].
        + intros [(_ & na1 & Hna1 & H)|H]; [|auto]. left. congruence. }
    rewrite Hdependents_a.
    destruct (decide (d = new)) as [->|Hne].
    + rewrite Hdeps_new in Hfd. injection Hfd as <-. fold L. split.
      * intros [(Hlt & na0 & Hna0 & Hx)|[_ H]]; [|exact H].
        pose proof (Hdependents a na0 new Hna0 Hx). lia.
      * auto.
    + assert (Hlt : d < new) by lia. destruct (Hold d Hlt) as [nd0 Hnd0].
      rewrite (Hdeps_old d Hlt) in Hfd.
      assert (Hdeps : dependencies nd = dependencies nd0).
      { unfold field in Hfd. rewrite Hnd0 in Hfd. cbn in Hfd. congruence. }
      rewrite Hdeps. split.
      * intros [(Hlta & na0 & Hna0 & Hx)|[H _]]; [|lia].
        apply (Hmirror a d na0 nd0 Hna0 Hnd0). exact Hx.
      * intros Hx. pose proof (Hdecr d nd0 a Hnd0 Hx) as Hlta.
        left. split; [lia|]. destruct (Hold a ltac:(lia)) as [na0 Hna0].
        exists na0. split; [exact Hna0|]. apply (Hmirror a d na0 nd0 Hna0 Hnd0). exact Hx.
  - (* the dependents are nodes of the heap *)
    intros a na d Ha Hd. rewrite Hlen.
    pose proof (lookup_lt_Some _ _ _ Ha) as Hla. rewrite Hlen in Hla.
    assert (Hfa : field dependents (heap m') a = Some (dependents na)) by (apply field_Some; eauto).
    destruct (decide (a = new)) as [->|Hne].
    + destruct (Hdependents' new []) as (ds' & Hds' & Hmem).
      { unfold field. rewrite lookup_app_r by (unfold new; lia).
        unfold new. rewrite Nat.sub_diag. reflexivity. }
      assert (ds' = dependents na) by congruence. subst ds'.
      apply Hmem in Hd as [Hd|[-> _]]; [apply elem_of_nil in Hd; contradiction|lia].
    + assert (Hlt : a < new) by lia.
      destruct (lookup_lt_is_Some_2 (heap m) a Hlt) as [na0 Hna0].
      destruct (Hdependents' a (dependents na0)) as (ds' & Hds' & Hmem).
      { rewrite field_app_l by exact Hlt. apply field_Some. eauto. }
      assert (ds' = dependents na) by congruence. subst ds'.
      apply Hmem in Hd as [Hd|[-> _]]; [|lia].
      pose proof (Hdependents a na0 d Hna0 Hd). lia.
  - (* every edge leads to a node made earlier *)
    intros a na b Ha Hb.
    pose proof (lookup_lt_Some _ _ _ Ha) as Hla. rewrite Hlen in Hla.
    assert (Hfa : field dependencies (heap m') a = Some (dependencies na))
      by (apply field_Some; eauto).
    destruct (decide (a = new)) as [->|Hne].
    + rewrite Hdeps_new in Hfa. injection Hfa as Hfa. rewrite <- Hfa in Hb.
      destruct (Htargets b Hb) as (dep & _ & Hget).
      apply Hvalues. eapply mapGet_mapValues. exact Hget.
    + assert (Hlt : a < new) by lia. rewrite (Hdeps_old a Hlt) in Hfa.
      apply field_Some in Hfa as (na0 & Hna0 & Heq). rewrite <- Heq in Hb.
      exact (Hdecr a na0 b Hna0 Hb).
Qed.

Lemma addModules_builtShape (names : list jsstring) (m : Manager) :
  (forall x buildContent, x ∈ names ->
     files (buildFileOf pathJoin m x) = Some buildContent ->
     x ∉ extractDependencies buildContent) ->
  builtShape m -> NoDup names ->
  (forall x, x ∈ names -> mapHas x (moduleGraph m) = false) ->
  builtShape (addModules pathJoin files m names).
Proof.
  revert m. induction names as [|x names IH]; intros m Hself Hshape Hnd Hfresh; [exact Hshape|].
  cbn [addModules fold_left]. apply NoDup_cons in Hnd as [Hx Hnd].
  apply IH; [| |exact Hnd|].
  - intros y c Hy.
    rewrite (buildFileOf_rootDir pathJoin m _ y (addModule_rootDir pathJoin files m x)).
    apply Hself. apply elem_of_cons; auto.
  - apply addModule_builtShape; [|exact Hshape|].
    + intros c. apply Hself. apply elem_of_cons; auto.
    + apply Hfresh. apply elem_of_cons; auto.
  - intros y Hy.
    destruct (files (buildFileOf pathJoin m x)) as [c|] eqn:Hfile.
    + rewrite (addModule_graph _ _ _ _ _ Hfile). apply mapHas_false.
      rewrite mapGet_mapSet, bool_decide_eq_false_2 by (intros ->; contradiction).
      apply mapHas_false, Hfresh. apply elem_of_cons; auto.
    + rewrite (addModule_missing _ _ _ _ Hfile). apply Hfresh. apply elem_of_cons; auto.
Qed.

End BuildShape.

(** ** Loops *)

Lemma forEach_app {A S : Type} (body : A -> S -> Result S) (l1 l2 : list A) (s : S) :
  forEach body (l1 ++ l2) s = (s' ← forEach body l1 s; forEach body l2 s').
Proof.
  revert s. induction l1 as [|x l1 IH]; intros s; cbn [app forEach]; [reflexivity|].
  destruct (body x s) as [s'| |]; cbn; [apply IH|reflexivity..].
Qed.

(** A relation that every round of a loop respects holds between the state
    before the loop and the state after it. *)
Lemma forEach_ind {A S : Type} (R : S -> S -> Prop) (body : A -> S -> Result S)
    (l : list A) (s s' : S) :
  (forall s, R s s) -> (forall s1 s2 s3, R s1 s2 -> R s2 s3 -> R s1 s3) ->
  (forall x s s', x ∈ l -> body x s = Ok s' -> R s s') ->
  forEach body l s = Ok s' -> R s s'.
Proof.
  intros Hrefl Htrans. revert s. induction l as [|x l IH]; intros s Hbody; cbn [forEach].
  - intros [= <-]. apply Hrefl.
  - destruct (body x s) as [s1| |] eqn:Hx; cbn; [|discriminate..].
    intros Hrest. eapply Htrans.
    + eapply Hbody; [apply elem_of_cons; left; reflexivity|exact Hx].
    + apply IH; [|exact Hrest]. intros y t t' Hy. apply Hbody. apply elem_of_cons; auto.
Qed.

(** ** The calculation and the fields it leaves alone *)

Lemma analyzeChanges_kept {B : Type} (proj : ModuleNode -> B) (history : History)
    (m : Manager) :
  (forall c n, proj (setChangeType c n) = proj n) ->
  kept proj (heap m) (heap (analyzeChanges history m)).
Proof.
  intros Hc. unfold analyzeChanges, withHeap. cbn [heap].
  apply kept_fold_left. intros h x. apply kept_alter. intros n. apply Hc.
Qed.

Lemma updateDependents_kept {B : Type} (proj : ModuleNode -> B) (node : ModuleNode)
    (c : ChangeType) (h : list ModuleNode) :
  (forall c n, proj (setChangeType c n) = proj n) ->
  kept proj h (updateDependents node c h).
Proof.
  intros Hc. unfold updateDependents. apply kept_fold_left. intros h' x.
  apply kept_alter. intros n. destruct (_ || _); [apply Hc|reflexivity].
Qed.

Lemma calculateNode_kept {B : Type} (proj : ModuleNode -> B) (node : nat)
    (h h' : list ModuleNode) :
  (forall c n, proj (setChangeType c n) = proj n) ->
  (forall v n, proj (setNewVersion v n) = proj n) ->
  calculateNode node h = Ok h' -> kept proj h h'.
Proof.
  intros Hc Hv. unfold calculateNode.
  destruct (h !! node) as [n|]; [|discriminate].
  destruct (changeType n).
  - destruct (someDependencyMajor h n).
    + destruct (incrementVersion _ _) as [v| |]; cbn; [|discriminate..].
      intros [= <-]. apply kept_alter. intros; apply Hv.
    + intros [= <-]. apply kept_alter. intros; apply Hv.
  - destruct (incrementVersion _ _) as [v| |]; cbn; [|discriminate..].
    intros [= <-]. apply kept_alter. intros; apply Hv.
  - destruct (incrementVersion _ _) as [v| |]; cbn; [|discriminate..].
    intros [= <-]. apply kept_alter. intros; apply Hv.
  - destruct (incrementVersion _ _) as [v| |]; cbn; [|discriminate..].
    intros [= <-]. eapply kept_trans; [apply kept_alter; intros; apply Hv|].
    apply updateDependents_kept. exact Hc.
Qed.

Lemma calculateNodes_kept {B : Type} (proj : ModuleNode -> B) (order : list nat)
    (h h' : list ModuleNode) :
  (forall c n, proj (setChangeType c n) = proj n) ->
  (forall v n, proj (setNewVersion v n) = proj n) ->
  forEach calculateNode order h = Ok h' -> kept proj h h'.
Proof.
  intros Hc Hv. apply (forEach_ind (kept proj)).
  - apply kept_refl.
  - apply kept_trans.
  - intros x s s' _. apply calculateNode_kept; assumption.
Qed.

Lemma topologicalSort_frame (m m' : Manager) :
  topologicalSort m = Ok m' ->
  heap m' = heap m /\ moduleGraph m' = moduleGraph m /\ rootDir m' = rootDir m /\
  dryRun m' = dryRun m.
Proof.
  unfold topologicalSort. destruct (visitRoots _ _ _) as [st| |]; cbn; [|discriminate..].
  intros [= <-]. repeat split.
Qed.

Lemma calculateNewVersions_frame (m m' : Manager) :
  calculateNewVersions m = Ok m' ->
  moduleGraph m' = moduleGraph m /\ rootDir m' = rootDir m /\ dryRun m' = dryRun m /\
  exists sorted, topologicalSort m = Ok sorted /\
                 moduleOrder m' = moduleOrder sorted /\
                 forEach calculateNode (moduleOrder sorted) (heap m) = Ok (heap m').
Proof.
  unfold calculateNewVersions.
  destruct (topologicalSort m) as [sorted| |] eqn:Hs; cbn; [|discriminate..].
  destruct (topologicalSort_frame _ _ Hs) as (Hh & Hg & Hr & Hd).
  rewrite Hh.
  destruct (forEach calculateNode _ _) as [h| |] eqn:Hc; cbn; [|discriminate..].
  intros [= <-]. cbn. repeat split; try assumption. exists sorted. repeat split. exact Hc.
Qed.

(** *** New versions come from current versions *)

Lemma noNewVersion_derived (h : list ModuleNode) : noNewVersion h -> versionsDerived h.
Proof.
  intros Hno j current v' _ Hv. apply field_Some in Hv as (n & Hn & Hv).
  rewrite (Hno j n Hn) in Hv. discriminate.
Qed.

Lemma versionsDerived_kept (h h' : list ModuleNode) :
  kept currentVersion h h' -> kept newVersion h h' ->
  versionsDerived h -> versionsDerived h'.
Proof.
  intros Hc Hv Hd j current v'. rewrite Hc, Hv. apply Hd.
Qed.

(** Writing [v] into the node [node] keeps the invariant when [v] comes from
    the current version of that node. *)
Lemma versionsDerived_set (h : list ModuleNode) (node : nat) (n : ModuleNode) (v : jsstring) :
  h !! node = Some n ->
  (v = currentVersion n \/
   exists type, type ∈ [str "major"; str "minor"; str "patch"] /\
                incrementVersion (currentVersion n) type = Ok v) ->
  versionsDerived h -> versionsDerived (alter (setNewVersion v) node h).
Proof.
  intros Hn Hv Hd j current v'.
  rewrite (field_alter currentVersion) by reflexivity.
  destruct (decide (node = j)) as [<-|Hne].
  - rewrite field_alter_eq, Hn. cbn. intros Hcur [= <-].
    apply field_Some in Hcur as (n' & Hn' & <-).
    assert (n' = n) by congruence. subst n'. exact Hv.
  - rewrite field_alter_ne by exact Hne. apply Hd.
Qed.

Lemma calculateNode_derived (node : nat) (h h' : list ModuleNode) :
  calculateNode node h = Ok h' -> versionsDerived h -> versionsDerived h'.
Proof.
  unfold calculateNode. destruct (h !! node) as [n|] eqn:Hn; [|discriminate].
  assert (Hbump : forall type v, type ∈ [str "major"; str "minor"; str "patch"] ->
            incrementVersion (currentVersion n) type = Ok v ->
            versionsDerived h -> versionsDerived (alter (setNewVersion v) node h)).
  { intros type v Hin Hv. apply (versionsDerived_set _ _ _ _ Hn). right. eauto. }
  assert (Hmajor : str "major" ∈ [str "major"; str "minor"; str "patch"])
    by (apply elem_of_cons; auto).
  assert (Hminor : str "minor" ∈ [str "major"; str "minor"; str "patch"])
    by (rewrite !elem_of_cons; auto).
  assert (Hpatch : str "patch" ∈ [str "major"; str "minor"; str "patch"])
    by (rewrite !elem_of_cons; auto).
  destruct (changeType n).
  - destruct (someDependencyMajor h n).
    + destruct (incrementVersion _ _) as [v| |] eqn:Hv; cbn; [|discriminate..].
      intros [= <-]. eauto.
    + intros [= <-]. apply (versionsDerived_set _ _ _ _ Hn). left. reflexivity.
  - destruct (incrementVersion _ _) as [v| |] eqn:Hv; cbn; [|discriminate..].
    intros [= <-]. eauto.
  - destruct (incrementVersion _ _) as [v| |] eqn:Hv; cbn; [|discriminate..].
    intros [= <-]. eauto.
  - destruct (incrementVersion _ _) as [v| |] eqn:Hv; cbn; [|discriminate..].
    intros [= <-] Hd.
    eapply versionsDerived_kept; [apply updateDependents_kept; reflexivity..|]. eauto.
Qed.

Lemma calculateNodes_derived (order : list nat) (h h' : list ModuleNode) :
  forEach calculateNode order h = Ok h' -> versionsDerived h -> versionsDerived h'.
Proof.
  revert h. induction order as [|x order IH]; intros h; cbn [forEach].
  - intros [= <-]. auto.
  - destruct (calculateNode x h) as [h1| |] eqn:Hx; cbn; [|discriminate..].
    intros Hrest Hd. eapply IH; [exact Hrest|]. eapply calculateNode_derived; eassumption.
Qed.

(** ** The default version *)

(** C10.  When the text of a build file has no version declaration,
    [extractVersion] returns [0.1.0] and throws nothing; the node of that
    module carries [0.1.0] as its current version through the analysis of
    the changes and the calculation, and the new version calculated for it
    is [0.1.0] or a bump of [0.1.0]. *)
Theorem default_version_without_declaration
    (pathJoin : jsstring -> jsstring -> jsstring) (files : Files) (history : History)
    (root : jsstring) (dry : bool) (m : Manager) (moduleName : jsstring) (node : nat)
    (buildContent : jsstring) :
  analyse pathJoin files history (constructor root dry) = Ok m ->
  mapGet moduleName (moduleGraph m) = Some node ->
  files (buildFileOf pathJoin m moduleName) = Some buildContent ->
  ~ hasVersionDeclaration buildContent ->
  extractVersion buildContent = str "0.1.0" /\
  field currentVersion (heap m) node = Some (str "0.1.0") /\
  (forall v', field newVersion (heap m) node = Some (Some v') ->
     v' ∈ [str "0.1.0"; str "1.0.0"; str "0.2.0"; str "0.1.1"]).
Proof.
  intros Hrun Hget Hfile Hno.
  pose proof (extractVersion_default _ Hno) as Hdefault.
  split; [exact Hdefault|].
  unfold analyse, buildDependencyGraph in Hrun.
  destruct (files (pathJoin (rootDir (constructor root dry)) (str "settings.gradle.kts")))
    as [settingsContent|]; [|discriminate].
  cbn [mbind Result_bind] in Hrun.
  set (built := addModules pathJoin files (constructor root dry)
                  (matchAll includeAt 0 settingsContent)) in *.
  destruct (detectCyclicDependencies built) as [[]| |]; [|discriminate..].
  cbn [mbind Result_bind] in Hrun.
  destruct (calculateNewVersions_frame _ _ Hrun) as (Hg & Hr & _ & sorted & _ & _ & Hcalc).
  assert (Hnamed : graphNamed pathJoin files built)
    by apply addModules_graphNamed, constructor_graphNamed.
  assert (Hnone : noNewVersion (heap built)).
  { apply addModules_noNewVersion. intros j n H. discriminate. }
  cbn [moduleGraph analyzeChanges withHeap rootDir] in Hg, Hr.
  rewrite Hg in Hget. destruct (Hnamed _ _ Hget) as (_ & c & Hc & Hver).
  rewrite (buildFileOf_rootDir pathJoin built m moduleName Hr) in Hfile.
  assert (c = buildContent) by congruence. subst c.
  assert (Hcur : field currentVersion (heap m) node = Some (str "0.1.0")).
  { rewrite (calculateNodes_kept currentVersion _ _ _ ltac:(reflexivity) ltac:(reflexivity) Hcalc).
    rewrite (analyzeChanges_kept currentVersion history built ltac:(reflexivity)).
    rewrite Hver, Hdefault. reflexivity. }
  split; [exact Hcur|].
  intros v' Hv'.
  assert (Hd : versionsDerived (heap m)).
  { eapply calculateNodes_derived; [exact Hcalc|].
    eapply versionsDerived_kept;
      [apply analyzeChanges_kept; reflexivity..|apply noNewVersion_derived, Hnone]. }
  destruct (Hd node _ v' Hcur Hv') as [->|(type & Hin & Hinc)].
  - apply elem_of_cons. auto.
  - rewrite !elem_of_cons, elem_of_nil in Hin.
    destruct Hin as [->|[->|[->|[]]]]; vm_compute in Hinc; injection Hinc as <-;
      rewrite !elem_of_cons; auto.
Qed.

(** The module [c] of a project whose build file for [c] sets no version. *)
Lemma default_version_without_declaration_witness :
  extractVersion (str "implementation(project(':b'))") = str "0.1.0" /\
  (exists m, analyse joinSegments
               (fileTable [("root/settings.gradle.kts", "include('b') include('c')");
                           ("root/b/build.gradle.kts", "version = '2.1.3'");
                           ("root/c/build.gradle.kts", "implementation(project(':b'))")]%string)
               noCommits (constructor (str "root") false) = Ok m /\
             field currentVersion (heap m) 1 = Some (str "0.1.0")).
Proof.
  pose (files := fileTable [("root/settings.gradle.kts", "include('b') include('c')");
                            ("root/b/build.gradle.kts", "version = '2.1.3'");
                            ("root/c/build.gradle.kts", "implementation(project(':b'))")]%string).
  destruct (analyse joinSegments files noCommits (constructor (str "root") false))
    as [m| |] eqn:Hrun; [|vm_compute in Hrun; discriminate..].
  assert (Hget : mapGet (str "c") (moduleGraph m) = Some 1).
  { vm_compute in Hrun. injection Hrun as <-. reflexivity. }
  assert (Hno : ~ hasVersionDeclaration (str "implementation(project(':b'))")).
  { apply search_versionAt_None. reflexivity. }
  destruct (default_version_without_declaration joinSegments files noCommits (str "root")
              false m (str "c") 1 (str "implementation(project(':b'))") Hrun Hget
              ltac:(vm_compute in Hrun; injection Hrun as <-; reflexivity) Hno)
    as (H1 & H2 & _).
  split; [exact H1|]. exists m. split; [exact Hrun|exact H2].
Defined.

(** ** Writing the versions back *)

Section Persist.

Variable pathJoin : jsstring -> jsstring -> jsstring.

Lemma updateGradleVersion_apply (m : Manager) (n : ModuleNode) (fs : FileSystem) :
  dryRun m = false ->
  is_Some (contents fs (pathJoin (path n) (str "build.gradle.kts"))) ->
  exists text,
    updateGradleVersion pathJoin m n fs =
    Ok (writeFileSync (pathJoin (path n) (str "build.gradle.kts")) text fs,
        Some (pathJoin (path n) (str "build.gradle.kts"))).
Proof.
  intros Hdry [content Hc]. unfold updateGradleVersion. rewrite Hc, Hdry. eauto.
Qed.

Lemma writeFileSync_keeps (file text : jsstring) (fs : FileSystem) (p : jsstring) :
  is_Some (contents fs p) -> is_Some (contents (writeFileSync file text fs) p).
Proof. intros H. cbn. case_bool_decide; [eauto|exact H]. Qed.

(** The loop over [moduleOrder], started in any state. *)
Lemma updateVersionFiles_loop (m : Manager) (order : list nat) :
  dryRun m = false ->
  forall (fs : FileSystem) (modifiedFiles : list jsstring),
  (forall node, node ∈ order ->
     exists n, heap m !! node = Some n /\
               is_Some (contents fs (pathJoin (path n) (str "build.gradle.kts")))) ->
  exists fs' modifiedFiles',
    forEach (fun node '(fs, modifiedFiles) =>
               match heap m !! node with
               | None => Stuck
               | Some n =>
                   if truthy (newVersion n) then
                     '(fs, file) ← updateGradleVersion pathJoin m n fs;
                     Ok (fs, if truthy file then modifiedFiles ++ [default [] file]
                             else modifiedFiles)
                   else Ok (fs, modifiedFiles)
               end) order (fs, modifiedFiles) = Ok (fs', modifiedFiles') /\
    map fst (written fs') = rev (filesToPersist pathJoin m order) ++ map fst (written fs).
Proof.
  intros Hdry. induction order as [|node order IH]; intros fs modifiedFiles Hread.
  - exists fs, modifiedFiles. split; reflexivity.
  - destruct (Hread node ltac:(apply elem_of_cons; auto)) as (n & Hn & Hfile).
    cbn [forEach filesToPersist omap list_omap]. rewrite Hn. cbn [mbind option_bind].
    destruct (truthy (newVersion n)) eqn:Ht.
    + destruct (updateGradleVersion_apply m n fs Hdry Hfile) as [text Hupd].
      rewrite Hupd. cbn [mbind Result_bind].
      edestruct (IH (writeFileSync (pathJoin (path n) (str "build.gradle.kts")) text fs))
        as (fs' & files' & Hloop & Hw).
      { intros node' Hin. destruct (Hread node' ltac:(apply elem_of_cons; auto))
          as (n' & Hn' & Hfile').
        exists n'. split; [exact Hn'|]. apply writeFileSync_keeps. exact Hfile'. }
      exists fs', files'. split; [exact Hloop|].
      rewrite Hw. cbn [written writeFileSync map fst rev].
      fold (filesToPersist pathJoin m order). rewrite <- app_assoc. reflexivity.
    + cbn [mbind Result_bind].
      edestruct (IH fs) as (fs' & files' & Hloop & Hw).
      { intros node' Hin. apply Hread. apply elem_of_cons; auto. }
      exists fs', files'. split; [exact Hloop|exact Hw].
Qed.

End Persist.

(** C4, as the code has it.  In apply mode the build file of every node of
    the order that carries a new version is written, once and in that order,
    whether the new version differs from the current one or not: a node whose
    new version is its current version has its build file written too. *)
Theorem every_new_version_is_persisted (pathJoin : jsstring -> jsstring -> jsstring)
    (m : Manager) (fs : FileSystem) :
  dryRun m = false ->
  (forall node, node ∈ moduleOrder m ->
     exists n, heap m !! node = Some n /\
               is_Some (contents fs (pathJoin (path n) (str "build.gradle.kts")))) ->
  exists fs' modifiedFiles,
    updateVersionFiles pathJoin m fs = Ok (fs', modifiedFiles) /\
    map fst (written fs') =
      rev (filesToPersist pathJoin m (moduleOrder m)) ++ map fst (written fs) /\
    (forall node n, node ∈ moduleOrder m -> heap m !! node = Some n ->
       newVersion n = Some (currentVersion n) -> currentVersion n <> [] ->
       pathJoin (path n) (str "build.gradle.kts") ∈ map fst (written fs')).
Proof.
  intros Hdry Hread.
  destruct (updateVersionFiles_loop pathJoin m (moduleOrder m) Hdry fs [] Hread)
    as (fs' & files' & Hloop & Hw).
  exists fs', files'. split; [exact Hloop|]. split; [exact Hw|].
  intros node n Hin Hn Hsame Hne. rewrite Hw.
  apply list_elem_of_In, in_or_app. left. apply -> in_rev. apply list_elem_of_In.
  unfold filesToPersist. apply list_elem_of_omap. exists node. split; [exact Hin|].
  rewrite Hn. cbn. rewrite Hsame.
  destruct (currentVersion n); [contradiction|reflexivity].
Qed.

(** The chain after a breaking commit in [a]. *)
Lemma every_new_version_is_persisted_witness :
  exists fs' modifiedFiles,
    updateVersionFiles joinSegments (analysed chainProject breakingInA)
      (untouched chainProject) = Ok (fs', modifiedFiles) /\
    map fst (written fs') =
      rev (filesToPersist joinSegments (analysed chainProject breakingInA)
             (moduleOrder (analysed chainProject breakingInA))) ++ [].
Proof.
  destruct (every_new_version_is_persisted joinSegments (analysed chainProject breakingInA)
              (untouched chainProject)) as (fs' & files' & H1 & H2 & _).
  - reflexivity.
  - intros node Hin.
    assert (Horder : moduleOrder (analysed chainProject breakingInA) = [0; 1; 2])
      by (vm_compute; reflexivity).
    rewrite Horder, !elem_of_cons, elem_of_nil in Hin.
    destruct Hin as [->|[->|[->|[]]]]; eexists; (split; [vm_compute; reflexivity|]);
      vm_compute; eauto.
  - exists fs', files'. split; [exact H1|exact H2].
Defined.

(** C4 as stated fails: without any commit no version changes, and yet the
    three build files are written. *)
Lemma unchanged_versions_are_written :
  exists fs' modifiedFiles,
    updateVersionFiles joinSegments (analysed chainProject noCommits)
      (untouched chainProject) = Ok (fs', modifiedFiles) /\
    filesOfChangedVersions joinSegments (analysed chainProject noCommits)
      (moduleOrder (analysed chainProject noCommits)) = [] /\
    map fst (written fs') =
      [str "root/c/build.gradle.kts"; str "root/b/build.gradle.kts";
       str "root/a/build.gradle.kts"] /\
    field newVersion (heap (analysed chainProject noCommits)) 0 = Some (Some (str "1.0.0")) /\
    field currentVersion (heap (analysed chainProject noCommits)) 0 = Some (str "1.0.0").
Proof.
  eexists _, _. split; [vm_compute; reflexivity|]. repeat split; vm_compute; reflexivity.
Qed.

(** ** Walks *)

Lemma walk_nil (h : list ModuleNode) : walk h [].
Proof. intros i a b H. discriminate. Qed.

Lemma walk_one (h : list ModuleNode) (a : nat) : walk h [a].
Proof. intros [|i] x y H1 H2; discriminate. Qed.

Lemma walk_snoc (h : list ModuleNode) (w : list nat) (a b : nat) :
  walk h (w ++ [a]) -> edge h a b -> walk h ((w ++ [a]) ++ [b]).
Proof.
  intros Hw Hab i x y Hx Hy.
  destruct (decide (S i < length (w ++ [a]))) as [Hlt|Hge].
  - rewrite lookup_app_l in Hx, Hy by lia. eapply Hw; eassumption.
  - pose proof (lookup_lt_Some _ _ _ Hy) as Hlen.
    rewrite !length_app in *. cbn in *.
    assert (i = length w) by lia. subst i.
    rewrite lookup_app_l in Hx by (rewrite length_app; cbn; lia).
    rewrite lookup_app_r, Nat.sub_diag in Hx by lia.
    rewrite lookup_app_r in Hy by (rewrite length_app; cbn; lia).
    rewrite length_app in Hy. cbn in Hy.
    replace (S (length w) - (length w + 1)) with 0 in Hy by lia.
    cbn in Hx, Hy. congruence.
Qed.

Lemma walk_drop (h : list ModuleNode) (w : list nat) (i : nat) :
  walk h w -> walk h (drop i w).
Proof.
  intros Hw j a b Ha Hb. rewrite lookup_drop in Ha, Hb.
  apply (Hw (i + j)); [exact Ha|]. rewrite <- Nat.add_succ_r. exact Hb.
Qed.

Lemma walk_app_l (h : list ModuleNode) (w1 w2 : list nat) :
  walk h (w1 ++ w2) -> walk h w1.
Proof.
  intros Hw i a b Ha Hb. apply (Hw i).
  - apply lookup_app_l_Some. exact Ha.
  - apply lookup_app_l_Some. exact Hb.
Qed.

Lemma walk_cons_inv (h : list ModuleNode) (a b : nat) (w : list nat) :
  walk h (a :: b :: w) -> edge h a b /\ walk h (b :: w).
Proof.
  intros Hw. split.
  - apply (Hw 0); reflexivity.
  - intros i x y Hx Hy. apply (Hw (S i)); assumption.
Qed.

Lemma walk_cons (h : list ModuleNode) (a b : nat) (w : list nat) :
  edge h a b -> walk h (b :: w) -> walk h (a :: b :: w).
Proof.
  intros Hab Hw [|i] x y Hx Hy.
  - cbn in Hx, Hy. congruence.
  - apply (Hw i); assumption.
Qed.

(** A walk reaches each of its nodes from its first node. *)
Lemma walk_reach (h : list ModuleNode) (w : list nat) (a : nat) (i : nat) (b : nat) :
  walk h (a :: w) -> (a :: w) !! i = Some b -> rtc (edge h) a b.
Proof.
  revert a i. induction w as [|c w IH]; intros a i Hw Hi.
  - destruct i; [|discriminate]. injection Hi as <-. constructor.
  - destruct i as [|i]; [injection Hi as <-; constructor|].
    apply walk_cons_inv in Hw as [Hac Hw].
    eapply rtc_l; [exact Hac|]. eapply IH; [exact Hw|exact Hi].
Qed.

(** With at least one edge between them. *)
Lemma walk_reach_tc (h : list ModuleNode) (w : list nat) (a : nat) (i : nat) (b : nat) :
  walk h (a :: w) -> (a :: w) !! S i = Some b -> tc (edge h) a b.
Proof.
  intros Hw Hi. destruct w as [|c w]; [discriminate|].
  apply walk_cons_inv in Hw as [Hac Hw].
  eapply tc_rtc_r; [apply tc_once; exact Hac|]. eapply walk_reach; [exact Hw|exact Hi].
Qed.

Lemma nameOf_Some (h : list ModuleNode) (node : nat) (n : ModuleNode) :
  h !! node = Some n -> nameOf h node = name n.
Proof. intros H. unfold nameOf, field. rewrite H. reflexivity. Qed.

Lemma namesOf_app (h : list ModuleNode) (w1 w2 : list nat) :
  namesOf h (w1 ++ w2) = namesOf h w1 ++ namesOf h w2.
Proof. apply map_app. Qed.

Lemma elem_of_namesOf (h : list ModuleNode) (w : list nat) (x : jsstring) :
  x ∈ namesOf h w <-> exists a, a ∈ w /\ nameOf h a = x.
Proof.
  unfold namesOf. rewrite list_elem_of_In, in_map_iff.
  split; intros (a & H1 & H2); exists a; [rewrite list_elem_of_In|rewrite <- list_elem_of_In]; auto.
Qed.

(** The slice that the error message shows: the nodes from the first one
    that has the name of the last one. *)
Lemma sliceFrom_names (h : list ModuleNode) (anc : list nat) (node : nat) :
  nameOf h node ∈ namesOf h anc ->
  exists i, i < length anc /\
    sliceFrom (nameOf h node) (namesOf h anc ++ [nameOf h node]) =
      namesOf h (drop i (anc ++ [node])) /\
    nameOf h <$> (anc ++ [node]) !! i = Some (nameOf h node).
Proof.
  induction anc as [|a anc IH]; intros Hin.
  - apply elem_of_nil in Hin. contradiction.
  - cbn [namesOf map app sliceFrom].
    destruct (bool_decide_reflect (nameOf h a = nameOf h node)) as [Heq|Hne].
    + exists 0. split; [cbn; lia|]. split.
      * cbn [drop]. unfold namesOf. cbn [map]. rewrite map_app. reflexivity.
      * cbn. rewrite Heq. reflexivity.
    + cbn [namesOf map] in Hin. apply elem_of_cons in Hin as [Heq|Hin]; [congruence|].
      destruct (IH Hin) as (i & Hi & Hslice & Hname).
      exists (S i). split; [cbn; lia|]. split; [exact Hslice|exact Hname].
Qed.

(** ** The loops of the detection *)

Lemma anyOf_Ok {A : Type} (check : A -> Result bool) (l : list A) (b : bool) :
  (forall x r, x ∈ l -> check x = Ok r -> r = false) ->
  anyOf check l = Ok b -> b = false /\ forall x, x ∈ l -> check x = Ok false.
Proof.
  intros Hfalse. induction l as [|x l IH]; cbn [anyOf].
  - intros [= <-]. split; [reflexivity|]. intros x H. apply elem_of_nil in H. contradiction.
  - destruct (check x) as [r| |] eqn:Hx; cbn; [|discriminate..].
    assert (r = false) by (eapply Hfalse; [apply elem_of_cons; auto|exact Hx]). subst r.
    intros Hrest. destruct IH as [Hb Hall]; [|exact Hrest|].
    { intros y r Hy. apply Hfalse. apply elem_of_cons; auto. }
    split; [exact Hb|]. intros y Hy. apply elem_of_cons in Hy as [->|Hy]; auto.
Qed.

Lemma anyOf_Throw {A : Type} (check : A -> Result bool) (l : list A) (message : jsstring) :
  anyOf check l = Throw message -> exists x, x ∈ l /\ check x = Throw message.
Proof.
  induction l as [|x l IH]; cbn [anyOf]; [discriminate|].
  destruct (check x) as [[]| |] eqn:Hx; cbn; try discriminate.
  - intros Hrest. destruct (IH Hrest) as (y & Hy & Hcheck).
    exists y. split; [apply elem_of_cons; auto|exact Hcheck].
  - intros [= <-]. exists x. split; [apply elem_of_cons; auto|exact Hx].
Qed.

Lemma anyOf_not_Stuck {A : Type} (check : A -> Result bool) (l : list A) :
  (forall x, x ∈ l -> check x <> Stuck) -> anyOf check l <> Stuck.
Proof.
  induction l as [|x l IH]; intros Hall; cbn [anyOf]; [discriminate|].
  pose proof (Hall x ltac:(apply elem_of_cons; auto)) as Hx.
  destruct (check x) as [[]| |]; cbn; try discriminate; [|contradiction].
  apply IH. intros y Hy. apply Hall. apply elem_of_cons; auto.
Qed.

(** ** [detectCycle] *)

Section Detection.

Variable h : list ModuleNode.

(** A throw reports a cycle that lies on a walk through the ancestors and
    the node. *)
Lemma detectCycle_Throw (fuel : nat) : forall (node : nat) (anc : list nat) (message : jsstring),
  walk h (anc ++ [node]) ->
  detectCycle fuel h node (namesOf h anc) = Throw message ->
  exists ext i,
    walk h ((anc ++ [node]) ++ ext) /\
    namedCycle h (drop i ((anc ++ [node]) ++ ext)) /\
    message = cycleMessage (namesOf h (drop i ((anc ++ [node]) ++ ext))).
Proof.
  induction fuel as [|fuel IH]; intros node anc message Hw; cbn [detectCycle]; [discriminate|].
  destruct (h !! node) as [n|] eqn:Hn; [|discriminate].
  rewrite <- (nameOf_Some _ _ _ Hn).
  case_bool_decide as Hin.
  - intros [= <-]. destruct (sliceFrom_names h anc node Hin) as (i & Hi & Hslice & Hname).
    exists [], i. rewrite app_nil_r. split; [exact Hw|]. split; [|rewrite Hslice; reflexivity].
    split; [apply walk_drop; exact Hw|]. split.
    + rewrite length_drop, length_app. cbn. lia.
    + rewrite head_lookup, lookup_drop, Nat.add_0_r, Hname.
      rewrite last_lookup, lookup_drop, length_drop, length_app. cbn [length].
      replace (i + pred (length anc + 1 - i)) with (length anc) by lia.
      rewrite lookup_app_r, Nat.sub_diag by lia. reflexivity.
  - intros Hany. apply anyOf_Throw in Hany as (d & Hd & Hrec).
    replace (namesOf h anc ++ [nameOf h node]) with (namesOf h (anc ++ [node])) in Hrec
      by apply namesOf_app.
    assert (Hedge : edge h node d) by (exists n; auto).
    destruct (IH d (anc ++ [node]) message (walk_snoc _ _ _ _ Hw Hedge) Hrec)
      as (ext & i & Hwalk & Hcycle & Hmsg).
    exists (d :: ext), i.
    replace ((anc ++ [node]) ++ d :: ext) with (((anc ++ [node]) ++ [d]) ++ ext)
      by (rewrite <- !app_assoc; reflexivity).
    auto.
Qed.

(** A return means that no walk from the node meets a name twice, the names
    of the ancestors included; and the value returned is [false]. *)
Lemma detectCycle_Ok (fuel : nat) : forall (node : nat) (anc : list nat) (b : bool),
  NoDup (namesOf h anc) ->
  detectCycle fuel h node (namesOf h anc) = Ok b ->
  b = false /\ forall w, walk h (node :: w) -> NoDup (namesOf h (anc ++ node :: w)).
Proof.
  induction fuel as [|fuel IH]; intros node anc b Hnd; cbn [detectCycle]; [discriminate|].
  destruct (h !! node) as [n|] eqn:Hn; [|discriminate].
  rewrite <- (nameOf_Some _ _ _ Hn).
  case_bool_decide as Hin; [discriminate|].
  replace (namesOf h anc ++ [nameOf h node]) with (namesOf h (anc ++ [node]))
    by apply namesOf_app.
  assert (Hnd' : NoDup (namesOf h (anc ++ [node]))).
  { rewrite namesOf_app. apply NoDup_app. split; [exact Hnd|]. split; [|apply NoDup_singleton].
    intros x Hx Hx'. cbn in Hx'. apply list_elem_of_singleton in Hx'. congruence. }
  intros Hany. apply anyOf_Ok in Hany as [-> Hall].
  2:{ intros d r _ Hd. eapply IH; [exact Hnd'|exact Hd]. }
  split; [reflexivity|]. intros w Hw. destruct w as [|d w].
  - exact Hnd'.
  - apply walk_cons_inv in Hw as [(n' & Hn' & Hd) Hw].
    assert (n' = n) by congruence. subst n'.
    destruct (IH d (anc ++ [node]) false Hnd' (Hall d Hd)) as [_ Hwalks].
    specialize (Hwalks w Hw). rewrite <- app_assoc in Hwalks. exact Hwalks.
Qed.

(** The names of the nodes of the heap. *)
Lemma names_bound (path : list jsstring) :
  NoDup path -> (forall x, x ∈ path -> exists a, a < length h /\ nameOf h a = x) ->
  length path <= length h.
Proof.
  intros Hnd Hsub.
  assert (Hle : length path <= length (namesOf h (seq 0 (length h)))).
  { apply submseteq_length, NoDup_submseteq; [exact Hnd|].
    intros x Hx. destruct (Hsub x Hx) as (a & Ha & <-).
    apply elem_of_namesOf. exists a. split; [apply elem_of_seq; lia|reflexivity]. }
  unfold namesOf in Hle. rewrite length_map, length_seq in Hle. exact Hle.
Qed.

(** The bound on the depth is never reached in a closed heap. *)
Lemma detectCycle_not_Stuck (fuel : nat) : forall (node : nat) (path : list jsstring),
  closed h -> node < length h -> NoDup path ->
  (forall x, x ∈ path -> exists a, a < length h /\ nameOf h a = x) ->
  length h < fuel + length path ->
  detectCycle fuel h node path <> Stuck.
Proof.
  induction fuel as [|fuel IH]; intros node path Hclosed Hnode Hnd Hsub Hfuel.
  - pose proof (names_bound path Hnd Hsub). lia.
  - cbn [detectCycle]. destruct (lookup_lt_is_Some_2 h node Hnode) as [n Hn]. rewrite Hn.
    case_bool_decide as Hin; [discriminate|].
    apply anyOf_not_Stuck. intros d Hd. apply IH.
    + exact Hclosed.
    + apply (Hclosed node d). exists n. auto.
    + apply NoDup_app. split; [exact Hnd|]. split; [|apply NoDup_singleton].
      intros x Hx Hx'. apply list_elem_of_singleton in Hx'. congruence.
    + intros x Hx. apply elem_of_app in Hx as [Hx|Hx]; [auto|].
      apply list_elem_of_singleton in Hx. subst x.
      exists node. split; [exact Hnode|apply nameOf_Some; exact Hn].
    + rewrite length_app. cbn. lia.
Qed.

End Detection.

(** ** [detectCyclicDependencies] *)

Lemma detectLoop_Throw (check : nat -> Result bool) (roots : list nat) (message : jsstring) :
  forEach (fun node _ => _ ← check node; Ok ()) roots () = Throw message ->
  exists root, root ∈ roots /\ check root = Throw message.
Proof.
  induction roots as [|r roots IH]; cbn [forEach]; [discriminate|].
  destruct (check r) as [b| |] eqn:Hr; cbn; try discriminate.
  - intros H. destruct (IH H) as (root & Hin & Hc).
    exists root. split; [apply elem_of_cons; auto|exact Hc].
  - intros [= <-]. exists r. split; [apply elem_of_cons; auto|exact Hr].
Qed.

Lemma detectLoop_Ok (check : nat -> Result bool) (roots : list nat) (u : unit) :
  forEach (fun node _ => _ ← check node; Ok ()) roots () = Ok u ->
  forall root, root ∈ roots -> exists b, check root = Ok b.
Proof.
  induction roots as [|r roots IH]; cbn [forEach].
  - intros _ root H. apply elem_of_nil in H. contradiction.
  - destruct (check r) as [b| |] eqn:Hr; cbn; try discriminate.
    intros H root Hin. apply elem_of_cons in Hin as [->|Hin]; [eauto|apply IH; assumption].
Qed.

Lemma detectLoop_not_Stuck (check : nat -> Result bool) (roots : list nat) :
  (forall root, root ∈ roots -> check root <> Stuck) ->
  forEach (fun node _ => _ ← check node; Ok ()) roots () <> Stuck.
Proof.
  induction roots as [|r roots IH]; intros Hall; cbn [forEach]; [discriminate|].
  pose proof (Hall r ltac:(apply elem_of_cons; auto)) as Hr.
  destruct (check r) as [b| |]; cbn; [|discriminate|contradiction].
  apply IH. intros root Hin. apply Hall. apply elem_of_cons; auto.
Qed.

(** A cycle shows a name twice. *)
Lemma namedCycle_not_NoDup (h : list ModuleNode) (before w : list nat) :
  namedCycle h w -> ~ NoDup (namesOf h (before ++ w)).
Proof.
  intros (_ & Hlen & Hends) Hnd.
  rewrite namesOf_app in Hnd. apply NoDup_app in Hnd as (_ & _ & Hnd).
  rewrite head_lookup, last_lookup in Hends.
  destruct (lookup_lt_is_Some_2 w 0 ltac:(lia)) as [a Ha].
  destruct (lookup_lt_is_Some_2 w (pred (length w)) ltac:(lia)) as [b Hb].
  rewrite Ha, Hb in Hends. injection Hends as Hends.
  assert (H0 : namesOf h w !! 0 = Some (nameOf h a)).
  { unfold namesOf. rewrite lookup_map, Ha. reflexivity. }
  assert (H1 : namesOf h w !! pred (length w) = Some (nameOf h a)).
  { unfold namesOf. rewrite lookup_map, Hb, Hends. reflexivity. }
  pose proof (NoDup_lookup _ _ _ _ Hnd H0 H1). lia.
Qed.

(** With unique names a cycle of names is a node that reaches itself. *)
Lemma namedCycle_node (h : list ModuleNode) (w : list nat) :
  closed h -> uniqueNames h -> namedCycle h w ->
  exists a, head w = Some a /\ last w = Some a /\ tc (edge h) a a.
Proof.
  intros Hclosed Huniq (Hw & Hlen & Hends).
  destruct w as [|a w]; [cbn in Hlen; lia|].
  destruct (lookup_lt_is_Some_2 (a :: w) (S (pred (length w))) ltac:(cbn in *; lia)) as [b Hb].
  assert (Hlast : last (a :: w) = Some b).
  { rewrite last_lookup. cbn [length pred]. destruct w; [cbn in Hlen; lia|exact Hb]. }
  rewrite Hlast in Hends. cbn in Hends. injection Hends as Hends.
  pose proof (walk_reach_tc _ _ _ _ _ Hw Hb) as Htc.
  assert (Ha : a < length h).
  { destruct w as [|c w]; [cbn in Hlen; lia|].
    destruct (walk_cons_inv _ _ _ _ Hw) as [(n & Hn & _) _]. eapply lookup_lt_Some; exact Hn. }
  assert (Hb' : b < length h).
  { apply tc_rtc in Htc. apply rtc_inv_r in Htc as [<-|(c & _ & Hcb)]; [exact Ha|].
    eapply Hclosed; exact Hcb. }
  assert (a = b) by (apply Huniq; assumption). subst b.
  exists a. auto.
Qed.

(** Two walks that meet in a node make one walk. *)
Lemma walk_join (h : list ModuleNode) (l : list nat) (a : nat) (w : list nat) :
  walk h (l ++ [a]) -> walk h (a :: w) -> walk h (l ++ a :: w).
Proof.
  intros Hl Hw i x y Hx Hy.
  destruct (decide (S i <= length l)) as [Hle|Hgt].
  - apply (Hl i).
    + rewrite lookup_app_l in Hx by lia. rewrite lookup_app_l by lia. exact Hx.
    + destruct (decide (S i = length l)) as [Heq|Hne].
      * rewrite lookup_app_r in Hy by lia. rewrite lookup_app_r by lia.
        replace (S i - length l) with 0 in * by lia. exact Hy.
      * rewrite lookup_app_l in Hy by lia. rewrite lookup_app_l by lia. exact Hy.
  - rewrite lookup_app_r in Hx, Hy by lia.
    replace (S i - length l) with (S (i - length l)) in Hy by lia.
    exact (Hw _ _ _ Hx Hy).
Qed.

(** With unique names, the cycles of names that a walk from the graph runs
    into are the nodes, reachable from the graph, that reach themselves. *)
Lemma containsCycle_node (m : Manager) :
  closed (heap m) -> uniqueNames (heap m) ->
  (containsCycle m <->
   exists root a, root ∈ mapValues (moduleGraph m) /\
                  rtc (edge (heap m)) root a /\ tc (edge (heap m)) a a).
Proof.
  intros Hclosed Huniq. split.
  - intros (root & w & Hin & before & Hwalk & Hhead & Hcycle).
    destruct (namedCycle_node _ _ Hclosed Huniq Hcycle) as (a & Ha & _ & Htc).
    exists root, a. split; [exact Hin|]. split; [|exact Htc].
    destruct (before ++ w) as [|r rest] eqn:Hfull; [discriminate|].
    injection Hhead as ->.
    apply (walk_reach _ rest root (length before) a Hwalk).
    rewrite <- Hfull, lookup_app_r, Nat.sub_diag, <- head_lookup by lia. exact Ha.
  - intros (root & a & Hin & Hreach & Hloop).
    apply rtc_list in Hreach as (l1 & Hh1 & Hl1 & Hw1).
    apply tc_list in Hloop as (l2 & Hlen2 & Hh2 & Hl2 & Hw2).
    destruct l2 as [|a' l2]; [cbn in Hlen2; lia|]. injection Hh2 as ->.
    apply last_Some in Hl1 as [before ->].
    exists root, (a :: l2). split; [exact Hin|]. exists before. split; [|split].
    + apply walk_join; [exact Hw1|exact Hw2].
    + destruct before; [cbn in *; congruence|exact Hh1].
    + split; [exact Hw2|]. split; [lia|]. cbn [head]. rewrite Hl2. reflexivity.
Qed.

(** A failure of the check reports a cycle that a walk from the graph runs
    into. *)
Lemma detectCyclicDependencies_Throw (m : Manager) (message : jsstring) :
  detectCyclicDependencies m = Throw message ->
  exists root w, root ∈ mapValues (moduleGraph m) /\
                 cycleFrom (heap m) root w /\
                 message = cycleMessage (namesOf (heap m) w).
Proof.
  intros H. apply detectLoop_Throw in H as (root & Hin & Hd).
  destruct (detectCycle_Throw (heap m) _ root [] message (walk_one _ _) Hd)
    as (ext & i & Hwalk & Hcycle & Hmsg).
  exists root, (drop i (([] ++ [root]) ++ ext)). split; [exact Hin|]. split; [|exact Hmsg].
  exists (take i (([] ++ [root]) ++ ext)). rewrite take_drop. auto.
Qed.

(** A return of the check means that no walk from the graph runs into a
    cycle. *)
Lemma detectCyclicDependencies_Ok (m : Manager) :
  detectCyclicDependencies m = Ok () -> ~ containsCycle m.
Proof.
  intros H (root & w & Hin & before & Hwalk & Hhead & Hcycle).
  destruct (detectLoop_Ok _ _ _ H root Hin) as [b Hb].
  destruct (before ++ w) as [|r rest] eqn:Hfull; [discriminate|].
  injection Hhead as ->.
  destruct (detectCycle_Ok (heap m) _ root [] b (NoDup_nil_2) Hb) as [_ Hwalks].
  specialize (Hwalks rest Hwalk). cbn [app] in Hwalks. rewrite <- Hfull in Hwalks.
  exact (namedCycle_not_NoDup _ _ _ Hcycle Hwalks).
Qed.

(** The check returns or fails: its bound on the depth is enough. *)
Lemma detectCyclicDependencies_not_Stuck (m : Manager) :
  graphClosed m -> detectCyclicDependencies m <> Stuck.
Proof.
  intros [Hclosed Hroots]. apply detectLoop_not_Stuck. intros root Hin.
  apply detectCycle_not_Stuck; [exact Hclosed|auto|apply NoDup_nil_2| |cbn; lia].
  intros x Hx. apply elem_of_nil in Hx. contradiction.
Qed.

(** A well-formed graph passes the check exactly when no node reaches
    itself. *)
Lemma validated_acyclic (m : Manager) :
  wellFormed m -> (detectCyclicDependencies m = Ok () <-> acyclic (heap m)).
Proof.
  intros ((Hclosed & Hroots) & Huniq & Hall). split.
  - intros Hok a Hloop. apply (detectCyclicDependencies_Ok m Hok).
    apply containsCycle_node; [exact Hclosed|exact Huniq|].
    exists a, a. split; [|split; [constructor|exact Hloop]].
    apply Hall. apply tc_list in Hloop as (l & Hlen & Hhead & _ & Hsteps).
    destruct l as [|x [|y l]]; cbn in Hlen; try lia. injection Hhead as ->.
    destruct (Hsteps 0 a y eq_refl eq_refl) as (n & Hn & _).
    eapply lookup_lt_Some. exact Hn.
  - intros Hacyclic.
    destruct (detectCyclicDependencies m) as [[]|message|] eqn:H.
    + reflexivity.
    + exfalso. destruct (detectCyclicDependencies_Throw m message H) as (root & w & Hin & Hc & _).
      assert (Hcontains : containsCycle m) by (exists root, w; auto).
      apply containsCycle_node in Hcontains as (_ & a & _ & _ & Hloop); [|assumption..].
      exact (Hacyclic a Hloop).
    + exfalso. exact (detectCyclicDependencies_not_Stuck m (conj Hclosed Hroots) H).
Qed.

(** C6.  In a graph whose references stay inside the heap, the cycle check
    fails exactly when a walk along the dependency edges from a module of
    the graph comes back to a module it has passed, and returns otherwise.
    The message of the failure shows the names along such a cycle: the first
    and the last name are the same, and each module of the sequence has a
    dependency edge to the next one.  When no two nodes share a name, these
    cycles are the nodes, reachable from the graph, that reach themselves. *)
Theorem cycle_detection_correct (m : Manager) :
  graphClosed m ->
  ((exists message, detectCyclicDependencies m = Throw message) <-> containsCycle m) /\
  (detectCyclicDependencies m = Ok () <-> ~ containsCycle m) /\
  (forall message, detectCyclicDependencies m = Throw message ->
     exists root w, root ∈ mapValues (moduleGraph m) /\
                    cycleFrom (heap m) root w /\
                    message = cycleMessage (namesOf (heap m) w)) /\
  (uniqueNames (heap m) ->
     (containsCycle m <->
      exists root a, root ∈ mapValues (moduleGraph m) /\
                     rtc (edge (heap m)) root a /\ tc (edge (heap m)) a a)).
Proof.
  intros Hclosed.
  pose proof (detectCyclicDependencies_not_Stuck m Hclosed) as Hstuck.
  split; [|split; [|split]].
  - split.
    + intros [message H].
      destruct (detectCyclicDependencies_Throw m message H) as (root & w & H1 & H2 & _).
      exists root, w. auto.
    + intros Hc. destruct (detectCyclicDependencies m) as [[]|message|] eqn:H.
      * exfalso. exact (detectCyclicDependencies_Ok m H Hc).
      * eauto.
      * contradiction.
  - split; [apply detectCyclicDependencies_Ok|].
    intros Hno. destruct (detectCyclicDependencies m) as [[]|message|] eqn:H.
    + reflexivity.
    + exfalso. apply Hno.
      destruct (detectCyclicDependencies_Throw m message H) as (root & w & H1 & H2 & _).
      exists root, w. auto.
    + contradiction.
  - apply detectCyclicDependencies_Throw.
  - intros Huniq. apply containsCycle_node; [apply Hclosed|exact Huniq].
Qed.

(** ** The sort returns *)

Lemma filter_length_le {A : Type} (P Q : A -> Prop) `{!forall x, Decision (P x)}
    `{!forall x, Decision (Q x)} (l : list A) :
  (forall x, x ∈ l -> P x -> Q x) -> length (filter P l) <= length (filter Q l).
Proof.
  induction l as [|x l IH]; intros HPQ; [reflexivity|].
  assert (IH' : length (filter P l) <= length (filter Q l)).
  { apply IH. intros y Hy. apply HPQ. apply elem_of_cons; auto. }
  rewrite !filter_cons.
  destruct (decide (P x)) as [HP|HP]; destruct (decide (Q x)) as [HQ|HQ]; cbn; try lia.
  exfalso. apply HQ, HPQ; [apply elem_of_cons; auto|exact HP].
Qed.

Lemma filter_length_lt {A : Type} (P Q : A -> Prop) `{!forall x, Decision (P x)}
    `{!forall x, Decision (Q x)} (l : list A) (x : A) :
  (forall y, y ∈ l -> P y -> Q y) -> x ∈ l -> Q x -> ~ P x ->
  length (filter P l) < length (filter Q l).
Proof.
  induction l as [|y l IH]; intros HPQ Hx HQ HP; [apply elem_of_nil in Hx; contradiction|].
  assert (Hle : length (filter P l) <= length (filter Q l)).
  { apply filter_length_le. intros z Hz. apply HPQ. apply elem_of_cons; auto. }
  rewrite !filter_cons. apply elem_of_cons in Hx as [<-|Hx].
  - destruct (decide (P x)); [contradiction|]. destruct (decide (Q x)); [cbn; lia|contradiction].
  - assert (Hlt : length (filter P l) < length (filter Q l)).
    { apply IH; try assumption. intros z Hz. apply HPQ. apply elem_of_cons; auto. }
    destruct (decide (P y)) as [HPy|HPy]; destruct (decide (Q y)) as [HQy|HQy]; cbn; try lia.
    exfalso. apply HQy, HPQ; [apply elem_of_cons; auto|exact HPy].
Qed.

Section SortTotal.

Variable h : list ModuleNode.
Hypothesis Hclosed : closed h.

Lemma unvisited_mono (v v' : list jsstring) :
  (forall x, x ∈ v -> x ∈ v') -> length (unvisited h v') <= length (unvisited h v).
Proof. intros Hsub. apply filter_length_le. intros a _ Ha Hin. apply Ha, Hsub, Hin. Qed.

Lemma unvisited_enter (v : list jsstring) (node : nat) :
  node < length h -> nameOf h node ∉ v ->
  length (unvisited h (v ++ [nameOf h node])) < length (unvisited h v).
Proof.
  intros Hnode Hwhite. apply (filter_length_lt _ _ _ node).
  - intros a _ Ha Hin. apply Ha. apply elem_of_app. auto.
  - apply elem_of_seq. lia.
  - exact Hwhite.
  - intros Hnot. apply Hnot. apply elem_of_app. right. apply list_elem_of_singleton. reflexivity.
Qed.

Lemma unvisited_bound (v : list jsstring) : length (unvisited h v) <= length h.
Proof.
  unfold unvisited. etransitivity; [apply length_filter|]. rewrite length_seq. reflexivity.
Qed.

(** A loop of visits returns when each visit does. *)
Lemma visits_total (fuel : nat) :
  (forall node st, node < length h -> length (unvisited h st.1) < fuel ->
     exists st', visit fuel h node st = Ok st' /\ forall x, x ∈ st.1 -> x ∈ st'.1) ->
  forall nodes st, (forall d, d ∈ nodes -> d < length h) ->
    length (unvisited h st.1) < fuel ->
    exists st', forEach (visit fuel h) nodes st = Ok st' /\ forall x, x ∈ st.1 -> x ∈ st'.1.
Proof.
  intros Hvisit nodes. induction nodes as [|d nodes IH]; intros st Hvalid Hfuel; cbn [forEach].
  - exists st. auto.
  - destruct (Hvisit d st (Hvalid d ltac:(apply elem_of_cons; auto)) Hfuel) as (st1 & -> & Hmono).
    cbn [mbind Result_bind].
    destruct (IH st1) as (st' & Hloop & Hmono').
    + intros x Hx. apply Hvalid. apply elem_of_cons; auto.
    + pose proof (unvisited_mono _ _ Hmono). lia.
    + exists st'. split; [exact Hloop|]. auto.
Qed.

(** A visit returns when the bound on the depth exceeds the number of nodes
    not visited yet. *)
Lemma visit_total (fuel : nat) : forall node st,
  node < length h -> length (unvisited h st.1) < fuel ->
  exists st', visit fuel h node st = Ok st' /\ forall x, x ∈ st.1 -> x ∈ st'.1.
Proof.
  induction fuel as [|fuel IH]; intros node st Hnode Hfuel; [lia|].
  cbn [visit]. destruct (lookup_lt_is_Some_2 h node Hnode) as [n Hn]. rewrite Hn.
  case_bool_decide as Hin; [exists st; auto|].
  rewrite <- (nameOf_Some _ _ _ Hn) in *.
  destruct (visits_total fuel IH (dependencies n) (st.1 ++ [nameOf h node], st.2))
    as (st' & Hloop & Hmono).
  - intros d Hd. apply (Hclosed node d). exists n. auto.
  - cbn [fst]. pose proof (unvisited_enter st.1 node Hnode Hin). lia.
  - rewrite Hloop. cbn [mbind Result_bind]. eexists. split; [reflexivity|].
    cbn [fst]. intros x Hx. apply Hmono. cbn [fst]. apply elem_of_app. auto.
Qed.

End SortTotal.

(** ** The sort puts dependencies first *)

Lemma snoc_split {A : Type} (l before after : list A) (x y : A) :
  l ++ [y] = before ++ x :: after ->
  (after = [] /\ x = y /\ before = l) \/
  (exists after', after = after' ++ [y] /\ l = before ++ x :: after').
Proof.
  revert before. induction l as [|z l IH]; intros before Heq.
  - destruct before as [|b before]; cbn in Heq.
    + injection Heq as <- <-. auto.
    + injection Heq as _ Heq. destruct before; discriminate.
  - destruct before as [|b before]; cbn in Heq.
    + injection Heq as <- <-. right. exists l. auto.
    + injection Heq as <- Heq. destruct (IH before Heq) as [(-> & -> & ->)|(after' & -> & ->)].
      * auto.
      * right. exists after'. auto.
Qed.

Lemma dependenciesFirst_snoc (h : list ModuleNode) (order : list nat) (node : nat) :
  dependenciesFirst h order -> (forall d, edge h node d -> d ∈ order) ->
  dependenciesFirst h (order ++ [node]).
Proof.
  intros Hord Hdeps before x after Heq d Hd.
  destruct (snoc_split _ _ _ _ _ Heq) as [(-> & -> & ->)|(after' & -> & ->)].
  - apply Hdeps. exact Hd.
  - eapply Hord; [reflexivity|exact Hd].
Qed.

Section SortSpec.

Variable h : list ModuleNode.
Hypothesis Hclosed : closed h.
Hypothesis Huniq : uniqueNames h.
Hypothesis Hacyclic : acyclic h.

#[local] Abbreviation extends := (sortExtends h).

Lemma extends_refl (st : list jsstring * list nat) : sortedSoFar h st -> extends st st.
Proof.
  intros Hinv. split; [exact Hinv|]. split; [|auto].
  exists []. rewrite app_nil_r. split; [reflexivity|].
  intros a Ha. apply elem_of_nil in Ha. contradiction.
Qed.

Lemma extends_trans (st1 st2 st3 : list jsstring * list nat) :
  extends st1 st2 -> extends st2 st3 -> extends st1 st3.
Proof.
  intros (_ & (new1 & Hn1 & Hw1) & Hm1 & Hg1) (Hinv & (new2 & Hn2 & Hw2) & Hm2 & Hg2).
  split; [exact Hinv|]. split; [|split; auto].
  exists (new1 ++ new2). split; [rewrite Hn2, Hn1, app_assoc; reflexivity|].
  intros a Ha. apply elem_of_app in Ha as [Ha|Ha]; [auto|].
  intros Hin. exact (Hw2 a Ha (Hm1 _ Hin)).
Qed.

(** A loop of visits over nodes that no entered node can be among. *)
Lemma visits_spec (fuel : nat) :
  (forall node st st', node < length h -> sortedSoFar h st ->
     (forall a, entered h st a -> rtc (edge h) a node) ->
     visit fuel h node st = Ok st' ->
     extends st st' /\ (node ∈ st'.2 \/ entered h st node)) ->
  forall nodes st st', (forall d, d ∈ nodes -> d < length h) -> sortedSoFar h st ->
    (forall a d, entered h st a -> d ∈ nodes -> tc (edge h) a d) ->
    forEach (visit fuel h) nodes st = Ok st' ->
    extends st st' /\ forall d, d ∈ nodes -> d ∈ st'.2.
Proof.
  intros Hvisit nodes. induction nodes as [|d nodes IH]; intros st st' Hvalid Hinv Hreach;
    cbn [forEach].
  - intros [= <-]. split; [apply extends_refl; exact Hinv|].
    intros d Hd. apply elem_of_nil in Hd. contradiction.
  - destruct (visit fuel h d st) as [st1| |] eqn:Hd; cbn [mbind Result_bind]; [|discriminate..].
    intros Hrest.
    assert (Hin : d ∈ d :: nodes) by (apply elem_of_cons; auto).
    destruct (Hvisit d st st1 (Hvalid d Hin) Hinv) as [Hext Hdone]; [|exact Hd|].
    { intros a Ha. apply tc_rtc. apply Hreach; assumption. }
    destruct Hdone as [Hdone|Hgray].
    2:{ exfalso. apply (Hacyclic d). apply Hreach; assumption. }
    destruct Hext as (Hinv1 & (new1 & Hn1 & Hw1) & Hm1 & Hg1).
    destruct (IH st1 st') as [Hext' Hall]; [| | |exact Hrest|].
    + intros x Hx. apply Hvalid. apply elem_of_cons; auto.
    + exact Hinv1.
    + intros a x Ha Hx. apply Hreach; [apply Hg1; exact Ha|apply elem_of_cons; auto].
    + split.
      * eapply extends_trans; [|exact Hext']. split; [exact Hinv1|]. split; [eauto|]. auto.
      * intros x Hx. apply elem_of_cons in Hx as [->|Hx]; [|auto].
        destruct Hext' as (_ & (new2 & -> & _) & _). apply elem_of_app. auto.
Qed.

Lemma visit_spec (fuel : nat) : forall node st st',
  node < length h -> sortedSoFar h st ->
  (forall a, entered h st a -> rtc (edge h) a node) ->
  visit fuel h node st = Ok st' ->
  extends st st' /\ (node ∈ st'.2 \/ entered h st node).
Proof.
  induction fuel as [|fuel IH]; intros node st st' Hnode Hinv Hreach; cbn [visit]; [discriminate|].
  destruct (h !! node) as [n|] eqn:Hn; [|discriminate].
  rewrite <- (nameOf_Some _ _ _ Hn).
  case_bool_decide as Hin.
  - intros [= <-]. split; [apply extends_refl; exact Hinv|].
    destruct (decide (node ∈ st.2)); [auto|]. right. split; [exact Hnode|]. auto.
  - destruct (forEach (visit fuel h) (dependencies n) (st.1 ++ [nameOf h node], st.2))
      as [st2| |] eqn:Hloop; cbn [mbind Result_bind]; [|discriminate..].
    intros [= <-].
    destruct Hinv as (Hnodes & Hnd & Hord).
    assert (Hinv1 : sortedSoFar h (st.1 ++ [nameOf h node], st.2)).
    { split; [|split; assumption]. intros a Ha. destruct (Hnodes a Ha) as [Hlt Hv].
      split; [exact Hlt|]. cbn [fst]. apply elem_of_app. auto. }
    assert (Hentered1 : forall a, entered h (st.1 ++ [nameOf h node], st.2) a ->
              a = node \/ entered h st a).
    { intros a (Hlt & Hv & Ho). cbn [fst snd] in *.
      apply elem_of_app in Hv as [Hv|Hv]; [right; split; auto|].
      apply list_elem_of_singleton in Hv. left. apply Huniq; assumption. }
    destruct (visits_spec fuel IH (dependencies n) (st.1 ++ [nameOf h node], st.2) st2)
      as [Hext Hall]; [| | |exact Hloop|].
    + intros d Hd. apply (Hclosed node d). exists n. auto.
    + exact Hinv1.
    + intros a d Ha Hd. assert (Hedge : edge h node d) by (exists n; auto).
      destruct (Hentered1 a Ha) as [->|Hgray]; [apply tc_once; exact Hedge|].
      eapply tc_rtc_l; [apply Hreach; exact Hgray|apply tc_once; exact Hedge].
    + destruct Hext as ((Hnodes2 & Hnd2 & Hord2) & (new & Hnew & Hwhite) & Hmono & Hgray).
      cbn [fst snd] in *.
      assert (Hvisited : nameOf h node ∈ st2.1).
      { apply Hmono. apply elem_of_app. right. apply list_elem_of_singleton. reflexivity. }
      assert (Hfresh : node ∉ st2.2).
      { rewrite Hnew. intros Hx. apply elem_of_app in Hx as [Hx|Hx].
        - apply Hin. apply (Hnodes node Hx).
        - apply (Hwhite node Hx). apply elem_of_app. right.
          apply list_elem_of_singleton. reflexivity. }
      split; [|left; apply elem_of_app; right; apply list_elem_of_singleton; reflexivity].
      split; [|split; [|split]].
      * split; [|split].
        -- intros a Ha. apply elem_of_app in Ha as [Ha|Ha]; [exact (Hnodes2 a Ha)|].
           apply list_elem_of_singleton in Ha. subst a. auto.
        -- apply NoDup_app. split; [exact Hnd2|]. split; [|apply NoDup_singleton].
           intros a Ha Ha'. apply list_elem_of_singleton in Ha'. subst a. contradiction.
        -- apply dependenciesFirst_snoc; [exact Hord2|].
           intros d (n' & Hn' & Hd). assert (n' = n) by congruence. subst n'. auto.
      * exists (new ++ [node]). split; [rewrite Hnew, app_assoc; reflexivity|].
        intros a Ha. apply elem_of_app in Ha as [Ha|Ha].
        -- intros Hv. apply (Hwhite a Ha). apply elem_of_app. auto.
        -- apply list_elem_of_singleton in Ha. subst a. exact Hin.
      * intros x Hx. apply Hmono. apply elem_of_app. auto.
      * intros a (Hlt & Hv & Ho). cbn [fst snd] in *.
        assert (Ho2 : a ∉ st2.2) by (intros Hx; apply Ho; apply elem_of_app; auto).
        destruct (Hentered1 a (Hgray a (conj Hlt (conj Hv Ho2)))) as [->|Hg]; [|exact Hg].
        exfalso. apply Ho. apply elem_of_app. right. apply list_elem_of_singleton. reflexivity.
Qed.

(** The loop of [topologicalSort] is a loop of visits. *)
Lemma visitRoots_visits (roots : list nat) (st : list jsstring * list nat) :
  (forall r, r ∈ roots -> r < length h) ->
  visitRoots h roots st = forEach (visit (S (length h)) h) roots st.
Proof.
  unfold visitRoots. revert st. induction roots as [|r roots IH]; intros st Hvalid; [reflexivity|].
  cbn [forEach].
  destruct (lookup_lt_is_Some_2 h r (Hvalid r ltac:(apply elem_of_cons; auto))) as [n Hn].
  assert (Hbody : (if bool_decide (name n ∈ st.1) then Ok st else visit (S (length h)) h r st)
                  = visit (S (length h)) h r st).
  { case_bool_decide as Hin; [|reflexivity]. cbn [visit]. rewrite Hn.
    rewrite bool_decide_eq_true_2 by exact Hin. reflexivity. }
  rewrite Hn, Hbody. destruct (visit _ h r st); cbn [mbind Result_bind]; [|reflexivity..].
  apply IH. intros x Hx. apply Hvalid. apply elem_of_cons; auto.
Qed.

Lemma visitRoots_spec (roots : list nat) :
  (forall r, r ∈ roots -> r < length h) ->
  exists st, visitRoots h roots ([], []) = Ok st /\
    NoDup st.2 /\ dependenciesFirst h st.2 /\
    (forall a, a ∈ st.2 -> a < length h) /\
    (forall r, r ∈ roots -> r ∈ st.2).
Proof.
  intros Hvalid. rewrite visitRoots_visits by exact Hvalid.
  destruct (visits_total h (S (length h)) (visit_total h Hclosed (S (length h)))
              roots ([], []) Hvalid) as (st & Hloop & _).
  { pose proof (unvisited_bound h []). cbn [fst]. lia. }
  exists st. split; [exact Hloop|].
  assert (Hinv0 : sortedSoFar h ([], [])).
  { split; [|split]; cbn.
    - intros a Ha. apply elem_of_nil in Ha. contradiction.
    - apply NoDup_nil_2.
    - intros before node after Heq. destruct before; discriminate. }
  destruct (visits_spec (S (length h)) (visit_spec (S (length h))) roots ([], []) st Hvalid Hinv0)
    as [((Hnodes & Hnd & Hord) & _) Hall]; [|exact Hloop|].
  { intros a d (_ & Hv & _). cbn in Hv. apply elem_of_nil in Hv. contradiction. }
  repeat split; try assumption. intros a Ha. apply (Hnodes a Ha).
Qed.

End SortSpec.

(** The order that the sort returns for a well-formed graph without a
    cycle. *)
Lemma topologicalSort_spec (m sorted : Manager) :
  wellFormed m -> acyclic (heap m) -> topologicalSort m = Ok sorted ->
  NoDup (moduleOrder sorted) /\
  (forall node, node ∈ moduleOrder sorted <-> node ∈ mapValues (moduleGraph m)) /\
  dependenciesFirst (heap m) (moduleOrder sorted).
Proof.
  intros ((Hclosed & Hroots) & Huniq & Hall) Hacyclic.
  destruct (visitRoots_spec (heap m) Hclosed Huniq Hacyclic (mapValues (moduleGraph m)) Hroots)
    as (st & Hrun & Hnd & Hord & Hnodes & Hin).
  unfold topologicalSort. rewrite Hrun. cbn [mbind Result_bind]. intros [= <-].
  cbn [moduleOrder]. repeat split; try assumption.
  - intros Hx. apply Hall, Hnodes, Hx.
  - apply Hin.
Qed.

(** The sort returns for every graph whose references stay inside the
    heap. *)
Lemma topologicalSort_total (m : Manager) :
  graphClosed m ->
  exists st, topologicalSort m =
             Ok {| rootDir := rootDir m; dryRun := dryRun m; heap := heap m;
                   moduleGraph := moduleGraph m; visitedModules := st.1;
                   moduleOrder := st.2 |}.
Proof.
  intros (Hclosed & Hroots).
  destruct (visits_total (heap m) (S (length (heap m)))
              (visit_total (heap m) Hclosed (S (length (heap m))))
              (mapValues (moduleGraph m)) ([], []) Hroots) as (st & Hloop & _).
  { pose proof (unvisited_bound (heap m) []). cbn [fst]. lia. }
  exists st. unfold topologicalSort. rewrite visitRoots_visits, Hloop by exact Hroots.
  reflexivity.
Qed.

(** C7.  For every module graph without a cycle, the topological sort
    returns an order that holds every module of the graph exactly once and
    in which every module stands behind all of its dependencies. *)
Theorem topological_order_correct (m : Manager) :
  wellFormed m -> acyclic (heap m) ->
  exists sorted,
    topologicalSort m = Ok sorted /\
    heap sorted = heap m /\ moduleGraph sorted = moduleGraph m /\
    NoDup (moduleOrder sorted) /\
    (forall node, node ∈ moduleOrder sorted <-> node ∈ mapValues (moduleGraph m)) /\
    dependenciesFirst (heap m) (moduleOrder sorted).
Proof.
  intros Hwf Hacyclic.
  destruct (topologicalSort_total m (proj1 Hwf)) as (st & Hrun).
  eexists. split; [exact Hrun|]. split; [reflexivity|]. split; [reflexivity|].
  exact (topologicalSort_spec m _ Hwf Hacyclic Hrun).
Qed.

(** ** Propagation of a breaking change *)

Lemma incrementVersion_Ok (currentVersion : jsstring) :
  (exists v, incrementVersion currentVersion (str "major") = Ok v) /\
  (exists v, incrementVersion currentVersion (str "minor") = Ok v) /\
  (exists v, incrementVersion currentVersion (str "patch") = Ok v).
Proof. unfold incrementVersion. repeat split; eexists; reflexivity. Qed.

Lemma raised_refl (c : ChangeType) : raised c c.
Proof. left. reflexivity. Qed.

Lemma raised_trans (c1 c2 c3 : ChangeType) : raised c1 c2 -> raised c2 c3 -> raised c1 c3.
Proof.
  intros [->|[H1 ->]] [->|[H2 ->]]; unfold raised; auto.
Qed.

Lemma raised_atLeastMinor (c c' : ChangeType) : raised c c' -> atLeastMinor c -> atLeastMinor c'.
Proof. intros [->|[_ ->]] H; [exact H|left; reflexivity]. Qed.

Lemma raised_major (c' : ChangeType) : raised major c' -> c' = major.
Proof. intros [->|[[H|H] _]]; [reflexivity|discriminate..]. Qed.

Lemma raisedHeap_refl (h : list ModuleNode) : raisedHeap h h.
Proof. intros j c H. exists c. split; [exact H|apply raised_refl]. Qed.

Lemma raisedHeap_trans (h1 h2 h3 : list ModuleNode) :
  raisedHeap h1 h2 -> raisedHeap h2 h3 -> raisedHeap h1 h3.
Proof.
  intros H12 H23 j c Hc. destruct (H12 j c Hc) as (c2 & Hc2 & Hr2).
  destruct (H23 j c2 Hc2) as (c3 & Hc3 & Hr3).
  exists c3. split; [exact Hc3|eapply raised_trans; eassumption].
Qed.

Lemma raisedHeap_kept (h h' : list ModuleNode) : kept changeType h h' -> raisedHeap h h'.
Proof. intros Hk j c Hc. exists c. rewrite Hk. split; [exact Hc|apply raised_refl]. Qed.

Lemma lift_changeType (d : ModuleNode) :
  raised (changeType d) (changeType (lift d)) /\ atLeastMinor (changeType (lift d)).
Proof.
  unfold lift, raised, atLeastMinor. destruct (changeType d) eqn:Hc; cbn; rewrite ?Hc; auto.
Qed.

Lemma lift_raisedHeap (dependent : nat) (h : list ModuleNode) :
  raisedHeap h (alter lift dependent h).
Proof.
  intros j c Hc. destruct (decide (dependent = j)) as [->|Hne].
  - apply field_Some in Hc as (n & Hn & <-).
    exists (changeType (lift n)). split; [|apply lift_changeType].
    rewrite field_alter_eq, Hn. reflexivity.
  - exists c. rewrite field_alter_ne by exact Hne. split; [exact Hc|apply raised_refl].
Qed.

Lemma lifts_raisedHeap (dependents : list nat) (h : list ModuleNode) :
  raisedHeap h (fold_left (fun h dependent => alter lift dependent h) dependents h).
Proof.
  revert h. induction dependents as [|x l IH]; intros h; cbn [fold_left].
  - apply raisedHeap_refl.
  - eapply raisedHeap_trans; [apply lift_raisedHeap|apply IH].
Qed.

(** After [updateDependents(node, 'minor')] every dependent of the node is
    at [minor] or above. *)
Lemma lifts_atLeastMinor (dependents : list nat) (h : list ModuleNode) (d : nat) (c : ChangeType) :
  d ∈ dependents -> field changeType h d = Some c ->
  exists c', field changeType (fold_left (fun h dependent => alter lift dependent h) dependents h) d
             = Some c' /\ atLeastMinor c'.
Proof.
  revert h c. induction dependents as [|x l IH]; intros h c Hin Hc; cbn [fold_left].
  - apply elem_of_nil in Hin. contradiction.
  - destruct (decide (x = d)) as [->|Hne].
    + apply field_Some in Hc as (n & Hn & <-).
      assert (H1 : field changeType (alter lift d h) d = Some (changeType (lift n))).
      { rewrite field_alter_eq, Hn. reflexivity. }
      destruct (lifts_raisedHeap l _ d _ H1) as (c' & Hc' & Hr).
      exists c'. split; [exact Hc'|].
      eapply raised_atLeastMinor; [exact Hr|apply lift_changeType].
    + apply elem_of_cons in Hin as [->|Hin]; [contradiction|].
      apply (IH _ c Hin). rewrite field_alter_ne by exact Hne. exact Hc.
Qed.

Lemma updateDependents_lifts (node : ModuleNode) (h : list ModuleNode) :
  updateDependents node minor h =
  fold_left (fun h dependent => alter lift dependent h) (dependents node) h.
Proof. reflexivity. Qed.

(** One round of the loop of [calculateNewVersions]: the heap after it. *)
Lemma calculateNode_Ok (node : nat) (h : list ModuleNode) (n : ModuleNode) :
  h !! node = Some n ->
  exists v, bumpFor h n = Ok v /\
    calculateNode node h =
    Ok (if bool_decide (changeType n = major)
        then updateDependents n minor (alter (setNewVersion v) node h)
        else alter (setNewVersion v) node h).
Proof.
  intros Hn. unfold calculateNode, bumpFor. rewrite Hn.
  destruct (incrementVersion_Ok (currentVersion n)) as ((a & Ha) & (b & Hb) & (c & Hc)).
  destruct (changeType n); cbn [bool_decide decide_rel].
  - destruct (someDependencyMajor h n).
    + exists b. rewrite Hb. split; reflexivity.
    + exists (currentVersion n). split; reflexivity.
  - exists c. rewrite Hc. split; reflexivity.
  - exists b. rewrite Hb. split; reflexivity.
  - exists a. rewrite Ha. split; reflexivity.
Qed.

Lemma calculateNode_raisedHeap (node : nat) (h h' : list ModuleNode) :
  calculateNode node h = Ok h' -> raisedHeap h h'.
Proof.
  intros Hcalc. destruct (h !! node) as [n|] eqn:Hn.
  2:{ unfold calculateNode in Hcalc. rewrite Hn in Hcalc. discriminate. }
  destruct (calculateNode_Ok node h n Hn) as (v & _ & Heq).
  rewrite Heq in Hcalc. injection Hcalc as <-.
  assert (Hset : raisedHeap h (alter (setNewVersion v) node h)).
  { apply raisedHeap_kept, kept_alter. reflexivity. }
  case_bool_decide; [|exact Hset].
  eapply raisedHeap_trans; [exact Hset|]. rewrite updateDependents_lifts. apply lifts_raisedHeap.
Qed.

Lemma calculateNodes_raisedHeap (order : list nat) (h h' : list ModuleNode) :
  forEach calculateNode order h = Ok h' -> raisedHeap h h'.
Proof.
  apply (forEach_ind raisedHeap).
  - apply raisedHeap_refl.
  - apply raisedHeap_trans.
  - intros x s s' _. apply calculateNode_raisedHeap.
Qed.

(** A round for another node leaves the new version of [d] alone. *)
Lemma calculateNode_newVersion_other (node d : nat) (h h' : list ModuleNode) :
  node <> d -> calculateNode node h = Ok h' ->
  field newVersion h' d = field newVersion h d.
Proof.
  intros Hne Hcalc. destruct (h !! node) as [n|] eqn:Hn.
  2:{ unfold calculateNode in Hcalc. rewrite Hn in Hcalc. discriminate. }
  destruct (calculateNode_Ok node h n Hn) as (v & _ & Heq).
  rewrite Heq in Hcalc. injection Hcalc as <-.
  case_bool_decide.
  - rewrite (updateDependents_kept newVersion) by reflexivity. apply field_alter_ne. exact Hne.
  - apply field_alter_ne. exact Hne.
Qed.

Lemma calculateNodes_newVersion_other (order : list nat) (d : nat) (h h' : list ModuleNode) :
  d ∉ order -> forEach calculateNode order h = Ok h' ->
  field newVersion h' d = field newVersion h d.
Proof.
  revert h. induction order as [|x order IH]; intros h Hd; cbn [forEach].
  - intros [= <-]. reflexivity.
  - apply not_elem_of_cons in Hd as [Hne Hd].
    destruct (calculateNode x h) as [h1| |] eqn:Hx; cbn; [|discriminate..].
    intros Hrest. rewrite (IH h1 Hd Hrest).
    eapply calculateNode_newVersion_other; [|exact Hx]. congruence.
Qed.

(** The round of a node writes its bump. *)
Lemma calculateNode_newVersion (node : nat) (h h' : list ModuleNode) (n : ModuleNode) :
  h !! node = Some n -> calculateNode node h = Ok h' ->
  exists v, bumpFor h n = Ok v /\ field newVersion h' node = Some (Some v).
Proof.
  intros Hn Hcalc. destruct (calculateNode_Ok node h n Hn) as (v & Hv & Heq).
  rewrite Heq in Hcalc. injection Hcalc as <-. exists v. split; [exact Hv|].
  assert (Hset : field newVersion (alter (setNewVersion v) node h) node = Some (Some v)).
  { rewrite field_alter_eq, Hn. reflexivity. }
  case_bool_decide; [|exact Hset].
  rewrite (updateDependents_kept newVersion) by reflexivity. exact Hset.
Qed.

(** The round of a node with a breaking change lifts its dependents. *)
Lemma calculateNode_major (node d : nat) (h h' : list ModuleNode) (n : ModuleNode) (c : ChangeType) :
  h !! node = Some n -> changeType n = major -> d ∈ dependents n ->
  field changeType h d = Some c -> calculateNode node h = Ok h' ->
  exists c', field changeType h' d = Some c' /\ atLeastMinor c'.
Proof.
  intros Hn Hmajor Hd Hc Hcalc. destruct (calculateNode_Ok node h n Hn) as (v & _ & Heq).
  rewrite Heq in Hcalc. injection Hcalc as <-.
  rewrite bool_decide_eq_true_2 by exact Hmajor. rewrite updateDependents_lifts.
  apply (lifts_atLeastMinor _ _ _ c Hd).
  rewrite (field_alter changeType) by reflexivity. exact Hc.
Qed.

(** The loop returns when the nodes of the order are nodes of the heap. *)
Lemma calculateNodes_total (order : list nat) (h : list ModuleNode) :
  (forall x, x ∈ order -> x < length h) ->
  exists h', forEach calculateNode order h = Ok h'.
Proof.
  revert h. induction order as [|x order IH]; intros h Hvalid; cbn [forEach]; [eauto|].
  destruct (lookup_lt_is_Some_2 h x (Hvalid x ltac:(apply elem_of_cons; auto))) as [n Hn].
  destruct (calculateNode x h) as [h1| |] eqn:Hx.
  - cbn. apply IH. intros y Hy.
    rewrite (kept_length name h h1)
      by (eapply calculateNode_kept; [reflexivity..|exact Hx]).
    apply Hvalid. apply elem_of_cons; auto.
  - destruct (calculateNode_Ok x h n Hn) as (v & _ & Heq). congruence.
  - destruct (calculateNode_Ok x h n Hn) as (v & _ & Heq). congruence.
Qed.

(** The new version of a direct dependent of a node with a breaking change. *)
Lemma direct_dependent_bumped (m m' : Manager) (a d : nat) (na nd : ModuleNode) :
  wellFormed m -> mirrored (heap m) -> acyclic (heap m) ->
  calculateNewVersions m = Ok m' ->
  heap m !! a = Some na -> heap m !! d = Some nd ->
  changeType na = major -> a ∈ dependencies nd ->
  exists v, field newVersion (heap m') d = Some (Some v) /\
            (incrementVersion (currentVersion nd) (str "minor") = Ok v \/
             incrementVersion (currentVersion nd) (str "major") = Ok v).
Proof.
  intros Hwf Hmirror Hacyclic Hcalc Ha Hd Hmajor Hdep.
  destruct (calculateNewVersions_frame _ _ Hcalc) as (_ & _ & _ & sorted & Hsort & _ & Hloop).
  destruct (topologicalSort_spec m sorted Hwf Hacyclic Hsort) as (Hnd & Hmem & Hord).
  set (h0 := heap m) in *.
  assert (Hedge : edge h0 d a) by (exists nd; auto).
  assert (Hdin : d ∈ moduleOrder sorted).
  { apply Hmem. destruct Hwf as (_ & _ & Hall). apply Hall. eapply lookup_lt_Some; exact Hd. }
  apply list_elem_of_split in Hdin as (before & l3 & Horder).
  pose proof (Hord before d l3 Horder a Hedge) as Hain.
  apply list_elem_of_split in Hain as (l1 & l2 & ->).
  rewrite Horder in Hnd, Hloop.
  assert (Hd3 : d ∉ l3).
  { apply NoDup_app in Hnd as (_ & _ & Hnd). apply NoDup_cons in Hnd as [Hnot _]. exact Hnot. }
  rewrite !forEach_app in Hloop. cbn [forEach] in Hloop.
  destruct (forEach calculateNode l1 h0) as [h1| |] eqn:H1; cbn in Hloop; [|discriminate..].
  destruct (calculateNode a h1) as [h2| |] eqn:H2; cbn in Hloop; [|discriminate..].
  destruct (forEach calculateNode l2 h2) as [h3| |] eqn:H3; cbn in Hloop; [|discriminate..].
  destruct (calculateNode d h3) as [h4| |] eqn:H4; cbn in Hloop; [|discriminate..].
  (* the heap when the turn of [a] comes *)
  pose proof (calculateNodes_raisedHeap _ _ _ H1) as Hr1.
  destruct (Hr1 a major) as (ca & Hca & Hraised); [apply field_Some; eauto|].
  apply raised_major in Hraised. subst ca.
  apply field_Some in Hca as (na1 & Hna1 & Hmajor1).
  assert (Hdeps1 : dependents na1 = dependents na).
  { pose proof (calculateNodes_kept dependents _ _ _ ltac:(reflexivity) ltac:(reflexivity) H1 a)
      as Hk. unfold field in Hk. rewrite Hna1, Ha in Hk. cbn in Hk. congruence. }
  assert (Hdin1 : d ∈ dependents na1).
  { rewrite Hdeps1. apply (Hmirror a d na nd Ha Hd). exact Hdep. }
  destruct (Hr1 d (changeType nd)) as (cd1 & Hcd1 & _); [apply field_Some; eauto|].
  (* the turn of [a] lifts [d] *)
  destruct (calculateNode_major a d h1 h2 na1 cd1 Hna1 Hmajor1 Hdin1 Hcd1 H2)
    as (cd2 & Hcd2 & Hmin2).
  (* the severity of [d] stays lifted until its turn *)
  destruct (calculateNodes_raisedHeap _ _ _ H3 d cd2 Hcd2) as (cd3 & Hcd3 & Hraised3).
  pose proof (raised_atLeastMinor _ _ Hraised3 Hmin2) as Hmin3.
  apply field_Some in Hcd3 as (nd3 & Hnd3 & Hct3).
  (* the turn of [d] *)
  destruct (calculateNode_newVersion d h3 h4 nd3 Hnd3 H4) as (v & Hbump & Hv).
  assert (Hcur : currentVersion nd3 = currentVersion nd).
  { assert (Hk : kept currentVersion h0 h3).
    { eapply kept_trans; [eapply calculateNodes_kept; [reflexivity..|exact H1]|].
      eapply kept_trans; [eapply calculateNode_kept; [reflexivity..|exact H2]|].
      eapply calculateNodes_kept; [reflexivity..|exact H3]. }
    specialize (Hk d). unfold field in Hk. rewrite Hnd3, Hd in Hk. cbn in Hk. congruence. }
  exists v. split.
  - rewrite (calculateNodes_newVersion_other l3 d h4 (heap m') Hd3 Hloop). exact Hv.
  - unfold bumpFor in Hbump. rewrite Hcur in Hbump.
    destruct Hmin3 as [Hc|Hc]; rewrite <- Hct3 in Hc; rewrite Hc in Hbump; auto.
Qed.

(** The calculation returns for a well-formed graph without a cycle. *)
Lemma calculateNewVersions_total (m : Manager) :
  wellFormed m -> acyclic (heap m) -> exists m', calculateNewVersions m = Ok m'.
Proof.
  intros Hwf Hacyclic. destruct (topologicalSort_total m (proj1 Hwf)) as (st & Hsort).
  destruct (topologicalSort_spec m _ Hwf Hacyclic Hsort) as (_ & Hmem & _).
  cbn [moduleOrder] in Hmem.
  destruct (calculateNodes_total st.2 (heap m)) as [h' Hloop].
  { intros x Hx. destruct Hwf as ((_ & Hroots) & _). apply Hroots, Hmem, Hx. }
  unfold calculateNewVersions. rewrite Hsort. cbn [mbind Result_bind moduleOrder heap].
  rewrite Hloop. cbn. eauto.
Qed.

(** ** The chain of three modules *)

(** Settles the membership tests of names that are known to differ. *)
Ltac settle_names :=
  repeat (first
    [ rewrite bool_decide_eq_true_2
        by (rewrite ?elem_of_app, ?elem_of_cons; auto 10)
    | rewrite bool_decide_eq_false_2
        by (rewrite ?elem_of_app, ?elem_of_cons, ?elem_of_nil; intuition congruence) ];
    cbn [mbind Result_bind fst snd app]).

Section Chain.

Variables nameA nameB nameC vA vB vC : jsstring.
Hypothesis HAB : nameA <> nameB.
Hypothesis HAC : nameA <> nameC.
Hypothesis HBC : nameB <> nameC.

#[local] Abbreviation chain := (chainManager nameA nameB nameC vA vB vC).

Lemma chain_sorted :
  topologicalSort chain =
  Ok {| rootDir := []; dryRun := false; heap := heap chain; moduleGraph := moduleGraph chain;
        visitedModules := [nameA; nameB; nameC]; moduleOrder := [0; 1; 2] |}.
Proof.
  unfold topologicalSort, visitRoots.
  cbn [chainManager heap moduleGraph mapValues map snd forEach lookup list_lookup fst name
       length visit dependencies app mbind Result_bind].
  settle_names. reflexivity.
Qed.

(** The calculation on the chain: [A] gets its major bump, [B] the minor
    bump that the breaking change of [A] forces, and [C], whose only
    dependency [B] ends at [minor], keeps its version. *)
Lemma chain_calculated :
  exists m' a b,
    calculateNewVersions chain = Ok m' /\
    incrementVersion vA (str "major") = Ok a /\
    incrementVersion vB (str "minor") = Ok b /\
    field newVersion (heap m') 0 = Some (Some a) /\
    field newVersion (heap m') 1 = Some (Some b) /\
    field newVersion (heap m') 2 = Some (Some vC) /\
    field changeType (heap m') 1 = Some minor /\
    field changeType (heap m') 2 = Some none.
Proof.
  destruct (incrementVersion_Ok vA) as ((a & Ha) & _).
  destruct (incrementVersion_Ok vB) as (_ & (b & Hb) & _).
  set (h1 := [Build_ModuleNode nameA vA (Some a) major [] [1] [];
               Build_ModuleNode nameB vB None minor [0] [2] [];
               Build_ModuleNode nameC vC None none [1] [] []]).
  set (h2 := [Build_ModuleNode nameA vA (Some a) major [] [1] [];
               Build_ModuleNode nameB vB (Some b) minor [0] [2] [];
               Build_ModuleNode nameC vC None none [1] [] []]).
  set (h3 := [Build_ModuleNode nameA vA (Some a) major [] [1] [];
               Build_ModuleNode nameB vB (Some b) minor [0] [2] [];
               Build_ModuleNode nameC vC (Some vC) none [1] [] []]).
  assert (H0 : calculateNode 0 (heap chain) = Ok h1).
  { unfold calculateNode. cbn [chainManager heap lookup list_lookup changeType currentVersion].
    rewrite Ha. reflexivity. }
  assert (H1 : calculateNode 1 h1 = Ok h2).
  { unfold calculateNode. cbn [h1 lookup list_lookup changeType currentVersion].
    rewrite Hb. reflexivity. }
  assert (H2 : calculateNode 2 h2 = Ok h3) by reflexivity.
  unfold calculateNewVersions. rewrite chain_sorted.
  cbn [mbind Result_bind moduleOrder forEach heap].
  rewrite H0. cbn [mbind Result_bind]. rewrite H1. cbn [mbind Result_bind].
  rewrite H2. cbn [mbind Result_bind].
  eexists _, a, b. split; [reflexivity|]. repeat split; assumption.
Qed.

End Chain.

(** *** The chain is a well-formed graph without a cycle *)

Lemma decreasing_acyclic (h : list ModuleNode) :
  (forall a b, edge h a b -> b < a) -> acyclic h.
Proof.
  intros Hdec a Hloop.
  assert (Hlt : forall x y, tc (edge h) x y -> y < x).
  { intros x y Hxy. induction Hxy as [x y Hxy|x y z Hxy _ IH].
    - apply Hdec. exact Hxy.
    - pose proof (Hdec _ _ Hxy). lia. }
  specialize (Hlt a a Hloop). lia.
Qed.

Section ChainShape.

Variables nameA nameB nameC vA vB vC : jsstring.
Hypothesis HAB : nameA <> nameB.
Hypothesis HAC : nameA <> nameC.
Hypothesis HBC : nameB <> nameC.

#[local] Abbreviation chain' := (chainManager nameA nameB nameC vA vB vC).

Lemma chain_edges (a b : nat) :
  edge (heap chain') a b <-> (a = 1 /\ b = 0) \/ (a = 2 /\ b = 1).
Proof.
  unfold edge. split.
  - intros (n & Hn & Hb). destruct a as [|[|[|a]]]; cbn in Hn; try discriminate;
      injection Hn as <-; cbn in Hb;
      rewrite ?elem_of_cons, ?elem_of_nil in Hb; intuition lia.
  - intros [[-> ->]|[-> ->]]; eexists; (split; [reflexivity|]); cbn;
      rewrite ?elem_of_cons; auto.
Qed.

Lemma chain_wellFormed : wellFormed chain'.
Proof.
  split; [split|split].
  - intros a b H. apply chain_edges in H. cbn. lia.
  - intros v Hv. cbn in Hv. rewrite ?elem_of_cons, ?elem_of_nil in Hv. cbn. lia.
  - intros a b Ha Hb. cbn in Ha, Hb.
    destruct a as [|[|[|a]]]; destruct b as [|[|[|b]]]; try lia; cbn; congruence.
  - intros a Ha. cbn in Ha. cbn. rewrite ?elem_of_cons.
    destruct a as [|[|[|a]]]; try lia; auto.
Qed.

Lemma chain_mirrored : mirrored (heap chain').
Proof.
  intros a d na nd Ha Hd.
  destruct a as [|[|[|a]]]; cbn in Ha; try discriminate; injection Ha as <-;
    destruct d as [|[|[|d]]]; cbn in Hd; try discriminate; injection Hd as <-; cbn;
    rewrite ?elem_of_cons, ?elem_of_nil; intuition lia.
Qed.

Lemma chain_acyclic : acyclic (heap chain').
Proof. apply decreasing_acyclic. intros a b H. apply chain_edges in H. lia. Qed.

End ChainShape.

(** ** The claims on cycles, orders and propagation at work *)

(** The module that depends on itself: the check fails with the cycle
    [a -> a]. *)
Lemma cycle_detection_correct_witness :
  exists root w,
    root ∈ mapValues (moduleGraph (built selfDependentProject)) /\
    cycleFrom (heap (built selfDependentProject)) root w /\
    cycleMessage [str "a"; str "a"] = cycleMessage (namesOf (heap (built selfDependentProject)) w).
Proof.
  assert (Hclosed : graphClosed (built selfDependentProject)).
  { apply (built_graphClosed joinSegments selfDependentProject (str "root") false).
    vm_compute. reflexivity. }
  destruct (cycle_detection_correct (built selfDependentProject) Hclosed) as (_ & _ & Hmsg & _).
  apply Hmsg. vm_compute. reflexivity.
Defined.

Lemma chain_names_differ :
  str "a" <> str "b" /\ str "a" <> str "c" /\ str "b" <> str "c".
Proof. repeat split; discriminate. Qed.

(** The chain [a], [b], [c]: the order is [a], [b], [c]. *)
Lemma topological_order_correct_witness :
  exists sorted,
    topologicalSort (chainManager (str "a") (str "b") (str "c")
                       (str "1.0.0") (str "2.1.3") (str "0.4.0")) = Ok sorted /\
    NoDup (moduleOrder sorted) /\
    dependenciesFirst (heap (chainManager (str "a") (str "b") (str "c")
                               (str "1.0.0") (str "2.1.3") (str "0.4.0")))
                      (moduleOrder sorted).
Proof.
  destruct chain_names_differ as (HAB & HAC & HBC).
  destruct (topological_order_correct
              (chainManager (str "a") (str "b") (str "c") (str "1.0.0") (str "2.1.3") (str "0.4.0"))
              (chain_wellFormed _ _ _ _ _ _ HAB HAC HBC)
              (chain_acyclic _ _ _ _ _ _))
    as (sorted & Hsort & _ & _ & Hnd & _ & Hord).
  exists sorted. auto.
Defined.

(** C1, as the code has it.  In a chain [A -> B -> C] where [A] has a
    breaking change and [B] and [C] have no change of their own, [A] gets a
    major bump, [B] a minor bump, and [C] keeps its version: the severity of
    [B] ends at [minor], which forces nothing on [C].  In every well-formed
    graph without a cycle the calculation returns, and a breaking change in a
    module gives every direct dependent at least a minor bump. *)
Theorem breaking_change_bumps_direct_dependents :
  (forall nameA nameB nameC vA vB vC : jsstring,
     nameA <> nameB -> nameA <> nameC -> nameB <> nameC ->
     exists m' a b,
       calculateNewVersions (chainManager nameA nameB nameC vA vB vC) = Ok m' /\
       incrementVersion vA (str "major") = Ok a /\
       incrementVersion vB (str "minor") = Ok b /\
       field newVersion (heap m') 0 = Some (Some a) /\
       field newVersion (heap m') 1 = Some (Some b) /\
       field newVersion (heap m') 2 = Some (Some vC) /\
       field changeType (heap m') 1 = Some minor /\
       field changeType (heap m') 2 = Some none) /\
  (forall m : Manager,
     wellFormed m -> mirrored (heap m) -> acyclic (heap m) ->
     exists m',
       calculateNewVersions m = Ok m' /\
       forall a d na nd,
         heap m !! a = Some na -> heap m !! d = Some nd ->
         changeType na = major -> a ∈ dependencies nd ->
         exists v, field newVersion (heap m') d = Some (Some v) /\
                   (incrementVersion (currentVersion nd) (str "minor") = Ok v \/
                    incrementVersion (currentVersion nd) (str "major") = Ok v)).
Proof.
  split.
  - intros nameA nameB nameC vA vB vC HAB HAC HBC. apply chain_calculated; assumption.
  - intros m Hwf Hmirror Hacyclic.
    destruct (calculateNewVersions_total m Hwf Hacyclic) as [m' Hcalc].
    exists m'. split; [exact Hcalc|].
    intros a d na nd Ha Hd Hmajor Hdep.
    exact (direct_dependent_bumped m m' a d na nd Hwf Hmirror Hacyclic Hcalc Ha Hd Hmajor Hdep).
Qed.

(** The chain [a], [b], [c] with the versions of the example project. *)
Lemma breaking_change_bumps_direct_dependents_witness :
  exists m' a b,
    calculateNewVersions (chainManager (str "a") (str "b") (str "c")
                            (str "1.0.0") (str "2.1.3") (str "0.4.0")) = Ok m' /\
    incrementVersion (str "1.0.0") (str "major") = Ok a /\
    incrementVersion (str "2.1.3") (str "minor") = Ok b /\
    field newVersion (heap m') 0 = Some (Some a) /\
    field newVersion (heap m') 1 = Some (Some b) /\
    field newVersion (heap m') 2 = Some (Some (str "0.4.0")) /\
    field changeType (heap m') 1 = Some minor /\
    field changeType (heap m') 2 = Some none.
Proof.
  destruct chain_names_differ as (HAB & HAC & HBC).
  exact (proj1 breaking_change_bumps_direct_dependents
           (str "a") (str "b") (str "c") (str "1.0.0") (str "2.1.3") (str "0.4.0") HAB HAC HBC).
Defined.

(** C1 as stated fails: in the project of three modules in a chain, with a
    breaking commit in [a] and no commit in [b] and [c], the analysis gives
    [a] the version [2.0.0], [b] the version [2.2.0], and leaves [c] at
    [0.4.0], which is not its minor bump [0.5.0]. *)
Lemma third_module_of_chain_not_bumped :
  exists m,
    analyse joinSegments chainProject breakingInA newManager = Ok m /\
    field dependencies (heap m) 1 = Some [0] /\
    field dependencies (heap m) 2 = Some [1] /\
    field changeType (heap (analyzeChanges breakingInA (built chainProject))) 0 = Some major /\
    field changeType (heap (analyzeChanges breakingInA (built chainProject))) 1 = Some none /\
    field changeType (heap (analyzeChanges breakingInA (built chainProject))) 2 = Some none /\
    field newVersion (heap m) 0 = Some (Some (str "2.0.0")) /\
    field newVersion (heap m) 1 = Some (Some (str "2.2.0")) /\
    field newVersion (heap m) 2 = Some (Some (str "0.4.0")) /\
    incrementVersion (str "0.4.0") (str "minor") = Ok (str "0.5.0").
Proof.
  eexists. split; [vm_compute; reflexivity|]. repeat split; vm_compute; reflexivity.
Qed.

(** ** Built graphs are well formed *)

(** A graph of that shape is a well-formed graph without a cycle whose
    [dependents] mirror its [dependencies]. *)
Lemma builtShape_wellFormed (m : Manager) :
  builtShape m -> wellFormed m /\ mirrored (heap m) /\ acyclic (heap m).
Proof.
  intros (Hvalues & Hown & Hnamed & Hmirror & Hdependents & Hdecr).
  assert (Hedge : forall a b, edge (heap m) a b -> b < a).
  { intros a b (n & Hn & Hb). exact (Hdecr a n b Hn Hb). }
  split; [|split].
  - split; [split|split].
    + intros a b Hab. pose proof (Hedge a b Hab). destruct Hab as (n & Hn & _).
      apply lookup_lt_Some in Hn. lia.
    + exact Hvalues.
    + intros a b Ha Hb Hnames. pose proof (Hown a Ha) as Hga. pose proof (Hown b Hb) as Hgb.
      unfold nameOf in Hnames. rewrite Hnames in Hga. congruence.
    + intros a Ha. eapply mapGet_mapValues. apply Hown. exact Ha.
  - exact Hmirror.
  - apply decreasing_acyclic. exact Hedge.
Qed.

(** The graph built from a listing without duplicates, in a project where
    no module declares a dependency on itself, is a well-formed graph
    without a cycle. *)
Lemma built_wellFormed (pathJoin : jsstring -> jsstring -> jsstring) (files : Files)
    (root : jsstring) (dry : bool) (names : list jsstring) :
  (forall r moduleName buildContent,
     files (pathJoin (pathJoin r (replaceFirst 58 47 moduleName)) (str "build.gradle.kts"))
       = Some buildContent ->
     moduleName ∉ extractDependencies buildContent) ->
  NoDup names ->
  wellFormed (addModules pathJoin files (constructor root dry) names) /\
  mirrored (heap (addModules pathJoin files (constructor root dry) names)) /\
  acyclic (heap (addModules pathJoin files (constructor root dry) names)).
Proof.
  intros Hself Hnd. apply builtShape_wellFormed.
  apply addModules_builtShape; [intros x c _; apply Hself| |exact Hnd|reflexivity].
  repeat split; cbn; try discriminate.
  - intros v Hv. apply elem_of_nil in Hv. contradiction.
  - intros a Ha. lia.
Qed.

(** ** The classifier takes the highest severity *)

Lemma maxType_assoc (a b c : ChangeType) : maxType a (maxType b c) = maxType (maxType a b) c.
Proof. destruct a, b, c; reflexivity. Qed.

Lemma maxType_comm (a b : ChangeType) : maxType a b = maxType b a.
Proof. destruct a, b; reflexivity. Qed.

Lemma maxType_none_r (a : ChangeType) : maxType a none = a.
Proof. destruct a; reflexivity. Qed.

(** One round of the loop lifts the running severity to that of the commit
    when it is higher. *)
Lemma determineChangeType_from_cons (changeType : ChangeType) (commit : jsstring)
    (rest : list jsstring) :
  determineChangeType_from changeType (commit :: rest) =
  if isBreaking commit then major
  else determineChangeType_from (maxType changeType (severity commit)) rest.
Proof.
  cbn [determineChangeType_from]. unfold severity.
  destruct (isBreaking commit); [reflexivity|].
  destruct (startsWith commit (str "fix:")) eqn:Hfix.
  - rewrite (fix_not_feat commit Hfix). cbn [andb].
    case_bool_decide as Hc; [subst changeType; reflexivity|].
    destruct changeType; [contradiction|reflexivity..].
  - rewrite andb_false_l.
    destruct (startsWith commit (str "feat:")); cbn [andb].
    + case_bool_decide as Hc; [subst changeType; reflexivity|].
      destruct changeType; [reflexivity..|contradiction].
    + destruct changeType; reflexivity.
Qed.

Lemma determineChangeType_from_major (commits : list jsstring) :
  determineChangeType_from major commits = major.
Proof.
  induction commits as [|c commits IH]; [reflexivity|].
  rewrite determineChangeType_from_cons. destruct (isBreaking c); [reflexivity|].
  destruct (severity c); exact IH.
Qed.

Lemma determineChangeType_from_max (commits : list jsstring) (changeType : ChangeType) :
  determineChangeType_from changeType commits =
  maxType changeType (determineChangeType commits).
Proof.
  unfold determineChangeType. revert changeType.
  induction commits as [|c commits IH]; intros changeType.
  - cbn [determineChangeType_from]. rewrite maxType_none_r. reflexivity.
  - rewrite !determineChangeType_from_cons. destruct (isBreaking c) eqn:Hb.
    + destruct changeType; reflexivity.
    + rewrite (IH (maxType changeType (severity c))), (IH (maxType none (severity c))).
      destruct changeType, (severity c), (determineChangeType_from none commits); reflexivity.
Qed.

Lemma determineChangeType_cons (commit : jsstring) (rest : list jsstring) :
  determineChangeType (commit :: rest) = maxType (severity commit) (determineChangeType rest).
Proof.
  unfold determineChangeType at 1. rewrite determineChangeType_from_cons.
  unfold severity at 2. destruct (isBreaking commit) eqn:Hb.
  - destruct (determineChangeType rest); reflexivity.
  - rewrite determineChangeType_from_max. f_equal.
    unfold severity. rewrite Hb. destruct (startsWith commit (str "feat:")); [reflexivity|].
    destruct (startsWith commit (str "fix:")); reflexivity.
Qed.

Lemma determineChangeType_app (a b : list jsstring) :
  determineChangeType (a ++ b) = maxType (determineChangeType a) (determineChangeType b).
Proof.
  induction a as [|c a IH]; cbn [app].
  - destruct (determineChangeType b); reflexivity.
  - rewrite !determineChangeType_cons, IH. apply maxType_assoc.
Qed.

(** The result is at least [c] exactly when some commit is. *)
Lemma determineChangeType_rank (commits : list jsstring) (k : nat) :
  0 < k ->
  (k <= rank (determineChangeType commits) <->
   exists commit, commit ∈ commits /\ k <= rank (severity commit)).
Proof.
  intros Hk. induction commits as [|c commits IH].
  - cbn. split; [lia|]. intros (x & Hx & _). apply elem_of_nil in Hx. contradiction.
  - rewrite determineChangeType_cons. split.
    + intros H.
      assert (Hcases : k <= rank (severity c) \/ k <= rank (determineChangeType commits)).
      { destruct (severity c), (determineChangeType commits); cbn in *; lia. }
      destruct Hcases as [Hc|Hrest].
      * exists c. split; [apply elem_of_cons; auto|exact Hc].
      * apply IH in Hrest as (x & Hx & Hr). exists x. split; [apply elem_of_cons; auto|exact Hr].
    + intros (x & Hx & Hr). apply elem_of_cons in Hx as [->|Hx].
      * destruct (severity c), (determineChangeType commits); cbn in *; lia.
      * assert (Hrest : k <= rank (determineChangeType commits)) by (apply IH; eauto).
        destruct (severity c), (determineChangeType commits); cbn in *; lia.
Qed.

Lemma severity_rank (commit : jsstring) :
  (3 <= rank (severity commit) <-> isBreaking commit = true) /\
  (2 <= rank (severity commit) <->
   isBreaking commit = true \/ startsWith commit (str "feat:") = true) /\
  (1 <= rank (severity commit) <->
   isBreaking commit = true \/ startsWith commit (str "feat:") = true \/
   startsWith commit (str "fix:") = true).
Proof.
  unfold severity.
  destruct (isBreaking commit), (startsWith commit (str "feat:")),
    (startsWith commit (str "fix:")); cbn; intuition (try lia; try discriminate).
Qed.

(** X1.  The classifier returns the highest severity that a single commit of
    the list has: [major] exactly when some commit is breaking, [minor]
    exactly when none is breaking and some commit is a feature, [patch]
    exactly when none is breaking or a feature and some commit is a fix, and
    [none] exactly when no commit matches any of the three tests. *)
Theorem classifier_takes_highest_severity (commits : list jsstring) :
  (determineChangeType commits = major <->
   exists commit, commit ∈ commits /\ isBreaking commit = true) /\
  (determineChangeType commits = minor <->
   (forall commit, commit ∈ commits -> isBreaking commit = false) /\
   exists commit, commit ∈ commits /\ startsWith commit (str "feat:") = true) /\
  (determineChangeType commits = patch <->
   (forall commit, commit ∈ commits ->
      isBreaking commit = false /\ startsWith commit (str "feat:") = false) /\
   exists commit, commit ∈ commits /\ startsWith commit (str "fix:") = true) /\
  (determineChangeType commits = none <->
   forall commit, commit ∈ commits ->
     isBreaking commit = false /\ startsWith commit (str "feat:") = false /\
     startsWith commit (str "fix:") = false).
Proof.
  pose proof (determineChangeType_rank commits 3 ltac:(lia)) as H3.
  pose proof (determineChangeType_rank commits 2 ltac:(lia)) as H2.
  pose proof (determineChangeType_rank commits 1 ltac:(lia)) as H1.
  assert (B : (exists commit, commit ∈ commits /\ isBreaking commit = true) <->
              3 <= rank (determineChangeType commits)).
  { rewrite H3. split; intros (c & Hc & H); exists c; (split; [exact Hc|]);
      apply (severity_rank c); exact H. }
  assert (F : (exists commit, commit ∈ commits /\
                 (isBreaking commit = true \/ startsWith commit (str "feat:") = true)) <->
              2 <= rank (determineChangeType commits)).
  { rewrite H2. split; intros (c & Hc & H); exists c; (split; [exact Hc|]);
      apply (severity_rank c); exact H. }
  assert (P : (exists commit, commit ∈ commits /\
                 (isBreaking commit = true \/ startsWith commit (str "feat:") = true \/
                  startsWith commit (str "fix:") = true)) <->
              1 <= rank (determineChangeType commits)).
  { rewrite H1. split; intros (c & Hc & H); exists c; (split; [exact Hc|]);
      apply (severity_rank c); exact H. }
  clear H1 H2 H3.
  assert (NB : 3 <= rank (determineChangeType commits) \/
               forall commit, commit ∈ commits -> isBreaking commit = false).
  { destruct (decide (3 <= rank (determineChangeType commits))) as [H|H]; [auto|right].
    intros c Hc. destruct (isBreaking c) eqn:Hb; [|reflexivity].
    exfalso. apply H, B. eauto. }
  assert (NF : 2 <= rank (determineChangeType commits) \/
               forall commit, commit ∈ commits ->
                 isBreaking commit = false /\ startsWith commit (str "feat:") = false).
  { destruct (decide (2 <= rank (determineChangeType commits))) as [H|H]; [auto|right].
    intros c Hc. destruct (isBreaking c) eqn:Hb.
    - exfalso. apply H, F. eauto.
    - destruct (startsWith c (str "feat:")) eqn:Hf; [|auto].
      exfalso. apply H, F. eauto. }
  assert (NP : 1 <= rank (determineChangeType commits) \/
               forall commit, commit ∈ commits ->
                 isBreaking commit = false /\ startsWith commit (str "feat:") = false /\
                 startsWith commit (str "fix:") = false).
  { destruct (decide (1 <= rank (determineChangeType commits))) as [H|H]; [auto|right].
    intros c Hc. destruct (isBreaking c) eqn:Hb; [exfalso; apply H, P; eauto|].
    destruct (startsWith c (str "feat:")) eqn:Hf; [exfalso; apply H, P; eauto 6|].
    destruct (startsWith c (str "fix:")) eqn:Hx; [exfalso; apply H, P; eauto 6|].
    auto. }
  split; [|split; [|split]].
  - rewrite B. destruct (determineChangeType commits); cbn; split; intros; try lia;
      try discriminate; reflexivity.
  - split.
    + intros Heq. rewrite Heq in *. cbn in *. split.
      * destruct NB as [?|NB]; [lia|exact NB].
      * destruct (proj2 F ltac:(lia)) as (c & Hc & [Hb|Hf]); [|eauto].
        exfalso. assert (3 <= 2) by (apply B; eauto). lia.
    + intros (Hnb & c & Hc & Hf).
      assert (2 <= rank (determineChangeType commits)) by (apply F; eauto).
      assert (~ 3 <= rank (determineChangeType commits)).
      { intros H3. apply B in H3 as (x & Hx & Hb). rewrite (Hnb x Hx) in Hb. discriminate. }
      destruct (determineChangeType commits); cbn in *; try lia. reflexivity.
  - split.
    + intros Heq. rewrite Heq in *. cbn in *. split.
      * destruct NF as [?|NF]; [lia|exact NF].
      * destruct (proj2 P ltac:(lia)) as (c & Hc & [Hb|[Hf|Hx]]); [| |eauto].
        -- exfalso. assert (3 <= 1) by (apply B; eauto). lia.
        -- exfalso. assert (2 <= 1) by (apply F; eauto). lia.
    + intros (Hnf & c & Hc & Hx).
      assert (1 <= rank (determineChangeType commits)) by (apply P; eauto 6).
      assert (~ 2 <= rank (determineChangeType commits)).
      { intros H2. apply F in H2 as (x & Hx' & [Hb|Hf]);
          destruct (Hnf x Hx') as [Hb' Hf']; congruence. }
      destruct (determineChangeType commits); cbn in *; try lia. reflexivity.
  - split.
    + intros Heq. rewrite Heq in *. cbn in *. destruct NP as [?|NP]; [lia|exact NP].
    + intros Hn.
      assert (~ 1 <= rank (determineChangeType commits)).
      { intros H1. apply P in H1 as (x & Hx & H).
        destruct (Hn x Hx) as (Hb & Hf & Hfix). destruct H as [H|[H|H]]; congruence. }
      destruct (determineChangeType commits); cbn in *; try lia. reflexivity.
Qed.

(** X2.  Neither the grouping nor the order of the commits matters: the
    class of two lists put together is the higher of their classes, and a
    list of the same commits in another order has the same class. *)
Theorem classifier_ignores_order_and_grouping (a b : list jsstring) :
  determineChangeType (a ++ b) = maxType (determineChangeType a) (determineChangeType b) /\
  determineChangeType (b ++ a) = determineChangeType (a ++ b) /\
  (forall a', a ≡ₚ a' -> determineChangeType a' = determineChangeType a).
Proof.
  split; [apply determineChangeType_app|]. split.
  - rewrite !determineChangeType_app. apply maxType_comm.
  - intros a' Hperm. induction Hperm as [|x l l' _ IH|x y l|l l' l'' _ IH1 _ IH2].
    + reflexivity.
    + rewrite !determineChangeType_cons, IH. reflexivity.
    + rewrite !determineChangeType_cons.
      destruct (severity x), (severity y), (determineChangeType l); reflexivity.
    + congruence.
Qed.

(** ** The leftmost match *)

(** The search returns the first position at which the pattern matches. *)
Lemma search_first (at_ : jsstring -> option (jsstring * jsstring))
    (before s capture rest : jsstring) :
  search at_ (before ++ s) = Some (before, capture, rest) <->
  at_ s = Some (capture, rest) /\
  forall b1 b2, before = b1 ++ b2 -> b2 <> [] -> at_ (b2 ++ s) = None.
Proof.
  induction before as [|c before IH]; cbn [app].
  - split.
    + intros H. split.
      * apply search_Some in H as (s' & Heq & Hat). cbn in Heq. subst s'. exact Hat.
      * intros b1 b2 Heq Hne. symmetry in Heq. apply app_eq_nil in Heq as [_ ->]. contradiction.
    + intros [Hat _]. destruct s; cbn [search]; rewrite Hat; reflexivity.
  - cbn [search]. destruct (at_ (c :: before ++ s)) as [[cap r]|] eqn:Hhere.
    + split; [intros [= ]|].
      intros [_ Hnone]. specialize (Hnone [] (c :: before) eq_refl ltac:(discriminate)).
      cbn [app] in Hnone. congruence.
    + assert (Hrec : at_ s = Some (capture, rest) /\
                     (forall b1 b2, c :: before = b1 ++ b2 -> b2 <> [] -> at_ (b2 ++ s) = None) ->
                     search at_ (before ++ s) = Some (before, capture, rest)).
      { intros [Hat Hnone]. apply IH. split; [exact Hat|]. intros b1 b2 -> Hne.
        apply (Hnone (c :: b1) b2 eq_refl Hne). }
      destruct (search at_ (before ++ s)) as [[[b cap] r]|]; cbn.
      * split.
        -- intros [= -> -> ->]. destruct (proj1 IH eq_refl) as [Hat Hnone]. split; [exact Hat|].
           intros b1 b2 Heq Hne. destruct b1 as [|d b1]; cbn [app] in Heq.
           ++ subst b2. exact Hhere.
           ++ injection Heq as -> ->. apply (Hnone b1 b2 eq_refl Hne).
        -- intros H. specialize (Hrec H). injection Hrec as -> -> ->. reflexivity.
      * split; [discriminate|]. intros H. specialize (Hrec H). discriminate.
Qed.

(** A match found by the search splits the text. *)
Lemma search_split (at_ : jsstring -> option (jsstring * jsstring))
    (s before capture rest : jsstring) :
  search at_ s = Some (before, capture, rest) ->
  exists s', s = before ++ s' /\ search at_ (before ++ s') = Some (before, capture, rest).
Proof.
  intros H. destruct (search_Some _ _ _ _ _ H) as (s' & -> & _). eauto.
Qed.

(** ** Where a declaration can start *)

Lemma cons_app_inv {A : Type} (x y : A) (l1 l2 l3 : list A) :
  x :: l1 = (y :: l2) ++ l3 -> x = y /\ l1 = l2 ++ l3.
Proof. intros [= -> ->]. split; reflexivity. Qed.

(** The code units of the text [ersion], the white space, the equals sign
    and the quotes differ from the letter [v]. *)
Lemma declaration_head_once (ws1 ws2 : jsstring) (q1 : N) :
  Forall (fun c => isWhiteSpace c = true) ws1 ->
  Forall (fun c => isWhiteSpace c = true) ws2 ->
  isQuote q1 = true ->
  Forall (fun c => c <> 118%N) (str "ersion" ++ ws1 ++ str "=" ++ ws2 ++ [q1]).
Proof.
  intros H1 H2 Hq.
  assert (Hws : forall ws, Forall (fun c => isWhiteSpace c = true) ws ->
                           Forall (fun c => c <> 118%N) ws).
  { intros ws H. eapply Forall_impl; [exact H|]. intros c Hc ->. discriminate. }
  repeat (apply Forall_app; split); try (apply Hws; assumption).
  - repeat constructor; discriminate.
  - repeat constructor; discriminate.
  - repeat constructor. intros ->. discriminate.
Qed.

(** A declaration that starts before the word [version] of another text has
    its opening quote before that word. *)
Lemma versionAt_opens_before (b t v rest : jsstring) :
  b <> [] ->
  versionAt (b ++ str "version" ++ t) = Some (v, rest) ->
  exists ws1 ws2 q1 q2 l,
    b = str "version" ++ ws1 ++ str "=" ++ ws2 ++ q1 :: l /\
    l ++ str "version" ++ t = v ++ q2 :: rest /\
    Forall (fun c => isWhiteSpace c = true) ws1 /\
    Forall (fun c => isWhiteSpace c = true) ws2 /\
    isQuote q1 = true /\ isQuote q2 = true /\
    v <> [] /\ Forall (fun c => notQuote c = true) v.
Proof.
  intros Hb Hat.
  apply versionAt_Some in Hat as (ws1 & ws2 & q1 & q2 & Heq & Hws1 & Hws2 & Hq1 & Hq2 & Hne & Hv).
  exists ws1, ws2, q1, q2.
  assert (Heq' : b ++ (str "version" ++ t) =
                 (str "version" ++ ws1 ++ str "=" ++ ws2 ++ [q1]) ++ (v ++ q2 :: rest)).
  { rewrite Heq. rewrite <- !app_assoc. reflexivity. }
  apply app_eq_app in Heq' as [l [[Hl Hr]|[Hl Hr]]].
  - exists l. split; [|split; [symmetry; exact Hr|]].
    + rewrite Hl. repeat (rewrite <- app_assoc; cbn [app]). reflexivity.
    + repeat (split; [assumption|]). assumption.
  - destruct l as [|c l].
    + exists []. rewrite app_nil_r in Hl. cbn [app] in Hr.
      split; [|split; [exact Hr|]].
      * rewrite <- Hl. repeat (rewrite <- app_assoc; cbn [app]). reflexivity.
      * repeat (split; [assumption|]). assumption.
    + exfalso.
      assert (Hc : c = 118%N).
      { change (str "version" ++ t) with (118%N :: (str "ersion" ++ t)) in Hr.
        rewrite <- !app_comm_cons in Hr. congruence. }
      subst c. destruct b as [|b0 b]; [contradiction|].
      change (str "version" ++ ws1 ++ str "=" ++ ws2 ++ [q1])
        with (118%N :: (str "ersion" ++ ws1 ++ str "=" ++ ws2 ++ [q1])) in Hl.
      apply cons_app_inv in Hl as [_ Hl].
      pose proof (declaration_head_once ws1 ws2 q1 Hws1 Hws2 Hq1) as Hall.
      rewrite Hl in Hall. apply Forall_app in Hall as [_ Hall].
      apply Forall_cons in Hall as [Hc _]. contradiction.
Qed.

(** Whether a declaration starts before the word [version] of a text that
    still has a quote does not depend on that text. *)
Lemma versionAt_before_any (b t t' : jsstring) :
  b <> [] ->
  (exists q, q ∈ t /\ isQuote q = true) ->
  versionAt (b ++ str "version" ++ t) = None ->
  versionAt (b ++ str "version" ++ t') = None.
Proof.
  intros Hb (q & Hq & Hquote) Hnone.
  destruct (versionAt (b ++ str "version" ++ t')) as [[v rest]|] eqn:Hat; [|reflexivity].
  exfalso.
  destruct (versionAt_opens_before b t' v rest Hb Hat)
    as (ws1 & ws2 & q1 & q2 & l & -> & Hl & Hws1 & Hws2 & Hq1 & Hq2 & Hne & Hv).
  set (s := l ++ str "version" ++ t).
  destruct (span notQuote s) as [body r] eqn:Hspan.
  apply span_spec in Hspan as (Hs & Hbody & Hr).
  assert (Hhead : exists c s', s = c :: s' /\ notQuote c = true).
  { unfold s. destruct l as [|c l].
    - exists 118%N, (str "ersion" ++ t). split; reflexivity.
    - destruct v as [|c' v]; [contradiction|].
      rewrite <- !app_comm_cons in Hl. injection Hl as -> _.
      apply Forall_cons in Hv as [Hc _]. rewrite <- app_comm_cons. eauto. }
  destruct r as [|q' r].
  - rewrite app_nil_r in Hs.
    assert (Hin : q ∈ s) by (unfold s; rewrite !elem_of_app; auto).
    rewrite Hs in Hin. rewrite Forall_forall in Hbody. specialize (Hbody q Hin).
    unfold notQuote in Hbody. rewrite Hquote in Hbody. discriminate.
  - assert (Hbne : body <> []).
    { intros ->. destruct Hhead as (c & s' & Hcs & Hc). rewrite app_nil_l in Hs.
      rewrite Hcs in Hs. injection Hs as -> _. congruence. }
    assert (Hsome : versionAt ((str "version" ++ ws1 ++ str "=" ++ ws2 ++ q1 :: l)
                               ++ str "version" ++ t) = Some (body, r)).
    { apply versionAt_Some. exists ws1, ws2, q1, q'. split.
      - rewrite <- Hs. unfold s. repeat (rewrite <- app_assoc; rewrite <- ?app_comm_cons).
        reflexivity.
      - repeat (split; [assumption|]). split; [|split; assumption].
        unfold notQuote in Hr. destruct (isQuote q'); [reflexivity|discriminate]. }
    congruence.
Qed.

(** ** The replacement *)

Lemma getSubstitution_other (before matched after : jsstring) (c : N) (r : jsstring) :
  c <> 36%N ->
  getSubstitution before matched after (c :: r) = c :: getSubstitution before matched after r.
Proof.
  intros Hc. destruct c as [|p]; [reflexivity|].
  do 6 (destruct p as [p|p|]; try reflexivity).
  contradiction.
Qed.

(** A replacement text without a dollar sign is put in as it is. *)
Lemma getSubstitution_plain (before matched after template : jsstring) :
  Forall (fun c => c <> 36%N) template ->
  getSubstitution before matched after template = template.
Proof.
  induction 1 as [|c r Hc _ IH]; [reflexivity|].
  rewrite getSubstitution_other by exact Hc. rewrite IH. reflexivity.
Qed.

Lemma isPlain_spec (v : jsstring) :
  isPlain v = true <->
  v <> [] /\ Forall (fun c => notQuote c = true) v /\ Forall (fun c => c <> 36%N) v.
Proof.
  unfold isPlain, plainChar. rewrite andb_true_iff, negb_true_iff, bool_decide_eq_false, forallb_forall.
  rewrite !Forall_forall. split.
  - intros [Hne Hall]. split; [exact Hne|]. split; intros c Hc;
      apply list_elem_of_In, Hall, andb_true_iff in Hc as [Hq Hd]; [exact Hq|].
    apply negb_true_iff, N.eqb_neq in Hd. exact Hd.
  - intros (Hne & Hq & Hd). split; [exact Hne|]. intros c Hc. apply list_elem_of_In in Hc.
    apply andb_true_iff. split; [apply Hq, Hc|]. apply negb_true_iff, N.eqb_neq, Hd, Hc.
Qed.

(** ** The texts that a bump returns *)

Lemma plainChar_digit (c : N) : isDigit c = true -> plainChar c = true.
Proof.
  unfold isDigit, plainChar, notQuote, isQuote. intros H.
  apply andb_true_iff in H as [H1 H2]. apply N.leb_le in H1, H2.
  repeat match goal with |- context [(?a =? ?b)%N] => destruct (N.eqb_spec a b); [lia|] end.
  reflexivity.
Qed.

Lemma decDigits_digits (fuel : nat) : forall (n : Z) (acc : jsstring),
  Forall (fun c => isDigit c = true) acc ->
  Forall (fun c => isDigit c = true) (decDigits fuel n acc).
Proof.
  induction fuel as [|fuel IH]; intros n acc Hacc; cbn [decDigits]; [exact Hacc|].
  assert (Hd : isDigit (digitChar (n mod 10)) = true).
  { apply isDigit_digitChar. apply Z.mod_pos_bound. lia. }
  destruct (n / 10 =? 0)%Z; [|apply IH]; constructor; assumption.
Qed.

Lemma dec_digits (n : Z) : Forall (fun c => isDigit c = true) (dec n).
Proof. apply decDigits_digits. constructor. Qed.

Lemma decDigits_length (fuel : nat) : forall (n : Z) (acc : jsstring),
  length acc <= length (decDigits fuel n acc).
Proof.
  induction fuel as [|fuel IH]; intros n acc; cbn [decDigits]; [lia|].
  destruct (n / 10 =? 0)%Z; [cbn; lia|].
  etransitivity; [|apply IH]. cbn. lia.
Qed.

Lemma dec_nonempty (n : Z) : dec n <> [].
Proof.
  unfold dec. cbn [decDigits]. destruct (n / 10 =? 0)%Z; [discriminate|].
  intros H. pose proof (decDigits_length (Z.to_nat (Z.log2 n)) (n / 10)
                          [digitChar (n mod 10)]) as Hlen.
  rewrite H in Hlen. cbn in Hlen. lia.
Qed.

(** ** The first declaration after the replacement *)

Lemma versionTemplate_no_dollar (v : jsstring) :
  Forall (fun c => c <> 36%N) v -> Forall (fun c => c <> 36%N) (versionTemplate v).
Proof.
  intros Hv. unfold versionTemplate. repeat (apply Forall_app; split); try exact Hv;
    repeat constructor; discriminate.
Qed.

(** The template is itself a declaration of the version it carries. *)
Lemma versionAt_template (v after : jsstring) :
  v <> [] -> Forall (fun c => notQuote c = true) v ->
  versionAt (versionTemplate v ++ after) = Some (v, after).
Proof.
  intros Hne Hv. apply versionAt_Some. exists [32%N], [32%N], 34%N, 34%N.
  split; [|repeat split; try assumption; repeat constructor].
  unfold versionTemplate. repeat (rewrite <- app_assoc; rewrite <- ?app_comm_cons). reflexivity.
Qed.

(** What the replacement does to a text with a declaration: the text before
    and after the first declaration stays, and the declaration found first in
    the new text is the one put in. *)
Lemma replaceVersion_first (content before old after v : jsstring) :
  search versionAt content = Some (before, old, after) ->
  isPlain v = true ->
  replaceVersion content (versionTemplate v) = before ++ versionTemplate v ++ after /\
  search versionAt (before ++ versionTemplate v ++ after) = Some (before, v, after).
Proof.
  intros Hs Hplain. apply isPlain_spec in Hplain as (Hne & Hq & Hd). split.
  - unfold replaceVersion. rewrite Hs.
    rewrite getSubstitution_plain by (apply versionTemplate_no_dollar; exact Hd). reflexivity.
  - apply search_split in Hs as (s' & -> & Hs).
    apply search_first in Hs as [Hat Hnone].
    apply search_first. split; [apply versionAt_template; assumption|].
    intros b1 b2 Hb Hb2.
    apply versionAt_Some in Hat as (ws1 & ws2 & q1 & q2 & -> & _ & _ & Hq1 & _).
    specialize (Hnone b1 b2 Hb Hb2).
    assert (Hshape : versionTemplate v ++ after =
                     str "version" ++ (str " = " ++ [34%N] ++ v ++ [34%N] ++ after)).
    { unfold versionTemplate. repeat (rewrite <- app_assoc; rewrite <- ?app_comm_cons).
      reflexivity. }
    rewrite Hshape.
    eapply versionAt_before_any; [exact Hb2| |exact Hnone].
    exists q1. split; [|exact Hq1]. rewrite !elem_of_app, elem_of_cons. auto.
Qed.

(** A text with a declaration, as the search sees it. *)
Lemma hasVersionDeclaration_search (content : jsstring) :
  hasVersionDeclaration content ->
  exists before old after, search versionAt content = Some (before, old, after).
Proof.
  intros H. destruct (search versionAt content) as [[[before old] after]|] eqn:Hs; [eauto|].
  apply search_versionAt_None in Hs. contradiction.
Qed.

Lemma extractVersion_search (content before old after : jsstring) :
  search versionAt content = Some (before, old, after) -> extractVersion content = old.
Proof. intros H. unfold extractVersion. rewrite H. reflexivity. Qed.

(** X3.  Writing a plain version into a text that has a declaration and
    reading the version back gives that version; the text before and after
    the first declaration is kept as it is, later declarations included; and
    writing the same version again changes nothing. *)
Theorem written_version_is_read_back (content v : jsstring) :
  hasVersionDeclaration content -> isPlain v = true ->
  extractVersion (replaceVersion content (versionTemplate v)) = v /\
  (exists before old after,
     search versionAt content = Some (before, old, after) /\
     replaceVersion content (versionTemplate v) = before ++ versionTemplate v ++ after) /\
  replaceVersion (replaceVersion content (versionTemplate v)) (versionTemplate v) =
    replaceVersion content (versionTemplate v).
Proof.
  intros Hdecl Hplain.
  destruct (hasVersionDeclaration_search content Hdecl) as (before & old & after & Hs).
  destruct (replaceVersion_first content before old after v Hs Hplain) as [Hnew Hs'].
  rewrite Hnew. split; [exact (extractVersion_search _ _ _ _ Hs')|]. split; [eauto|].
  destruct (replaceVersion_first _ before v after v Hs' Hplain) as [Hagain _]. exact Hagain.
Qed.

Lemma written_version_is_read_back_witness :
  extractVersion (replaceVersion (str "group = 'x'  version = '1.0.0'")
                                 (versionTemplate (str "1.1.0"))) = str "1.1.0".
Proof.
  apply (written_version_is_read_back (str "group = 'x'  version = '1.0.0'") (str "1.1.0")).
  - exists (str "group = 'x'  "), [32%N], [32%N], 39%N, (str "1.0.0"), 39%N, [].
    split; [reflexivity|]. repeat split; repeat constructor; discriminate.
  - reflexivity.
Defined.

(** ** The texts of the numbers *)

Lemma plain_digits (l : jsstring) :
  Forall (fun c => isDigit c = true) l -> Forall (fun c => plainChar c = true) l.
Proof. intros H. eapply Forall_impl; [exact H|]. apply plainChar_digit. Qed.

Lemma plain_zeros (n : Z) : Forall (fun c => plainChar c = true) (zeros n).
Proof. unfold zeros. apply Forall_forall. intros c Hc. apply list_elem_of_In, repeat_spec in Hc.
  subst c. reflexivity. Qed.

Lemma plain_formatDigits (digits : jsstring) (n : Z) :
  Forall (fun c => isDigit c = true) digits ->
  Forall (fun c => plainChar c = true) (formatDigits digits n).
Proof.
  intros Hd. pose proof (plain_digits digits Hd) as Hp. unfold formatDigits.
  repeat match goal with
         | |- Forall _ (if ?b then _ else _) => destruct b
         | |- Forall _ (_ ++ _) => apply Forall_app; split
         | |- Forall _ (take _ _) => apply Forall_take
         | |- Forall _ (drop _ _) => apply Forall_drop
         | |- Forall _ (zeros _) => apply plain_zeros
         | |- Forall _ (dec _) => apply plain_digits, dec_digits
         | |- Forall _ (str _) => repeat constructor
         | |- Forall _ digits => exact Hp
         end.
Qed.

Lemma plain_positiveToString (k : Z) :
  Forall (fun c => plainChar c = true) (positiveToString k).
Proof.
  unfold positiveToString. destruct (_ && _); [apply plain_digits, dec_digits|].
  destruct (shortest _ _ _ _) as [s p]. destruct (stripZeros _ _ _) as [s' p'].
  apply plain_formatDigits, dec_digits.
Qed.

Lemma plain_ToString (v : option jsnum) :
  Forall (fun c => plainChar c = true) (ToString v) /\ ToString v <> [].
Proof.
  destruct v as [[|[|]|k]|]; cbn [ToString NumberToString];
    try (split; [repeat constructor|discriminate]).
  destruct (k =? 0)%Z; [split; [repeat constructor|discriminate]|].
  destruct (k <? 0)%Z.
  - split; [|discriminate]. apply Forall_app. split; [repeat constructor|].
    apply plain_positiveToString.
  - split; [apply plain_positiveToString|].
    unfold positiveToString. destruct (_ && _); [apply dec_nonempty|].
    destruct (shortest _ _ _ _) as [s p]. destruct (stripZeros _ _ _) as [s' p'].
    unfold formatDigits. pose proof (dec_nonempty s') as Hne.
    destruct (dec s') as [|d ds] eqn:Hdec; [contradiction|].
    repeat match goal with |- context [if ?b then _ else _] => destruct b end;
      try discriminate.
    destruct (Z.to_nat _); discriminate.
Qed.

(** A bump returns a plain text. *)
Lemma incrementVersion_plain (currentVersion type v : jsstring) :
  incrementVersion currentVersion type = Ok v -> isPlain v = true.
Proof.
  unfold incrementVersion. intros H.
  assert (Hparts : forall l, Forall (fun c => plainChar c = true) l -> l <> [] ->
                             isPlain l = true).
  { intros l Hl Hne. unfold isPlain. apply andb_true_iff. split.
    - apply negb_true_iff, bool_decide_eq_false. exact Hne.
    - apply forallb_forall. intros c Hc. rewrite Forall_forall in Hl.
      apply Hl, list_elem_of_In, Hc. }
  assert (Hne : forall x l, ToString x ++ l <> []).
  { intros x l Hnil. apply app_eq_nil in Hnil as [Hnil _]. revert Hnil. apply plain_ToString. }
  assert (Hinj : forall a b : jsstring, @Ok jsstring a = Ok b -> a = b).
  { intros a b [= ]. assumption. }
  repeat case_bool_decide; try discriminate; apply Hinj in H; subst v; apply Hparts;
    try apply Hne;
    repeat match goal with
           | |- Forall _ (_ ++ _) => apply Forall_app; split
           | |- Forall _ (ToString _) => apply plain_ToString
           | |- Forall _ (str _) => repeat constructor
           end.
Qed.

(** ** What [updateGradleVersion] leaves in the build file *)

(** X4.  In apply mode, when the build file of a module has a version
    declaration and the new version of the module is a bump of its current
    version, [updateGradleVersion] writes that file, the version read back
    from it is the new version, and no other file changes. *)
Theorem bumped_version_is_persisted (pathJoin : jsstring -> jsstring -> jsstring)
    (m : Manager) (node : ModuleNode) (fs : FileSystem) (content type v : jsstring) :
  dryRun m = false ->
  contents fs (pathJoin (path node) (str "build.gradle.kts")) = Some content ->
  hasVersionDeclaration content ->
  incrementVersion (currentVersion node) type = Ok v ->
  newVersion node = Some v ->
  exists fs' content',
    updateGradleVersion pathJoin m node fs =
      Ok (fs', Some (pathJoin (path node) (str "build.gradle.kts"))) /\
    contents fs' (pathJoin (path node) (str "build.gradle.kts")) = Some content' /\
    extractVersion content' = v /\
    (forall p, p <> pathJoin (path node) (str "build.gradle.kts") ->
       contents fs' p = contents fs p).
Proof.
  intros Hdry Hfile Hdecl Hbump Hnew.
  pose proof (incrementVersion_plain _ _ _ Hbump) as Hplain.
  destruct (hasVersionDeclaration_search content Hdecl) as (before & old & after & Hs).
  destruct (replaceVersion_first content before old after v Hs Hplain) as [Hrep Hs'].
  eexists _, (replaceVersion content (versionTemplate v)).
  split; [|split; [|split]].
  - unfold updateGradleVersion. rewrite Hfile, Hdry, Hnew. reflexivity.
  - cbn [contents writeFileSync]. rewrite bool_decide_eq_true_2 by reflexivity. reflexivity.
  - rewrite Hrep. exact (extractVersion_search _ _ _ _ Hs').
  - intros p Hp. cbn [contents writeFileSync]. rewrite bool_decide_eq_false_2 by exact Hp.
    reflexivity.
Qed.

Lemma bumped_version_is_persisted_witness :
  exists fs' content',
    updateGradleVersion joinSegments newManager
      {| name := str "a"; currentVersion := str "1.0.0"; newVersion := Some (str "2.0.0");
         changeType := major; dependencies := []; dependents := []; path := str "root/a" |}
      (untouched chainProject) = Ok (fs', Some (str "root/a/build.gradle.kts")) /\
    contents fs' (str "root/a/build.gradle.kts") = Some content' /\
    extractVersion content' = str "2.0.0" /\
    (forall p, p <> str "root/a/build.gradle.kts" -> contents fs' p = chainProject p).
Proof.
  apply (bumped_version_is_persisted joinSegments newManager
           {| name := str "a"; currentVersion := str "1.0.0"; newVersion := Some (str "2.0.0");
              changeType := major; dependencies := []; dependents := []; path := str "root/a" |}
           (untouched chainProject) (str "version = '1.0.0'") (str "major") (str "2.0.0")).
  - reflexivity.
  - reflexivity.
  - exists [], [32%N], [32%N], 39%N, (str "1.0.0"), 39%N, [].
    split; [reflexivity|]. repeat split; repeat constructor; discriminate.
  - vm_compute. reflexivity.
  - reflexivity.
Defined.

(** X5.  In apply mode, when the build file of a module has no version
    declaration, [updateGradleVersion] writes the file back with the text it
    had, whatever the new version of the module is: no declaration is added,
    and the version read from the file is still the default one. *)
Theorem missing_declaration_is_not_added (pathJoin : jsstring -> jsstring -> jsstring)
    (m : Manager) (node : ModuleNode) (fs : FileSystem) (content : jsstring) :
  dryRun m = false ->
  contents fs (pathJoin (path node) (str "build.gradle.kts")) = Some content ->
  ~ hasVersionDeclaration content ->
  exists fs',
    updateGradleVersion pathJoin m node fs =
      Ok (fs', Some (pathJoin (path node) (str "build.gradle.kts"))) /\
    written fs' = (pathJoin (path node) (str "build.gradle.kts"), content) :: written fs /\
    (forall p, contents fs' p = contents fs p) /\
    extractVersion content = str "0.1.0".
Proof.
  intros Hdry Hfile Hno. pose proof (proj2 (search_versionAt_None content) Hno) as Hs.
  eexists. split; [|split; [|split]].
  - unfold updateGradleVersion. rewrite Hfile, Hdry. reflexivity.
  - cbn [written writeFileSync]. unfold replaceVersion. rewrite Hs. reflexivity.
  - intros p. cbn [contents writeFileSync]. case_bool_decide as Hp; [|reflexivity].
    subst p. unfold replaceVersion. rewrite Hs, Hfile. reflexivity.
  - apply extractVersion_default. exact Hno.
Qed.

Lemma missing_declaration_is_not_added_witness :
  exists fs',
    updateGradleVersion joinSegments newManager
      {| name := str "a"; currentVersion := str "0.1.0"; newVersion := Some (str "0.2.0");
         changeType := minor; dependencies := []; dependents := []; path := str "root/a" |}
      (untouched (fileTable [("root/a/build.gradle.kts", "plugins { }")%string]))
      = Ok (fs', Some (str "root/a/build.gradle.kts")) /\
    written fs' = [(str "root/a/build.gradle.kts", str "plugins { }")] /\
    (forall p, contents fs' p = fileTable [("root/a/build.gradle.kts", "plugins { }")%string] p) /\
    extractVersion (str "plugins { }") = str "0.1.0".
Proof.
  apply (missing_declaration_is_not_added joinSegments newManager
           {| name := str "a"; currentVersion := str "0.1.0"; newVersion := Some (str "0.2.0");
              changeType := minor; dependencies := []; dependents := []; path := str "root/a" |}
           (untouched (fileTable [("root/a/build.gradle.kts", "plugins { }")%string]))
           (str "plugins { }")).
  - reflexivity.
  - reflexivity.
  - apply search_versionAt_None. reflexivity.
Defined.

(** ** The components that a bump reads *)


(** X6.  A bump reads the leading components of the version only: a major
    bump the first one, a minor bump the first two, and every bump at most
    the first three, so that a fourth component and all that follows it is
    dropped. *)
Theorem incrementVersion_reads_leading_components (x y z rest : jsstring) :
  Forall (fun c => c <> 46%N) x -> Forall (fun c => c <> 46%N) y ->
  Forall (fun c => c <> 46%N) z ->
  incrementVersion (x ++ str "." ++ rest) (str "major") = incrementVersion x (str "major") /\
  incrementVersion (x ++ str "." ++ y ++ str "." ++ rest) (str "minor") =
    incrementVersion (x ++ str "." ++ y) (str "minor") /\
  (forall type,
     incrementVersion (x ++ str "." ++ y ++ str "." ++ z ++ str "." ++ rest) type =
     incrementVersion (x ++ str "." ++ y ++ str "." ++ z) type).
Proof.
  intros Hx Hy Hz. change (str ".") with [46%N].
  repeat (rewrite <- ?app_assoc; rewrite <- ?app_comm_cons). rewrite ?app_nil_l.
  unfold incrementVersion.
  split; [|split; [|intros type]].
  - rewrite (splitOn_app 46 x) by exact Hx. rewrite (splitOn_no_sep 46 x) by exact Hx.
    reflexivity.
  - rewrite !(splitOn_app 46 x), !(splitOn_app 46 y) by assumption.
    rewrite (splitOn_no_sep 46 y) by exact Hy. reflexivity.
  - rewrite !(splitOn_app 46 x), !(splitOn_app 46 y), !(splitOn_app 46 z) by assumption.
    rewrite (splitOn_no_sep 46 z) by exact Hz. reflexivity.
Qed.

Lemma incrementVersion_reads_leading_components_witness :
  incrementVersion (str "1.9") (str "major") = incrementVersion (str "1") (str "major") /\
  incrementVersion (str "1.2.9") (str "minor") = incrementVersion (str "1.2") (str "minor") /\
  (forall type,
     incrementVersion (str "1.2.3.9") type = incrementVersion (str "1.2.3") type).
Proof.
  apply (incrementVersion_reads_leading_components (str "1") (str "2") (str "3") (str "9"));
    repeat constructor; discriminate.
Defined.

(** ** Loops that update nodes in place *)

(** A loop that applies an idempotent update to the nodes of a list. *)
Lemma fold_alter_lookup (f : ModuleNode -> ModuleNode) (l : list nat)
    (h : list ModuleNode) (j : nat) :
  (forall n, f (f n) = f n) ->
  fold_left (fun h x => alter f x h) l h !! j =
  if bool_decide (j ∈ l) then f <$> h !! j else h !! j.
Proof.
  intros Hidem. revert h. induction l as [|x l IH]; intros h; cbn [fold_left].
  - rewrite bool_decide_eq_false_2 by apply not_elem_of_nil. reflexivity.
  - rewrite IH. destruct (decide (x = j)) as [->|Hne].
    + rewrite list_lookup_alter_eq.
      rewrite (bool_decide_eq_true_2 (j ∈ j :: l)) by (apply elem_of_cons; auto).
      destruct (h !! j) as [n|]; cbn; [|destruct (bool_decide _); reflexivity].
      rewrite Hidem. destruct (bool_decide _); reflexivity.
    + rewrite list_lookup_alter_ne by exact Hne.
      destruct (bool_decide_reflect (j ∈ l)) as [Hin|Hnot].
      * rewrite bool_decide_eq_true_2 by (apply elem_of_cons; auto). reflexivity.
      * rewrite bool_decide_eq_false_2; [reflexivity|].
        rewrite elem_of_cons. intros [->|H]; contradiction.
Qed.

Lemma lift_idempotent (n : ModuleNode) : lift (lift n) = lift n.
Proof. unfold lift. destruct n as [? ? ? [] ? ? ?]; reflexivity. Qed.

(** ** Severities under the calculation *)

Lemma existsb_ext_in {A : Type} (f g : A -> bool) (l : list A) :
  (forall a, a ∈ l -> f a = g a) -> existsb f l = existsb g l.
Proof.
  induction l as [|x l IH]; intros H; [reflexivity|]. cbn [existsb].
  rewrite (H x) by (apply elem_of_cons; auto). rewrite IH; [reflexivity|].
  intros a Ha. apply H. apply elem_of_cons; auto.
Qed.

Lemma liftedBy_ext (h : list ModuleNode) (counted counted' : nat -> bool) (n : ModuleNode) :
  (forall a, a ∈ dependencies n -> counted a && isMajor h a = counted' a && isMajor h a) ->
  liftedBy h counted n = liftedBy h counted' n.
Proof.
  intros H. unfold liftedBy. rewrite (existsb_ext_in _ (fun a => counted' a && isMajor h a));
    [reflexivity|exact H].
Qed.

Lemma lift_changeType_eq (n : ModuleNode) :
  changeType (lift n) = if liftable (changeType n) then minor else changeType n.
Proof. unfold lift, liftable. destruct (_ || _); reflexivity. Qed.

Lemma lift_fields (n : ModuleNode) :
  name (lift n) = name n /\ currentVersion (lift n) = currentVersion n /\
  newVersion (lift n) = newVersion n /\ dependencies (lift n) = dependencies n /\
  dependents (lift n) = dependents n /\ path (lift n) = path n.
Proof. unfold lift. destruct (_ || _); repeat split. Qed.

Lemma liftedBy_major (h : list ModuleNode) (counted : nat -> bool) (n : ModuleNode) :
  liftedBy h counted n = major <-> changeType n = major.
Proof.
  unfold liftedBy. generalize (existsb (fun a => counted a && isMajor h a) (dependencies n)).
  intros e. destruct (changeType n), e; split; (discriminate || reflexivity).
Qed.

(** The severity after a lift by one more breaking change. *)
Lemma liftedBy_lift (h : list ModuleNode) (counted counted' : nat -> bool)
    (n n' : ModuleNode) :
  changeType n' = liftedBy h counted n ->
  existsb (fun a => counted' a && isMajor h a) (dependencies n) = true ->
  changeType (lift n') = liftedBy h counted' n.
Proof.
  intros Hct Hex. rewrite lift_changeType_eq, Hct. unfold liftedBy. rewrite Hex.
  generalize (existsb (fun a => counted a && isMajor h a) (dependencies n)).
  intros e. destruct (changeType n), e; reflexivity.
Qed.

Lemma processed_snoc (done : list nat) (x a : nat) :
  processed (done ++ [x]) a = processed done a || bool_decide (a = x).
Proof.
  unfold processed. apply eq_true_iff_eq.
  rewrite orb_true_iff, !bool_decide_eq_true, elem_of_app, list_elem_of_singleton. tauto.
Qed.

(** ** The rounds of the calculation *)

Section CalcClosed.

Variable h0 : list ModuleNode.
Hypothesis Hmirror : mirrored h0.

Lemma soFar_isMajor (done : list nat) (h : list ModuleNode) (a : nat) :
  calculatedSoFar h0 done h -> isMajor h a = isMajor h0 a.
Proof.
  intros [Hlen Hinv]. unfold isMajor. destruct (h0 !! a) as [nd|] eqn:Hnd.
  - destruct (Hinv a nd Hnd) as (n & -> & _ & _ & _ & _ & _ & Hct & _).
    apply eq_true_iff_eq. rewrite !bool_decide_eq_true, Hct. apply liftedBy_major.
  - apply lookup_ge_None in Hnd. rewrite <- Hlen in Hnd. apply lookup_ge_None in Hnd.
    rewrite Hnd. reflexivity.
Qed.

Lemma soFar_start : calculatedSoFar h0 [] h0.
Proof.
  split; [reflexivity|]. intros d nd Hd. exists nd. split; [exact Hd|].
  repeat (split; [reflexivity|]). split; [|split].
  - unfold liftedBy.
    rewrite (existsb_ext_in _ (fun _ => false)) by (intros a _; reflexivity).
    assert (Hfalse : forall l : list nat, existsb (fun _ => false) l = false)
      by (induction l; [reflexivity|assumption]).
    rewrite Hfalse, andb_false_r. reflexivity.
  - intros H. apply elem_of_nil in H. contradiction.
  - reflexivity.
Qed.

Lemma calculateNode_step (done : list nat) (x : nat) (h h1 : list ModuleNode) :
  calculatedSoFar h0 done h -> x ∉ done ->
  (forall a, edge h0 x a -> a ∈ done) -> x < length h0 ->
  calculateNode x h = Ok h1 ->
  calculatedSoFar h0 (done ++ [x]) h1.
Proof.
  intros Hsofar Hx Hdeps Hxlt Hcalc. pose proof Hsofar as [Hlen Hinv].
  assert (Hlen1 : length h1 = length h0).
  { rewrite (kept_length name h h1); [exact Hlen|].
    eapply calculateNode_kept; [reflexivity..|exact Hcalc]. }
  destruct (lookup_lt_is_Some_2 h0 x Hxlt) as [nx Hnx].
  destruct (Hinv x nx Hnx) as (n & Hn & Hname & Hcur & Hds & Hdts & Hpath & Hct & _ & _).
  assert (Hfinal : changeType n = finalChangeType h0 nx).
  { rewrite Hct. apply liftedBy_ext. intros a Ha.
    assert (Hin : a ∈ done) by (apply Hdeps; exists nx; auto).
    unfold processed. rewrite bool_decide_eq_true_2 by exact Hin. reflexivity. }
  assert (Hmaj : changeType n = major <-> isMajor h0 x = true).
  { rewrite Hct, liftedBy_major. unfold isMajor. rewrite Hnx, bool_decide_eq_true.
    reflexivity. }
  destruct (calculateNode_Ok x h n Hn) as (v & Hv & Heq).
  rewrite Heq in Hcalc. injection Hcalc as <-.
  assert (Hversion : versionFor (finalChangeType h0 nx) (currentVersion nx) = Ok v).
  { unfold bumpFor in Hv. rewrite Hfinal, Hcur in Hv. unfold versionFor.
    destruct (finalChangeType h0 nx) eqn:Hf; try exact Hv.
    assert (Hnone : someDependencyMajor h n = false).
    { change (someDependencyMajor h n) with (existsb (isMajor h) (dependencies n)).
      rewrite Hds.
      rewrite (existsb_ext_in _ (fun a => true && isMajor h0 a))
        by (intros a _; apply (soFar_isMajor done); exact Hsofar).
      unfold finalChangeType, liftedBy in Hf.
      destruct (existsb (fun a => true && isMajor h0 a) (dependencies nx)); [|reflexivity].
      destruct (changeType nx); discriminate. }
    rewrite Hnone in Hv. exact Hv. }
  split; [exact Hlen1|].
  intros d nd Hd.
  destruct (Hinv d nd Hd) as (n' & Hn' & Hname' & Hcur' & Hds' & Hdts' & Hpath' & Hct'
                              & Hdone' & Htodo').
  (* the node after the new version is written *)
  set (n1 := if bool_decide (d = x) then setNewVersion v n' else n').
  assert (Hmid : alter (setNewVersion v) x h !! d = Some n1).
  { unfold n1. destruct (bool_decide_reflect (d = x)) as [Hdx|Hdx].
    - rewrite Hdx in Hn' |- *. rewrite list_lookup_alter_eq, Hn'. reflexivity.
    - rewrite list_lookup_alter_ne by congruence. exact Hn'. }
  assert (Hn1 : name n1 = name n' /\ currentVersion n1 = currentVersion n' /\
                dependencies n1 = dependencies n' /\ dependents n1 = dependents n' /\
                path n1 = path n' /\ changeType n1 = changeType n' /\
                newVersion n1 = if bool_decide (d = x) then Some v else newVersion n').
  { unfold n1. destruct (bool_decide (d = x)); repeat split. }
  destruct Hn1 as (E1 & E2 & E3 & E4 & E5 & E6 & E7).
  (* the node after the dependents are lifted *)
  set (lifted := bool_decide (changeType n = major) && bool_decide (d ∈ dependents n)).
  set (n2 := if lifted then lift n1 else n1).
  assert (Hlast : (if bool_decide (changeType n = major)
                   then updateDependents n minor (alter (setNewVersion v) x h)
                   else alter (setNewVersion v) x h) !! d = Some n2).
  { unfold n2, lifted.
    destruct (bool_decide_reflect (changeType n = major)) as [Hm|Hm]; cbn [andb];
      [|exact Hmid].
    rewrite updateDependents_lifts, (fold_alter_lookup lift) by apply lift_idempotent.
    rewrite Hmid. destruct (bool_decide (d ∈ dependents n)); reflexivity. }
  exists n2. split; [exact Hlast|].
  pose proof (lift_fields n1) as (L1 & L2 & L3 & L4 & L5 & L6).
  assert (Hnew : newVersion n2 = if bool_decide (d = x) then Some v else newVersion n').
  { unfold n2. destruct lifted; [rewrite L3|]; exact E7. }
  split; [unfold n2; destruct lifted; congruence|].
  split; [unfold n2; destruct lifted; congruence|].
  split; [unfold n2; destruct lifted; congruence|].
  split; [unfold n2; destruct lifted; congruence|].
  split; [unfold n2; destruct lifted; congruence|].
  split; [|split].
  - (* the severity *)
    assert (Hedge : d ∈ dependents n <-> x ∈ dependencies nd).
    { rewrite Hdts. apply (Hmirror x d nx nd Hnx Hd). }
    unfold n2. destruct lifted eqn:Hl.
    + unfold lifted in Hl. apply andb_true_iff in Hl as [Hm Hin].
      apply bool_decide_eq_true in Hm, Hin.
      apply (liftedBy_lift h0 (processed done)); [congruence|].
      apply existsb_exists. exists x. split; [apply list_elem_of_In, Hedge, Hin|].
      rewrite processed_snoc, bool_decide_eq_true_2, orb_true_r by reflexivity.
      apply Hmaj, Hm.
    + rewrite E6, Hct'. apply liftedBy_ext. intros a Ha. rewrite processed_snoc.
      destruct (bool_decide_reflect (a = x)) as [Hax|Hax]; [|rewrite orb_false_r; reflexivity].
      subst a. assert (Hnot : isMajor h0 x = false).
      { destruct (isMajor h0 x) eqn:Hm; [|reflexivity]. exfalso.
        unfold lifted in Hl.
        rewrite (bool_decide_eq_true_2 (changeType n = major)) in Hl by (apply Hmaj; reflexivity).
        rewrite (bool_decide_eq_true_2 (d ∈ dependents n)) in Hl by (apply Hedge; exact Ha).
        discriminate. }
      rewrite Hnot, !andb_false_r. reflexivity.
  - intros Hin. rewrite Hnew. destruct (bool_decide_reflect (d = x)) as [Hdx|Hdx].
    + rewrite Hdx in Hd. assert (nd = nx) by congruence. subst nd. eauto.
    + apply elem_of_app in Hin as [Hin|Hin]; [exact (Hdone' Hin)|].
      apply list_elem_of_singleton in Hin. contradiction.
  - intros Hnot. rewrite Hnew. rewrite not_elem_of_app, list_elem_of_singleton in Hnot.
    destruct Hnot as [Hnd Hne]. rewrite bool_decide_eq_false_2 by exact Hne.
    exact (Htodo' Hnd).
Qed.

End CalcClosed.

(** The loop, from any point of the order on. *)
Lemma calculateNodes_closed (h0 : list ModuleNode) (order : list nat) :
  mirrored h0 ->
  forall done h h',
    calculatedSoFar h0 done h -> NoDup (done ++ order) ->
    dependenciesFirst h0 (done ++ order) ->
    (forall x, x ∈ order -> x < length h0) ->
    forEach calculateNode order h = Ok h' ->
    calculatedSoFar h0 (done ++ order) h'.
Proof.
  intros Hmirror. induction order as [|x order IH]; intros done h h' Hsofar Hnd Hord Hvalid;
    cbn [forEach].
  - intros [= <-]. rewrite app_nil_r. exact Hsofar.
  - destruct (calculateNode x h) as [h1| |] eqn:Hx; cbn; [|discriminate..].
    intros Hrest.
    assert (Hstep : calculatedSoFar h0 (done ++ [x]) h1).
    { apply (calculateNode_step h0 Hmirror done x h h1 Hsofar); [| | |exact Hx].
      - apply NoDup_app in Hnd as (_ & Hdisj & _). intros Hin.
        apply (Hdisj x Hin). apply elem_of_cons; auto.
      - intros a Ha. exact (Hord done x order eq_refl a Ha).
      - apply Hvalid. apply elem_of_cons; auto. }
    replace (done ++ x :: order) with ((done ++ [x]) ++ order) in *
      by (rewrite <- app_assoc; reflexivity).
    apply (IH (done ++ [x]) h1 h' Hstep Hnd Hord); [|exact Hrest].
    intros y Hy. apply Hvalid. apply elem_of_cons; auto.
Qed.

(** The outcome of the calculation for a well-formed graph without a cycle
    whose [dependents] mirror its [dependencies]. *)
Lemma calculateNewVersions_closed (m : Manager) :
  wellFormed m -> mirrored (heap m) -> acyclic (heap m) ->
  exists m',
    calculateNewVersions m = Ok m' /\
    moduleGraph m' = moduleGraph m /\
    length (heap m') = length (heap m) /\
    forall d nd, heap m !! d = Some nd ->
      exists v, versionFor (finalChangeType (heap m) nd) (currentVersion nd) = Ok v /\
                heap m' !! d = Some (calculated (heap m) nd v).
Proof.
  intros Hwf Hmirror Hacyclic.
  destruct (calculateNewVersions_total m Hwf Hacyclic) as [m' Hcalc].
  exists m'. split; [exact Hcalc|].
  destruct (calculateNewVersions_frame _ _ Hcalc) as (Hgraph & _ & _ & sorted & Hsort & _ & Hloop).
  destruct (topologicalSort_spec m sorted Hwf Hacyclic Hsort) as (Hnd & Hmem & Hord).
  destruct Hwf as ((Hclosed & Hroots) & _ & Hall).
  assert (Hin : forall a, a < length (heap m) -> a ∈ moduleOrder sorted).
  { intros a Ha. apply Hmem, Hall, Ha. }
  destruct (calculateNodes_closed (heap m) (moduleOrder sorted) Hmirror [] (heap m) (heap m')
              (soFar_start (heap m)) Hnd Hord) as [Hlen Hinv]; [|exact Hloop|].
  { intros x Hx. apply Hroots, Hmem, Hx. }
  split; [exact Hgraph|]. split; [exact Hlen|]. intros d nd Hd.
  destruct (Hinv d nd Hd) as (n & Hn & E1 & E2 & E3 & E4 & E5 & Hct & Hdone & _).
  destruct Hdone as (v & Hv & Hnew).
  { apply Hin. eapply lookup_lt_Some. exact Hd. }
  exists v. split; [exact Hv|]. rewrite Hn. f_equal.
  assert (Hfinal : changeType n = finalChangeType (heap m) nd).
  { rewrite Hct. apply liftedBy_ext. intros a Ha.
    assert (Hlt : a < length (heap m)) by (apply (Hclosed d a); exists nd; auto).
    unfold processed. rewrite bool_decide_eq_true_2 by (apply Hin; exact Hlt). reflexivity. }
  clear Hinv Hn Hct. destruct n.
  cbn [name currentVersion newVersion changeType dependencies dependents path] in *.
  subst. unfold calculated, setNewVersion, setChangeType. reflexivity.
Qed.

(** X7.  The calculation in closed form, for a well-formed graph without a
    cycle whose [dependents] mirror its [dependencies]: it returns; a module
    ends at [minor] when its own severity is [none] or [patch] and one of its
    direct dependencies has a breaking change, and keeps its own severity
    otherwise; its new version is the bump of its current version that goes
    with that severity, or its current version when the severity is [none];
    and no other field of any node changes. *)
Theorem calculation_in_closed_form (m : Manager) :
  wellFormed m -> mirrored (heap m) -> acyclic (heap m) ->
  exists m',
    calculateNewVersions m = Ok m' /\
    moduleGraph m' = moduleGraph m /\
    length (heap m') = length (heap m) /\
    forall d nd, heap m !! d = Some nd ->
      exists v, versionFor (finalChangeType (heap m) nd) (currentVersion nd) = Ok v /\
                heap m' !! d = Some (calculated (heap m) nd v).
Proof. apply calculateNewVersions_closed. Qed.

Lemma calculation_in_closed_form_witness :
  exists m',
    calculateNewVersions (chainManager (str "a") (str "b") (str "c")
                            (str "1.0.0") (str "2.1.3") (str "0.4.0")) = Ok m' /\
    heap m' !! 1 =
      Some {| name := str "b"; currentVersion := str "2.1.3";
              newVersion := Some (str "2.2.0"); changeType := minor;
              dependencies := [0]; dependents := [2]; path := [] |}.
Proof.
  destruct (calculation_in_closed_form
              (chainManager (str "a") (str "b") (str "c")
                 (str "1.0.0") (str "2.1.3") (str "0.4.0")))
    as (m' & Hcalc & _ & _ & Hnodes).
  - apply chain_wellFormed; discriminate.
  - apply chain_mirrored.
  - apply chain_acyclic.
  - exists m'. split; [exact Hcalc|].
    destruct (Hnodes 1 _ eq_refl) as (v & Hv & Hnode).
    vm_compute in Hv. injection Hv as <-. exact Hnode.
Defined.

(** ** The keys and the values of a built graph *)

Lemma mapHas_keys (key : jsstring) (m : list (jsstring * nat)) :
  mapHas key m = true <-> key ∈ map fst m.
Proof.
  rewrite mapHas_true. induction m as [|[k v] m IH]; cbn [mapGet map fst].
  - split; [intros [? [=]]|]. intros H. apply elem_of_nil in H. contradiction.
  - rewrite elem_of_cons. destruct (bool_decide_reflect (k = key)) as [->|Hk].
    + split; eauto.
    + rewrite IH. split; [auto|]. intros [->|H]; [contradiction|exact H].
Qed.

Lemma mapSet_keys (key : jsstring) (value : nat) (m : list (jsstring * nat)) :
  map fst (mapSet key value m) = setAdd key (map fst m).
Proof.
  unfold setAdd. destruct (mapHas key m) eqn:Hhas.
  - rewrite mapSet_keys_present by exact Hhas.
    rewrite bool_decide_eq_true_2 by (apply mapHas_keys; exact Hhas). reflexivity.
  - rewrite mapSet_keys_absent by exact Hhas.
    rewrite bool_decide_eq_false_2; [reflexivity|].
    intros Hin. apply mapHas_keys in Hin. congruence.
Qed.

Lemma mapSet_absent (key : jsstring) (value : nat) (m : list (jsstring * nat)) :
  mapHas key m = false -> mapSet key value m = m ++ [(key, value)].
Proof.
  rewrite mapHas_false.
  induction m as [|[k w] m IH]; cbn [mapGet mapSet app]; [reflexivity|].
  destruct (bool_decide (k = key)); [discriminate|]. intros H. rewrite IH by exact H.
  reflexivity.
Qed.

Lemma setAdd_fresh (keys names : list jsstring) :
  NoDup names -> (forall x, x ∈ names -> x ∉ keys) ->
  fold_left (fun keys x => setAdd x keys) names keys = keys ++ names.
Proof.
  revert keys. induction names as [|x names IH]; intros keys Hnd Hfresh; cbn [fold_left].
  - rewrite app_nil_r. reflexivity.
  - apply NoDup_cons in Hnd as [Hx Hnd].
    unfold setAdd at 2. rewrite bool_decide_eq_false_2 by (apply Hfresh, elem_of_cons; auto).
    rewrite IH; [rewrite <- app_assoc; reflexivity|exact Hnd|].
    intros y Hy. rewrite elem_of_app, list_elem_of_singleton. intros [H| ->].
    + apply (Hfresh y); [apply elem_of_cons; auto|exact H].
    + contradiction.
Qed.

Lemma setAdd_all_NoDup (names keys : list jsstring) :
  NoDup keys -> NoDup (fold_left (fun keys x => setAdd x keys) names keys).
Proof.
  revert keys. induction names as [|x names IH]; intros keys H; [exact H|].
  cbn [fold_left]. apply IH, NoDup_setAdd, H.
Qed.

Lemma elem_of_setAdd_all (names keys : list jsstring) (y : jsstring) :
  y ∈ fold_left (fun keys x => setAdd x keys) names keys <-> y ∈ keys \/ y ∈ names.
Proof.
  revert keys. induction names as [|x names IH]; intros keys; cbn [fold_left].
  - rewrite elem_of_nil. tauto.
  - rewrite IH, elem_of_setAdd, elem_of_cons. tauto.
Qed.

Lemma NoDup_list_filter {A : Type} (f : A -> bool) (l : list A) :
  NoDup l -> NoDup (List.filter f l).
Proof.
  induction 1 as [|x l Hx _ IH]; cbn [List.filter]; [constructor|].
  destruct (f x); [|exact IH]. constructor; [|exact IH].
  rewrite list_elem_of_In, List.filter_In, <- list_elem_of_In. tauto.
Qed.

Section Listing.

Variable pathJoin : jsstring -> jsstring -> jsstring.
Variable files : Files.

#[local] Abbreviation has_file := (hasBuildFile pathJoin files).
#[local] Abbreviation declares_itself := (declaresItself pathJoin files).
#[local] Abbreviation add_all := (addModules pathJoin files).

Lemma hasBuildFile_rootDir (m m' : Manager) (x : jsstring) :
  rootDir m' = rootDir m -> has_file m' x = has_file m x.
Proof. unfold hasBuildFile, buildFileOf. intros ->. reflexivity. Qed.

Lemma addModule_keys (m : Manager) (x : jsstring) :
  map fst (moduleGraph (addModule pathJoin files m x)) =
  if has_file m x then setAdd x (map fst (moduleGraph m)) else map fst (moduleGraph m).
Proof.
  unfold hasBuildFile. destruct (files (buildFileOf pathJoin m x)) as [c|] eqn:Hfile.
  - rewrite (addModule_graph _ _ _ _ _ Hfile), mapSet_keys.
    rewrite bool_decide_eq_true_2 by eauto. reflexivity.
  - rewrite (addModule_missing _ _ _ _ Hfile).
    rewrite bool_decide_eq_false_2 by (intros [? [=]]). reflexivity.
Qed.

Lemma addModules_keys (names : list jsstring) (m : Manager) :
  map fst (moduleGraph (add_all m names)) =
  fold_left (fun keys x => setAdd x keys) (List.filter (has_file m) names)
            (map fst (moduleGraph m)).
Proof.
  revert m. induction names as [|x names IH]; intros m; [reflexivity|].
  change (add_all m (x :: names)) with (add_all (addModule pathJoin files m x) names).
  cbn [List.filter]. rewrite IH, addModule_keys.
  rewrite (List.filter_ext _ (has_file m))
    by (intros y; apply hasBuildFile_rootDir, addModule_rootDir).
  destruct (has_file m x); reflexivity.
Qed.

End Listing.

(** X8.  When the settings file can be read, the construction returns a
    graph whose keys are the listed names that have a build file, each once,
    in the order of their first listing; a listed module without a build
    file is left out without an error. *)
Theorem graph_keys_are_listed_modules_with_build_file
    (pathJoin : jsstring -> jsstring -> jsstring) (files : Files)
    (root : jsstring) (dry : bool) (settingsContent : jsstring) :
  files (settingsFileOf pathJoin (constructor root dry)) = Some settingsContent ->
  exists m,
    buildDependencyGraph pathJoin files (constructor root dry) = Ok m /\
    map fst (moduleGraph m) =
      fold_left (fun keys x => setAdd x keys)
        (List.filter (hasBuildFile pathJoin files (constructor root dry))
                     (matchAll includeAt 0 settingsContent)) [] /\
    NoDup (map fst (moduleGraph m)) /\
    (forall x, mapHas x (moduleGraph m) = true <->
       x ∈ matchAll includeAt 0 settingsContent /\
       hasBuildFile pathJoin files (constructor root dry) x = true) /\
    (NoDup (matchAll includeAt 0 settingsContent) ->
     map fst (moduleGraph m) =
       List.filter (hasBuildFile pathJoin files (constructor root dry))
                   (matchAll includeAt 0 settingsContent)).
Proof.
  intros Hfile. unfold buildDependencyGraph. unfold settingsFileOf in Hfile.
  cbn [rootDir constructor] in *. rewrite Hfile. eexists. split; [reflexivity|].
  set (names := matchAll includeAt 0 settingsContent).
  pose proof (addModules_keys pathJoin files names (constructor root dry)) as Hkeys.
  cbn [moduleGraph constructor map] in Hkeys. fold (constructor root dry) in Hkeys |- *.
  split; [exact Hkeys|]. split; [|split].
  - rewrite Hkeys. apply setAdd_all_NoDup. apply NoDup_nil_2.
  - intros x. rewrite mapHas_keys, Hkeys, elem_of_setAdd_all, elem_of_nil.
    rewrite list_elem_of_In, List.filter_In, <- list_elem_of_In. tauto.
  - intros Hnd. rewrite Hkeys. rewrite setAdd_fresh; [reflexivity| |].
    + apply NoDup_list_filter. exact Hnd.
    + intros x _. apply not_elem_of_nil.
Qed.

Lemma graph_keys_are_listed_modules_with_build_file_witness :
  exists m,
    buildDependencyGraph joinSegments chainProject (constructor (str "root") false) = Ok m /\
    map fst (moduleGraph m) = [str "a"; str "b"; str "c"].
Proof.
  destruct (graph_keys_are_listed_modules_with_build_file joinSegments chainProject
              (str "root") false (str "include('a') include('b') include('c')") eq_refl)
    as (m & Hbuild & Hkeys & _).
  exists m. split; [exact Hbuild|]. rewrite Hkeys. reflexivity.
Defined.

(** ** Graphs built from a listing without duplicates *)

Lemma mapGet_elem (g : list (jsstring * nat)) (key : jsstring) (value : nat) :
  NoDup (map fst g) -> (key, value) ∈ g -> mapGet key g = Some value.
Proof.
  induction g as [|[k v] g IH]; cbn [map fst mapGet]; intros Hnd Hin.
  - apply elem_of_nil in Hin. contradiction.
  - apply NoDup_cons in Hnd as [Hk Hnd]. apply elem_of_cons in Hin as [[= -> ->]|Hin].
    + rewrite bool_decide_eq_true_2 by reflexivity. reflexivity.
    + rewrite bool_decide_eq_false_2; [apply IH; assumption|].
      intros ->. apply Hk. apply (list_elem_of_fmap_2 fst) in Hin. exact Hin.
Qed.

Section ListedOnce.

Variable pathJoin : jsstring -> jsstring -> jsstring.
Variable files : Files.

Lemma declaresItself_false (m : Manager) (names : list jsstring) :
  existsb (declaresItself pathJoin files m) names = false <->
  forall x buildContent, x ∈ names ->
    files (buildFileOf pathJoin m x) = Some buildContent ->
    x ∉ extractDependencies buildContent.
Proof.
  split.
  - intros Hnone x c Hx Hfile Hin.
    assert (Hsome : existsb (declaresItself pathJoin files m) names = true).
    { apply existsb_exists. exists x. split; [apply list_elem_of_In, Hx|].
      unfold declaresItself. rewrite Hfile. apply bool_decide_eq_true_2, Hin. }
    congruence.
  - intros Hall. destruct (existsb _ names) eqn:He; [|reflexivity]. exfalso.
    apply existsb_exists in He as (x & Hx & Hd). apply list_elem_of_In in Hx.
    unfold declaresItself in Hd.
    destruct (files (buildFileOf pathJoin m x)) as [c|] eqn:Hfile; [|discriminate].
    apply bool_decide_eq_true in Hd. exact (Hall x c Hx Hfile Hd).
Qed.

Lemma addModules_values (names : list jsstring) (m : Manager) :
  NoDup names -> (forall x, x ∈ names -> mapHas x (moduleGraph m) = false) ->
  mapValues (moduleGraph m) = seq 0 (length (heap m)) ->
  mapValues (moduleGraph (addModules pathJoin files m names)) =
  seq 0 (length (heap (addModules pathJoin files m names))).
Proof.
  revert m. induction names as [|x names IH]; intros m Hnd Hfresh Hvalues; [exact Hvalues|].
  change (addModules pathJoin files m (x :: names))
    with (addModules pathJoin files (addModule pathJoin files m x) names).
  apply NoDup_cons in Hnd as [Hx Hnd].
  destruct (files (buildFileOf pathJoin m x)) as [c|] eqn:Hfile.
  - apply IH; [exact Hnd| |].
    + intros y Hy. rewrite (addModule_graph _ _ _ _ _ Hfile). apply mapHas_false.
      rewrite mapGet_mapSet, bool_decide_eq_false_2 by (intros ->; contradiction).
      apply mapHas_false, Hfresh. apply elem_of_cons; auto.
    + rewrite (addModule_graph _ _ _ _ _ Hfile), (addModule_length _ _ _ _ _ Hfile).
      rewrite mapSet_absent by (apply Hfresh, elem_of_cons; auto).
      unfold mapValues in *. rewrite map_app, Hvalues, seq_S. reflexivity.
  - rewrite (addModule_missing _ _ _ _ Hfile). apply IH; [exact Hnd| |exact Hvalues].
    intros y Hy. apply Hfresh. apply elem_of_cons; auto.
Qed.

(** The graph built from a listing without duplicates in which no module
    declares a dependency on itself. *)
Lemma listed_once_shape (root : jsstring) (dry : bool) (names : list jsstring) :
  NoDup names ->
  existsb (declaresItself pathJoin files (constructor root dry)) names = false ->
  builtShape (addModules pathJoin files (constructor root dry) names) /\
  mapValues (moduleGraph (addModules pathJoin files (constructor root dry) names)) =
    seq 0 (length (heap (addModules pathJoin files (constructor root dry) names))).
Proof.
  intros Hnd Hself. split.
  - apply addModules_builtShape; [apply declaresItself_false; exact Hself| |exact Hnd|reflexivity].
    repeat split; cbn; try discriminate.
    + intros v Hv. apply elem_of_nil in Hv. contradiction.
    + intros a Ha. lia.
  - apply addModules_values; [exact Hnd|reflexivity|reflexivity].
Qed.

End ListedOnce.

(** ** The sort of a graph whose edges lead to earlier nodes *)

Section SortListed.

Variable h : list ModuleNode.
Hypothesis Hearlier : forall a b, edge h a b -> b <= a.
Hypothesis Huniq : uniqueNames h.

(** Visiting nodes whose names are visited already changes nothing. *)
Lemma visits_visited (fuel : nat) (deps : list nat) (st : list jsstring * list nat) :
  (forall d, d ∈ deps -> d < length h /\ nameOf h d ∈ st.1) ->
  forEach (visit (S fuel) h) deps st = Ok st.
Proof.
  induction deps as [|d deps IH]; intros Hall; [reflexivity|].
  cbn [forEach]. destruct (Hall d ltac:(apply elem_of_cons; auto)) as [Hd Hname].
  destruct (lookup_lt_is_Some_2 h d Hd) as [n Hn].
  cbn [visit]. rewrite Hn. rewrite (nameOf_Some h d n Hn) in Hname.
  rewrite bool_decide_eq_true_2 by exact Hname. cbn [mbind Result_bind].
  apply IH. intros d' Hd'. apply Hall. apply elem_of_cons; auto.
Qed.

Lemma nameOf_seq_fresh (k : nat) : k < length h -> nameOf h k ∉ namesOf h (seq 0 k).
Proof.
  intros Hk Hin. apply elem_of_namesOf in Hin as (j & Hj & Heq).
  apply elem_of_seq in Hj. assert (j = k) by (apply Huniq; [lia|exact Hk|exact Heq]). lia.
Qed.

Lemma visitRoots_listed (k : nat) :
  k <= length h ->
  visitRoots h (seq 0 k) ([], []) = Ok (namesOf h (seq 0 k), seq 0 k).
Proof.
  induction k as [|k IH]; intros Hk; [reflexivity|].
  rewrite seq_S. unfold visitRoots in *. rewrite forEach_app, IH by lia.
  cbn [mbind Result_bind forEach plus].
  destruct (lookup_lt_is_Some_2 h k ltac:(lia)) as [n Hn]. rewrite Hn.
  pose proof (nameOf_seq_fresh k ltac:(lia)) as Hfresh.
  rewrite (nameOf_Some h k n Hn) in Hfresh. cbn [fst snd].
  rewrite bool_decide_eq_false_2 by exact Hfresh.
  cbn [visit]. rewrite Hn. cbn [fst snd]. rewrite bool_decide_eq_false_2 by exact Hfresh.
  destruct (length h) as [|fuel] eqn:Hlen; [lia|].
  rewrite visits_visited.
  - cbn [mbind Result_bind fst snd]. unfold namesOf. rewrite map_app. cbn [map].
    rewrite (nameOf_Some h k n Hn). reflexivity.
  - intros d Hd. assert (Hedge : edge h k d) by (exists n; auto).
    pose proof (Hearlier k d Hedge) as Hle. split; [lia|]. cbn [fst].
    rewrite elem_of_app, list_elem_of_singleton.
    destruct (decide (d = k)) as [->|Hne]; [right; apply nameOf_Some; exact Hn|left].
    apply elem_of_namesOf. exists d. split; [apply elem_of_seq; lia|reflexivity].
Qed.

End SortListed.

(** ** The sort and the cycle check of a built graph *)

Lemma names_of_values (m : Manager) :
  builtShape m -> NoDup (map fst (moduleGraph m)) ->
  namesOf (heap m) (mapValues (moduleGraph m)) = map fst (moduleGraph m).
Proof.
  intros (_ & _ & Hnamed & _) Hnd. unfold namesOf, mapValues. rewrite map_map.
  apply map_ext_in. intros [k v] Hin. apply list_elem_of_In in Hin. cbn [fst snd].
  pose proof (mapGet_elem _ k v Hnd Hin) as Hget.
  unfold nameOf. rewrite (Hnamed k v Hget). reflexivity.
Qed.

Section ListedGraph.

Variable pathJoin : jsstring -> jsstring -> jsstring.
Variable files : Files.

Lemma addModules_split (names1 names2 : list jsstring) (m : Manager) :
  addModules pathJoin files m (names1 ++ names2) =
  addModules pathJoin files (addModules pathJoin files m names1) names2.
Proof. unfold addModules. apply fold_left_app. Qed.

Lemma addModule_mapGet_other (m : Manager) (x key : jsstring) :
  key <> x ->
  mapGet key (moduleGraph (addModule pathJoin files m x)) = mapGet key (moduleGraph m).
Proof.
  intros Hne. destruct (files (buildFileOf pathJoin m x)) as [c|] eqn:Hfile.
  - rewrite (addModule_graph _ _ _ _ _ Hfile), mapGet_mapSet.
    rewrite bool_decide_eq_false_2 by congruence. reflexivity.
  - rewrite (addModule_missing _ _ _ _ Hfile). reflexivity.
Qed.

Lemma addModules_mapGet_other (names : list jsstring) (m : Manager) (key : jsstring) :
  key ∉ names ->
  mapGet key (moduleGraph (addModules pathJoin files m names)) = mapGet key (moduleGraph m).
Proof.
  revert m. induction names as [|x names IH]; intros m Hkey; [reflexivity|].
  apply not_elem_of_cons in Hkey as [Hne Hkey].
  change (addModules pathJoin files m (x :: names))
    with (addModules pathJoin files (addModule pathJoin files m x) names).
  rewrite IH by exact Hkey. apply addModule_mapGet_other. exact Hne.
Qed.

(** A listed module that declares a dependency on itself stays in the graph
    with an edge to itself. *)
Lemma self_dependency_edge (root : jsstring) (dry : bool) (names : list jsstring)
    (x buildContent : jsstring) :
  NoDup names -> x ∈ names ->
  files (buildFileOf pathJoin (constructor root dry) x) = Some buildContent ->
  x ∈ extractDependencies buildContent ->
  exists f, f ∈ mapValues (moduleGraph (addModules pathJoin files (constructor root dry) names)) /\
            edge (heap (addModules pathJoin files (constructor root dry) names)) f f.
Proof.
  intros Hnd Hx Hfile Hdep.
  apply list_elem_of_split in Hx as (before & after & ->).
  apply NoDup_app in Hnd as (_ & _ & Hnd). apply NoDup_cons in Hnd as [Hafter _].
  rewrite addModules_split.
  set (m1 := addModules pathJoin files (constructor root dry) before).
  change (addModules pathJoin files m1 (x :: after))
    with (addModules pathJoin files (addModule pathJoin files m1 x) after).
  assert (Hfile1 : files (buildFileOf pathJoin m1 x) = Some buildContent).
  { rewrite (buildFileOf_rootDir pathJoin (constructor root dry) m1 x); [exact Hfile|].
    apply addModules_rootDir. }
  exists (length (heap m1)). split.
  - eapply mapGet_mapValues. rewrite addModules_mapGet_other by exact Hafter.
    rewrite (addModule_graph _ _ _ _ _ Hfile1), mapGet_mapSet.
    rewrite bool_decide_eq_true_2 by reflexivity. reflexivity.
  - apply edge_field. eexists. split.
    + rewrite addModules_dependencies_kept
        by (rewrite (addModule_length _ _ _ _ _ Hfile1); lia).
      apply addModule_new_dependencies. exact Hfile1.
    + unfold linkedDependencies. apply elem_of_linked. right. exists x.
      split; [exact Hdep|]. rewrite mapGet_mapSet.
      rewrite bool_decide_eq_true_2 by reflexivity. reflexivity.
Qed.

End ListedGraph.

(** X9.  For a listing without duplicates in which no module declares a
    dependency on itself, the topological sort of the built graph returns
    the modules in the order of the listing (those without a build file left
    out): every edge leads to a module listed earlier, so the listing is
    already an order of the dependencies. *)
Theorem sort_follows_the_listing (pathJoin : jsstring -> jsstring -> jsstring)
    (files : Files) (root : jsstring) (dry : bool) (names : list jsstring) :
  NoDup names ->
  existsb (declaresItself pathJoin files (constructor root dry)) names = false ->
  exists sorted,
    topologicalSort (addModules pathJoin files (constructor root dry) names) = Ok sorted /\
    moduleOrder sorted =
      mapValues (moduleGraph (addModules pathJoin files (constructor root dry) names)) /\
    namesOf (heap sorted) (moduleOrder sorted) =
      List.filter (hasBuildFile pathJoin files (constructor root dry)) names.
Proof.
  intros Hnd Hself.
  destruct (listed_once_shape pathJoin files root dry names Hnd Hself) as [Hshape Hvalues].
  set (m := addModules pathJoin files (constructor root dry) names) in *.
  destruct (builtShape_wellFormed m Hshape) as ((_ & Huniq & _) & _ & _).
  assert (Hearlier : forall a b, edge (heap m) a b -> b <= a).
  { intros a b (n & Hn & Hb). destruct Hshape as (_ & _ & _ & _ & _ & Hdecr).
    pose proof (Hdecr a n b Hn Hb). lia. }
  pose proof (visitRoots_listed (heap m) Hearlier Huniq (length (heap m)) ltac:(lia)) as Hrun.
  eexists. split; [|split].
  - unfold topologicalSort. rewrite Hvalues, Hrun. reflexivity.
  - cbn [moduleOrder snd]. symmetry. exact Hvalues.
  - cbn [moduleOrder heap snd]. rewrite <- Hvalues.
    assert (Hkeys : map fst (moduleGraph m) =
                    List.filter (hasBuildFile pathJoin files (constructor root dry)) names).
    { unfold m. rewrite addModules_keys. cbn [moduleGraph constructor map].
      rewrite setAdd_fresh; [reflexivity|apply NoDup_list_filter; exact Hnd|].
      intros x _. apply not_elem_of_nil. }
    rewrite names_of_values; [exact Hkeys|exact Hshape|].
    rewrite Hkeys. apply NoDup_list_filter. exact Hnd.
Qed.

Lemma sort_follows_the_listing_witness :
  exists sorted,
    topologicalSort (addModules joinSegments chainProject (constructor (str "root") false)
                       [str "c"; str "a"; str "b"]) = Ok sorted /\
    namesOf (heap sorted) (moduleOrder sorted) = [str "c"; str "a"; str "b"].
Proof.
  destruct (sort_follows_the_listing joinSegments chainProject (str "root") false
              [str "c"; str "a"; str "b"]) as (sorted & Hsort & _ & Hnames).
  - repeat constructor; rewrite ?elem_of_cons, ?elem_of_nil;
      intros H; repeat destruct H as [H|H]; try discriminate; contradiction.
  - vm_compute. reflexivity.
  - exists sorted. split; [exact Hsort|]. rewrite Hnames. vm_compute. reflexivity.
Defined.

(** X10.  For a listing without duplicates, the cycle check of the built
    graph fails exactly when some listed module declares a dependency on
    itself: an edge is made only to a module that is in the graph already, so
    no other cycle can arise. *)
Theorem listed_graph_cycles_are_self_dependencies
    (pathJoin : jsstring -> jsstring -> jsstring) (files : Files)
    (root : jsstring) (dry : bool) (names : list jsstring) :
  NoDup names ->
  (existsb (declaresItself pathJoin files (constructor root dry)) names = false ->
   detectCyclicDependencies (addModules pathJoin files (constructor root dry) names) = Ok ()) /\
  (existsb (declaresItself pathJoin files (constructor root dry)) names = true ->
   exists message,
     detectCyclicDependencies (addModules pathJoin files (constructor root dry) names)
     = Throw message).
Proof.
  intros Hnd. split.
  - intros Hself.
    destruct (listed_once_shape pathJoin files root dry names Hnd Hself) as [Hshape _].
    destruct (builtShape_wellFormed _ Hshape) as (Hwf & _ & Hacyclic).
    apply validated_acyclic; assumption.
  - intros Hself. apply existsb_exists in Hself as (x & Hx & Hd).
    apply list_elem_of_In in Hx. unfold declaresItself in Hd.
    destruct (files (buildFileOf pathJoin (constructor root dry) x)) as [c|] eqn:Hfile;
      [|discriminate].
    apply bool_decide_eq_true in Hd.
    destruct (self_dependency_edge pathJoin files root dry names x c Hnd Hx Hfile Hd)
      as (f & Hroot & Hedge).
    set (m := addModules pathJoin files (constructor root dry) names) in *.
    assert (Hcycle : containsCycle m).
    { exists f, [f; f]. split; [exact Hroot|]. exists [].
      assert (Hwalk : walk (heap m) [f; f]).
      { intros i a b Ha Hb. destruct i as [|[|i]]; cbn in Ha, Hb; try discriminate.
        injection Ha as <-. injection Hb as <-. exact Hedge. }
      split; [exact Hwalk|]. split; [reflexivity|].
      split; [exact Hwalk|]. split; [cbn; lia|reflexivity]. }
    assert (Hclosed : graphClosed m).
    { apply addModules_graphClosed. split.
      - intros a b (n & Hn & _). discriminate.
      - intros v Hv. apply elem_of_nil in Hv. contradiction. }
    destruct (detectCyclicDependencies m) as [[]|message|] eqn:Hdetect.
    + exfalso. exact (detectCyclicDependencies_Ok m Hdetect Hcycle).
    + eauto.
    + exfalso. exact (detectCyclicDependencies_not_Stuck m Hclosed Hdetect).
Qed.

Lemma listed_graph_cycles_are_self_dependencies_witness :
  detectCyclicDependencies
    (addModules joinSegments chainProject (constructor (str "root") false)
       [str "a"; str "b"; str "c"]) = Ok () /\
  exists message,
    detectCyclicDependencies
      (addModules joinSegments selfDependentProject (constructor (str "root") false)
         [str "a"]) = Throw message.
Proof.
  assert (Hnd3 : NoDup [str "a"; str "b"; str "c"]).
  { repeat constructor; rewrite ?elem_of_cons, ?elem_of_nil;
      intros H; repeat destruct H as [H|H]; try discriminate; contradiction. }
  assert (Hnd1 : NoDup [str "a"]).
  { repeat constructor. apply not_elem_of_nil. }
  split.
  - apply (listed_graph_cycles_are_self_dependencies joinSegments chainProject (str "root")
             false [str "a"; str "b"; str "c"] Hnd3). vm_compute. reflexivity.
  - apply (listed_graph_cycles_are_self_dependencies joinSegments selfDependentProject
             (str "root") false [str "a"] Hnd1). vm_compute. reflexivity.
Defined.

(** ** The analysis of the changes *)

Lemma analyzeChanges_lookup (history : History) (m : Manager) (j : nat) :
  heap (analyzeChanges history m) !! j =
  if bool_decide (j ∈ mapValues (moduleGraph m))
  then (fun n => setChangeType (determineChangeType (history (path n))) n) <$> heap m !! j
  else heap m !! j.
Proof.
  unfold analyzeChanges, withHeap. cbn [heap].
  apply (fold_alter_lookup (fun n => setChangeType (determineChangeType (history (path n))) n)).
  intros n. reflexivity.
Qed.

(** X11.  [analyzeChanges] gives every node of the graph the class of the
    commits of its own path, whatever class it had before, and changes
    nothing else: the graph stays, a node that the graph does not hold keeps
    its class, and analysing the same history again changes nothing. *)
Theorem analyzeChanges_classifies_every_module (history : History) (m : Manager) :
  moduleGraph (analyzeChanges history m) = moduleGraph m /\
  length (heap (analyzeChanges history m)) = length (heap m) /\
  (forall j n, heap m !! j = Some n ->
     heap (analyzeChanges history m) !! j =
     Some (if bool_decide (j ∈ mapValues (moduleGraph m))
           then setChangeType (determineChangeType (history (path n))) n
           else n)) /\
  analyzeChanges history (analyzeChanges history m) = analyzeChanges history m.
Proof.
  split; [reflexivity|]. split; [|split].
  - apply (kept_length name). apply analyzeChanges_kept. reflexivity.
  - intros j n Hn. rewrite analyzeChanges_lookup, Hn. destruct (bool_decide _); reflexivity.
  - assert (Hheap : heap (analyzeChanges history (analyzeChanges history m)) =
                    heap (analyzeChanges history m)).
    { apply list_eq. intros j. rewrite (analyzeChanges_lookup history (analyzeChanges history m)).
      change (moduleGraph (analyzeChanges history m)) with (moduleGraph m).
      rewrite analyzeChanges_lookup.
      destruct (bool_decide _); [|reflexivity]. destruct (heap m !! j); reflexivity. }
    unfold analyzeChanges at 1. unfold analyzeChanges at 1 in Hheap. cbn [heap withHeap] in Hheap.
    unfold withHeap at 1. rewrite Hheap. reflexivity.
Qed.

(** ** Shapes that survive a change of the severities *)

Lemma kept_edge (h h' : list ModuleNode) (a b : nat) :
  kept dependencies h h' -> (edge h' a b <-> edge h a b).
Proof. intros Hk. rewrite !edge_field, (Hk a). reflexivity. Qed.

Lemma kept_nameOf (h h' : list ModuleNode) (a : nat) :
  kept name h h' -> nameOf h' a = nameOf h a.
Proof. intros Hk. unfold nameOf. rewrite (Hk a). reflexivity. Qed.

Lemma wellFormed_kept (m m' : Manager) :
  moduleGraph m' = moduleGraph m ->
  kept name (heap m) (heap m') -> kept dependencies (heap m) (heap m') ->
  wellFormed m -> wellFormed m'.
Proof.
  intros Hg Hname Hdeps ((Hclosed & Hroots) & Huniq & Hall).
  pose proof (kept_length name _ _ Hname) as Hlen.
  split; [split|split].
  - intros a b Hab. rewrite Hlen. apply (Hclosed a b). apply (kept_edge _ _ _ _ Hdeps), Hab.
  - intros v. rewrite Hg, Hlen. apply Hroots.
  - intros a b. rewrite Hlen, !(kept_nameOf _ _ _ Hname). apply Huniq.
  - intros a. rewrite Hg, Hlen. apply Hall.
Qed.

Lemma mirrored_kept (h h' : list ModuleNode) :
  kept dependencies h h' -> kept dependents h h' -> mirrored h -> mirrored h'.
Proof.
  intros Hdeps Hdts Hmirror a d na nd Ha Hd.
  pose proof (Hdts a) as Ka. pose proof (Hdeps d) as Kd. unfold field in Ka, Kd.
  rewrite Ha in Ka. rewrite Hd in Kd.
  destruct (h !! a) as [na0|] eqn:Ha0; [|discriminate].
  destruct (h !! d) as [nd0|] eqn:Hd0; [|discriminate].
  cbn in Ka, Kd. injection Ka as Ka. injection Kd as Kd. rewrite Ka, Kd.
  apply (Hmirror a d na0 nd0 Ha0 Hd0).
Qed.

Lemma acyclic_kept (h h' : list ModuleNode) :
  kept dependencies h h' -> acyclic h -> acyclic h'.
Proof.
  intros Hdeps Hacyclic a Hloop. apply (Hacyclic a).
  apply (@tc_congruence _ (edge h') _ (fun x => x) (edge h) a a); [|exact Hloop].
  intros x y Hxy. apply (kept_edge h h' x y Hdeps). exact Hxy.
Qed.

(** ** The versions of a built graph *)

Lemma extractVersion_nonempty (content : jsstring) : extractVersion content <> [].
Proof.
  unfold extractVersion.
  destruct (search versionAt content) as [[[before version] rest]|] eqn:Hs; [|discriminate].
  apply search_Some in Hs as (s' & _ & Hat).
  apply versionAt_Some in Hat as (_ & _ & _ & _ & _ & _ & _ & _ & _ & Hne & _). exact Hne.
Qed.

Lemma versionFor_nonempty (c : ChangeType) (current v : jsstring) :
  current <> [] -> versionFor c current = Ok v -> v <> [].
Proof.
  intros Hcur Hv. assert (Hplain : forall type, incrementVersion current type = Ok v -> v <> []).
  { intros type H. apply incrementVersion_plain, isPlain_spec in H as [Hne _]. exact Hne. }
  destruct c; cbn [versionFor] in Hv; eauto. injection Hv as <-. exact Hcur.
Qed.

(** The sort of a graph whose values are its nodes in the order of their
    making and whose edges lead to earlier nodes. *)
Lemma listed_sort (m : Manager) :
  (forall a b, edge (heap m) a b -> b <= a) -> uniqueNames (heap m) ->
  mapValues (moduleGraph m) = seq 0 (length (heap m)) ->
  exists sorted, topologicalSort m = Ok sorted /\
                 moduleOrder sorted = seq 0 (length (heap m)).
Proof.
  intros Hearlier Huniq Hvalues.
  pose proof (visitRoots_listed (heap m) Hearlier Huniq (length (heap m)) ltac:(lia)) as Hrun.
  eexists. split; [unfold topologicalSort; rewrite Hvalues, Hrun; reflexivity|reflexivity].
Qed.

(** ** The analysis of a project listed without duplicates *)

(** The steps of the analysis, for a listing without duplicates in which no
    module declares a dependency on itself. *)
Lemma analyse_listed (pathJoin : jsstring -> jsstring -> jsstring) (files : Files)
    (history : History) (root : jsstring) (dry : bool) (settingsContent : jsstring) :
  files (settingsFileOf pathJoin (constructor root dry)) = Some settingsContent ->
  NoDup (matchAll includeAt 0 settingsContent) ->
  existsb (declaresItself pathJoin files (constructor root dry))
          (matchAll includeAt 0 settingsContent) = false ->
  exists m',
    analyse pathJoin files history (constructor root dry) = Ok m' /\
    moduleOrder m' = seq 0 (length (heap m')) /\
    mapValues (moduleGraph m') = seq 0 (length (heap m')) /\
    namesOf (heap m') (moduleOrder m') =
      List.filter (hasBuildFile pathJoin files (constructor root dry))
                  (matchAll includeAt 0 settingsContent) /\
    forall d, d < length (heap m') ->
      exists n v, heap m' !! d = Some n /\ newVersion n = Some v /\ v <> [] /\
                  versionFor (changeType n) (currentVersion n) = Ok v /\
                  (exists n1, heap (addModules pathJoin files (constructor root dry)
                                      (matchAll includeAt 0 settingsContent)) !! d = Some n1 /\
                              name n = name n1 /\ path n = path n1) /\
                  changeType n =
                    finalChangeType
                      (heap (analyzeChanges history
                               (addModules pathJoin files (constructor root dry)
                                  (matchAll includeAt 0 settingsContent))))
                      (setChangeType (determineChangeType (history (path n))) n).
Proof.
  intros Hsettings Hnd Hself.
  set (names := matchAll includeAt 0 settingsContent) in *.
  set (m1 := addModules pathJoin files (constructor root dry) names).
  assert (Hbuild : buildDependencyGraph pathJoin files (constructor root dry) = Ok m1).
  { unfold buildDependencyGraph. unfold settingsFileOf in Hsettings. rewrite Hsettings.
    reflexivity. }
  destruct (listed_once_shape pathJoin files root dry names Hnd Hself) as [Hshape Hvalues].
  fold m1 in Hshape, Hvalues.
  destruct (builtShape_wellFormed m1 Hshape) as (Hwf1 & Hmirror1 & Hacyclic1).
  assert (Hdetect : detectCyclicDependencies m1 = Ok ())
    by (apply validated_acyclic; assumption).
  set (m2 := analyzeChanges history m1).
  assert (Kname : kept name (heap m1) (heap m2)) by (apply analyzeChanges_kept; reflexivity).
  assert (Kdeps : kept dependencies (heap m1) (heap m2))
    by (apply analyzeChanges_kept; reflexivity).
  assert (Kdts : kept dependents (heap m1) (heap m2))
    by (apply analyzeChanges_kept; reflexivity).
  assert (Kcur : kept currentVersion (heap m1) (heap m2))
    by (apply analyzeChanges_kept; reflexivity).
  pose proof (kept_length name _ _ Kname) as Hlen2.
  assert (Hwf2 : wellFormed m2) by (apply (wellFormed_kept m1); [reflexivity|assumption..]).
  assert (Hmirror2 : mirrored (heap m2)) by (apply (mirrored_kept (heap m1)); assumption).
  assert (Hacyclic2 : acyclic (heap m2)) by (apply (acyclic_kept (heap m1)); assumption).
  destruct (calculateNewVersions_closed m2 Hwf2 Hmirror2 Hacyclic2)
    as (m' & Hcalc & Hgraph & Hlen & Hnodes).
  exists m'. split.
  { unfold analyse. rewrite Hbuild. cbn [mbind Result_bind]. rewrite Hdetect. exact Hcalc. }
  assert (Hearlier2 : forall a b, edge (heap m2) a b -> b <= a).
  { intros a b Hab. apply (kept_edge _ _ _ _ Kdeps) in Hab as (n & Hn & Hb).
    destruct Hshape as (_ & _ & _ & _ & _ & Hdecr). pose proof (Hdecr a n b Hn Hb). lia. }
  destruct (listed_sort m2 Hearlier2 (proj1 (proj2 Hwf2))) as (sorted & Hsort & Horder).
  { change (moduleGraph m2) with (moduleGraph m1). rewrite Hlen2. exact Hvalues. }
  destruct (calculateNewVersions_frame _ _ Hcalc) as (_ & _ & _ & sorted' & Hsort' & Horder' & _).
  assert (sorted' = sorted) by congruence. subst sorted'.
  assert (Horder1 : moduleOrder m' = seq 0 (length (heap m'))) by congruence.
  split; [exact Horder1|]. split.
  { rewrite Hgraph. change (moduleGraph m2) with (moduleGraph m1). congruence. }
  assert (Hnames : forall d, nameOf (heap m') d = nameOf (heap m1) d).
  { intros d. unfold nameOf, field. destruct (heap m2 !! d) as [nd|] eqn:Hd.
    - destruct (Hnodes d nd Hd) as (v & _ & ->).
      pose proof (Kname d) as K. unfold field in K. rewrite Hd in K.
      destruct (heap m1 !! d); [|discriminate]. cbn in K |- *. congruence.
    - apply lookup_ge_None in Hd. rewrite (lookup_ge_None_2 (heap m')) by lia.
      rewrite (lookup_ge_None_2 (heap m1)) by lia. reflexivity. }
  split.
  { rewrite Horder1, Hlen, Hlen2, <- Hvalues. unfold namesOf.
    rewrite (map_ext _ _ Hnames). fold (namesOf (heap m1) (mapValues (moduleGraph m1))).
    assert (Hkeys : map fst (moduleGraph m1) =
                    List.filter (hasBuildFile pathJoin files (constructor root dry)) names).
    { unfold m1. rewrite addModules_keys. cbn [moduleGraph constructor map].
      rewrite setAdd_fresh; [reflexivity|apply NoDup_list_filter; exact Hnd|].
      intros x _. apply not_elem_of_nil. }
    rewrite names_of_values; [exact Hkeys|exact Hshape|].
    rewrite Hkeys. apply NoDup_list_filter. exact Hnd. }
  intros d Hd. rewrite Hlen in Hd.
  destruct (lookup_lt_is_Some_2 (heap m2) d Hd) as [nd Hnd2].
  destruct (Hnodes d nd Hnd2) as (v & Hv & Hnode).
  exists (calculated (heap m2) nd v), v. split; [exact Hnode|]. split; [reflexivity|].
  (* the node as the construction made it *)
  destruct (lookup_lt_is_Some_2 (heap m1) d ltac:(lia)) as [n1 Hn1].
  pose proof (analyzeChanges_lookup history m1 d) as Hlook.
  fold m2 in Hlook. rewrite Hnd2, Hn1 in Hlook.
  rewrite bool_decide_eq_true_2 in Hlook
    by (rewrite Hvalues; apply elem_of_seq; lia).
  cbn in Hlook. injection Hlook as Hnode2. split; [|split; [|split]].
  - apply (versionFor_nonempty (finalChangeType (heap m2) nd) (currentVersion nd) v);
      [|exact Hv].
    rewrite Hnode2. cbn [currentVersion setChangeType].
    destruct Hshape as (_ & Hown & _).
    pose proof (Hown d ltac:(lia)) as Hget.
    pose proof (addModules_graphNamed pathJoin files names (constructor root dry)
                  (constructor_graphNamed pathJoin files root dry)) as Hnamed.
    fold m1 in Hnamed. destruct (Hnamed _ d Hget) as (_ & c & _ & Hcur).
    unfold field in Hcur. rewrite Hn1 in Hcur. injection Hcur as ->.
    apply extractVersion_nonempty.
  - exact Hv.
  - exists n1. split; [exact Hn1|]. rewrite Hnode2. split; reflexivity.
  - rewrite Hnode2. reflexivity.
Qed.

(** X12.  For a project whose settings list no module twice and in which no
    module declares a dependency on itself, the analysis returns; the order
    of the calculation is the order of the listing, the modules without a
    build file left out; and every module of the graph ends with a new
    version that is not empty: the bump of its current version that goes
    with the severity it ends with, or its current version. *)
Theorem analysis_of_a_listed_project (pathJoin : jsstring -> jsstring -> jsstring)
    (files : Files) (history : History) (root : jsstring) (dry : bool)
    (settingsContent : jsstring) :
  files (settingsFileOf pathJoin (constructor root dry)) = Some settingsContent ->
  NoDup (matchAll includeAt 0 settingsContent) ->
  existsb (declaresItself pathJoin files (constructor root dry))
          (matchAll includeAt 0 settingsContent) = false ->
  exists m',
    analyse pathJoin files history (constructor root dry) = Ok m' /\
    moduleOrder m' = mapValues (moduleGraph m') /\
    namesOf (heap m') (moduleOrder m') =
      List.filter (hasBuildFile pathJoin files (constructor root dry))
                  (matchAll includeAt 0 settingsContent) /\
    forall d, d ∈ moduleOrder m' ->
      exists n v, heap m' !! d = Some n /\ newVersion n = Some v /\ v <> [] /\
                  versionFor (changeType n) (currentVersion n) = Ok v.
Proof.
  intros Hsettings Hnd Hself.
  destruct (analyse_listed pathJoin files history root dry settingsContent Hsettings Hnd Hself)
    as (m' & Hrun & Horder & Hvalues & Hnames & Hnodes).
  exists m'. split; [exact Hrun|]. split; [congruence|]. split; [exact Hnames|].
  intros d Hd. rewrite Horder in Hd. apply elem_of_seq in Hd.
  destruct (Hnodes d ltac:(lia)) as (n & v & Hn & Hv & Hne & Hbump & _).
  exists n, v. repeat split; assumption.
Qed.

Lemma analysis_of_a_listed_project_witness :
  exists m',
    analyse joinSegments chainProject breakingInA (constructor (str "root") false) = Ok m' /\
    namesOf (heap m') (moduleOrder m') = [str "a"; str "b"; str "c"].
Proof.
  destruct (analysis_of_a_listed_project joinSegments chainProject breakingInA (str "root") false
              (str "include('a') include('b') include('c')"))
    as (m' & Hrun & _ & Hnames & _).
  - reflexivity.
  - assert (Hlist : matchAll includeAt 0 (str "include('a') include('b') include('c')") =
                    [str "a"; str "b"; str "c"]) by (vm_compute; reflexivity).
    rewrite Hlist. repeat constructor; rewrite ?elem_of_cons, ?elem_of_nil;
      intros H; repeat destruct H as [H|H]; try discriminate; contradiction.
  - vm_compute. reflexivity.
  - exists m'. split; [exact Hrun|]. rewrite Hnames. vm_compute. reflexivity.
Defined.

(** ** The commits read from the shell *)

Lemma splitOn_pieces (sep : N) (s : jsstring) :
  Forall (fun piece => sep ∉ piece) (splitOn sep s).
Proof.
  induction s as [|c s IH]; cbn [splitOn].
  - repeat constructor. apply not_elem_of_nil.
  - destruct (N.eqb_spec c sep) as [->|Hne].
    + constructor; [apply not_elem_of_nil|exact IH].
    + destruct (splitOn sep s) as [|h t]; [repeat constructor|].
      * rewrite list_elem_of_singleton. congruence.
      * apply Forall_cons in IH as [Hh Ht]. constructor; [|exact Ht].
        rewrite elem_of_cons. intros [H|H]; [congruence|contradiction].
Qed.

Lemma skipWhiteSpace_all (s : jsstring) :
  Forall (fun c => isWhiteSpace c = true) s -> skipWhiteSpace s = [].
Proof. induction 1 as [|c s Hc _ IH]; [reflexivity|]. cbn [skipWhiteSpace]. rewrite Hc. exact IH. Qed.

Lemma trim_blank (s : jsstring) :
  Forall (fun c => isWhiteSpace c = true) s -> trim s = [].
Proof. intros H. unfold trim. rewrite (skipWhiteSpace_all s H). reflexivity. Qed.

(** X13.  [getCommitsSinceTag] returns no empty commit and no commit with a
    line feed in it; when the command fails, or prints nothing but white
    space, it returns no commit at all and does not throw. *)
Theorem commits_are_the_nonempty_lines (execSync : Shell) (m : Manager)
    (lastTag modulePath : option jsstring) :
  (forall commit, commit ∈ getCommitsSinceTag execSync m lastTag modulePath ->
     commit <> [] /\ 10%N ∉ commit) /\
  (execSync (logCommand lastTag modulePath) (rootDir m) = None ->
   getCommitsSinceTag execSync m lastTag modulePath = []) /\
  (forall result,
     execSync (logCommand lastTag modulePath) (rootDir m) = Some result ->
     Forall (fun c => isWhiteSpace c = true) result ->
     getCommitsSinceTag execSync m lastTag modulePath = []).
Proof.
  unfold getCommitsSinceTag. split; [|split].
  - intros commit. destruct (execSync _ _) as [result|].
    + intros H. apply list_elem_of_In, List.filter_In in H as [Hin Hne].
      apply list_elem_of_In in Hin. apply negb_true_iff, bool_decide_eq_false in Hne.
      split; [exact Hne|].
      pose proof (splitOn_pieces 10 (trim result)) as Hall.
      rewrite Forall_forall in Hall. exact (Hall commit Hin).
    + intros H. apply elem_of_nil in H. contradiction.
  - intros ->. reflexivity.
  - intros result -> Hblank. rewrite trim_blank by exact Hblank. reflexivity.
Qed.

(** ** The changelog *)

(** The three lists are what the three tests select, in the order of the
    commits. *)
Lemma sortCommits_from (commits : list jsstring) (changes : Changes) :
  fold_left sortCommit commits changes =
  {| breaking := breaking changes ++ List.filter isBreaking commits;
     features := features changes ++
       List.filter (fun c => negb (isBreaking c) && startsWith c (str "feat:")) commits;
     fixes := fixes changes ++
       List.filter (fun c => negb (isBreaking c) && negb (startsWith c (str "feat:"))
                             && startsWith c (str "fix:")) commits |}.
Proof.
  revert changes. induction commits as [|c commits IH]; intros changes; cbn [fold_left List.filter].
  - rewrite !app_nil_r. destruct changes; reflexivity.
  - rewrite IH. unfold sortCommit.
    destruct (isBreaking c); cbn [negb andb breaking features fixes].
    + rewrite <- app_assoc. reflexivity.
    + destruct (startsWith c (str "feat:")); cbn [negb andb breaking features fixes].
      * rewrite <- app_assoc. reflexivity.
      * destruct (startsWith c (str "fix:")); cbn [breaking features fixes];
          rewrite <- ?app_assoc; reflexivity.
Qed.

Lemma sortCommits_filters (commits : list jsstring) :
  sortCommits commits =
  {| breaking := List.filter isBreaking commits;
     features := List.filter (fun c => negb (isBreaking c) && startsWith c (str "feat:")) commits;
     fixes := List.filter (fun c => negb (isBreaking c) && negb (startsWith c (str "feat:"))
                                    && startsWith c (str "fix:")) commits |}.
Proof. unfold sortCommits. rewrite sortCommits_from. reflexivity. Qed.

Lemma filter_nonempty {A : Type} (f : A -> bool) (l : list A) :
  List.filter f l <> [] <-> exists x, x ∈ l /\ f x = true.
Proof.
  split.
  - intros H. destruct (List.filter f l) as [|x r] eqn:Hf; [contradiction|].
    assert (Hin : In x (List.filter f l)) by (rewrite Hf; left; reflexivity).
    apply List.filter_In in Hin as [Hin Hx]. exists x. split; [apply list_elem_of_In, Hin|exact Hx].
  - intros (x & Hin & Hx) Hnil.
    assert (Hfin : In x (List.filter f l)) by (apply List.filter_In; split;
      [apply list_elem_of_In, Hin|exact Hx]).
    rewrite Hnil in Hfin. contradiction.
Qed.

Lemma filter_empty {A : Type} (f : A -> bool) (l : list A) :
  List.filter f l = [] <-> forall x, x ∈ l -> f x = false.
Proof.
  split.
  - intros Hnil x Hin. destruct (f x) eqn:Hx; [|reflexivity]. exfalso.
    apply (proj2 (filter_nonempty f l)); eauto.
  - intros Hall. destruct (List.filter f l) as [|x r] eqn:Hf; [reflexivity|]. exfalso.
    assert (Hin : In x (List.filter f l)) by (rewrite Hf; left; reflexivity).
    apply List.filter_In in Hin as [Hin Hx]. rewrite (Hall x) in Hx by (apply list_elem_of_In, Hin).
    discriminate.
Qed.

Lemma changelogSection_empty (title : jsstring) (commits : list jsstring) :
  title <> [] -> (changelogSection title commits = [] <-> commits = []).
Proof.
  intros Ht. unfold changelogSection. case_bool_decide as Hc.
  - split; auto.
  - split; [|contradiction]. intros H. apply app_eq_nil in H as [H _]. contradiction.
Qed.

(** X14.  The sections of the changelog go with the class of the same
    commits: the text is the header alone exactly when the class is [none];
    the three lists hold the commits that the three tests of the classifier
    select, in their order, each commit in at most one list; and the class
    is [major], [minor] or [patch] exactly when the list of the breaking
    changes, of the features, or of the fixes is the first one that is not
    empty. *)
Theorem changelog_sections_follow_the_class (node : ModuleNode) (commits : list jsstring) :
  (determineChangeType commits = none <->
   changelogText node commits = changelogHeader node) /\
  (determineChangeType commits = major <-> breaking (sortCommits commits) <> []) /\
  (determineChangeType commits = minor <->
   breaking (sortCommits commits) = [] /\ features (sortCommits commits) <> []) /\
  (determineChangeType commits = patch <->
   breaking (sortCommits commits) = [] /\ features (sortCommits commits) = [] /\
   fixes (sortCommits commits) <> []) /\
  sortCommits commits =
    {| breaking := List.filter isBreaking commits;
       features := List.filter (fun c => negb (isBreaking c) && startsWith c (str "feat:"))
                               commits;
       fixes := List.filter (fun c => negb (isBreaking c) && negb (startsWith c (str "feat:"))
                                      && startsWith c (str "fix:")) commits |}.
Proof.
  rewrite sortCommits_filters. cbn [breaking features fixes].
  pose proof (determineChangeType_rank commits 3 ltac:(lia)) as H3.
  pose proof (determineChangeType_rank commits 2 ltac:(lia)) as H2.
  pose proof (determineChangeType_rank commits 1 ltac:(lia)) as H1.
  set (B := List.filter isBreaking commits).
  set (F := List.filter (fun c => negb (isBreaking c) && startsWith c (str "feat:")) commits).
  set (X := List.filter (fun c => negb (isBreaking c) && negb (startsWith c (str "feat:"))
                                  && startsWith c (str "fix:")) commits).
  assert (HB : B <> [] <-> 3 <= rank (determineChangeType commits)).
  { unfold B. rewrite filter_nonempty, H3. split; intros (c & Hc & H); exists c;
      (split; [exact Hc|]); apply (severity_rank c); exact H. }
  assert (HF : B <> [] \/ F <> [] <-> 2 <= rank (determineChangeType commits)).
  { unfold B, F. rewrite !filter_nonempty, H2. split.
    - intros [(c & Hc & H)|(c & Hc & H)]; exists c; (split; [exact Hc|]);
        apply (severity_rank c); [auto|]. apply andb_true_iff in H as [_ H]. auto.
    - intros (c & Hc & H). apply (severity_rank c) in H.
      destruct (isBreaking c) eqn:Hb; [left; eauto|right].
      destruct H as [H|H]; [discriminate|]. exists c. rewrite Hb, H. auto. }
  assert (HX : B <> [] \/ F <> [] \/ X <> [] <-> 1 <= rank (determineChangeType commits)).
  { unfold B, F, X. rewrite !filter_nonempty, H1. split.
    - intros [(c & Hc & H)|[(c & Hc & H)|(c & Hc & H)]]; exists c; (split; [exact Hc|]);
        apply (severity_rank c); [auto| |].
      + apply andb_true_iff in H as [_ H]. auto.
      + apply andb_true_iff in H as [_ H]. auto.
    - intros (c & Hc & H). apply (severity_rank c) in H.
      destruct (isBreaking c) eqn:Hb; [left; eauto|right].
      destruct (startsWith c (str "feat:")) eqn:Hf; [left; exists c; rewrite Hb, Hf; auto|right].
      destruct H as [H|[H|H]]; try discriminate. exists c. rewrite Hb, Hf, H. auto. }
  clear H1 H2 H3.
  assert (DB : B = [] \/ B <> []) by (destruct B; [left|right]; congruence).
  assert (DF : F = [] \/ F <> []) by (destruct F; [left|right]; congruence).
  assert (DX : X = [] \/ X <> []) by (destruct X; [left|right]; congruence).
  split; [|split; [|split; [|split]]].
  - unfold changelogText. rewrite sortCommits_filters. cbn [breaking features fixes].
    fold B F X. split.
    + intros Hnone. rewrite Hnone in HB, HF, HX. cbn in HB, HF, HX.
      assert (B = []) by (destruct DB; [assumption|]; exfalso; apply HB in H; lia).
      assert (F = []) by (destruct DF; [assumption|]; exfalso;
                          assert (2 <= 0) by (apply HF; auto); lia).
      assert (X = []) by (destruct DX; [assumption|]; exfalso;
                          assert (1 <= 0) by (apply HX; auto); lia).
      rewrite H, H0, H1. cbn. rewrite !app_nil_r. reflexivity.
    + intros Htext.
      assert (Hsections : changelogSection breakingTitle B ++
                          changelogSection featuresTitle F ++
                          changelogSection fixesTitle X = []).
      { apply (app_inv_head (changelogHeader node)). rewrite app_nil_r. exact Htext. }
      apply app_eq_nil in Hsections as [HsB Hsections].
      apply app_eq_nil in Hsections as [HsF HsX].
      apply changelogSection_empty in HsB, HsF, HsX; try discriminate.
      assert (~ 1 <= rank (determineChangeType commits)).
      { intros H. apply HX in H as [H|[H|H]]; contradiction. }
      destruct (determineChangeType commits); cbn in *; try lia. reflexivity.
  - rewrite HB. destruct (determineChangeType commits); cbn; split; intros; try lia;
      try discriminate; reflexivity.
  - split.
    + intros Hminor. rewrite Hminor in HB, HF. cbn in HB, HF.
      assert (Hb : B = []) by (destruct DB; [assumption|]; exfalso; apply HB in H; lia).
      split; [exact Hb|]. destruct (proj2 HF ltac:(lia)) as [H|H]; [contradiction|exact H].
    + intros [Hb Hf].
      assert (2 <= rank (determineChangeType commits)) by (apply HF; auto).
      assert (~ 3 <= rank (determineChangeType commits)) by (intros H3; apply HB in H3; auto).
      destruct (determineChangeType commits); cbn in *; try lia. reflexivity.
  - split.
    + intros Hpatch. rewrite Hpatch in HB, HF, HX. cbn in HB, HF, HX.
      assert (Hb : B = []) by (destruct DB; [assumption|]; exfalso; apply HB in H; lia).
      assert (Hf : F = []) by (destruct DF; [assumption|]; exfalso;
                               assert (2 <= 1) by (apply HF; auto); lia).
      split; [exact Hb|]. split; [exact Hf|].
      destruct (proj2 HX ltac:(lia)) as [H|[H|H]]; [contradiction..|exact H].
    + intros (Hb & Hf & Hx).
      assert (1 <= rank (determineChangeType commits)) by (apply HX; auto).
      assert (~ 2 <= rank (determineChangeType commits)).
      { intros H2. apply HF in H2 as [H2|H2]; contradiction. }
      destruct (determineChangeType commits); cbn in *; try lia. reflexivity.
  - reflexivity.
Qed.

(** ** Loops of the run *)

(** A loop whose body returns and keeps an invariant of the world returns
    and keeps it. *)
Lemma forEachEff_returns {A S : Type} (I : World -> Prop) (body : A -> S -> Eff S)
    (l : list A) :
  (forall x s w, x ∈ l -> I w -> exists s' w', body x s w = (w', Ok s') /\ I w') ->
  forall s w, I w -> exists s' w', forEachEff body l s w = (w', Ok s') /\ I w'.
Proof.
  induction l as [|x l IH]; intros Hbody s w Hw; cbn [forEachEff].
  - exists s, w. split; [reflexivity|exact Hw].
  - destruct (Hbody x s w ltac:(apply elem_of_cons; auto) Hw) as (s1 & w1 & Hx & Hw1).
    unfold andThen. rewrite Hx. apply IH; [|exact Hw1].
    intros y s' w' Hy. apply Hbody. apply elem_of_cons; auto.
Qed.

Lemma textsKept_refl (fs : FileSystem) : textsKept fs fs.
Proof. intros p old H. exists []. exact H. Qed.

Lemma textsKept_trans (fs1 fs2 fs3 : FileSystem) :
  textsKept fs1 fs2 -> textsKept fs2 fs3 -> textsKept fs1 fs3.
Proof.
  intros H12 H23 p old H. destruct (H12 p old H) as (new & Hnew).
  destruct (H23 p _ Hnew) as (new' & Hnew'). exists (new' ++ new).
  rewrite <- app_assoc. exact Hnew'.
Qed.

Section Changelogs.

Variable pathJoin : jsstring -> jsstring -> jsstring.
Variable execSync : list Call -> Shell.

Lemma generateModuleChangelog_step (m : Manager) (node : ModuleNode) (w : World) :
  exists text,
    generateModuleChangelog pathJoin execSync m node w =
      ({| disk := writeFileSync (pathJoin (path node) (str "CHANGELOG.md")) text (disk w);
          calls := calls w |}, Ok ()) /\
    textsKept (disk w)
      (writeFileSync (pathJoin (path node) (str "CHANGELOG.md")) text (disk w)).
Proof.
  eexists. split; [reflexivity|]. intros p old Hold. cbn [contents writeFileSync].
  case_bool_decide as Hp.
  - subst p. rewrite Hold. cbn [default]. eauto.
  - exists []. exact Hold.
Qed.

(** The loop of [generateChangelogs], from any point of the order on. *)
Lemma generateChangelogs_loop (m : Manager) (order : list nat) :
  (forall node, node ∈ order -> node < length (heap m)) ->
  forall w, exists w',
    forEachEff (fun node (_ : unit) =>
                  withNode m node (fun n =>
                    if truthy (newVersion n) then generateModuleChangelog pathJoin execSync m n
                    else pureEff ()))
               order () w = (w', Ok ()) /\
    calls w' = calls w /\ textsKept (disk w) (disk w') /\
    map fst (written (disk w')) =
      rev (changelogsToWrite pathJoin m order) ++ map fst (written (disk w)).
Proof.
  induction order as [|node order IH]; intros Hvalid w; cbn [forEachEff].
  - exists w. repeat split. apply textsKept_refl.
  - destruct (lookup_lt_is_Some_2 (heap m) node (Hvalid node ltac:(apply elem_of_cons; auto)))
      as [n Hn].
    cbn [changelogsToWrite omap list_omap]. unfold andThen, withNode. rewrite Hn.
    cbn [mbind option_bind]. fold (changelogsToWrite pathJoin m order).
    destruct (truthy (newVersion n)).
    + destruct (generateModuleChangelog_step m n w) as (text & -> & Hkept).
      destruct (IH ltac:(intros y Hy; apply Hvalid, elem_of_cons; auto)
                  {| disk := writeFileSync (pathJoin (path n) (str "CHANGELOG.md")) text (disk w);
                     calls := calls w |}) as (w' & Hloop & Hcalls & Hk & Hw).
      exists w'. split; [exact Hloop|]. split; [exact Hcalls|]. split.
      * eapply textsKept_trans; [exact Hkept|exact Hk].
      * rewrite Hw. cbn [disk written writeFileSync map fst rev]. rewrite <- app_assoc.
        reflexivity.
    + cbn [pureEff].
      destruct (IH ltac:(intros y Hy; apply Hvalid, elem_of_cons; auto) w)
        as (w' & Hloop & Hcalls & Hk & Hw).
      exists w'. repeat split; assumption.
Qed.

End Changelogs.

(** X15.  [generateChangelogs] returns for every order of nodes of the heap;
    it writes one changelog for every node with a new version, in that
    order, and nothing else; it makes no call; and no text is lost: every
    file that was there ends with the text it had, a changelog with the new
    text put before it. *)
Theorem changelogs_keep_the_existing_text (pathJoin : jsstring -> jsstring -> jsstring)
    (execSync : list Call -> Shell) (m : Manager) (w : World) :
  (forall node, node ∈ moduleOrder m -> node < length (heap m)) ->
  exists w',
    generateChangelogs pathJoin execSync m w = (w', Ok ()) /\
    calls w' = calls w /\
    textsKept (disk w) (disk w') /\
    map fst (written (disk w')) =
      rev (changelogsToWrite pathJoin m (moduleOrder m)) ++ map fst (written (disk w)).
Proof. intros Hvalid. apply generateChangelogs_loop. exact Hvalid. Qed.

(** ** The three steps of [updateVersions] *)

Section UpdateVersions.

Variable pathJoin : jsstring -> jsstring -> jsstring.
Variable commitChanges : list jsstring -> Result unit.
Variable createGitTag : ModuleNode -> Result unit.

(** The body of the first loop. *)
#[local] Abbreviation write_step m := (fun (node : nat) (modifiedFiles : list jsstring) =>
  withNode m node (fun n =>
    if truthy (newVersion n) then
      andThen (updateGradleVersionStep pathJoin m n) (fun file =>
        pureEff (if truthy file then modifiedFiles ++ [default [] file] else modifiedFiles))
    else pureEff modifiedFiles)).

(** The body of the last loop. *)
#[local] Abbreviation tag_step m := (fun (node : nat) (_ : unit) =>
  withNode m node (fun n =>
    if truthy (newVersion n) then call (CreateGitTag node) (createGitTag n)
    else pureEff ())).

(** In a dry run the first loop leaves the world as it is and collects no
    file. *)
Lemma write_loop_dry (m : Manager) (order : list nat) :
  dryRun m = true ->
  forall modifiedFiles w,
    exists r, forEachEff (write_step m) order modifiedFiles w = (w, r) /\
              forall files, r = Ok files -> files = modifiedFiles.
Proof.
  intros Hdry. induction order as [|node order IH]; intros modifiedFiles w; cbn [forEachEff].
  - eexists. split; [reflexivity|]. intros files [= <-]. reflexivity.
  - set (loop := forEachEff (write_step m) order) in *.
    unfold andThen at 1, withNode. destruct (heap m !! node) as [n|].
    2:{ eexists. split; [reflexivity|]. discriminate. }
    destruct (truthy (newVersion n)); [|apply IH].
    unfold andThen at 1, updateGradleVersionStep, updateGradleVersion.
    destruct (contents (disk w) _) as [content|].
    + rewrite Hdry. cbn [truthy pureEff]. destruct w. apply IH.
    + eexists. split; [reflexivity|]. discriminate.
Qed.

(** In apply mode the first loop writes the build file of every node with a
    new version and collects the paths. *)
Lemma write_loop_apply (m : Manager) (order : list nat) :
  dryRun m = false ->
  (forall a b, pathJoin a b <> []) ->
  forall modifiedFiles w,
    (forall node, node ∈ order ->
       exists n, heap m !! node = Some n /\
                 is_Some (contents (disk w) (pathJoin (path n) (str "build.gradle.kts")))) ->
    exists fs',
      forEachEff (write_step m) order modifiedFiles w =
        ({| disk := fs'; calls := calls w |},
         Ok (modifiedFiles ++ filesToPersist pathJoin m order)) /\
      map fst (written fs') =
        rev (filesToPersist pathJoin m order) ++ map fst (written (disk w)) /\
      (forall p, is_Some (contents (disk w) p) -> is_Some (contents fs' p)).
Proof.
  intros Hdry Hjoin. induction order as [|node order IH]; intros modifiedFiles w Hread;
    cbn [forEachEff].
  - exists (disk w). rewrite app_nil_r. destruct w. repeat split. auto.
  - destruct (Hread node ltac:(apply elem_of_cons; auto)) as (n & Hn & Hfile).
    cbn [filesToPersist omap list_omap]. rewrite Hn. cbn [mbind option_bind].
    fold (filesToPersist pathJoin m order).
    set (loop := forEachEff (write_step m) order) in *.
    unfold andThen at 1, withNode. rewrite Hn.
    destruct (truthy (newVersion n)) eqn:Ht.
    + destruct (updateGradleVersion_apply pathJoin m n (disk w) Hdry Hfile) as [text Hupd].
      unfold andThen at 1, updateGradleVersionStep. rewrite Hupd. cbn [pureEff].
      assert (Htruthy : truthy (Some (pathJoin (path n) (str "build.gradle.kts"))) = true).
      { unfold truthy. destruct (pathJoin (path n) (str "build.gradle.kts")) eqn:Hp;
          [|reflexivity].
        exfalso. exact (Hjoin _ _ Hp). }
      rewrite Htruthy. cbn [default from_option id].
      destruct (IH (modifiedFiles ++ [pathJoin (path n) (str "build.gradle.kts")])
                  {| disk := writeFileSync (pathJoin (path n) (str "build.gradle.kts")) text
                                           (disk w);
                     calls := calls w |}) as (fs' & Hloop & Hw & Hkeep).
      { intros node' Hin. destruct (Hread node' ltac:(apply elem_of_cons; auto))
          as (n' & Hn' & Hfile').
        exists n'. split; [exact Hn'|]. apply writeFileSync_keeps. exact Hfile'. }
      exists fs'. split; [|split].
      * eapply eq_trans; [exact Hloop|]. cbn [calls]. rewrite <- app_assoc. reflexivity.
      * rewrite Hw. cbn [disk written writeFileSync map fst rev]. rewrite <- app_assoc.
        reflexivity.
      * intros p Hp. apply Hkeep. cbn [disk]. apply writeFileSync_keeps. exact Hp.
    + cbn [pureEff]. apply IH. intros node' Hin. apply Hread. apply elem_of_cons; auto.
Qed.

(** The last loop asks for the tags of the nodes with a new version, in
    their order, until a call throws. *)
Lemma tag_loop (m : Manager) (order : list nat) :
  forall w,
    exists tags rest r,
      forEachEff (tag_step m) order () w =
        ({| disk := disk w; calls := calls w ++ map CreateGitTag tags |}, r) /\
      nodesWithNewVersion m order = tags ++ rest /\
      ((forall node, node ∈ order -> node < length (heap m)) ->
       (forall n, createGitTag n = Ok ()) -> rest = [] /\ r = Ok ()).
Proof.
  induction order as [|node order IH]; intros w; cbn [forEachEff].
  - exists [], [], (Ok ()). cbn [map]. rewrite app_nil_r. destruct w. repeat split.
  - cbn [nodesWithNewVersion List.filter]. fold (nodesWithNewVersion m order).
    set (loop := forEachEff (tag_step m) order) in *.
    unfold andThen at 1, withNode. destruct (heap m !! node) as [n|] eqn:Hn.
    2:{ exists [], (nodesWithNewVersion m order), Stuck. cbn [map]. rewrite app_nil_r.
        destruct w. split; [reflexivity|]. split; [reflexivity|].
        intros Hvalid _. exfalso.
        pose proof (Hvalid node ltac:(apply elem_of_cons; auto)) as Hlt.
        apply lookup_ge_None in Hn. lia. }
    destruct (truthy (newVersion n)) eqn:Ht.
    + unfold call at 1. destruct (createGitTag n) as [[]|message|] eqn:Hc.
      * destruct (IH {| disk := disk w; calls := calls w ++ [CreateGitTag node] |})
          as (tags & rest & r & Hloop & Hsplit & Hall).
        exists (node :: tags), rest, r. split; [|split].
        -- rewrite Hloop. cbn [disk calls map]. rewrite <- app_assoc. reflexivity.
        -- rewrite Hsplit. reflexivity.
        -- intros Hvalid Hok. apply Hall; [|exact Hok].
           intros y Hy. apply Hvalid. apply elem_of_cons; auto.
      * exists [node], (nodesWithNewVersion m order), (Throw message).
        split; [reflexivity|]. split; [reflexivity|].
        intros _ Hok. rewrite Hok in Hc. discriminate.
      * exists [node], (nodesWithNewVersion m order), Stuck.
        split; [reflexivity|]. split; [reflexivity|].
        intros _ Hok. rewrite Hok in Hc. discriminate.
    + cbn [pureEff]. destruct (IH w) as (tags & rest & r & Hloop & Hsplit & Hall).
      exists tags, rest, r. split; [exact Hloop|]. split; [exact Hsplit|].
      intros Hvalid Hok. apply Hall; [|exact Hok].
      intros y Hy. apply Hvalid. apply elem_of_cons; auto.
Qed.

End UpdateVersions.

Lemma andThen_run {A B : Type} (e : Eff A) (k : A -> Eff B) (w w' : World) (r : Result A) :
  e w = (w', r) ->
  andThen e k w = match r with
                  | Ok a => k a w'
                  | Throw message => (w', Throw message)
                  | Stuck => (w', Stuck)
                  end.
Proof. intros H. unfold andThen. rewrite H. reflexivity. Qed.

Section UpdateVersionsOutcome.

Variable pathJoin : jsstring -> jsstring -> jsstring.
Variable commitChanges : list jsstring -> Result unit.
Variable createGitTag : ModuleNode -> Result unit.

Lemma no_file_no_node (m : Manager) (order : list nat) :
  (forall node, node ∈ order -> node < length (heap m)) ->
  filesToPersist pathJoin m order = [] -> nodesWithNewVersion m order = [].
Proof.
  induction order as [|node order IH]; intros Hvalid; [reflexivity|].
  destruct (lookup_lt_is_Some_2 (heap m) node (Hvalid node ltac:(apply elem_of_cons; auto)))
    as [n Hn].
  cbn [filesToPersist omap list_omap nodesWithNewVersion List.filter]. rewrite Hn.
  cbn [mbind option_bind]. destruct (truthy (newVersion n)); [discriminate|].
  apply IH. intros y Hy. apply Hvalid. apply elem_of_cons; auto.
Qed.

Lemma tag_loop_none (m : Manager) (order : list nat) (w : World) :
  (forall node, node ∈ order -> node < length (heap m)) ->
  nodesWithNewVersion m order = [] ->
  forEachEff (fun node (_ : unit) =>
                withNode m node (fun n =>
                  if truthy (newVersion n) then call (CreateGitTag node) (createGitTag n)
                  else pureEff ()))
             order () w = (w, Ok ()).
Proof.
  induction order as [|node order IH]; intros Hvalid; [reflexivity|].
  destruct (lookup_lt_is_Some_2 (heap m) node (Hvalid node ltac:(apply elem_of_cons; auto)))
    as [n Hn].
  cbn [nodesWithNewVersion List.filter forEachEff]. rewrite Hn.
  unfold andThen at 1, withNode. rewrite Hn.
  destruct (truthy (newVersion n)); [discriminate|]. cbn [pureEff].
  apply IH. intros y Hy. apply Hvalid. apply elem_of_cons; auto.
Qed.

(** What [updateVersions] does in a dry run. *)
Lemma updateVersions_dry (m : Manager) (w : World) :
  dryRun m = true ->
  exists tags rest r,
    updateVersions pathJoin commitChanges createGitTag m w =
      ({| disk := disk w; calls := calls w ++ map CreateGitTag tags |}, r) /\
    nodesWithNewVersion m (moduleOrder m) = tags ++ rest.
Proof.
  intros Hdry. unfold updateVersions.
  destruct (write_loop_dry pathJoin m (moduleOrder m) Hdry [] w) as (r1 & Hloop & Hfiles).
  rewrite (andThen_run _ _ _ _ _ Hloop). destruct r1 as [files|message|].
  - rewrite (Hfiles files eq_refl). rewrite bool_decide_eq_true_2 by reflexivity.
    cbn [negb andb]. rewrite (andThen_run _ _ w w (Ok ())) by reflexivity.
    destruct (tag_loop createGitTag m (moduleOrder m) w) as (tags & rest & r & Htags & Hsplit & _).
    exists tags, rest, r. split; [exact Htags|exact Hsplit].
  - exists [], (nodesWithNewVersion m (moduleOrder m)), (Throw message).
    cbn [map]. rewrite app_nil_r. destruct w. split; reflexivity.
  - exists [], (nodesWithNewVersion m (moduleOrder m)), Stuck.
    cbn [map]. rewrite app_nil_r. destruct w. split; reflexivity.
Qed.

(** What [updateVersions] does in apply mode, when the build files are
    there. *)
Lemma updateVersions_apply (m : Manager) (w : World) :
  dryRun m = false ->
  (forall a b, pathJoin a b <> []) ->
  (forall node, node ∈ moduleOrder m ->
     exists n, heap m !! node = Some n /\
               is_Some (contents (disk w) (pathJoin (path n) (str "build.gradle.kts")))) ->
  exists fs',
    map fst (written fs') =
      rev (filesToPersist pathJoin m (moduleOrder m)) ++ map fst (written (disk w)) /\
    (forall p, is_Some (contents (disk w) p) -> is_Some (contents fs' p)) /\
    (filesToPersist pathJoin m (moduleOrder m) = [] ->
     updateVersions pathJoin commitChanges createGitTag m w =
       ({| disk := fs'; calls := calls w |}, Ok ())) /\
    (filesToPersist pathJoin m (moduleOrder m) <> [] ->
     forall message,
       commitChanges (filesToPersist pathJoin m (moduleOrder m)) = Throw message ->
       updateVersions pathJoin commitChanges createGitTag m w =
         ({| disk := fs';
             calls := calls w ++ [CommitChanges (filesToPersist pathJoin m (moduleOrder m))] |},
          Throw message)) /\
    (filesToPersist pathJoin m (moduleOrder m) <> [] ->
     commitChanges (filesToPersist pathJoin m (moduleOrder m)) = Ok () ->
     exists tags rest r,
       updateVersions pathJoin commitChanges createGitTag m w =
         ({| disk := fs';
             calls := calls w ++ CommitChanges (filesToPersist pathJoin m (moduleOrder m))
                              :: map CreateGitTag tags |}, r) /\
       nodesWithNewVersion m (moduleOrder m) = tags ++ rest /\
       ((forall n, createGitTag n = Ok ()) -> rest = [] /\ r = Ok ())).
Proof.
  intros Hdry Hjoin Hread.
  destruct (write_loop_apply pathJoin m (moduleOrder m) Hdry Hjoin [] w Hread)
    as (fs' & Hloop & Hw & Hkeep).
  rewrite app_nil_l in Hloop.
  assert (Hvalid : forall node, node ∈ moduleOrder m -> node < length (heap m)).
  { intros node Hin. destruct (Hread node Hin) as (n & Hn & _). eapply lookup_lt_Some, Hn. }
  exists fs'. split; [exact Hw|]. split; [exact Hkeep|].
  set (files := filesToPersist pathJoin m (moduleOrder m)) in *.
  unfold updateVersions. rewrite (andThen_run _ _ _ _ _ Hloop). fold files.
  rewrite Hdry. cbn [negb]. rewrite andb_true_r. split; [|split].
  - intros Hnil. rewrite Hnil. rewrite bool_decide_eq_true_2 by reflexivity.
    cbn [negb].
    rewrite (andThen_run _ _ _ {| disk := fs'; calls := calls w |} (Ok ())) by reflexivity.
    apply tag_loop_none; [exact Hvalid|]. apply no_file_no_node; assumption.
  - intros Hne message Hthrow. rewrite bool_decide_eq_false_2 by exact Hne. cbn [negb].
    rewrite (andThen_run _ _ _ {| disk := fs'; calls := calls w ++ [CommitChanges files] |}
               (Throw message)); [reflexivity|].
    unfold call. cbn [disk calls]. rewrite Hthrow. reflexivity.
  - intros Hne Hok. rewrite bool_decide_eq_false_2 by exact Hne. cbn [negb].
    rewrite (andThen_run _ _ _ {| disk := fs'; calls := calls w ++ [CommitChanges files] |}
               (Ok ())) by (unfold call; cbn [disk calls]; rewrite Hok; reflexivity).
    destruct (tag_loop createGitTag m (moduleOrder m)
                {| disk := fs'; calls := calls w ++ [CommitChanges files] |})
      as (tags & rest & r & Htags & Hsplit & Hall).
    exists tags, rest, r. split; [|split; [exact Hsplit|]].
    + eapply eq_trans; [exact Htags|]. cbn [disk calls]. rewrite <- app_assoc. reflexivity.
    + intros Hgood. apply Hall; assumption.
Qed.

End UpdateVersionsOutcome.

(** X16.  In a dry run [updateVersions] writes no file and makes no commit,
    whatever the files and the graph are: the only calls it makes are those
    of [createGitTag], for nodes with a new version, in their order. *)
Theorem dry_run_update_writes_nothing (pathJoin : jsstring -> jsstring -> jsstring)
    (commitChanges : list jsstring -> Result unit) (createGitTag : ModuleNode -> Result unit)
    (m : Manager) (w : World) :
  dryRun m = true ->
  exists tags rest r,
    updateVersions pathJoin commitChanges createGitTag m w =
      ({| disk := disk w; calls := calls w ++ map CreateGitTag tags |}, r) /\
    nodesWithNewVersion m (moduleOrder m) = tags ++ rest.
Proof. apply updateVersions_dry. Qed.

(** X17.  In apply mode, when the build files of the nodes of the order are
    there, [updateVersions] first writes the build file of every node with a
    new version, then calls [commitChanges] once with exactly the files
    written, in their order, and only then asks for the tags.  When the
    commit throws, the run throws the same error: no tag is asked for, and
    the build files stay as written.  When nothing was written, no commit is
    made. *)
Theorem apply_update_commits_the_written_files
    (pathJoin : jsstring -> jsstring -> jsstring)
    (commitChanges : list jsstring -> Result unit) (createGitTag : ModuleNode -> Result unit)
    (m : Manager) (w : World) :
  dryRun m = false ->
  (forall a b, pathJoin a b <> []) ->
  (forall node, node ∈ moduleOrder m ->
     exists n, heap m !! node = Some n /\
               is_Some (contents (disk w) (pathJoin (path n) (str "build.gradle.kts")))) ->
  exists fs',
    map fst (written fs') =
      rev (filesToPersist pathJoin m (moduleOrder m)) ++ map fst (written (disk w)) /\
    (filesToPersist pathJoin m (moduleOrder m) = [] ->
     updateVersions pathJoin commitChanges createGitTag m w =
       ({| disk := fs'; calls := calls w |}, Ok ())) /\
    (filesToPersist pathJoin m (moduleOrder m) <> [] ->
     forall message,
       commitChanges (filesToPersist pathJoin m (moduleOrder m)) = Throw message ->
       updateVersions pathJoin commitChanges createGitTag m w =
         ({| disk := fs';
             calls := calls w ++ [CommitChanges (filesToPersist pathJoin m (moduleOrder m))] |},
          Throw message)) /\
    (filesToPersist pathJoin m (moduleOrder m) <> [] ->
     commitChanges (filesToPersist pathJoin m (moduleOrder m)) = Ok () ->
     exists tags rest r,
       updateVersions pathJoin commitChanges createGitTag m w =
         ({| disk := fs';
             calls := calls w ++ CommitChanges (filesToPersist pathJoin m (moduleOrder m))
                              :: map CreateGitTag tags |}, r) /\
       nodesWithNewVersion m (moduleOrder m) = tags ++ rest /\
       ((forall n, createGitTag n = Ok ()) -> rest = [] /\ r = Ok ())).
Proof.
  intros Hdry Hjoin Hread.
  destruct (updateVersions_apply pathJoin commitChanges createGitTag m w Hdry Hjoin Hread)
    as (fs' & Hw & _ & H1 & H2 & H3).
  exists fs'. repeat split; assumption.
Qed.

Lemma joinSegments_nonempty (a b : jsstring) : joinSegments a b <> [].
Proof. unfold joinSegments. destruct a; discriminate. Qed.

Lemma chain_order_valid (m : Manager) :
  moduleOrder m = [0; 1; 2] -> length (heap m) = 3 ->
  forall node, node ∈ moduleOrder m -> node < length (heap m).
Proof.
  intros -> -> node Hin. rewrite !elem_of_cons, elem_of_nil in Hin.
  destruct Hin as [->|[->|[->|[]]]]; lia.
Qed.

Lemma changelogs_keep_the_existing_text_witness :
  exists w',
    generateChangelogs joinSegments noRepository (analysed chainProject breakingInA)
      (startWorld chainProject) = (w', Ok ()) /\
    calls w' = [] /\
    textsKept (untouched chainProject) (disk w') /\
    map fst (written (disk w')) =
      rev (changelogsToWrite joinSegments (analysed chainProject breakingInA)
             (moduleOrder (analysed chainProject breakingInA))) ++ [].
Proof.
  apply (changelogs_keep_the_existing_text joinSegments noRepository
           (analysed chainProject breakingInA) (startWorld chainProject)).
  apply chain_order_valid; vm_compute; reflexivity.
Defined.

Lemma dry_run_update_writes_nothing_witness :
  exists tags rest r,
    updateVersions joinSegments commitReturns tagReturns (analysedDry chainProject breakingInA)
      (startWorld chainProject) =
      ({| disk := untouched chainProject; calls := [] ++ map CreateGitTag tags |}, r) /\
    nodesWithNewVersion (analysedDry chainProject breakingInA)
      (moduleOrder (analysedDry chainProject breakingInA)) = tags ++ rest.
Proof.
  apply (dry_run_update_writes_nothing joinSegments commitReturns tagReturns
           (analysedDry chainProject breakingInA) (startWorld chainProject)).
  vm_compute. reflexivity.
Defined.

Lemma apply_update_commits_the_written_files_witness :
  exists fs',
    map fst (written fs') =
      rev (filesToPersist joinSegments (analysed chainProject breakingInA)
             (moduleOrder (analysed chainProject breakingInA))) ++ [] /\
    updateVersions joinSegments commitRejected tagReturns (analysed chainProject breakingInA)
      (startWorld chainProject) =
      ({| disk := fs';
          calls := [CommitChanges [str "root/a/build.gradle.kts"; str "root/b/build.gradle.kts";
                                   str "root/c/build.gradle.kts"]] |},
       Throw (str "rejected")).
Proof.
  destruct (apply_update_commits_the_written_files joinSegments commitRejected tagReturns
              (analysed chainProject breakingInA) (startWorld chainProject))
    as (fs' & Hw & _ & Hthrow & _).
  - reflexivity.
  - apply joinSegments_nonempty.
  - intros node Hin.
    assert (Horder : moduleOrder (analysed chainProject breakingInA) = [0; 1; 2])
      by (vm_compute; reflexivity).
    rewrite Horder, !elem_of_cons, elem_of_nil in Hin.
    destruct Hin as [->|[->|[->|[]]]]; eexists; (split; [vm_compute; reflexivity|]);
      vm_compute; eauto.
  - exists fs'. split; [exact Hw|].
    assert (Hfiles : filesToPersist joinSegments (analysed chainProject breakingInA)
                       (moduleOrder (analysed chainProject breakingInA)) =
                     [str "root/a/build.gradle.kts"; str "root/b/build.gradle.kts";
                      str "root/c/build.gradle.kts"]) by (vm_compute; reflexivity).
    rewrite Hfiles in Hthrow. apply Hthrow; [discriminate|reflexivity].
Defined.

(** ** The whole run *)

Section Execute.

Variable pathJoin : jsstring -> jsstring -> jsstring.

Lemma addModule_dryRun (files : Files) (m : Manager) (x : jsstring) :
  dryRun (addModule pathJoin files m x) = dryRun m.
Proof. unfold addModule. destruct (files _); reflexivity. Qed.

Lemma addModules_dryRun (files : Files) (names : list jsstring) (m : Manager) :
  dryRun (addModules pathJoin files m names) = dryRun m.
Proof.
  revert m. induction names as [|x names IH]; intros m; [reflexivity|].
  change (addModules pathJoin files m (x :: names))
    with (addModules pathJoin files (addModule pathJoin files m x) names).
  rewrite IH. apply addModule_dryRun.
Qed.

(** The analysis keeps the mode of the run. *)
Lemma analyse_dryRun (files : Files) (history : History) (m0 m : Manager) :
  analyse pathJoin files history m0 = Ok m -> dryRun m = dryRun m0.
Proof.
  unfold analyse, buildDependencyGraph. destruct (files _) as [settings|]; [|discriminate].
  cbn [mbind Result_bind].
  destruct (detectCyclicDependencies _) as [[]|message|]; cbn [mbind Result_bind];
    [|discriminate..].
  intros Hcalc. destruct (calculateNewVersions_frame _ _ Hcalc) as (_ & _ & -> & _).
  cbn [dryRun analyzeChanges withHeap]. apply addModules_dryRun.
Qed.

Lemma addModule_pathsNamed (files : Files) (m : Manager) (x : jsstring) :
  pathsNamed pathJoin m -> pathsNamed pathJoin (addModule pathJoin files m x).
Proof.
  intros Hinv d n Hd. rewrite addModule_rootDir.
  destruct (files (buildFileOf pathJoin m x)) as [c|] eqn:Hfile.
  2:{ rewrite (addModule_missing _ _ _ _ Hfile) in Hd. exact (Hinv d n Hd). }
  pose proof (lookup_lt_Some _ _ _ Hd) as Hlt.
  rewrite (addModule_length _ _ _ _ _ Hfile) in Hlt.
  assert (Hname : field name (heap (addModule pathJoin files m x)) d = Some (name n))
    by (apply field_Some; eauto).
  assert (Hpath : field path (heap (addModule pathJoin files m x)) d = Some (path n))
    by (apply field_Some; eauto).
  destruct (decide (d = length (heap m))) as [->|Hne].
  - rewrite (addModule_new pathJoin files name _ _ _ ltac:(reflexivity) ltac:(reflexivity) Hfile)
      in Hname.
    rewrite (addModule_new pathJoin files path _ _ _ ltac:(reflexivity) ltac:(reflexivity) Hfile)
      in Hpath.
    cbn [name path] in Hname, Hpath. congruence.
  - assert (Hold : d < length (heap m)) by lia.
    rewrite (addModule_kept pathJoin files name) in Hname by (reflexivity || exact Hold).
    rewrite (addModule_kept pathJoin files path) in Hpath by (reflexivity || exact Hold).
    apply field_Some in Hname as (n0 & Hn0 & Hname). apply field_Some in Hpath as (n0' & Hn0' & Hpath).
    assert (n0' = n0) by congruence. subst n0'.
    rewrite <- Hname, <- Hpath. exact (Hinv d n0 Hn0).
Qed.

Lemma addModules_pathsNamed (files : Files) (names : list jsstring) (m : Manager) :
  pathsNamed pathJoin m -> pathsNamed pathJoin (addModules pathJoin files m names).
Proof.
  revert m. induction names as [|x names IH]; intros m H; [exact H|].
  change (addModules pathJoin files m (x :: names))
    with (addModules pathJoin files (addModule pathJoin files m x) names).
  apply IH, addModule_pathsNamed, H.
Qed.

End Execute.

(** X18.  A dry run changes nothing: whatever the project and the history,
    [execute] in a dry run writes no file and makes no call, and what it
    returns or throws is what the analysis returns or throws. *)
Theorem dry_run_changes_nothing (pathJoin : jsstring -> jsstring -> jsstring)
    (commitChanges : list jsstring -> Result unit) (createGitTag : ModuleNode -> Result unit)
    (execSync : list Call -> Shell) (m0 : Manager) (w : World) :
  dryRun m0 = true ->
  execute pathJoin commitChanges createGitTag execSync m0 w =
  (w, analyse pathJoin (contents (disk w)) (gitHistory (execSync (calls w)) m0) m0).
Proof.
  intros Hdry. unfold execute.
  destruct (analyse _ _ _ _) as [m|message|] eqn:Hanalyse; try reflexivity.
  rewrite (analyse_dryRun pathJoin _ _ _ _ Hanalyse), Hdry. reflexivity.
Qed.

Lemma dry_run_changes_nothing_witness :
  execute joinSegments commitRejected tagReturns noRepository (constructor (str "root") true)
    (startWorld chainProject) =
  (startWorld chainProject,
   analyse joinSegments chainProject (gitHistory (noRepository []) (constructor (str "root") true))
     (constructor (str "root") true)).
Proof.
  apply (dry_run_changes_nothing joinSegments commitRejected tagReturns noRepository
           (constructor (str "root") true) (startWorld chainProject)).
  reflexivity.
Defined.

(** ** A run in apply mode *)

(** When every node of an order has a new version and the directory of its
    name, the files to write are those of the names. *)
Lemma all_nodes_persisted (pathJoin : jsstring -> jsstring -> jsstring) (m m0 : Manager)
    (order : list nat) :
  (forall d, d ∈ order ->
     exists n, heap m !! d = Some n /\ truthy (newVersion n) = true /\
               path n = pathJoin (rootDir m0) (replaceFirst 58 47 (name n))) ->
  filesToPersist pathJoin m order = map (buildFileOf pathJoin m0) (namesOf (heap m) order) /\
  changelogsToWrite pathJoin m order = map (changelogOf pathJoin m0) (namesOf (heap m) order) /\
  nodesWithNewVersion m order = order.
Proof.
  induction order as [|d order IH]; intros Hall; [repeat split|].
  destruct (Hall d ltac:(apply elem_of_cons; auto)) as (n & Hn & Htruthy & Hpath).
  destruct (IH ltac:(intros y Hy; apply Hall, elem_of_cons; auto)) as (IH1 & IH2 & IH3).
  cbn [filesToPersist changelogsToWrite nodesWithNewVersion omap list_omap List.filter
       namesOf map].
  rewrite Hn. cbn [mbind option_bind]. rewrite Htruthy.
  fold (filesToPersist pathJoin m order). fold (changelogsToWrite pathJoin m order).
  fold (nodesWithNewVersion m order). fold (namesOf (heap m) order).
  rewrite IH1, IH2, IH3.
  assert (Hname : nameOf (heap m) d = name n).
  { unfold nameOf, field. rewrite Hn. reflexivity. }
  rewrite Hname. unfold buildFileOf, changelogOf. rewrite Hpath. repeat split.
Qed.

Section ApplyRun.

Variable pathJoin : jsstring -> jsstring -> jsstring.
Variable commitChanges : list jsstring -> Result unit.
Variable createGitTag : ModuleNode -> Result unit.
Variable execSync : list Call -> Shell.

(** The run in apply mode on a project whose settings list no module twice
    and in which no module depends on itself. *)
Lemma execute_apply (root settingsContent : jsstring) (w : World) :
  let m0 := constructor root false in
  let modules := List.filter (hasBuildFile pathJoin (contents (disk w)) m0)
                             (matchAll includeAt 0 settingsContent) in
  let buildFiles := map (buildFileOf pathJoin m0) modules in
  (forall a b, pathJoin a b <> []) ->
  contents (disk w) (settingsFileOf pathJoin m0) = Some settingsContent ->
  NoDup (matchAll includeAt 0 settingsContent) ->
  existsb (declaresItself pathJoin (contents (disk w)) m0)
          (matchAll includeAt 0 settingsContent) = false ->
  modules <> [] ->
  exists fs',
    map fst (written fs') = rev buildFiles ++ map fst (written (disk w)) /\
    (forall message, commitChanges buildFiles = Throw message ->
       execute pathJoin commitChanges createGitTag execSync m0 w =
         ({| disk := fs'; calls := calls w ++ [CommitChanges buildFiles] |}, Throw message)) /\
    (commitChanges buildFiles = Ok () -> (forall n, createGitTag n = Ok ()) ->
       exists m w',
         execute pathJoin commitChanges createGitTag execSync m0 w = (w', Ok m) /\
         namesOf (heap m) (moduleOrder m) = modules /\
         calls w' = calls w ++ CommitChanges buildFiles :: map CreateGitTag (moduleOrder m) /\
         map fst (written (disk w')) =
           rev (map (changelogOf pathJoin m0) modules) ++ rev buildFiles
           ++ map fst (written (disk w)) /\
         textsKept fs' (disk w')).
Proof.
  intros m0 modules buildFiles Hjoin Hsettings Hnd Hself Hsome.
  destruct (analyse_listed pathJoin (contents (disk w)) (gitHistory (execSync (calls w)) m0)
              root false settingsContent Hsettings Hnd Hself)
    as (m & Hrun & Horder & _ & Hnames & Hnodes).
  fold m0 in Hrun, Hnames, Hnodes. fold modules in Hnames.
  pose proof (analyse_dryRun pathJoin _ _ _ _ Hrun) as Hdry. cbn [m0 constructor dryRun] in Hdry.
  assert (Hpaths : pathsNamed pathJoin
                     (addModules pathJoin (contents (disk w)) m0
                        (matchAll includeAt 0 settingsContent))).
  { apply addModules_pathsNamed. intros d n Hd. cbn [m0 constructor heap] in Hd. rewrite lookup_nil in Hd. discriminate. }
  assert (Hall : forall d, d ∈ moduleOrder m ->
            exists n, heap m !! d = Some n /\ truthy (newVersion n) = true /\
                      path n = pathJoin (rootDir m0) (replaceFirst 58 47 (name n))).
  { intros d Hd. rewrite Horder in Hd. apply elem_of_seq in Hd.
    destruct (Hnodes d ltac:(lia)) as (n & v & Hn & Hv & Hne & _ & (n1 & Hn1 & Hname & Hpath) & _).
    exists n. split; [exact Hn|]. split.
    - rewrite Hv. destruct v; [contradiction|reflexivity].
    - rewrite Hpath, Hname, (Hpaths d n1 Hn1), addModules_rootDir. reflexivity. }
  destruct (all_nodes_persisted pathJoin m m0 (moduleOrder m) Hall) as (Hfiles & Hlogs & Htagged).
  rewrite Hnames in Hfiles, Hlogs. fold buildFiles in Hfiles.
  assert (Hread : forall node, node ∈ moduleOrder m ->
            exists n, heap m !! node = Some n /\
              is_Some (contents (disk w) (pathJoin (path n) (str "build.gradle.kts")))).
  { intros d Hd. destruct (Hall d Hd) as (n & Hn & _ & Hpath). exists n. split; [exact Hn|].
    assert (Hin : name n ∈ modules).
    { rewrite <- Hnames. unfold namesOf. apply list_elem_of_fmap. exists d. split; [|exact Hd].
      unfold nameOf, field. rewrite Hn. reflexivity. }
    unfold modules in Hin. apply list_elem_of_In, filter_In in Hin as [_ Hhas].
    unfold hasBuildFile in Hhas. apply bool_decide_eq_true_1 in Hhas.
    rewrite Hpath. exact Hhas. }
  assert (Hvalid : forall node, node ∈ moduleOrder m -> node < length (heap m)).
  { intros d Hd. destruct (Hread d Hd) as (n & Hn & _). eapply lookup_lt_Some, Hn. }
  destruct (updateVersions_apply pathJoin commitChanges createGitTag m w Hdry Hjoin Hread)
    as (fs' & Hw & _ & _ & Hthrow & Hok).
  rewrite Hfiles in Hw, Hthrow, Hok.
  assert (Hne : buildFiles <> []).
  { unfold buildFiles. destruct modules; [contradiction|discriminate]. }
  exists fs'. split; [exact Hw|]. split.
  - intros message Hc. unfold execute. rewrite Hrun, Hdry.
    rewrite (andThen_run _ _ _ _ _ (Hthrow Hne message Hc)). reflexivity.
  - intros Hc Htags.
    destruct (Hok Hne Hc) as (tags & rest & r & Hupdate & Hsplit & Hgood).
    destruct (Hgood Htags) as [-> ->]. rewrite app_nil_r, Htagged in Hsplit. subst tags.
    destruct (generateChangelogs_loop pathJoin execSync m (moduleOrder m) Hvalid
                {| disk := fs';
                   calls := calls w ++ CommitChanges buildFiles
                              :: map CreateGitTag (moduleOrder m) |})
      as (w' & Hloop & Hcalls & Hkept & Hwritten).
    exists m, w'. split; [|split; [exact Hnames|split; [exact Hcalls|split]]].
    + unfold execute. rewrite Hrun, Hdry. rewrite (andThen_run _ _ _ _ _ Hupdate).
      unfold generateChangelogs. rewrite (andThen_run _ _ _ _ _ Hloop). reflexivity.
    + rewrite Hwritten, Hlogs. cbn [disk]. rewrite Hw. reflexivity.
    + exact Hkept.
Qed.

End ApplyRun.

(** X19.  A run in apply mode on a project whose settings list no module
    twice, in which no module depends on itself and at least one listed
    module has a build file: [execute] rewrites the build file of every
    such module, in the order of the listing, and calls [commitChanges] once
    with exactly these files.  When the commit throws, [execute] throws the
    same error with the build files rewritten, no tag asked for and no
    changelog written.  When the commit and the tags succeed, [execute]
    returns after asking for a tag for every module and writing a changelog
    for every module, in the order of the listing, and no text of a file is
    lost after the update of the versions. *)
Theorem apply_run_of_a_listed_project (pathJoin : jsstring -> jsstring -> jsstring)
    (commitChanges : list jsstring -> Result unit) (createGitTag : ModuleNode -> Result unit)
    (execSync : list Call -> Shell) (root settingsContent : jsstring) (w : World) :
  (forall a b, pathJoin a b <> []) ->
  contents (disk w) (settingsFileOf pathJoin (constructor root false)) = Some settingsContent ->
  NoDup (matchAll includeAt 0 settingsContent) ->
  existsb (declaresItself pathJoin (contents (disk w)) (constructor root false))
          (matchAll includeAt 0 settingsContent) = false ->
  List.filter (hasBuildFile pathJoin (contents (disk w)) (constructor root false))
              (matchAll includeAt 0 settingsContent) <> [] ->
  let m0 := constructor root false in
  let modules := List.filter (hasBuildFile pathJoin (contents (disk w)) m0)
                             (matchAll includeAt 0 settingsContent) in
  let buildFiles := map (buildFileOf pathJoin m0) modules in
  exists fs',
    map fst (written fs') = rev buildFiles ++ map fst (written (disk w)) /\
    (forall message, commitChanges buildFiles = Throw message ->
       execute pathJoin commitChanges createGitTag execSync m0 w =
         ({| disk := fs'; calls := calls w ++ [CommitChanges buildFiles] |}, Throw message)) /\
    (commitChanges buildFiles = Ok () -> (forall n, createGitTag n = Ok ()) ->
       exists m w',
         execute pathJoin commitChanges createGitTag execSync m0 w = (w', Ok m) /\
         namesOf (heap m) (moduleOrder m) = modules /\
         calls w' = calls w ++ CommitChanges buildFiles :: map CreateGitTag (moduleOrder m) /\
         map fst (written (disk w')) =
           rev (map (changelogOf pathJoin m0) modules) ++ rev buildFiles
           ++ map fst (written (disk w)) /\
         textsKept fs' (disk w')).
Proof.
  intros Hjoin Hsettings Hnd Hself Hsome.
  exact (execute_apply pathJoin commitChanges createGitTag execSync root settingsContent w
           Hjoin Hsettings Hnd Hself Hsome).
Qed.

Lemma apply_run_of_a_listed_project_witness :
  exists fs',
    execute joinSegments commitRejected tagReturns noRepository (constructor (str "root") false)
      (startWorld chainProject) =
    ({| disk := fs';
        calls := [CommitChanges [str "root/a/build.gradle.kts"; str "root/b/build.gradle.kts";
                                 str "root/c/build.gradle.kts"]] |},
     Throw (str "rejected")).
Proof.
  assert (Hlist : matchAll includeAt 0 (str "include('a') include('b') include('c')") =
                  [str "a"; str "b"; str "c"]) by (vm_compute; reflexivity).
  destruct (apply_run_of_a_listed_project joinSegments commitRejected tagReturns noRepository
              (str "root") (str "include('a') include('b') include('c')")
              (startWorld chainProject))
    as (fs' & _ & Hthrow & _).
  - apply joinSegments_nonempty.
  - reflexivity.
  - rewrite Hlist. repeat constructor; rewrite ?elem_of_cons, ?elem_of_nil;
      intros H; repeat destruct H as [H|H]; try discriminate; contradiction.
  - vm_compute. reflexivity.
  - vm_compute. discriminate.
  - exists fs'. rewrite (Hthrow (str "rejected") eq_refl). vm_compute. reflexivity.
Defined.

(** ** The declared dependencies *)

(** [dependencyAt] matches exactly the texts that start with a
    declaration. *)
Lemma dependencyAt_Some (s dep rest : jsstring) :
  dependencyAt s = Some (dep, rest) <->
  exists ws1 ws2 q1 q2,
    s = str "implementation(" ++ ws1 ++ str "project(" ++ q1 :: str ":" ++ dep
        ++ q2 :: str ")" ++ ws2 ++ str ")" ++ rest /\
    Forall (fun c => isWhiteSpace c = true) ws1 /\
    Forall (fun c => isWhiteSpace c = true) ws2 /\
    isQuote q1 = true /\ isQuote q2 = true /\
    dep <> [] /\ Forall (fun c => notQuote c = true) dep.
Proof.
  unfold dependencyAt. split.
  - destruct (matchLit (str "implementation(") s) as [r1|] eqn:H1; [|discriminate].
    apply matchLit_Some in H1 as ->. cbn [mbind option_bind].
    destruct (skipWhiteSpace_split r1) as (ws1 & Hr1 & Hws1).
    destruct (matchLit (str "project(") (skipWhiteSpace r1)) as [r2|] eqn:H2; [|discriminate].
    apply matchLit_Some in H2. cbn [mbind option_bind].
    destruct (matchQuote r2) as [r3|] eqn:H3; [|discriminate].
    apply matchQuote_Some in H3 as (q1 & -> & Hq1). cbn [mbind option_bind].
    destruct (matchLit (str ":") r3) as [r4|] eqn:H4; [|discriminate].
    apply matchLit_Some in H4 as ->. cbn [mbind option_bind].
    destruct (matchQuoted r4) as [[body r5]|] eqn:H5; [|discriminate].
    apply matchQuoted_Some in H5 as (q2 & -> & Hq2 & Hne & Hbody). cbn [mbind option_bind].
    destruct (matchLit (str ")") r5) as [r6|] eqn:H6; [|discriminate].
    apply matchLit_Some in H6 as ->. cbn [mbind option_bind].
    destruct (skipWhiteSpace_split r6) as (ws2 & Hr6 & Hws2).
    destruct (matchLit (str ")") (skipWhiteSpace r6)) as [r7|] eqn:H7; [|discriminate].
    apply matchLit_Some in H7. cbn [mbind option_bind]. intros [= <- <-].
    exists ws1, ws2, q1, q2. repeat split; try assumption.
    rewrite Hr1, H2, Hr6, H7. reflexivity.
  - intros (ws1 & ws2 & q1 & q2 & -> & Hws1 & Hws2 & Hq1 & Hq2 & Hne & Hbody).
    rewrite (proj2 (matchLit_Some _ _ _) eq_refl). cbn [mbind option_bind].
    change (str "project(" ++ ?t) with (112%N :: (tl (str "project(") ++ t)).
    rewrite (skipWhiteSpace_app ws1 112 _ Hws1 eq_refl).
    change (112%N :: (tl (str "project(") ++ ?t)) with (str "project(" ++ t).
    rewrite (proj2 (matchLit_Some _ _ _) eq_refl). cbn [mbind option_bind].
    cbn [matchQuote]. rewrite Hq1. cbn [mbind option_bind].
    rewrite (proj2 (matchLit_Some _ _ _) eq_refl). cbn [mbind option_bind].
    rewrite (proj2 (matchQuoted_Some (dep ++ q2 :: str ")" ++ ws2 ++ str ")" ++ rest) dep
                      (str ")" ++ ws2 ++ str ")" ++ rest)) ltac:(eauto 10)).
    cbn [mbind option_bind].
    rewrite (proj2 (matchLit_Some _ _ _) eq_refl). cbn [mbind option_bind].
    change (str ")" ++ rest) with (41%N :: rest).
    rewrite (skipWhiteSpace_app ws2 41 _ Hws2 eq_refl).
    change (41%N :: rest) with (str ")" ++ rest).
    rewrite (proj2 (matchLit_Some _ _ _) eq_refl). reflexivity.
Qed.

(** The first quote of a text stands at one place. *)
Lemma first_quote_unique (a a' b b' : jsstring) (q q' : N) :
  a ++ q :: b = a' ++ q' :: b' ->
  Forall (fun c => notQuote c = true) a -> Forall (fun c => notQuote c = true) a' ->
  isQuote q = true -> isQuote q' = true ->
  a = a' /\ q = q' /\ b = b'.
Proof.
  intros Heq Ha. revert a' Heq. induction Ha as [|c a Hc _ IH]; intros a' Heq Ha' Hq Hq'.
  - destruct Ha' as [|c' a' Hc' _]; cbn [app] in Heq.
    + injection Heq as -> ->. repeat split.
    + injection Heq as -> _. unfold notQuote in Hc'. rewrite Hq in Hc'. discriminate.
  - destruct Ha' as [|c' a' Hc' Ha']; cbn [app] in Heq.
    + injection Heq as -> _. unfold notQuote in Hc. rewrite Hq' in Hc. discriminate.
    + injection Heq as -> Heq. destruct (IH a' Heq Ha' Hq Hq') as (-> & -> & ->).
      repeat split.
Qed.

(** Every capture of [matchAll] is the capture of a match somewhere in the
    text. *)
Lemma matchAll_sound (at_ : jsstring -> option (jsstring * jsstring)) (s : jsstring) :
  forall skip x, x ∈ matchAll at_ skip s ->
    exists before tail rest, s = before ++ tail /\ at_ tail = Some (x, rest).
Proof.
  induction s as [|c r IH]; intros skip x Hx; cbn [matchAll] in Hx.
  - apply elem_of_nil in Hx. contradiction.
  - assert (Hrec : forall k, x ∈ matchAll at_ k r ->
              exists before tail rest, c :: r = before ++ tail /\ at_ tail = Some (x, rest)).
    { intros k Hk. destruct (IH k x Hk) as (before & tail & rest & -> & Hat).
      exists (c :: before), tail, rest. split; [reflexivity|exact Hat]. }
    destruct skip as [|k]; [|exact (Hrec k Hx)].
    destruct (at_ (c :: r)) as [[capture rest]|] eqn:Hat; [|exact (Hrec 0 Hx)].
    apply elem_of_cons in Hx as [->|Hx]; [|exact (Hrec _ Hx)].
    exists [], (c :: r), rest. split; [reflexivity|exact Hat].
Qed.

(** When no match of a pattern starts inside another one, [matchAll] finds
    every match. *)
Lemma matchAll_complete (at_ : jsstring -> option (jsstring * jsstring)) :
  at_ [] = None ->
  (forall s capture rest k, at_ s = Some (capture, rest) ->
     0 < k < length s - length rest -> at_ (drop k s) = None) ->
  forall s skip before tail x rest,
    s = before ++ tail -> at_ tail = Some (x, rest) -> skip <= length before ->
    x ∈ matchAll at_ skip s.
Proof.
  intros Hempty Hapart. induction s as [|c r IH]; intros skip before tail x rest Hs Hat Hskip.
  - destruct before; [|discriminate]. cbn [app] in Hs. subst tail. congruence.
  - cbn [matchAll]. destruct skip as [|k].
    + destruct before as [|c' b'].
      * cbn [app] in Hs. subst tail. rewrite Hat. apply elem_of_cons. left. reflexivity.
      * cbn [app] in Hs. injection Hs as <- Hr.
        destruct (at_ (c :: r)) as [[capture rest0]|] eqn:Hhere.
        -- apply elem_of_cons. right. apply (IH _ b' tail x rest Hr Hat).
           destruct (decide (length (c :: r) - length rest0 - 1 <= length b')) as [Hle|Hgt];
             [exact Hle|].
           exfalso. pose proof (Hapart _ _ _ (S (length b')) Hhere ltac:(lia)) as Hnone.
           rewrite Hr in Hnone. cbn [drop] in Hnone. rewrite drop_app_length in Hnone.
           congruence.
        -- apply (IH 0 b' tail x rest Hr Hat). lia.
    + destruct before as [|c' b']; [cbn [length] in Hskip; lia|].
      cbn [app] in Hs. injection Hs as <- Hr. cbn [length] in Hskip.
      apply (IH k b' tail x rest Hr Hat). lia.
Qed.

(** A declaration starts with the letter [i]. *)
Lemma dependencyAt_head (c : N) (t : jsstring) : c <> 105%N -> dependencyAt (c :: t) = None.
Proof.
  intros Hc. unfold dependencyAt, matchLit.
  change (str "implementation(") with (105%N :: str "mplementation("). cbn [startsWith].
  rewrite (proj2 (N.eqb_neq 105 c)) by congruence. reflexivity.
Qed.

(** Where a text made of two parts is cut before its end. *)
Lemma drop_inside (a b : jsstring) (k : nat) :
  k < length (a ++ b) ->
  (exists c t, c ∈ a /\ drop k a = c :: t /\ drop k (a ++ b) = (c :: t) ++ b) \/
  (length a <= k /\ drop k (a ++ b) = drop (k - length a) b /\ k - length a < length b).
Proof.
  rewrite length_app. intros Hk. destruct (decide (k < length a)) as [Hlt|Hge].
  - left. destruct (drop k a) as [|c t] eqn:Hdrop.
    + apply (f_equal length) in Hdrop. rewrite length_drop in Hdrop. cbn in Hdrop. lia.
    + exists c, t. split; [|split; [reflexivity|]].
      * rewrite <- (take_drop k a), Hdrop. apply elem_of_app. right. apply elem_of_cons. auto.
      * rewrite drop_app_le by lia. rewrite Hdrop. reflexivity.
  - right. split; [lia|]. split; [|lia]. apply drop_app_ge. lia.
Qed.

(** The code units of a declaration before its name, and white space, are
    no quotes. *)
Lemma whitespace_notQuote (ws : jsstring) :
  Forall (fun c => isWhiteSpace c = true) ws -> Forall (fun c => notQuote c = true) ws.
Proof.
  intros Hws. eapply Forall_impl; [exact Hws|]. intros c Hc. cbn beta in *. unfold notQuote.
  destruct (isQuote c) eqn:Hq; [|reflexivity].
  rewrite (quote_not_whitespace c Hq) in Hc. discriminate.
Qed.

(** A text that starts with code units that are no quotes, then a quote
    and a closing bracket, starts no declaration: in a declaration the first
    quote is followed by a colon. *)
Lemma dependencyAt_before_quote (a : jsstring) (q : N) (b : jsstring) :
  Forall (fun c => notQuote c = true) a -> isQuote q = true ->
  dependencyAt (a ++ q :: 41%N :: b) = None.
Proof.
  intros Ha Hq. destruct (dependencyAt _) as [[dep rest]|] eqn:Hat; [|reflexivity].
  exfalso. apply dependencyAt_Some in Hat
    as (ws1 & ws2 & q1 & q2 & Heq & Hws1 & _ & Hq1 & _ & _ & _).
  change (str "implementation(" ++ ws1 ++ str "project(" ++ q1 :: str ":" ++ dep
          ++ q2 :: str ")" ++ ws2 ++ str ")" ++ rest)
    with (str "implementation(" ++ ws1 ++ str "project(" ++ q1 :: 58%N :: dep
          ++ q2 :: str ")" ++ ws2 ++ str ")" ++ rest) in Heq.
  rewrite 2!app_assoc in Heq.
  apply first_quote_unique in Heq as (_ & _ & Heq); try assumption; [discriminate|].
  apply Forall_app. split; [apply Forall_app; split|].
  - apply Forall_forall. intros c Hc. vm_compute in Hc.
    repeat (apply elem_of_cons in Hc as [->|Hc]; [reflexivity|]).
    apply elem_of_nil in Hc. contradiction.
  - apply whitespace_notQuote, Hws1.
  - apply Forall_forall. intros c Hc. vm_compute in Hc.
    repeat (apply elem_of_cons in Hc as [->|Hc]; [reflexivity|]).
    apply elem_of_nil in Hc. contradiction.
Qed.

(** The cut falls inside the first part of what is left of the text, or
    behind it. *)
#[local] Ltac cut_segment :=
  match goal with
  | |- dependencyAt (drop ?n (?a ++ ?b)) = None =>
      let H := fresh "Hcut" in
      assert (H : n < length (a ++ b))
        by (rewrite !length_app; cbn [length];
            change (length (str "project(")) with 8 in *; lia);
      destruct (drop_inside a b n H) as [(c & t & Hc & Hdrop & ->)|(? & -> & _)];
      clear H; cbn [length] in *; change (length (str "project(")) with 8 in *
  end.

(** No declaration starts inside another one. *)
Lemma dependencyAt_apart (s dep rest : jsstring) (k : nat) :
  dependencyAt s = Some (dep, rest) -> 0 < k < length s - length rest ->
  dependencyAt (drop k s) = None.
Proof.
  intros Hat Hk. apply dependencyAt_Some in Hat
    as (ws1 & ws2 & q1 & q2 & -> & Hws1 & Hws2 & Hq1 & Hq2 & Hne & Hdep).
  change (str "implementation(" ++ ws1 ++ str "project(" ++ q1 :: str ":" ++ dep
          ++ q2 :: str ")" ++ ws2 ++ str ")" ++ rest)
    with (str "implementation(" ++ ws1 ++ str "project(" ++ [q1] ++ [58%N] ++ dep
          ++ [q2] ++ [41%N] ++ ws2 ++ [41%N] ++ rest) in *.
  rewrite !length_app in Hk.
  change (length (str "implementation(")) with 15 in Hk.
  change (length (str "project(")) with 8 in Hk. cbn [length] in Hk.
  destruct (decide (k < 15)) as [Hlt|Hge].
  - do 15 (destruct k as [|k]; [try lia; reflexivity|]). lia.
  - replace k with (15 + (k - 15)) by lia.
    change (drop (15 + (k - 15)) (str "implementation(" ++ ?t)) with (drop (k - 15) t).
    assert (Hother : forall c t, (c ∈ ws1 \/ c ∈ str "project(" \/ isQuote c = true \/
                                  c = 58%N \/ c = 41%N \/ c ∈ ws2) ->
              dependencyAt (c :: t) = None).
    { intros c t Hc. apply dependencyAt_head. intros ->.
      destruct Hc as [Hc|[Hc|[Hc|[Hc|[Hc|Hc]]]]]; try discriminate.
      - rewrite Forall_forall in Hws1. specialize (Hws1 _ Hc). discriminate.
      - vm_compute in Hc. repeat (apply elem_of_cons in Hc as [Hc|Hc]; [discriminate|]).
        apply elem_of_nil in Hc. contradiction.
      - rewrite Forall_forall in Hws2. specialize (Hws2 _ Hc). discriminate. }
    cut_segment; [apply Hother; auto|].
    cut_segment; [apply Hother; auto|].
    cut_segment; [apply list_elem_of_singleton in Hc as ->; apply Hother; auto|].
    cut_segment; [apply list_elem_of_singleton in Hc as ->; apply Hother; auto|].
    cut_segment.
    { apply dependencyAt_before_quote; [|exact Hq2]. rewrite <- Hdrop.
      apply Forall_drop, Hdep. }
    cut_segment; [apply list_elem_of_singleton in Hc as ->; apply Hother; auto|].
    cut_segment; [apply list_elem_of_singleton in Hc as ->; apply Hother; auto 6|].
    cut_segment; [apply Hother; auto 7|].
    cut_segment; [apply list_elem_of_singleton in Hc as ->; apply Hother; auto 6|].
    lia.
Qed.

(** X20.  The dependencies that [extractDependencies] reads from a build
    file are exactly the projects that the text declares, each of them
    once: none is missed, whatever stands around the declarations, and
    nothing else is returned. *)
Theorem dependencies_are_the_declared_projects (buildContent : jsstring) :
  NoDup (extractDependencies buildContent) /\
  forall dep, dep ∈ extractDependencies buildContent <-> declaresDependency buildContent dep.
Proof.
  unfold extractDependencies. split; [apply setAdd_all_NoDup, NoDup_nil_2|].
  intros dep. rewrite elem_of_setAdd_all, elem_of_nil. split.
  - intros [[]|Hin]. apply matchAll_sound in Hin as (before & tail & rest & -> & Hat).
    apply dependencyAt_Some in Hat as (ws1 & ws2 & q1 & q2 & -> & H).
    exists before, ws1, ws2, q1, q2, rest. split; [reflexivity|exact H].
  - intros (before & ws1 & ws2 & q1 & q2 & after & -> & H). right.
    apply (matchAll_complete dependencyAt eq_refl dependencyAt_apart _ 0 before _ dep after
             eq_refl); [|cbn; lia].
    apply dependencyAt_Some. exists ws1, ws2, q1, q2. split; [reflexivity|exact H].
Qed.
